(* ===== verification/_CoqProject ===== *)
-Q . S2P
Prelude.v
Bytes.v
Bitmap.v
PageAlloc.v
Dll.v
Pmm.v
Buddy.v
Vmm.v
Sched.v
SchedInv.v
Cfs.v
Vma.v
PageCache.v
Swap.v
Demand.v
Mmap.v
Slab.v
Ipc.v
Fat.v
KHeap.v
SlabHeap.v
Net.v
Icmp.v
Arp.v
Ports.v
Udp.v
Tcp.v
Ip.v
