(* ===== verification/Prelude.v ===== *)
(** * TocinOS kernel: a verification library

    A shallow embedding of the memory management, the schedulers, the
    inter-process communication, the FAT file system and the network stack of
    the TocinOS kernel (src/kernel, src/include/kernel), with the theorems that
    make them correct.

    ** The parts and how they interact

    Physical memory is handed out in frames of 4 KB by the physical memory
    manager ([Pmm]); larger blocks come from a buddy allocator of its own
    region ([Buddy]).  The rest of the kernel sees frames only through
    [pmm_alloc_page] and [pmm_free_page]: the class [PageAllocator] and its laws
    ([PageAlloc]).  Paging ([Vmm]), the scheduler's stacks ([Sched]), the page
    cache ([PageCache]), swap ([Swap]) and page faults ([Demand]) are proved
    against these laws, [Pmm] discharges them, and the message buffers of [Ipc]
    use the operations.  Slabs ([Slab]) are blocks of the buddy allocator.  A process
    has areas ([Vma]); a page fault ([Demand]) finds the area and fills the page
    from zeroes, the page cache or swap; [Mmap] holds the system calls that
    create and remove areas.  [Fat] reads files from a disk.

    The protocols take memory for packets and buffers through [kmalloc] and
    [kfree]: the class [KernelHeap] and its laws ([KHeap]), against which they
    are proved and which [SlabHeap] shows of the caches and the buddy allocator.
    A received frame goes through [Ip], which checks the header and hands the
    payload to [Icmp], [Udp] or [Tcp]; these send through the IP output of
    [Net], whose call of the driver the code leaves open.  [Arp] keeps the table
    of hardware addresses and talks to the driver.  [Udp] and [Tcp] keep tables
    of sockets and take their ports from the search of [Ports].  [Cfs] is the
    second scheduling class, a tree of tasks by virtual run time.

    ** Which file models what

    - [Prelude]: machine integers as [Z] with wrap-around written out
      ([u32], [i32]), record update, static arrays, loops, tactics and hints.
    - [Bytes]: buffers as lists of bytes, with the fields of packed structs.
    - [Bitmap]: the bitmaps of pmm.c (words of 8 bits), swap.c and ipc.c (32).
    - [PageAlloc]: the interface of memory.h, with a reference allocator.
    - [Dll]: the intrusive doubly linked lists of buddy.c, scheduler.c, vma.c
      and page_cache.c, once, against the class [Linked].
    - [Pmm] kernel/mm/pmm.c; [Buddy] kernel/mm/buddy.c; [Vmm] kernel/mm/vmm.c;
      [Sched] and [SchedInv] kernel/task/scheduler.c and the tick of
      kernel/timer.c; [Vma] and [Mmap] kernel/mm/vma.c; [PageCache]
      kernel/mm/page_cache.c; [Swap] kernel/mm/swap.c; [Demand]
      kernel/mm/demand.c; [Slab] kernel/mm/slab.c; [Ipc] kernel/ipc.c; [Fat]
      kernel/fat.c; [Cfs] kernel/task/cfs.c.
    - [KHeap]: the interface of kmalloc, with a reference allocator; [SlabHeap]:
      the general-purpose heap of kernel/mm/slab.c as an instance.
    - [Net] and [Ip] kernel/tcpip.c, output and input; [Icmp], [Arp], [Udp] and
      [Tcp] the files of these names in kernel/net; [Ports] the recursion that
      udp.c and tcp.c share.

    In each file the static variables of the C file are the fields of one
    record, every C function is a definition of the same name on that record,
    and a function that can fail returns its C value.  A result [None] of option
    type is undefined behaviour of the C code (an access outside an array, a
    division by zero) or fuel that does not suffice.  Pointers into static
    pools are indices ([ptr]).  Tests for null arguments are left out where the
    types exclude null.

    ** What the theorems show

    - [Pmm]: allocation returns the least free frame and fails only when all
      are used; free undoes it; the boot map reserves exactly what it must.
    - [Buddy]: over all sequences of operations the free lists and the blocks
      handed out partition memory, buddies are merged, the counters are right;
      blocks are aligned and disjoint; when all is returned only blocks of the
      largest order are free, all of them.
    - [Vmm]: mapping and unmapping a page changes the translation of exactly
      that page; start-up maps the first 4 MB to themselves.
    - [SchedInv]: the run queue invariant holds in every reachable state, the
      task chosen has the highest priority, ticks leave no expired sleeper.
    - [Vma], [Mmap]: areas stay sorted and disjoint; lookup, merge, mmap,
      munmap and the copy of an address space do what they promise.
    - [PageCache], [Swap], [Demand]: the cache maps each key to one page and
      evicts in order of recency; a page swapped out comes back with its
      contents; faults install the right page or are refused.
    - [Slab]: objects handed out are aligned, disjoint and kept.
    - [SlabHeap]: regions from [kmalloc] never overlap, whatever cache or block
      they come from; after boot 1984 requests of at most 64 KiB are served.
    - [Ipc]: over all interleavings of the tasks, semaphores conserve their
      units, a mutex has one holder, a message queue refines a bounded queue.
    - [Fat]: names, lookup, seek and read agree with the contents of the disk;
      reading ends on every allocation table.
    - [Net], [Ip]: the checksum is the complement of the one's-complement sum
      of the words; a packet built by one host is delivered by another to its
      protocol with its payload, a header with one wrong byte is refused, and a
      ping is answered across two hosts with its own data.
    - [Arp]: after a request and its reply each host has the other's address.
    - [Ports], [Udp]: over all sequences of operations every socket is a bounded
      queue of datagrams and no two sockets are bound to one port.
    - [Tcp]: the three-way handshake ends with both sides connected, a transfer
      appends the bytes sent to the bytes received, and every operation moves a
      connection along the arcs of the protocol's state diagram.
    - [Cfs]: while tasks are added the tree holds each of them once and the one
      with the least virtual run time is picked; a task of odd weight is charged
      by its weight.

    Lemmas that show where the code falls short of what it means to do stand
    beside the theorems whose hypotheses exclude these cases.

    ** Bounds and fuel

    Loops over arrays run for the length of the array.  Walks of linked lists
    have as fuel the size of the pool their nodes come from ([walk_fuel],
    [walk_bound], [cache_bound], [slab_bound]); the invariants show that a list
    has no more nodes, so the theorems state that a result is returned.  The
    read loop of [Fat] has one unit of fuel per byte asked for, and each
    iteration copies a byte at least.  The fold of the checksum takes two rounds
    ([FOLD_ROUNDS]), the search of a port one try per socket and one more
    ([PORT_TRIES]), the segments of a send at most [SEGMENT_FUEL] as the buffer
    is bounded, and the release of a queue or a walk of the tree of [Cfs] as
    many steps as it has members.  A loop that blocks until a packet arrives is
    a function of the list of events of its rounds.  Counters that the code
    keeps in [int] and that grow by one per task or lock ([num_blocked],
    [recursion_count]) are not bounded.

    ** Not modelled

    Output on the serial line; privileged instructions and TLB flushes, which
    change nothing of the modelled state; device drivers, which are parameters
    where a component calls them; concurrency of several processors, which the
    code does not support.  Of the other parts of the system, ext2, the VFS and
    the other file systems, the ELF loader, processes and system calls, and the
    C library are not modelled; interrupt tables, boot code, shells and tests
    are not meant to be. *)

From stdpp Require Export base numbers list list_numbers gmap fin_maps strings.
From Stdlib Require Export ZArith Lia.

(** Booleans tests of the C source are written with the boolean operators of
    [Z]; [zbool] is the scope in which the development writes them. *)
Declare Scope kernel_scope.
Delimit Scope kernel_scope with kernel.
Open Scope Z_scope.
Open Scope kernel_scope.

(** ** Machine integers

    A C integer of width [w] is the [Z] it denotes; wrap-around is written
    where the source can wrap. *)

Definition u8 (x : Z) : Z := x mod 2 ^ 8.
Definition u16 (x : Z) : Z := x mod 2 ^ 16.
Definition u32 (x : Z) : Z := x mod 2 ^ 32.
Definition u64 (x : Z) : Z := x mod 2 ^ 64.
Definition i32 (x : Z) : Z := (x + 2 ^ 31) mod 2 ^ 32 - 2 ^ 31.

Notation "x &: y" := (Z.land x y) (at level 40, left associativity) : kernel_scope.
Notation "x |: y" := (Z.lor x y) (at level 50, left associativity) : kernel_scope.
Notation "x ^: y" := (Z.lxor x y) (at level 50, left associativity) : kernel_scope.
Notation "x <<: y" := (Z.shiftl x y) (at level 40, left associativity) : kernel_scope.
Notation "x >>: y" := (Z.shiftr x y) (at level 40, left associativity) : kernel_scope.

(** C's truth value of an integer: [if (x & mask)]. *)
Definition truth (x : Z) : bool := negb (x =? 0).

(** [x & ~m] on 32-bit operands. *)
Definition andn32 (x m : Z) : Z := Z.land x (u32 (Z.lnot m)).

(** C pointers into a static pool: [None] is the null pointer and [Some i]
    the address of element [i]. *)
Abbreviation ptr := (option Z).

Definition is_null (p : ptr) : bool := match p with None => true | Some _ => false end.
Definition ptr_eqb (p q : ptr) : bool := bool_decide (p = q).

(** ** Record update

    [r ⟦ f := v ⟧] is the record [r] with field [f] replaced by [v].  A record
    type joins by giving its eta-expansion as an instance of [Eta]. *)

Class Eta (R : Type) := eta_expand : R → R.
Class Setter {R T : Type} (proj : R → T) := modify_field : (T → T) → R → R.
Arguments modify_field {R T} proj {_} _ _ /.

Ltac derive_setter :=
  lazymatch goal with
  | |- @Setter ?R ?T ?p =>
      tryif has_evar p then fail else idtac;
      let e := constr:(_ : Eta R) in
      let b := eval red in e in
      let b := eval unfold eta_expand in b in
      let s := eval pattern p in b in
      lazymatch s with
      | (fun _ => ?f) _ => fail
      | ?f _ => exact (fun g => f (fun r => g (p r)))
      end
  end.
#[export] Hint Extern 1 (Setter _) => derive_setter : typeclass_instances.

Notation "r ⟦ f := v ⟧" := (modify_field f (fun _ => v) r)
  (at level 1, left associativity, f at next level, v at level 100,
   format "r ⟦ f  :=  v ⟧") : kernel_scope.
Notation "r ⟦ f ::= g ⟧" := (modify_field f g r)
  (at level 1, left associativity, f at next level, g at level 100,
   format "r ⟦ f  ::=  g ⟧") : kernel_scope.

(** ** Static arrays

    A static C array of structs is a finite map from indices to elements that
    have been written; an element never written is the all-zero struct that C
    gives static storage ([zero]). *)

Class Zeroed (A : Type) := zero : A.
#[export] Instance zeroed_Z : Zeroed Z := 0.
#[export] Instance zeroed_option {A} : Zeroed (option A) := None.
#[export] Instance zeroed_bool : Zeroed bool := false.

Definition aget {A} `{Zeroed A} (m : gmap Z A) (i : Z) : A := default zero (m !! i).
Definition aset {A} (m : gmap Z A) (i : Z) (x : A) : gmap Z A := <[i := x]> m.
Definition amod {A} `{Zeroed A} (m : gmap Z A) (i : Z) (f : A → A) : gmap Z A :=
  <[i := f (aget m i)]> m.

Notation "m .[ i ]" := (aget m i) (at level 1, left associativity, i at level 200, format "m .[ i ]") : kernel_scope.

(** ** Loops *)

(** [for (i = start; i < start + n; i++) body], the body threading a state
    and possibly hitting undefined behaviour. *)
Fixpoint for_up {S} (n : nat) (i : Z) (body : Z → S → option S) (s : S) : option S :=
  match n with
  | O => Some s
  | S n' => s' ← body i s; for_up n' (i + 1) body s'
  end.

(** The same for a body with no failure. *)
Fixpoint iter_up {S} (n : nat) (i : Z) (body : Z → S → S) (s : S) : S :=
  match n with
  | O => s
  | S n' => iter_up n' (i + 1) body (body i s)
  end.

(** [for (i = start; i < start + n; i++) if (f (i)) return i;] *)
Fixpoint find_up (n : nat) (i : Z) (f : Z → bool) : option Z :=
  match n with
  | O => None
  | S n' => if f i then Some i else find_up n' (i + 1) f
  end.

(** ** Automation *)

Create HintDb kernel discriminated.
Create Rewrite HintDb kernel_rw.

(** Case analysis on the integer comparisons that guard an [if]. *)
Ltac case_Z b :=
  lazymatch b with
  | (?x <? ?y) => destruct (Z.ltb_spec x y)
  | (?x <=? ?y) => destruct (Z.leb_spec x y)
  | (?x =? ?y) => destruct (Z.eqb_spec x y)
  | negb ?b' => case_Z b'; cbn [negb]
  | ?b1 && ?b2 => case_Z b1; cbn [andb]
  | ?b1 || ?b2 => case_Z b1; cbn [orb]
  | _ => let E := fresh "Hb" in destruct b eqn:E
  end.
Ltac case_if :=
  match goal with
  | |- context [if ?b then _ else _] =>
      lazymatch type of b with bool => case_Z b end
  | H : context [if ?b then _ else _] |- _ =>
      lazymatch type of b with bool => case_Z b end
  end.

(** Inversion of a successful run of option-threaded code. *)
Ltac run_inv :=
  repeat match goal with
  | H : mbind ?f ?x = Some _ |- _ =>
      let y := fresh "y" in let E := fresh "Hrun" in
      apply bind_Some in H as [y [E H]]
  | H : (let '(_, _) := ?p in _) = Some _ |- _ => destruct p
  | H : Some _ = Some _ |- _ => injection H as H
  | H : (_, _) = (_, _) |- _ => injection H as H
  | H : None = Some _ |- _ => discriminate H
  end.

(** ** Generic lemmas *)

Section integers.

Lemma u32_range x : 0 ≤ u32 x < 2 ^ 32.
Proof. apply Z.mod_pos_bound. lia. Qed.

Lemma u64_range x : 0 ≤ u64 x < 2 ^ 64.
Proof. apply Z.mod_pos_bound. lia. Qed.

Lemma u32_small x : 0 ≤ x < 2 ^ 32 → u32 x = x.
Proof. apply Z.mod_small. Qed.

Lemma u64_small x : 0 ≤ x < 2 ^ 64 → u64 x = x.
Proof. apply Z.mod_small. Qed.

Lemma u32_idemp x : u32 (u32 x) = u32 x.
Proof. apply Z.mod_mod. lia. Qed.

Lemma i32_small x : - 2 ^ 31 ≤ x < 2 ^ 31 → i32 x = x.
Proof. intros. unfold i32. rewrite Z.mod_small; lia. Qed.

Lemma truth_land_bit x n : 0 ≤ n → truth (x &: (1 <<: n)) = Z.testbit x n.
Proof.
  intros Hn. unfold truth. destruct (Z.eqb_spec (x &: (1 <<: n)) 0) as [E|E]; cbn.
  - symmetry. apply (f_equal (fun z => Z.testbit z n)) in E.
    rewrite Z.land_spec, Z.shiftl_spec, Z.sub_diag, Z.bits_0, andb_true_r in E; done.
  - destruct (Z.testbit x n) eqn:Hx; [done|]. exfalso. apply E.
    apply Z.bits_inj'. intros k Hk. rewrite Z.land_spec, Z.shiftl_spec, Z.bits_0 by done.
    destruct (decide (k = n)) as [->|Hne]; [by rewrite Hx|].
    replace (Z.testbit 1 (k - n)) with false; [apply andb_false_r|].
    destruct (decide (k < n)); [by rewrite Z.testbit_neg_r by lia|].
    symmetry. apply (Z.bits_above_log2 1 (k - n)); [lia|]. cbn. lia.
Qed.

Lemma testbit_1_shift n k : 0 ≤ n → 0 ≤ k → Z.testbit (1 <<: n) k = (n =? k).
Proof.
  intros. rewrite Z.shiftl_1_l, Z.pow2_bits_eqb by done. done.
Qed.

(** A word below [2 ^ w] has no bit from [w] on, and conversely. *)
Lemma testbit_high x w k : 0 ≤ x < 2 ^ w → w ≤ k → Z.testbit x k = false.
Proof.
  intros Hx Hk. destruct (decide (0 ≤ w)).
  - rewrite <-(Z.mod_small x (2 ^ w)) by lia. by apply Z.mod_pow2_bits_high.
  - rewrite Z.pow_neg_r in Hx by lia. lia.
Qed.

Lemma below_pow2 x w :
  0 ≤ w → 0 ≤ x → (∀ k, w ≤ k → Z.testbit x k = false) → x < 2 ^ w.
Proof.
  intros Hw Hx Hk. destruct (decide (x = 0)) as [->|]; [apply Z.pow_pos_nonneg; lia|].
  destruct (decide (x < 2 ^ w)); [done|]. exfalso.
  assert (w ≤ Z.log2 x) as Hl by (apply Z.log2_le_pow2; lia).
  specialize (Hk _ Hl). rewrite Z.bit_log2 in Hk; [done|lia].
Qed.

(** Page-aligned addresses and the flag bits below them. *)
Lemma andn32_page x : 0 ≤ x < 2 ^ 32 → andn32 x 0xFFF = x / 4096 * 4096.
Proof.
  intros Hx. unfold andn32. change (u32 (Z.lnot 0xFFF)) with (Z.shiftl (Z.ones 20) 12).
  change 4096 with (2 ^ 12). rewrite <-Z.shiftr_div_pow2, <-Z.shiftl_mul_pow2 by done.
  apply Z.bits_inj'. intros k Hk. rewrite Z.land_spec.
  destruct (Z.ltb_spec k 12).
  - rewrite !Z.shiftl_spec_low by done. apply andb_false_r.
  - rewrite !Z.shiftl_spec_high, Z.shiftr_spec by lia. replace (k - 12 + 12) with k by lia.
    destruct (Z.ltb_spec k 32).
    + rewrite Z.ones_spec_low by lia. apply andb_true_r.
    + by rewrite (testbit_high x 32) by lia.
Qed.

Lemma lor_page a f : 0 ≤ f < 4096 → (a * 4096) |: f = a * 4096 + f.
Proof.
  intros Hf. rewrite Z.add_nocarry_lxor, Z.lxor_lor; [done|..];
    change 4096 with (2 ^ 12) in *; rewrite <-Z.shiftl_mul_pow2 by done;
    apply Z.bits_inj'; intros k Hk; rewrite Z.land_spec, Z.bits_0;
    (destruct (Z.ltb_spec k 12); [by rewrite Z.shiftl_spec_low|]);
    rewrite (testbit_high f 12) by lia; apply andb_false_r.
Qed.

Lemma lor_range a b n : 0 ≤ n → 0 ≤ a < 2 ^ n → 0 ≤ b < 2 ^ n → 0 ≤ a |: b < 2 ^ n.
Proof.
  intros Hn Ha Hb. split; [apply Z.lor_nonneg; lia|].
  apply below_pow2; [done|apply Z.lor_nonneg; lia|].
  intros k Hk. by rewrite Z.lor_spec, !(testbit_high _ n) by lia.
Qed.

Lemma truth_land_1 x : truth (x &: 1) = Z.odd x.
Proof. rewrite <-Z.bit0_odd. apply (truth_land_bit x 0). lia. Qed.

End integers.

#[export] Hint Resolve u32_range u64_range : kernel.
#[export] Hint Rewrite u32_idemp : kernel_rw.

Section arrays.
Context {A : Type} `{Zeroed A}.
Implicit Types m : gmap Z A.

Lemma aget_aset m i j x : (aset m i x).[j] = if decide (i = j) then x else m.[j].
Proof.
  unfold aget, aset. rewrite lookup_insert. by case_decide.
Qed.

Lemma aget_aset_eq m i x : (aset m i x).[i] = x.
Proof. rewrite aget_aset. by case_decide. Qed.

Lemma aget_aset_ne m i j x : i ≠ j → (aset m i x).[j] = m.[j].
Proof. intros. rewrite aget_aset. by case_decide. Qed.

Lemma aget_amod m i j f : (amod m i f).[j] = if decide (i = j) then f m.[i] else m.[j].
Proof. apply aget_aset. Qed.

Lemma aget_amod_eq m i f : (amod m i f).[i] = f m.[i].
Proof. apply aget_aset_eq. Qed.

Lemma aget_amod_ne m i j f : i ≠ j → (amod m i f).[j] = m.[j].
Proof. apply aget_aset_ne. Qed.

End arrays.

#[export] Hint Rewrite @aget_aset_eq @aget_amod_eq : kernel_rw.
#[export] Hint Rewrite @aget_aset_ne @aget_amod_ne using (done || lia || congruence) : kernel_rw.

Section loops.
Context {S : Type}.

(** The invariant rule for a counted loop: total correctness. *)
Lemma for_up_inv (P : Z → S → Prop) (body : Z → S → option S) n i s :
  P i s →
  (∀ k s, i ≤ k < i + Z.of_nat n → P k s → ∃ s', body k s = Some s' ∧ P (k + 1) s') →
  ∃ s', for_up n i body s = Some s' ∧ P (i + Z.of_nat n) s'.
Proof.
  revert i s. induction n as [|n IH]; intros i s Hi Hstep.
  - exists s. by rewrite Z.add_0_r.
  - destruct (Hstep i s) as (s' & Hb & Hs'); [lia|done|].
    destruct (IH (i + 1) s') as (s'' & Hf & Hs''); [done| |].
    { intros k t Hk. apply Hstep. lia. }
    exists s''. simpl. rewrite Hb. simpl. split; [done|].
    replace (i + Z.of_nat (Datatypes.S n)) with (i + 1 + Z.of_nat n) by lia. done.
Qed.

Lemma iter_up_inv (P : Z → S → Prop) (body : Z → S → S) n i s :
  P i s →
  (∀ k s, i ≤ k < i + Z.of_nat n → P k s → P (k + 1) (body k s)) →
  P (i + Z.of_nat n) (iter_up n i body s).
Proof.
  revert i s. induction n as [|n IH]; intros i s Hi Hstep.
  - by rewrite Z.add_0_r.
  - replace (i + Z.of_nat (Datatypes.S n)) with (i + 1 + Z.of_nat n) by lia.
    apply IH; [apply Hstep; [lia|done]|]. intros k t Hk. apply Hstep. lia.
Qed.

End loops.

Lemma find_up_Some n i f j :
  find_up n i f = Some j ↔
  i ≤ j < i + Z.of_nat n ∧ f j = true ∧ ∀ k, i ≤ k < j → f k = false.
Proof.
  revert i. induction n as [|n IH]; intros i; simpl.
  { split; [done|]. lia. }
  destruct (f i) eqn:Hi.
  - split; [intros [= <-]; split_and!; try done; lia|].
    intros (Hj & Hfj & Hmin). destruct (decide (j = i)) as [->|]; [done|].
    rewrite Hmin in Hi by lia. done.
  - rewrite IH. split; intros (Hj & Hfj & Hmin).
    + split_and!; [lia|lia|done|]. intros k Hk.
      destruct (decide (k = i)) as [->|]; [done|]. apply Hmin. lia.
    + destruct (decide (j = i)) as [->|]; [congruence|].
      split_and!; [lia|lia|done|]. intros k Hk. apply Hmin. lia.
Qed.

Lemma find_up_None n i f :
  find_up n i f = None ↔ ∀ k, i ≤ k < i + Z.of_nat n → f k = false.
Proof.
  revert i. induction n as [|n IH]; intros i; simpl; [split; [lia|done]|].
  destruct (f i) eqn:Hi.
  - split; [done|]. intros Hall. rewrite Hall in Hi by lia. done.
  - rewrite IH. split; intros Hall k Hk; [|apply Hall; lia].
    destruct (decide (k = i)) as [->|]; [done|]. apply Hall. lia.
Qed.

(** The number of [i] in [0 .. n) that satisfy a boolean predicate. *)
Fixpoint count_up (n : nat) (f : Z → bool) : Z :=
  match n with
  | O => 0
  | S n' => count_up n' f + (if f (Z.of_nat n') then 1 else 0)
  end.

Section counting.
Implicit Types f g : Z → bool.

Lemma count_up_bounds n f : 0 ≤ count_up n f ≤ Z.of_nat n.
Proof. induction n as [|n IH]; simpl; [lia|]. destruct (f _); lia. Qed.

Lemma count_up_ext n f g :
  (∀ i, 0 ≤ i < Z.of_nat n → f i = g i) → count_up n f = count_up n g.
Proof.
  induction n as [|n IH]; intros Hfg; simpl; [done|].
  rewrite IH by (intros; apply Hfg; lia). rewrite Hfg by lia. done.
Qed.

(** Changing the predicate at one point of the range changes the count by
    one. *)
Lemma count_up_flip n f g p :
  0 ≤ p < Z.of_nat n → f p = false → g p = true → (∀ i, i ≠ p → f i = g i) →
  count_up n g = count_up n f + 1.
Proof.
  intros Hp Hf Hg Heq. induction n as [|n IH]; [lia|]. simpl.
  destruct (decide (p = Z.of_nat n)) as [->|Hne].
  - rewrite Hf, Hg. rewrite (count_up_ext n f g) by (intros; apply Heq; lia). lia.
  - rewrite IH by lia. rewrite (Heq (Z.of_nat n)) by congruence. lia.
Qed.

(** The count is full exactly when no element is left out. *)
Lemma count_up_full n f :
  count_up n f = Z.of_nat n ↔ ∀ i, 0 ≤ i < Z.of_nat n → f i = true.
Proof.
  induction n as [|n IH]; simpl; [split; [lia|done]|].
  pose proof (count_up_bounds n f). split.
  - intros Hc i Hi. destruct (f (Z.of_nat n)) eqn:Hn; [|lia].
    destruct (decide (i = Z.of_nat n)) as [->|]; [done|]. apply IH; lia.
  - intros Hall. rewrite Hall by lia.
    assert (count_up n f = Z.of_nat n) by (apply IH; intros; apply Hall; lia). lia.
Qed.

Lemma count_up_threshold n m f :
  0 ≤ m ≤ Z.of_nat n → (∀ i, 0 ≤ i < Z.of_nat n → f i = (i <? m)) → count_up n f = m.
Proof.
  intros Hm Hf. rewrite (count_up_ext n f (fun i => i <? m)) by done. clear Hf.
  revert m Hm. induction n as [|n IH]; intros m Hm; simpl; [lia|].
  destruct (Z.ltb_spec (Z.of_nat n) m).
  - rewrite (count_up_ext n _ (fun i => i <? m - 1)).
    + rewrite IH by lia. lia.
    + intros i Hi. destruct (Z.ltb_spec i m), (Z.ltb_spec i (m - 1)); lia.
  - rewrite IH by lia. lia.
Qed.

End counting.

(** ** Sums over index lists *)

Definition zsum (l : list Z) (f : Z → Z) : Z := foldr (fun i a => f i + a) 0 l.

Section sums.
Implicit Types (l : list Z) (f g : Z → Z).

Lemma zsum_cons i l f : zsum (i :: l) f = f i + zsum l f.
Proof. reflexivity. Qed.

Lemma zsum_ext l f g : (∀ i, i ∈ l → f i = g i) → zsum l f = zsum l g.
Proof.
  induction l as [|i l IH]; intros E; [done|]. rewrite !zsum_cons, E, IH by set_solver. done.
Qed.

(** Changing the summand at one index. *)
Lemma zsum_update l f g k :
  NoDup l → k ∈ l → (∀ i, i ∈ l → i ≠ k → g i = f i) → zsum l g = zsum l f - f k + g k.
Proof.
  induction l as [|i l IH]; [set_solver|]. intros [Hi Hnd]%NoDup_cons Hk E. rewrite !zsum_cons.
  destruct (decide (i = k)) as [->|Hne].
  - rewrite (zsum_ext l g f) by (intros j Hj; apply E; set_solver). lia.
  - rewrite IH by set_solver. rewrite (E i) by set_solver. lia.
Qed.

Lemma zsum_nonneg l f : (∀ i, i ∈ l → 0 ≤ f i) → 0 ≤ zsum l f.
Proof.
  induction l as [|i l IH]; intros Hf; [done|]. rewrite zsum_cons.
  pose proof (Hf i ltac:(set_solver)). specialize (IH ltac:(set_solver)). lia.
Qed.

End sums.

Lemma u32_add_l x y : u32 (u32 x + y) = u32 (x + y).
Proof. unfold u32. by rewrite Zplus_mod_idemp_l. Qed.

Lemma u32_sub_l x y : u32 (u32 x - y) = u32 (x - y).
Proof. unfold u32. by rewrite Zminus_mod_idemp_l. Qed.

(** ** Lists *)

Lemma elem_of_mid (u : Z) l1 e l2 : u ∈ l1 ++ l2 → u ∈ l1 ++ e :: l2.
Proof. rewrite !elem_of_app, elem_of_cons. tauto. Qed.

Lemma elem_of_mid_eq (e : Z) l1 l2 : e ∈ l1 ++ e :: l2.
Proof. rewrite elem_of_app, elem_of_cons. auto. Qed.
#[export] Hint Resolve elem_of_mid elem_of_mid_eq : kernel.

(** The first element with a property. *)

Lemma find_app f (l1 l2 : list Z) :
  List.find f (l1 ++ l2) = match List.find f l1 with Some x => Some x | None => List.find f l2 end.
Proof. induction l1 as [|x l1 IH]; simpl; [done|]. by destruct (f x). Qed.

Lemma find_split f (l : list Z) v :
  List.find f l = Some v → ∃ l1 l2, l = l1 ++ v :: l2 ∧ f v = true ∧ ∀ u, u ∈ l1 → f u = false.
Proof.
  induction l as [|x l IH]; simpl; [done|]. destruct (f x) eqn:E.
  - intros [= <-]. exists [], l. split_and!; [done|done|set_solver].
  - intros Hv. destruct (IH Hv) as (l1 & l2 & -> & Hfv & Hb). exists (x :: l1), l2.
    split_and!; [done|done|]. intros u [->|?]%elem_of_cons; [done|by apply Hb].
Qed.

Lemma find_ext_in f g (l : list Z) : (∀ x, x ∈ l → f x = g x) → List.find f l = List.find g l.
Proof.
  induction l as [|x l IH]; simpl; intros Hext; [done|]. rewrite Hext by set_solver.
  destruct (g x); [done|]. apply IH. set_solver.
Qed.
