(* ===== verification/Bytes.v ===== *)
(** * Bytes and little-endian fields

    Buffers and packets are lists of bytes.  The machine is little-endian:
    [le16] and [le32] read a field of a packed struct, [put16] and [put32] are
    the bytes a store to such a field writes. *)

From S2P Require Import Prelude.

Definition byte_at (buf : list Z) (i : Z) : option Z := buf !! Z.to_nat i.
Definition le16 (buf : list Z) (i : Z) : option Z :=
  a ← byte_at buf i; b ← byte_at buf (i + 1); Some (a |: (b <<: 8)).
Definition le32 (buf : list Z) (i : Z) : option Z :=
  a ← le16 buf i; b ← le16 buf (i + 2); Some (a |: (b <<: 16)).

Definition put16 (x : Z) : list Z := [u8 x; u8 (x >>: 8)].
Definition put32 (x : Z) : list Z := [u8 x; u8 (x >>: 8); u8 (x >>: 16); u8 (x >>: 24)].

(** [n] bytes from [i] on; undefined outside the buffer. *)
Definition slice (buf : list Z) (i n : Z) : option (list Z) :=
  if Z.of_nat (length buf) <? i + n then None else Some (take (Z.to_nat n) (drop (Z.to_nat i) buf)).

(** The next step of option-threaded code on the left of an implication. *)
Ltac next_bind :=
  match goal with
  | |- mbind ?f ?x = Some _ → _ =>
      let E := fresh "E" in
      destruct x as [?|] eqn:E; [cbn [mbind option_bind]|intros; discriminate]
  end.

Definition is_byte (x : Z) : Prop := 0 ≤ x < 256.
Definition bytes (l : list Z) : Prop := Forall is_byte l.

(** ** Disjoint fields of a word *)

Lemma lor_shiftl_add a b n : 0 ≤ n → 0 ≤ a < 2 ^ n → a |: (b <<: n) = a + b * 2 ^ n.
Proof.
  intros Hn Ha. rewrite <-Z.shiftl_mul_pow2 by done.
  rewrite Z.add_nocarry_lxor, Z.lxor_lor; [done|..];
    apply Z.bits_inj'; intros k Hk; rewrite Z.land_spec, Z.bits_0;
    (destruct (Z.ltb_spec k n); [by rewrite Z.shiftl_spec_low, andb_false_r|]);
    by rewrite (testbit_high a n) by lia.
Qed.

Lemma u8_byte x : is_byte (u8 x).
Proof. apply Z.mod_pos_bound. lia. Qed.

Lemma u16_range x : 0 ≤ u16 x < 65536.
Proof. apply Z.mod_pos_bound. lia. Qed.

Lemma u16_small x : 0 ≤ x < 65536 → u16 x = x.
Proof. apply Z.mod_small. Qed.

Lemma u8_small x : 0 ≤ x < 256 → u8 x = x.
Proof. apply Z.mod_small. Qed.

Lemma byte_pair a b : is_byte a → a |: (b <<: 8) = a + 256 * b.
Proof. unfold is_byte. intros. rewrite lor_shiftl_add by lia. lia. Qed.

Lemma mod_mul_split x a b : 0 < a → 0 < b → x mod (a * b) = x mod a + a * (x / a mod b).
Proof. intros. rewrite Z.rem_mul_r by lia. done. Qed.

Lemma join16 x : u8 x |: (u8 (x >>: 8) <<: 8) = u16 x.
Proof.
  rewrite byte_pair by apply u8_byte. rewrite Z.shiftr_div_pow2 by done. unfold u8, u16.
  change (2 ^ 16) with (256 * 256). rewrite mod_mul_split by lia. done.
Qed.

Lemma join32 x :
  (u8 x |: (u8 (x >>: 8) <<: 8)) |: ((u8 (x >>: 16) |: (u8 (x >>: 24) <<: 8)) <<: 16) = u32 x.
Proof.
  rewrite join16. replace (x >>: 24) with ((x >>: 16) >>: 8) by (by rewrite Z.shiftr_shiftr).
  rewrite join16, lor_shiftl_add by (done || apply u16_range).
  rewrite Z.shiftr_div_pow2 by done. unfold u16, u32.
  change (2 ^ 32) with (2 ^ 16 * 2 ^ 16). rewrite mod_mul_split by lia. lia.
Qed.

(** A stored word, read back. *)
Lemma le16_put16 x : le16 (put16 x) 0 = Some (u16 x).
Proof. change (le16 (put16 x) 0) with (Some (u8 x |: (u8 (x >>: 8) <<: 8))). by rewrite join16. Qed.

Lemma le32_put32 x : le32 (put32 x) 0 = Some (u32 x).
Proof.
  change (le32 (put32 x) 0) with
    (Some ((u8 x |: (u8 (x >>: 8) <<: 8)) |: ((u8 (x >>: 16) |: (u8 (x >>: 24) <<: 8)) <<: 16))).
  by rewrite join32.
Qed.

Lemma bytes_put16 x : bytes (put16 x).
Proof. repeat constructor; apply u8_byte. Qed.

Lemma bytes_put32 x : bytes (put32 x).
Proof. repeat constructor; apply u8_byte. Qed.

Lemma bytes_app l1 l2 : bytes (l1 ++ l2) ↔ bytes l1 ∧ bytes l2.
Proof. apply Forall_app. Qed.

Lemma bytes_nil : bytes [].
Proof. constructor. Qed.

Lemma bytes_cons x l : bytes (x :: l) ↔ is_byte x ∧ bytes l.
Proof. apply Forall_cons. Qed.

Lemma bytes_take n l : bytes l → bytes (take n l).
Proof. apply Forall_take. Qed.

Lemma bytes_drop n l : bytes l → bytes (drop n l).
Proof. apply Forall_drop. Qed.

#[export] Hint Resolve bytes_nil bytes_put16 bytes_put32 u8_byte bytes_take bytes_drop : kernel.
#[export] Hint Rewrite join16 join32 : kernel_rw.

(** ** Slices *)

Lemma slice_app l1 l2 l3 :
  slice (l1 ++ l2 ++ l3) (Z.of_nat (length l1)) (Z.of_nat (length l2)) = Some l2.
Proof.
  unfold slice. rewrite !length_app, !Nat2Z.id, drop_app_length, take_app_length.
  case_Z (Z.of_nat (length l1 + (length l2 + length l3)) <? Z.of_nat (length l1) + Z.of_nat (length l2)); [lia|done].
Qed.

Lemma slice_tail l1 l2 :
  slice (l1 ++ l2) (Z.of_nat (length l1)) (Z.of_nat (length l2)) = Some l2.
Proof. rewrite <-(app_nil_r l2) at 1. apply slice_app. Qed.

Lemma slice_all l : slice l 0 (Z.of_nat (length l)) = Some l.
Proof. apply (slice_tail [] l). Qed.
