(* ===== verification/Bitmap.v ===== *)
(** * Allocation bitmaps

    The kernel keeps its allocation state in arrays of machine words used as
    bit sets: [memory_bitmap] of kernel/mm/pmm.c (bytes), the swap bitmaps of
    kernel/mm/swap.c, [task_bitmap] of kernel/task/scheduler.c, the object
    bitmaps of kernel/ipc.c and [fd_bitmap] of kernel/vfs.c (32-bit words).
    All of them use the same index arithmetic, [a[i / w]] against
    [1 << (i % w)]; this file models it once for a word width [w], and gives
    the laws the components use: the effect of setting and clearing a bit, the
    search for the first clear bit, and the number of bits set.

    Bit 31 of an [int] word is the sign bit; the words are modelled by their
    unsigned bit patterns, on which [&], [|] and [~] agree with the signed
    ones. *)

From S2P Require Import Prelude.

Definition word_at (l : list Z) (k : Z) : Z := default 0 (l !! Z.to_nat k).

Section bitmap.
Context (w : Z).

(** [a[i / w] & (1 << (i % w))] *)
Definition bm_test (l : list Z) (i : Z) : bool :=
  truth (word_at l (i / w) &: (1 <<: (i mod w))).

(** [a[i / w] |= 1 << (i % w)] *)
Definition bm_set (l : list Z) (i : Z) : list Z :=
  <[Z.to_nat (i / w) := word_at l (i / w) |: (1 <<: (i mod w))]> l.

(** [a[i / w] &= ~(1 << (i % w))] *)
Definition bm_clear (l : list Z) (i : Z) : list Z :=
  <[Z.to_nat (i / w) := word_at l (i / w) &: Z.lnot (1 <<: (i mod w))]> l.

(** [for (i = 0; i < n; i++) if (!(a[i / w] & (1 << (i % w)))) return i;] *)
Definition bm_find_free (l : list Z) (n : nat) : option Z :=
  find_up n 0 (fun i => negb (bm_test l i)).

(** The number of bits set below [n]. *)
Definition bm_count (l : list Z) (n : nat) : Z := count_up n (bm_test l).

(** A bitmap of [n] bits: enough words, each of them within its width. *)
Definition bm_wf (l : list Z) (n : nat) : Prop :=
  Z.of_nat n ≤ w * Z.of_nat (length l) ∧ Forall (fun x => 0 ≤ x < 2 ^ w) l.

Context (Hw : 0 < w).
Implicit Types l : list Z.

Lemma bm_test_spec l i : bm_test l i = Z.testbit (word_at l (i / w)) (i mod w).
Proof. apply truth_land_bit, Z.mod_pos_bound. done. Qed.

Lemma word_at_insert l k v j :
  0 ≤ k < Z.of_nat (length l) → 0 ≤ j →
  word_at (<[Z.to_nat k := v]> l) j = if decide (k = j) then v else word_at l j.
Proof.
  intros Hk Hj. unfold word_at. case_decide as Hkj.
  - subst. rewrite list_lookup_insert_eq by lia. done.
  - rewrite list_lookup_insert_ne by lia. done.
Qed.

Lemma index_split i j : i / w = j / w → i mod w = j mod w → i = j.
Proof.
  intros. rewrite (Z.div_mod i w), (Z.div_mod j w) by lia. congruence.
Qed.

Lemma index_range l n i :
  bm_wf l n → 0 ≤ i < Z.of_nat n → 0 ≤ i / w < Z.of_nat (length l).
Proof.
  intros [Hlen _] Hi. split; [apply Z.div_pos; lia|]. apply Z.div_lt_upper_bound; lia.
Qed.

Lemma bm_test_update l n i j v :
  bm_wf l n → 0 ≤ i < Z.of_nat n → 0 ≤ j →
  (∀ b, 0 ≤ b < w → b ≠ i mod w → Z.testbit v b = Z.testbit (word_at l (i / w)) b) →
  bm_test (<[Z.to_nat (i / w) := v]> l) j =
    if decide (i = j) then Z.testbit v (i mod w) else bm_test l j.
Proof.
  intros Hwf Hi Hj Hv. rewrite !bm_test_spec.
  rewrite word_at_insert by (eauto using index_range, Z.div_pos).
  pose proof (Z.mod_pos_bound j w Hw).
  destruct (decide (i / w = j / w)) as [E|E].
  - destruct (decide (i = j)) as [->|Hne]; [done|]. rewrite E in Hv. rewrite Hv; [done|lia|].
    intros Em. apply Hne, index_split; congruence.
  - destruct (decide (i = j)) as [->|Hne]; done.
Qed.

Lemma bm_test_set l n i j :
  bm_wf l n → 0 ≤ i < Z.of_nat n → 0 ≤ j →
  bm_test (bm_set l i) j = if decide (i = j) then true else bm_test l j.
Proof.
  intros Hwf Hi Hj. pose proof (Z.mod_pos_bound i w Hw). unfold bm_set.
  rewrite (bm_test_update l n i j); [|done..|].
  2: { intros b ??. rewrite Z.lor_spec, testbit_1_shift by lia.
       destruct (Z.eqb_spec (i mod w) b); [lia|apply orb_false_r]. }
  case_decide; [|done].
  by rewrite Z.lor_spec, testbit_1_shift, Z.eqb_refl, orb_true_r by lia.
Qed.

Lemma bm_test_clear l n i j :
  bm_wf l n → 0 ≤ i < Z.of_nat n → 0 ≤ j →
  bm_test (bm_clear l i) j = if decide (i = j) then false else bm_test l j.
Proof.
  intros Hwf Hi Hj. pose proof (Z.mod_pos_bound i w Hw). unfold bm_clear.
  rewrite (bm_test_update l n i j); [|done..|].
  2: { intros b ??. rewrite Z.land_spec, Z.lnot_spec, testbit_1_shift by lia.
       destruct (Z.eqb_spec (i mod w) b); [lia|apply andb_true_r]. }
  case_decide; [|done].
  by rewrite Z.land_spec, Z.lnot_spec, testbit_1_shift, Z.eqb_refl, andb_false_r by lia.
Qed.

Lemma word_at_range l n k : bm_wf l n → 0 ≤ word_at l k < 2 ^ w.
Proof.
  intros [_ Hall]. unfold word_at. destruct (l !! Z.to_nat k) eqn:E; simpl.
  - by apply (Forall_lookup_1 _ _ _ _ Hall E).
  - split; [done|]. apply Z.pow_pos_nonneg; lia.
Qed.

Lemma bm_update_wf l n k v :
  bm_wf l n → 0 ≤ v < 2 ^ w → bm_wf (<[k := v]> l) n.
Proof.
  intros [Hlen Hall] Hv. split; [by rewrite length_insert|]. by apply Forall_insert.
Qed.

Lemma bm_set_wf l n i : bm_wf l n → bm_wf (bm_set l i) n.
Proof.
  intros Hwf. pose proof (word_at_range l n (i / w) Hwf) as Hx.
  pose proof (Z.mod_pos_bound i w Hw) as Hm. apply bm_update_wf; [done|].
  assert (0 ≤ 1 <<: (i mod w)) by (apply Z.shiftl_nonneg; lia).
  split; [apply Z.lor_nonneg; lia|].
  apply below_pow2; [lia|apply Z.lor_nonneg; lia|]. intros k Hk.
  rewrite Z.lor_spec, testbit_1_shift, (testbit_high _ w) by lia. simpl.
  apply Z.eqb_neq. lia.
Qed.

Lemma bm_clear_wf l n i : bm_wf l n → bm_wf (bm_clear l i) n.
Proof.
  intros Hwf. pose proof (word_at_range l n (i / w) Hwf) as Hx.
  apply bm_update_wf; [done|].
  assert (0 ≤ word_at l (i / w) &: Z.lnot (1 <<: (i mod w))) by (apply Z.land_nonneg; lia).
  split; [done|]. apply below_pow2; [lia|done|]. intros k Hk.
  rewrite Z.land_spec, (testbit_high _ w) by lia. done.
Qed.

(** Setting a clear bit raises the count by one, setting a set bit keeps it. *)
Lemma bm_count_set l n i :
  bm_wf l n → 0 ≤ i < Z.of_nat n →
  bm_count (bm_set l i) n = bm_count l n + (if bm_test l i then 0 else 1).
Proof.
  intros Hwf Hi. unfold bm_count. destruct (bm_test l i) eqn:Hb.
  - rewrite Z.add_0_r. apply count_up_ext. intros j Hj.
    rewrite (bm_test_set l n) by (done || lia). case_decide; congruence.
  - rewrite (count_up_ext n (bm_test (bm_set l i))
      (fun j => if decide (i = j) then true else bm_test l j))
      by (intros; apply (bm_test_set l n); done || lia).
    apply (count_up_flip n _ _ i); simpl.
    + done.
    + done.
    + by rewrite decide_True.
    + intros j Hj. by rewrite decide_False.
Qed.

Lemma bm_count_clear l n i :
  bm_wf l n → 0 ≤ i < Z.of_nat n →
  bm_count (bm_clear l i) n = bm_count l n - (if bm_test l i then 1 else 0).
Proof.
  intros Hwf Hi. unfold bm_count.
  rewrite (count_up_ext n (bm_test (bm_clear l i))
      (fun j => if decide (i = j) then false else bm_test l j))
      by (intros; apply (bm_test_clear l n); done || lia).
  destruct (bm_test l i) eqn:Hb.
  - apply Z.add_move_r. symmetry. apply (count_up_flip n _ _ i); simpl.
    + done.
    + by rewrite decide_True.
    + done.
    + intros j Hj. by rewrite decide_False.
  - rewrite Z.sub_0_r. apply count_up_ext. intros j Hj. simpl. case_decide; congruence.
Qed.

Lemma bm_find_free_Some l n i :
  bm_find_free l n = Some i ↔
  0 ≤ i < Z.of_nat n ∧ bm_test l i = false ∧ ∀ k, 0 ≤ k < i → bm_test l k = true.
Proof.
  unfold bm_find_free. rewrite find_up_Some, Z.add_0_l, negb_true_iff.
  split; intros (Hi & Hb & Hmin); (split_and!; [lia|lia|done|]); intros k Hk.
  - by apply negb_false_iff, Hmin.
  - by apply negb_false_iff, Hmin.
Qed.

Lemma bm_find_free_None l n :
  bm_find_free l n = None ↔ ∀ k, 0 ≤ k < Z.of_nat n → bm_test l k = true.
Proof.
  unfold bm_find_free. rewrite find_up_None, Z.add_0_l.
  split; intros Hall k Hk; by apply negb_false_iff, Hall.
Qed.

Lemma bm_zeros_wf (n : nat) k : Z.of_nat n ≤ w * Z.of_nat k → bm_wf (replicate k 0) n.
Proof.
  intros Hn. split; [by rewrite length_replicate|].
  apply Forall_replicate. split; [done|]. apply Z.pow_pos_nonneg; lia.
Qed.

Lemma bm_test_zeros k i : bm_test (replicate k 0) i = false.
Proof.
  rewrite bm_test_spec. unfold word_at.
  destruct (replicate k 0 !! Z.to_nat (i / w)) eqn:E; simpl; [|apply Z.bits_0].
  apply lookup_replicate in E as [-> _]. apply Z.bits_0.
Qed.

End bitmap.

#[export] Hint Resolve bm_set_wf bm_clear_wf : kernel.
