(* ===== verification/PageAlloc.v ===== *)
(** * The page-frame allocator interface

    Most of the kernel sees physical memory only through [pmm_alloc_page] and
    [pmm_free_page] (include/kernel/memory.h).  This file states that
    interface: the two operations, the set of frames a state has handed out,
    and the laws the rest of the kernel relies on.  The clients (paging, VMA
    management, demand paging, swap, the scheduler, IPC) are modelled and
    proved against the interface; kernel/mm/pmm.c discharges it in [Pmm]. *)

From S2P Require Import Prelude.

Definition PAGE_SIZE : Z := 4096.
Definition PAGE_SHIFT : Z := 12.

(** The number of frames of the managed 128 MiB window. *)
Definition TOTAL_PAGES : Z := 32768.

(** The operations.  Addresses are physical byte addresses; [0] is the
    failure value of [pa_alloc].  [pa_free] is undefined ([None]) where the C
    function writes outside its bitmap. *)
Class PageAllocator (S : Type) := {
  pa_alloc : S → Z * S;
  pa_free : Z → S → option S;
  (** [pa_rep s U]: [s] is consistent and [U] is the set of frame numbers in
      use. *)
  pa_rep : S → gset Z → Prop;
}.

(** Every frame of the window is in use. *)
Definition all_used (U : gset Z) : Prop := ∀ p, 0 ≤ p < TOTAL_PAGES → p ∈ U.

Class PageAllocatorLaws (S : Type) `{PageAllocator S} : Prop := {
  (** Frames in use lie in the managed window. *)
  pa_rep_range s U p : pa_rep s U → p ∈ U → 0 ≤ p < TOTAL_PAGES;
  (** With frame 0 reserved, an allocation either fails, which means that
      memory is exhausted, and changes nothing, or returns the address of a
      frame that was not in use. *)
  pa_alloc_spec s U : pa_rep s U → 0 ∈ U →
    (pa_alloc s = (0, s) ∧ all_used U) ∨
    (∃ p s', pa_alloc s = (p * PAGE_SIZE, s') ∧ 0 < p < TOTAL_PAGES ∧ (p ∉ U) ∧
             pa_rep s' ({[p]} ∪ U));
  (** Freeing an address inside a frame of the window releases that frame. *)
  pa_free_spec s U a : pa_rep s U → 0 ≤ a < TOTAL_PAGES * PAGE_SIZE →
    ∃ s', pa_free a s = Some s' ∧ pa_rep s' (U ∖ {[a / PAGE_SIZE]});
}.

(** ** A reference allocator

    A list of free frames, the simplest implementation of the interface.  The
    clients' examples run on it; kernel/mm/pmm.c is the implementation the
    kernel links. *)

#[export] Instance freelist_allocator : PageAllocator (list Z) := {
  pa_alloc l := match l with [] => (0, []) | p :: l' => (p * PAGE_SIZE, l') end;
  pa_free a l := Some (if bool_decide (a / PAGE_SIZE ∈ l) then l else a / PAGE_SIZE :: l);
  pa_rep l U := NoDup l ∧ (∀ p, p ∈ l → 0 ≤ p < TOTAL_PAGES) ∧
                (∀ p, p ∈ U ↔ 0 ≤ p < TOTAL_PAGES ∧ p ∉ l);
}.

#[export] Instance freelist_allocator_laws : PageAllocatorLaws (list Z).
Proof.
  split.
  - intros l U p (_ & _ & HU) Hp. by apply HU.
  - intros l U (Hnd & Hr & HU) Hz. destruct l as [|p l]; cbn.
    + left. split; [done|]. intros p Hp. apply HU. set_solver.
    + right. exists p, l. apply NoDup_cons in Hnd as [Hp Hnd].
      assert (p ≠ 0) by (intros ->; apply HU in Hz; set_solver).
      pose proof (Hr p ltac:(set_solver)). split; [done|]. split; [lia|].
      split; [intros Hp'; apply HU in Hp'; set_solver|].
      split; [done|]. split; [set_solver|]. intros p'. rewrite elem_of_union, elem_of_singleton, HU.
      destruct (decide (p' = p)) as [->|]; set_solver.
  - intros l U a (Hnd & Hr & HU) Ha. eexists. split; [done|].
    assert (0 ≤ a / PAGE_SIZE < TOTAL_PAGES) as Hf.
    { unfold PAGE_SIZE in *. split; [apply Z.div_pos; lia|apply Z.div_lt_upper_bound; lia]. }
    case_bool_decide as Hin; cbn.
    + split; [done|]. split; [done|]. intros p. rewrite elem_of_difference, HU. set_solver.
    + split; [by apply NoDup_cons|]. split; [set_solver|].
      intros p. rewrite elem_of_difference, HU. set_solver.
Qed.

(** Three free frames, all others in use. *)
Definition three_free : list Z := [600; 601; 602].
Definition three_free_used : gset Z := list_to_set (seqZ 0 TOTAL_PAGES) ∖ {[600; 601; 602]}.

Lemma three_free_rep : pa_rep three_free three_free_used.
Proof.
  split; [|split].
  - unfold three_free. repeat (apply NoDup_cons; split; [set_solver by lia|]). apply NoDup_nil_2.
  - unfold three_free, TOTAL_PAGES. intros p Hp. rewrite !elem_of_cons, elem_of_nil in Hp. lia.
  - intros p. unfold three_free_used, three_free.
    rewrite elem_of_difference, elem_of_list_to_set, elem_of_seqZ, !elem_of_cons, elem_of_nil.
    rewrite !elem_of_union, !elem_of_singleton. lia.
Qed.

Lemma three_free_zero : 0 ∈ three_free_used.
Proof. apply (proj2 (proj2 three_free_rep)). unfold TOTAL_PAGES, three_free. rewrite !elem_of_cons, elem_of_nil. lia. Qed.
