(* ===== verification/Dll.v ===== *)
(** * Intrusive doubly-linked lists

    The buddy allocator's free lists, the scheduler's ready lists, the VMA
    lists and the LRU lists of the caches are all doubly-linked lists threaded
    through the [next]/[prev] (or [lru_next]/[lru_prev], [vm_next]/[vm_prev])
    fields of the elements of a static pool.  This file models such a pool
    once: [Linked] is the interface an element type offers, [unlink] and
    [push_front] are the two pointer manipulations the kernel repeats, and
    [dll pool hd l] says that the pointer [hd] heads a well-formed list whose
    elements are [l].  The theorems relate the manipulations to [l] and bound
    what they write. *)

From S2P Require Import Prelude.

Class Linked (A : Type) := {
  lk_next : A → ptr;
  lk_prev : A → ptr;
  lk_set_next : ptr → A → A;
  lk_set_prev : ptr → A → A;
}.

Class LinkedLaws (A : Type) `{Linked A} : Prop := {
  lk_next_set_next p a : lk_next (lk_set_next p a) = p;
  lk_next_set_prev p a : lk_next (lk_set_prev p a) = lk_next a;
  lk_prev_set_next p a : lk_prev (lk_set_next p a) = lk_prev a;
  lk_prev_set_prev p a : lk_prev (lk_set_prev p a) = p;
}.

Section operations.
Context {A : Type} `{Zeroed A} `{Linked A}.
Implicit Types pool : gmap Z A.

(** [if (x->prev) x->prev->next = x->next; else hd = x->next;
     if (x->next) x->next->prev = x->prev;] *)
Definition unlink (pool : gmap Z A) (hd : ptr) (x : Z) : gmap Z A * ptr :=
  let nx := lk_next pool.[x] in
  let pv := lk_prev pool.[x] in
  let '(pool, hd) :=
    match pv with
    | Some y => (amod pool y (lk_set_next nx), hd)
    | None => (pool, nx)
    end in
  (match nx with Some z => amod pool z (lk_set_prev pv) | None => pool end, hd).

(** [x->next = 0; x->prev = 0;] *)
Definition clear_links (pool : gmap Z A) (x : Z) : gmap Z A :=
  amod pool x (fun a => lk_set_prev None (lk_set_next None a)).

(** [x->next = hd; x->prev = 0; if (hd) hd->prev = x; hd = x;] *)
Definition push_front (pool : gmap Z A) (hd : ptr) (x : Z) : gmap Z A * ptr :=
  let pool := amod pool x (fun a => lk_set_prev None (lk_set_next hd a)) in
  let pool := match hd with Some h => amod pool h (lk_set_prev (Some x)) | None => pool end in
  (pool, Some x).

(** [for (curr = hd; curr; curr = curr->next) if (curr == x) found = 1;]
    [None] when the fuel runs out: the list is longer than the pool. *)
Fixpoint list_member (fuel : nat) (pool : gmap Z A) (curr : ptr) (x : Z) : option bool :=
  match curr with
  | None => Some false
  | Some c =>
      if c =? x then Some true
      else match fuel with
           | O => None
           | S fuel' => list_member fuel' pool (lk_next pool.[c]) x
           end
  end.

(** ** Well-formed lists *)

Definition first_or (l : list Z) (q : ptr) : ptr :=
  match l with [] => q | x :: _ => Some x end.
Definition last_or (p : ptr) (l : list Z) : ptr :=
  match last l with Some x => Some x | None => p end.

(** A segment with elements [l], entered from [p] and left to [q]. *)
Fixpoint dseg (pool : gmap Z A) (p : ptr) (l : list Z) (q : ptr) : Prop :=
  match l with
  | [] => True
  | x :: l' =>
      lk_prev pool.[x] = p ∧ lk_next pool.[x] = first_or l' q ∧ dseg pool (Some x) l' q
  end.

Definition dll (pool : gmap Z A) (hd : ptr) (l : list Z) : Prop :=
  hd = first_or l None ∧ NoDup l ∧ dseg pool None l None.

End operations.

Section theory.
Context {A : Type} `{Zeroed A} `{LinkedLaws A}.
Implicit Types (pool : gmap Z A) (l : list Z).

Lemma last_or_cons p x l : last_or p (x :: l) = last_or (Some x) l.
Proof.
  unfold last_or. destruct l as [|y l]; [done|]. rewrite (last_cons_cons x y).
  destruct (last (y :: l)) eqn:E; [done|]. by apply last_None in E.
Qed.

Lemma dseg_app pool p l1 l2 q :
  dseg pool p (l1 ++ l2) q ↔ dseg pool p l1 (first_or l2 q) ∧ dseg pool (last_or p l1) l2 q.
Proof.
  revert p. induction l1 as [|x l1 IH]; intros p; simpl.
  { unfold last_or. simpl. tauto. }
  rewrite IH.
  assert (first_or (l1 ++ l2) q = first_or l1 (first_or l2 q)) as -> by (by destruct l1).
  rewrite <- (last_or_cons p). tauto.
Qed.

(** Segments depend only on the links of their elements. *)
Lemma dseg_ext pool pool' p l q :
  (∀ x, x ∈ l → lk_next pool'.[x] = lk_next pool.[x] ∧ lk_prev pool'.[x] = lk_prev pool.[x]) →
  dseg pool p l q → dseg pool' p l q.
Proof.
  revert p. induction l as [|x l IH]; intros p Hext; simpl; [done|].
  intros (Hp & Hn & Hl). destruct (Hext x) as [En Ep]; [set_solver|].
  rewrite En, Ep. split_and!; [done|done|]. apply IH; [|done]. set_solver.
Qed.

Lemma dll_ext pool pool' hd l :
  (∀ x, x ∈ l → lk_next pool'.[x] = lk_next pool.[x] ∧ lk_prev pool'.[x] = lk_prev pool.[x]) →
  dll pool hd l → dll pool' hd l.
Proof. intros Hext (Hh & Hn & Hs). split_and!; [done|done|]. by eapply dseg_ext. Qed.

Lemma dll_nil pool : dll pool None [].
Proof. split_and!; [done|constructor|done]. Qed.

Lemma dll_head_None pool l : dll pool None l → l = [].
Proof. intros (Hh & _). by destruct l. Qed.

Lemma dll_head_Some pool x l : dll pool (Some x) l → ∃ l', l = x :: l'.
Proof. intros (Hh & _). destruct l; simplify_eq/=; eauto. Qed.

(** The list is determined by the pool and its head. *)
Lemma dseg_fun pool p l1 l2 : dseg pool p l1 None → dseg pool p l2 None →
  first_or l1 None = first_or l2 None → l1 = l2.
Proof.
  revert p l2. induction l1 as [|x l1 IH]; intros p [|y l2]; simpl; try done.
  intros (_ & Hn1 & Hs1) (_ & Hn2 & Hs2) [= <-]. f_equal.
  apply (IH (Some x)); [done|done|]. congruence.
Qed.

Lemma dll_fun pool hd l1 l2 : dll pool hd l1 → dll pool hd l2 → l1 = l2.
Proof.
  intros (E1 & _ & H1') (E2 & _ & H2'). apply (dseg_fun pool None); [done|done|congruence].
Qed.

(** The neighbours of an element of the list. *)
Lemma dll_split pool hd l1 x l2 :
  dll pool hd (l1 ++ x :: l2) →
  lk_prev pool.[x] = last_or None l1 ∧ lk_next pool.[x] = first_or l2 None.
Proof.
  intros (_ & _ & Hs). apply dseg_app in Hs as [_ (Hp & Hn & _)]. done.
Qed.

Lemma last_or_elem p l y : last_or p l = Some y → y ∈ l ∨ p = Some y ∧ l = [].
Proof.
  unfold last_or. destruct (last l) as [z|] eqn:E.
  - intros [= ->]. left. apply last_Some in E as [l' ->]. set_solver.
  - apply last_None in E as ->. auto.
Qed.

Lemma dll_prev_elem pool hd l x y :
  dll pool hd l → x ∈ l → lk_prev pool.[x] = Some y → y ∈ l.
Proof.
  intros Hd Hx Hy. apply list_elem_of_split in Hx as (l1 & l2 & ->).
  apply dll_split in Hd as [Hp _]. rewrite Hp in Hy.
  apply last_or_elem in Hy as [?|[? _]]; [set_solver|done].
Qed.

Lemma dll_next_elem pool hd l x y :
  dll pool hd l → x ∈ l → lk_next pool.[x] = Some y → y ∈ l.
Proof.
  intros Hd Hx Hy. apply list_elem_of_split in Hx as (l1 & l2 & ->).
  apply dll_split in Hd as [_ Hn]. rewrite Hn in Hy.
  destruct l2; simplify_eq/=. set_solver.
Qed.

(** Changing the outer links of a segment. *)
Lemma dseg_set_first pool pool' p p' l q :
  NoDup l → dseg pool p l q →
  (∀ x, x ∈ l → lk_next pool'.[x] = lk_next pool.[x]) →
  (∀ x, x ∈ l → lk_prev pool'.[x] = if decide (first_or l None = Some x) then p' else lk_prev pool.[x]) →
  dseg pool' p' l q.
Proof.
  destruct l as [|x l]; simpl; [done|]. intros [Hx Hnd]%NoDup_cons (Hp & Hn & Hl) Hnx Hpv.
  rewrite Hnx, Hpv by set_solver. rewrite decide_True by done. split_and!; [done|done|].
  eapply dseg_ext; [|done]. intros y Hy. rewrite Hnx, Hpv by set_solver.
  rewrite decide_False; [done|]. intros [= ->]. done.
Qed.

Lemma dseg_set_last pool pool' p l q q' :
  NoDup l → dseg pool p l q →
  (∀ x, x ∈ l → lk_prev pool'.[x] = lk_prev pool.[x]) →
  (∀ x, x ∈ l → lk_next pool'.[x] = if decide (last l = Some x) then q' else lk_next pool.[x]) →
  dseg pool' p l q'.
Proof.
  revert p. induction l as [|x l IH]; intros p; simpl; [done|].
  intros [Hx Hnd]%NoDup_cons (Hp & Hn & Hl) Hpv Hnx.
  rewrite Hpv, Hnx by set_solver. destruct l as [|y l].
  - rewrite decide_True by done. done.
  - rewrite decide_False.
    2: { rewrite last_cons_cons. intros E. apply Hx. by apply last_Some_elem_of in E. }
    split_and!; [done|done|]. apply (IH (Some x)); [done|done| |].
    + intros z Hz. apply Hpv. set_solver.
    + intros z Hz. rewrite Hnx by set_solver. by rewrite last_cons_cons.
Qed.

(** ** [unlink] removes one element *)

Section unlink.
Context (pool : gmap Z A) (hd : ptr) (l1 l2 : list Z) (x : Z).
Context (Hdll : dll pool hd (l1 ++ x :: l2)).

Let pool' := (unlink pool hd x).1.

Lemma unlink_next y :
  lk_next pool'.[y] =
    if decide (lk_prev pool.[x] = Some y) then lk_next pool.[x] else lk_next pool.[y].
Proof.
  subst pool'. unfold unlink.
  destruct (lk_prev pool.[x]) as [pv|] eqn:Epv, (lk_next pool.[x]) as [nx|] eqn:Enx; cbn [fst];
    rewrite ?aget_amod; repeat case_decide; simplify_eq;
    rewrite ?lk_next_set_prev, ?aget_amod, ?lk_next_set_next; repeat case_decide; simplify_eq;
    rewrite ?lk_next_set_next; congruence.
Qed.

Lemma unlink_prev y :
  lk_prev pool'.[y] =
    if decide (lk_next pool.[x] = Some y) then lk_prev pool.[x] else lk_prev pool.[y].
Proof.
  subst pool'. unfold unlink.
  destruct (lk_prev pool.[x]) as [pv|] eqn:Epv, (lk_next pool.[x]) as [nx|] eqn:Enx; cbn [fst];
    rewrite ?aget_amod; repeat case_decide; simplify_eq;
    rewrite ?lk_prev_set_prev, ?aget_amod, ?lk_prev_set_next; repeat case_decide; simplify_eq;
    rewrite ?lk_prev_set_next; congruence.
Qed.

Lemma unlink_head : (unlink pool hd x).2 = first_or (l1 ++ l2) None.
Proof.
  pose proof (dll_split _ _ _ _ _ Hdll) as [Hp Hn]. destruct Hdll as (Hh & _).
  unfold unlink. rewrite Hp, Hn. destruct l1 as [|y l1']; simpl in *.
  - by unfold last_or; simpl.
  - destruct (last_or None (y :: l1')) eqn:E; [done|].
    unfold last_or in E. destruct (last (y :: l1')) eqn:E'; [done|]. by apply last_None in E'.
Qed.

Lemma unlink_dll : dll pool' (unlink pool hd x).2 (l1 ++ l2).
Proof.
  pose proof (dll_split _ _ _ _ _ Hdll) as [Hp Hn].
  pose proof Hdll as (_ & Hnd & Hs). apply dseg_app in Hs as [Hs1 (_ & _ & Hs2)].
  simpl in Hs1, Hs2.
  apply NoDup_app in Hnd as (Hnd1 & Hdis & [Hx2 Hnd2]%NoDup_cons).
  split_and!; [apply unlink_head|apply NoDup_app; split_and!; [done|set_solver|done]|].
  apply dseg_app. split.
  - eapply dseg_set_last; [done|exact Hs1| |].
    + intros y Hy. rewrite unlink_prev, decide_False; [done|]. rewrite Hn.
      destruct l2 as [|z l2']; [done|]. intros [= ->]. apply (Hdis y Hy). set_solver.
    + intros y Hy. rewrite unlink_next, Hp, Hn. unfold last_or.
      destruct (last l1) as [z|] eqn:E; [done|].
      apply last_None in E. subst. set_solver.
  - eapply dseg_set_first; [done|exact Hs2| |].
    + intros y Hy. rewrite unlink_next, decide_False; [done|]. rewrite Hp.
      intros E. apply last_or_elem in E as [E|[? _]]; [|done]. apply (Hdis y E). set_solver.
    + intros y Hy. rewrite unlink_prev, Hp, Hn. done.
Qed.

(** Nothing outside the list is relinked. *)
Lemma unlink_other y :
  y ∉ l1 ++ x :: l2 →
  lk_next pool'.[y] = lk_next pool.[y] ∧ lk_prev pool'.[y] = lk_prev pool.[y].
Proof.
  intros Hy. rewrite unlink_next, unlink_prev. rewrite !decide_False; [done| |].
  - intros E. apply Hy. apply (dll_next_elem _ _ _ x _ Hdll); [set_solver|done].
  - intros E. apply Hy. apply (dll_prev_elem _ _ _ x _ Hdll); [set_solver|done].
Qed.

End unlink.

(** Fields other than the links are untouched by every list operation. *)
Section frame.
Context {B : Type} (f : A → B).
Context (Hnext : ∀ p a, f (lk_set_next p a) = f a) (Hprev : ∀ p a, f (lk_set_prev p a) = f a).

Lemma unlink_frame pool hd x y : f ((unlink pool hd x).1).[y] = f pool.[y].
Proof.
  unfold unlink. destruct (lk_prev pool.[x]), (lk_next pool.[x]); cbn [fst];
    rewrite ?aget_amod; repeat case_decide; simplify_eq;
    rewrite ?Hprev, ?aget_amod; repeat case_decide; simplify_eq; by rewrite ?Hnext.
Qed.

Lemma clear_links_frame pool x y : f (clear_links pool x).[y] = f pool.[y].
Proof.
  unfold clear_links. rewrite aget_amod. case_decide; subst; by rewrite ?Hprev, ?Hnext.
Qed.

Lemma push_front_frame pool hd x y : f ((push_front pool hd x).1).[y] = f pool.[y].
Proof.
  unfold push_front. destruct hd; cbn [fst]; rewrite ?aget_amod; repeat case_decide; simplify_eq;
    rewrite ?Hprev, ?aget_amod; repeat case_decide; simplify_eq; by rewrite ?Hprev, ?Hnext.
Qed.

End frame.

(** Clearing the links of an element outside a list keeps the list. *)
Lemma clear_links_dll pool hd l x : x ∉ l → dll pool hd l → dll (clear_links pool x) hd l.
Proof.
  intros Hx. apply dll_ext. intros y Hy. unfold clear_links.
  rewrite aget_amod_ne by (intros ->; done). done.
Qed.

(** ** [push_front] adds one element at the head *)

Lemma push_front_links pool hd x y :
  y ≠ x →
  lk_next ((push_front pool hd x).1).[y] = lk_next pool.[y] ∧
  lk_prev ((push_front pool hd x).1).[y] =
    if decide (hd = Some y) then Some x else lk_prev pool.[y].
Proof.
  intros Hy. unfold push_front. destruct hd as [h|]; cbn [fst].
  - rewrite !aget_amod. repeat case_decide; simplify_eq;
      rewrite ?lk_next_set_prev, ?lk_prev_set_prev; done.
  - rewrite aget_amod_ne by done. done.
Qed.

Lemma push_front_dll pool hd l x :
  dll pool hd l → x ∉ l → dll (push_front pool hd x).1 (Some x) (x :: l).
Proof.
  intros (Hh & Hnd & Hs) Hx. split_and!; [done|by apply NoDup_cons|]. cbn [dseg].
  assert (lk_prev ((push_front pool hd x).1).[x] = None ∧
          lk_next ((push_front pool hd x).1).[x] = hd) as [E1 E2].
  { unfold push_front. destruct hd as [h|] eqn:Eh; cbn [fst].
    - assert (h ≠ x) by (intros ->; destruct l; simplify_eq/=; set_solver).
      rewrite aget_amod_ne, aget_amod_eq by done.
      by rewrite lk_prev_set_prev, lk_next_set_prev, lk_next_set_next.
    - rewrite aget_amod_eq. by rewrite lk_prev_set_prev, lk_next_set_prev, lk_next_set_next. }
  rewrite E1, E2. split_and!; [done|done|].
  eapply dseg_set_first; [done|exact Hs| |]; intros y Hy;
    (destruct (push_front_links pool hd x y) as [En Ep]; [set_solver|]).
  - done.
  - rewrite Ep, Hh. done.
Qed.

Lemma push_front_other pool hd l x y :
  dll pool hd l → y ≠ x → y ∉ l →
  lk_next ((push_front pool hd x).1).[y] = lk_next pool.[y] ∧
  lk_prev ((push_front pool hd x).1).[y] = lk_prev pool.[y].
Proof.
  intros (Hh & _) Hy Hyl. destruct (push_front_links pool hd x y Hy) as [En Ep].
  split; [done|]. rewrite Ep, decide_False; [done|]. rewrite Hh.
  destruct l; [done|]. intros [= ->]. set_solver.
Qed.

(** ** Membership by walking the list *)

Lemma list_member_spec fuel pool p l x :
  dseg pool p l None → (length l ≤ fuel)%nat →
  list_member fuel pool (first_or l None) x = Some (bool_decide (x ∈ l)).
Proof.
  revert p fuel. induction l as [|y l IH]; intros p fuel Hs Hf; cbn [dseg first_or length] in *.
  { rewrite bool_decide_false by set_solver. by destruct fuel. }
  destruct Hs as (_ & Hn & Hs). destruct fuel as [|fuel]; [lia|]. cbn [list_member].
  destruct (Z.eqb_spec y x) as [->|Hne].
  - by rewrite bool_decide_true by set_solver.
  - rewrite Hn, (IH (Some y) fuel Hs) by lia. f_equal. apply bool_decide_ext. set_solver.
Qed.

Lemma dll_member fuel pool hd l x :
  dll pool hd l → (length l ≤ fuel)%nat →
  list_member fuel pool hd x = Some (bool_decide (x ∈ l)).
Proof. intros (-> & _ & Hs) Hf. by eapply list_member_spec. Qed.

(** ** Insertion between two neighbours *)

Lemma dll_insert pool pool' hd l1 x l2 :
  dll pool hd (l1 ++ l2) → x ∉ l1 ++ l2 →
  lk_next pool'.[x] = first_or l2 None → lk_prev pool'.[x] = last_or None l1 →
  (∀ y, y ∈ l1 ++ l2 → lk_next pool'.[y] = if decide (last l1 = Some y) then Some x else lk_next pool.[y]) →
  (∀ y, y ∈ l1 ++ l2 →
    lk_prev pool'.[y] = if decide (first_or l2 None = Some y) then Some x else lk_prev pool.[y]) →
  dll pool' (first_or (l1 ++ [x]) None) (l1 ++ x :: l2).
Proof.
  intros (Hh & Hnd & Hs) Hx Hxn Hxp Hnx Hpv.
  apply dseg_app in Hs as [Hs1 Hs2]. apply NoDup_app in Hnd as (Hn1 & Hn12 & Hn2).
  split_and!.
  - by destruct l1.
  - apply NoDup_app. split_and!; [done| |apply NoDup_cons; set_solver]. set_solver.
  - apply dseg_app. split; [|simpl; split_and!; [done..|]].
    + eapply dseg_set_last; [done|done| |].
      * intros y Hy. rewrite Hpv, decide_False; [done| |set_solver].
        intros E. destruct l2; simplify_eq/=. eapply Hn12; [done|set_solver].
      * intros y Hy. rewrite Hnx by set_solver. done.
    + eapply dseg_set_first; [done|done| |].
      * intros y Hy. rewrite Hnx, decide_False; [done| |set_solver].
        intros E%last_Some_elem_of. by eapply Hn12.
      * intros y Hy. rewrite Hpv by set_solver. done.
Qed.

End theory.

(** ** Singly-linked chains

    The free lists of the pools and the collision chains of the hash tables
    are linked through one field only. *)

Section chain.
Context {A : Type} `{Zeroed A} (nx : A → ptr).
Implicit Types (pool : gmap Z A) (l : list Z).

Fixpoint chain (pool : gmap Z A) (hd : ptr) (l : list Z) : Prop :=
  match l with
  | [] => hd = None
  | x :: l' => hd = Some x ∧ chain pool (nx pool.[x]) l'
  end.

Lemma chain_ext pool pool' hd l :
  (∀ x, x ∈ l → nx pool'.[x] = nx pool.[x]) → chain pool hd l → chain pool' hd l.
Proof.
  revert hd. induction l as [|x l IH]; intros hd Hext; simpl; [done|].
  intros [-> Hc]. split; [done|]. rewrite Hext by set_solver. apply IH; [|done]. set_solver.
Qed.

Lemma chain_fun pool hd l1 l2 : chain pool hd l1 → chain pool hd l2 → l1 = l2.
Proof.
  revert hd l2. induction l1 as [|x l1 IH]; intros hd [|y l2]; naive_solver.
Qed.

Lemma chain_None pool l : chain pool None l → l = [].
Proof. destruct l; naive_solver. Qed.

Lemma chain_Some pool x l : chain pool (Some x) l → ∃ l', l = x :: l' ∧ chain pool (nx pool.[x]) l'.
Proof. destruct l; naive_solver. Qed.

(** Pushing an element: its link is set to the old head. *)
Lemma chain_push pool pool' hd l x :
  chain pool hd l → nx pool'.[x] = hd → (∀ y, y ∈ l → nx pool'.[y] = nx pool.[y]) →
  chain pool' (Some x) (x :: l).
Proof. intros Hc Hnx Hext. split; [done|]. rewrite Hnx. by eapply chain_ext. Qed.

(** Unlinking an element: its predecessor takes over its link. *)
Lemma chain_remove pool pool' hd l1 x l2 :
  chain pool hd (l1 ++ x :: l2) → NoDup (l1 ++ x :: l2) →
  (∀ y, y ∈ l1 ++ l2 → nx pool'.[y] = if decide (last l1 = Some y) then nx pool.[x] else nx pool.[y]) →
  chain pool' (match l1 with [] => nx pool.[x] | _ => hd end) (l1 ++ l2).
Proof.
  revert hd. induction l1 as [|z l1 IH]; intros hd; cbn [app chain].
  - intros [-> Hc] [Hx _]%NoDup_cons Hnx. eapply chain_ext; [|done]. intros y Hy. rewrite Hnx by done. done.
  - intros [-> Hc] [Hz Hnd]%NoDup_cons Hnx. split; [done|]. rewrite Hnx by set_solver.
    destruct l1 as [|w l1].
    + rewrite decide_True by done. cbn in Hc. destruct Hc as [_ Hc]. eapply chain_ext; [|done].
      intros y Hy. rewrite Hnx by set_solver. rewrite decide_False; [done|]. cbn. intros [= ->]. set_solver.
    + rewrite decide_False.
      2: { rewrite last_cons_cons. intros E%last_Some_elem_of. set_solver. }
      apply IH; [done|done|]. intros y Hy. rewrite Hnx by set_solver. by rewrite last_cons_cons.
Qed.

(** A chain through consecutive cells. *)
Lemma chain_seq pool n i :
  (∀ j, i ≤ j < i + Z.of_nat n - 1 → nx pool.[j] = Some (j + 1)) →
  (0 < n)%nat → nx pool.[i + Z.of_nat n - 1] = None → chain pool (Some i) (seqZ i (Z.of_nat n)).
Proof.
  revert i. induction n as [|n IH]; intros i Hnx Hn Hlast; [lia|].
  rewrite seqZ_cons by lia. split; [done|]. replace (Z.pred (Z.of_nat (S n))) with (Z.of_nat n) by lia.
  destruct n as [|n].
  - replace (i + Z.of_nat 1 - 1) with i in Hlast by lia. by rewrite Hlast.
  - rewrite Hnx by lia. replace (Z.succ i) with (i + 1) by lia. apply IH; [|lia|].
    + intros j Hj. apply Hnx. lia.
    + rewrite <- Hlast. do 2 f_equal. lia.
Qed.

End chain.
