(* ===== verification/Pmm.v ===== *)
(** * The physical memory manager (kernel/mm/pmm.c)

    State: the byte bitmap [memory_bitmap], [total_pages] and [used_pages].
    Operations: [pmm_init], [pmm_init_from_bootinfo] with its helper
    [pmm_reserve_range], [pmm_alloc_page], [pmm_free_page],
    [pmm_set_page_used] and the three counters' getters.  The abstract state
    is the set of frames in use; the theorems show that every operation acts
    on that set as documented and that [used_pages] is its size. *)

From S2P Require Import Prelude Bitmap PageAlloc.

Definition MEMORY_SIZE : Z := 134217728.
Definition BITMAP_SIZE : Z := 4096.

(** Frames reserved at start: [2 * 1024 * 1024 / PAGE_SIZE]. *)
Definition LOW_PAGES : Z := 512.

Record pmm_state := mk_pmm {
  memory_bitmap : list Z;
  total_pages : Z;
  used_pages : Z;
}.
#[export] Instance eta_pmm : Eta pmm_state :=
  fun s => mk_pmm (memory_bitmap s) (total_pages s) (used_pages s).

(** The state of static storage before [pmm_init]. *)
Definition pmm_boot : pmm_state := mk_pmm (replicate (Z.to_nat BITMAP_SIZE) 0) 0 0.

(** [page_used s p]: the bit of frame [p]. *)
Definition page_used (s : pmm_state) (page : Z) : bool := bm_test 8 (memory_bitmap s) page.

(** Set the bit of [page] and count it. *)
Definition mark_page (page : Z) (s : pmm_state) : pmm_state :=
  s⟦memory_bitmap ::= fun b => bm_set 8 b page⟧⟦used_pages ::= fun n => u32 (n + 1)⟧.

Definition pmm_set_page_used (page : Z) (s : pmm_state) : option pmm_state :=
  let byte := page / 8 in
  if byte <? BITMAP_SIZE then Some (mark_page page s) else None.

(** [memory_bitmap[i] = 0] *)
Definition clear_byte (i : Z) (s : pmm_state) : pmm_state :=
  s⟦memory_bitmap ::= fun b => <[Z.to_nat i := 0]> b⟧.

Definition pmm_init (s : pmm_state) : option pmm_state :=
  let s := s⟦total_pages := TOTAL_PAGES⟧⟦used_pages := 0⟧ in
  let s := iter_up (Z.to_nat BITMAP_SIZE) 0 clear_byte s in
  for_up (Z.to_nat LOW_PAGES) 0 pmm_set_page_used s.

(** The loop body of [pmm_reserve_range]: a frame already in use is skipped. *)
Definition reserve_page (page : Z) (s : pmm_state) : option pmm_state :=
  let byte := page / 8 in
  if byte <? BITMAP_SIZE then
    Some (if negb (page_used s page) then mark_page page s else s)
  else None.

(** The end of the range, clamped to the window (also when the 64-bit sum
    wraps). *)
Definition reserve_end (base length : Z) : Z :=
  let end_ := u64 (base + length) in
  if (end_ <? base) || (MEMORY_SIZE <? end_) then MEMORY_SIZE else end_.

Definition pmm_reserve_range (base length : Z) (s : pmm_state) : option pmm_state :=
  if (length =? 0) || (MEMORY_SIZE <=? base) then Some s
  else
    let end_ := reserve_end base length in
    let first := u32 (base / PAGE_SIZE) in
    let last := u32 (u64 (end_ + PAGE_SIZE - 1) / PAGE_SIZE) in
    for_up (Z.to_nat (last - first)) first reserve_page s.

(** The boot protocol's memory map entry and the fields of [tocinboot_info]
    that the PMM reads (include/boot/tocinboot.h). *)
Record tocinboot_mmap_entry := mk_mmap_entry {
  me_base : Z;
  me_length : Z;
  me_type : Z;
}.
Record tocinboot_info := mk_info {
  info_flags : Z;
  memmap_addr : Z;
  memmap_count : Z;
  memmap_entry_size : Z;
  fb_base : Z;
  fb_height : Z;
  fb_pitch : Z;
}.
Definition TOCINBOOT_MEM_USABLE : Z := 1.
Definition TOCINBOOT_F_FB : Z := 4.
Definition sizeof_mmap_entry : Z := 24.

(** [entry_at p] is the memory map entry stored at physical address [p]. *)
Definition reserve_entry (entry_at : Z → tocinboot_mmap_entry) (info : tocinboot_info)
    (i : Z) (s : pmm_state) : option pmm_state :=
  let e := entry_at (u32 (memmap_addr info + i * memmap_entry_size info)) in
  if negb (me_type e =? TOCINBOOT_MEM_USABLE)
  then pmm_reserve_range (me_base e) (me_length e) s else Some s.

Definition pmm_init_from_bootinfo (entry_at : Z → tocinboot_mmap_entry)
    (info : option tocinboot_info) (s : pmm_state) : option pmm_state :=
  s ← pmm_init s;
  match info with
  | None => Some s
  | Some info =>
      s ← (if negb (memmap_addr info =? 0) && negb (memmap_count info =? 0) &&
              (sizeof_mmap_entry <=? memmap_entry_size info)
           then for_up (Z.to_nat (memmap_count info)) 0 (reserve_entry entry_at info) s
           else Some s);
      if truth (info_flags info &: TOCINBOOT_F_FB) && negb (fb_base info =? 0)
      then pmm_reserve_range (fb_base info) (u64 (fb_pitch info * fb_height info)) s
      else Some s
  end.

Definition pmm_alloc_page (s : pmm_state) : Z * pmm_state :=
  match bm_find_free 8 (memory_bitmap s) (Z.to_nat (total_pages s)) with
  | Some i => (u32 (i * PAGE_SIZE), mark_page i s)
  | None => (0, s)
  end.

Definition pmm_free_page (address : Z) (s : pmm_state) : option pmm_state :=
  let page := address / PAGE_SIZE in
  let byte := page / 8 in
  if byte <? BITMAP_SIZE then
    Some (if page_used s page
          then s⟦memory_bitmap ::= fun b => bm_clear 8 b page⟧⟦used_pages ::= fun n => u32 (n - 1)⟧
          else s)
  else None.

Definition pmm_get_total_pages (s : pmm_state) : Z := total_pages s.
Definition pmm_get_used_pages (s : pmm_state) : Z := used_pages s.
Definition pmm_get_free_pages (s : pmm_state) : Z := u32 (total_pages s - used_pages s).

(** ** Consistency and the abstract state *)

(** The frame count as a natural number, kept opaque so that no tactic unfolds
    a computation over the whole bitmap. *)
Definition total_seal : { n : nat | n = Z.to_nat TOTAL_PAGES }.
Proof. by eexists. Qed.
Definition total_n : nat := proj1_sig total_seal.
Lemma total_n_eq : total_n = Z.to_nat TOTAL_PAGES.
Proof. exact (proj2_sig total_seal). Qed.

(** The bitmap has its static size, every element is a byte, and the counter
    is the number of bits set. *)
Record pmm_wf (s : pmm_state) : Prop := {
  wf_bitmap : bm_wf 8 (memory_bitmap s) total_n;
  wf_total : total_pages s = TOTAL_PAGES;
  wf_used : used_pages s = bm_count 8 (memory_bitmap s) total_n;
}.

(** [s] represents the set [U] of frames in use. *)
Definition pmm_rep (s : pmm_state) (U : gset Z) : Prop :=
  pmm_wf s ∧ ∀ p, p ∈ U ↔ 0 ≤ p < TOTAL_PAGES ∧ page_used s p = true.

(** The least frame that is not in use, and the size of the abstract state. *)
Definition least_free (U : gset Z) (p : Z) : Prop :=
  0 ≤ p < TOTAL_PAGES ∧ (p ∉ U) ∧ ∀ k, 0 ≤ k < p → k ∈ U.

(** Frame [p] contains a byte of [base .. base + length). *)
Definition overlaps (base length p : Z) : Prop :=
  0 ≤ p < TOTAL_PAGES ∧ 0 < length ∧
  p * PAGE_SIZE < base + length ∧ base < (p + 1) * PAGE_SIZE.

Ltac pmm_consts := unfold TOTAL_PAGES, PAGE_SIZE, MEMORY_SIZE, BITMAP_SIZE, LOW_PAGES in *.

Section lemmas.
Implicit Types (s : pmm_state) (U : gset Z).

Lemma total_nat : Z.of_nat total_n = TOTAL_PAGES.
Proof. rewrite total_n_eq. apply Z2Nat.id. pmm_consts. lia. Qed.

Lemma byte_in_range p : 0 ≤ p < TOTAL_PAGES → (p / 8 <? BITMAP_SIZE) = true.
Proof. pmm_consts. intros. apply Z.ltb_lt, Z.div_lt_upper_bound; lia. Qed.

Lemma wf_used_bounds s : pmm_wf s → 0 ≤ used_pages s ≤ TOTAL_PAGES.
Proof. intros [_ _ ->]. pose proof (count_up_bounds total_n (bm_test 8 (memory_bitmap s))).
  rewrite total_nat in *. done.
Qed.

Lemma page_used_mark s p q :
  pmm_wf s → 0 ≤ p < TOTAL_PAGES → 0 ≤ q →
  page_used (mark_page p s) q = if decide (p = q) then true else page_used s q.
Proof.
  intros [Hb _ _] Hp Hq. unfold page_used, mark_page; simpl.
  apply (bm_test_set 8 ltac:(lia) _ total_n); [done|by rewrite total_nat|done].
Qed.

(** Marking a free frame keeps the state consistent. *)
Lemma mark_page_wf s p :
  pmm_wf s → 0 ≤ p < TOTAL_PAGES → page_used s p = false → pmm_wf (mark_page p s).
Proof.
  intros Hwf Hp Hfree. pose proof (wf_used_bounds _ Hwf) as Hub. destruct Hwf as [Hb Ht Hu].
  split; simpl; [by apply bm_set_wf|done|].
  rewrite bm_count_set; [|lia|done|by rewrite total_nat].
  unfold page_used in Hfree. rewrite Hfree, <-Hu.
  apply u32_small. pmm_consts. lia.
Qed.

Lemma mark_page_rep s U p :
  pmm_rep s U → 0 ≤ p < TOTAL_PAGES → p ∉ U → pmm_rep (mark_page p s) ({[p]} ∪ U).
Proof.
  intros [Hwf HU] Hp Hnew.
  assert (page_used s p = false) as Hfree.
  { destruct (page_used s p) eqn:E; [|done]. destruct Hnew. by apply HU. }
  split; [by apply mark_page_wf|]. intros q. rewrite elem_of_union, elem_of_singleton, HU.
  split.
  - intros [->|[Hq Hu]]; (split; [done|]); rewrite page_used_mark by (done || lia); by case_decide.
  - intros [Hq Hu]. rewrite page_used_mark in Hu by (done || lia). case_decide; auto.
Qed.

Lemma rep_used s U p : pmm_rep s U → 0 ≤ p < TOTAL_PAGES → page_used s p = bool_decide (p ∈ U).
Proof.
  intros [_ HU] Hp. case_bool_decide as Hin; rewrite HU in Hin.
  - by destruct Hin.
  - apply not_true_is_false. intros Hu. by destruct Hin.
Qed.

Lemma reserve_page_rep s U p :
  pmm_rep s U → 0 ≤ p < TOTAL_PAGES →
  ∃ s', reserve_page p s = Some s' ∧ pmm_rep s' ({[p]} ∪ U).
Proof.
  intros Hrep Hp. unfold reserve_page. rewrite byte_in_range by done.
  rewrite (rep_used _ _ _ Hrep Hp). eexists; split; [done|]. case_bool_decide; simpl.
  - by replace ({[p]} ∪ U) with U by set_solver.
  - by apply mark_page_rep.
Qed.

(** The counter is the size of the set of frames in use. *)
Lemma count_up_size n f (U : gset Z) :
  (∀ p, p ∈ U ↔ 0 ≤ p < Z.of_nat n ∧ f p = true) → Z.of_nat (size U) = count_up n f.
Proof.
  revert U. induction n as [|n IH]; intros U HU; simpl.
  - replace U with (∅ : gset Z); [done|]. apply set_eq. intros p. rewrite HU. set_solver by lia.
  - rewrite <-(IH (U ∖ {[Z.of_nat n]})).
    2: { intros p. rewrite elem_of_difference, elem_of_singleton, HU. naive_solver lia. }
    pose proof (HU (Z.of_nat n)) as Hn. clear HU IH. destruct (f (Z.of_nat n)) eqn:Hf.
    + assert (Z.of_nat n ∈ U) by (apply Hn; split; [lia|done]). clear Hn.
      rewrite (union_difference_singleton_L (Z.of_nat n) U) at 1 by done.
      rewrite size_union by set_solver. rewrite size_singleton. lia.
    + assert (Z.of_nat n ∉ U) by (rewrite Hn; intros [? ?]; done). clear Hn.
      rewrite difference_disjoint_L by set_solver. lia.
Qed.

Lemma rep_size s U : pmm_rep s U → used_pages s = Z.of_nat (size U).
Proof.
  intros [[_ _ Hu] HU]. rewrite Hu. symmetry. apply count_up_size. intros p.
  rewrite total_nat. apply HU.
Qed.

(** A run of consecutive reservations. *)
Lemma reserve_pages_rep s U first n :
  pmm_rep s U → 0 ≤ first → first + Z.of_nat n ≤ TOTAL_PAGES →
  ∃ s' U', for_up n first reserve_page s = Some s' ∧ pmm_rep s' U' ∧
    ∀ p, p ∈ U' ↔ p ∈ U ∨ first ≤ p < first + Z.of_nat n.
Proof.
  intros Hrep H0 Hn.
  destruct (for_up_inv (fun k s => ∃ V, pmm_rep s V ∧ ∀ p, p ∈ V ↔ p ∈ U ∨ first ≤ p < k)
    reserve_page n first s) as (s' & Hrun & V & HV & HVU).
  - exists U. split; [done|]. intros p. naive_solver lia.
  - intros k t Hk (V & HV & HVU).
    destruct (reserve_page_rep t V k HV) as (t' & Ht & HV'); [lia|].
    exists t'. split; [done|]. exists ({[k]} ∪ V). split; [done|].
    intros p. rewrite elem_of_union, elem_of_singleton, HVU.
    destruct (decide (p = k)); naive_solver lia.
  - eauto 10.
Qed.

End lemmas.

Section initialisation.
Implicit Types s : pmm_state.

(** Clearing the bitmap element by element leaves the all-zero array and the
    counters as they were. *)
Lemma clear_bitmap (n : nat) b t u :
  length b = n → iter_up n 0 clear_byte (mk_pmm b t u) = mk_pmm (replicate n 0) t u.
Proof.
  intros Hlen.
  pose proof (iter_up_inv (fun k s => ∃ b', s = mk_pmm b' t u ∧ length b' = n ∧
    ∀ j : nat, (j < n)%nat → Z.of_nat j < k → b' !! j = Some 0)
    clear_byte n 0 (mk_pmm b t u)) as (b' & -> & Hl & Hb').
  - exists b. split_and!; try done. intros; lia.
  - intros k s Hk (b' & -> & Hl & Hj). exists (<[Z.to_nat k := 0]> b').
    rewrite length_insert. split_and!; try done. intros j ? ?.
    destruct (decide (j = Z.to_nat k)) as [->|].
    + rewrite list_lookup_insert_eq by lia. done.
    + rewrite list_lookup_insert_ne by lia. apply Hj; lia.
  - f_equal. apply list_eq. intros j. destruct (decide (j < n)%nat).
    + rewrite Hb' by lia. symmetry. by apply lookup_replicate_2.
    + rewrite !lookup_ge_None_2; [done|by rewrite length_replicate; lia|]. rewrite Hl. lia.
Qed.

(** The first [n] calls of [pmm_set_page_used] on an empty bitmap. *)
Lemma set_low_pages s n :
  pmm_rep s ∅ → Z.of_nat n ≤ TOTAL_PAGES →
  ∃ s', for_up n 0 pmm_set_page_used s = Some s' ∧ pmm_rep s' (list_to_set (seqZ 0 (Z.of_nat n))).
Proof.
  intros Hrep Hn.
  destruct (for_up_inv (fun k t => pmm_rep t (list_to_set (seqZ 0 k)))
    pmm_set_page_used n 0 s) as (s' & Hrun & Hs').
  - done.
  - intros k t Hk Ht. exists (mark_page k t). split.
    + unfold pmm_set_page_used. by rewrite byte_in_range by lia.
    + replace (list_to_set (seqZ 0 (k + 1))) with ({[k]} ∪ list_to_set (seqZ 0 k) : gset Z).
      * apply mark_page_rep; [done|lia|]. rewrite elem_of_list_to_set, elem_of_seqZ. lia.
      * apply set_eq. intros p. rewrite elem_of_union, elem_of_singleton, !elem_of_list_to_set, !elem_of_seqZ. lia.
  - eauto.
Qed.

Lemma empty_rep n :
  Z.of_nat n = BITMAP_SIZE → pmm_rep (mk_pmm (replicate n 0) TOTAL_PAGES 0) ∅.
Proof.
  intros Hn. split; [split|]; cbn [memory_bitmap total_pages used_pages].
  - apply bm_zeros_wf; [lia|]. rewrite Hn, total_nat. pmm_consts. lia.
  - reflexivity.
  - symmetry. unfold bm_count. apply (count_up_threshold _ 0); [lia|]. intros i Hi.
    rewrite bm_test_zeros by lia. symmetry. apply Z.ltb_ge. lia.
  - intros p. split; [by intros ?%elem_of_empty|]. intros [_ Hp].
    unfold page_used in Hp. cbn [memory_bitmap] in Hp. by rewrite bm_test_zeros in Hp by lia.
Qed.

Lemma pmm_init_rep s :
  Z.of_nat (length (memory_bitmap s)) = BITMAP_SIZE →
  ∃ s', pmm_init s = Some s' ∧ pmm_rep s' (list_to_set (seqZ 0 LOW_PAGES)).
Proof.
  intros Hlen. unfold pmm_init. destruct s as [b t u]. cbn [modify_field memory_bitmap] in *.
  cbn [total_pages used_pages memory_bitmap].
  rewrite (clear_bitmap (Z.to_nat BITMAP_SIZE)) by lia.
  destruct (set_low_pages (mk_pmm (replicate (Z.to_nat BITMAP_SIZE) 0) TOTAL_PAGES 0)
    (Z.to_nat LOW_PAGES)) as (s' & Hrun & Hs').
  - apply empty_rep. pmm_consts. lia.
  - pmm_consts. lia.
  - rewrite Z2Nat.id in Hs' by (pmm_consts; lia). eauto.
Qed.

End initialisation.

Section ranges.
Implicit Types (s : pmm_state) (U : gset Z).

(** [pmm_reserve_range] marks exactly the frames that overlap the range. *)
Lemma reserve_range_rep s U base len :
  pmm_rep s U → 0 ≤ base < 2 ^ 64 → 0 ≤ len < 2 ^ 64 →
  ∃ s' U', pmm_reserve_range base len s = Some s' ∧ pmm_rep s' U' ∧
    ∀ p, p ∈ U' ↔ p ∈ U ∨ overlaps base len p.
Proof.
  intros Hrep Hb Hl. unfold pmm_reserve_range.
  destruct ((len =? 0) || (MEMORY_SIZE <=? base)) eqn:Hguard.
  { exists s, U. split_and!; [done|done|]. intros p. split; [by left|].
    intros [?|(Hp & Hpos & Hlt & Hlt')]; [done|]. exfalso. pmm_consts.
    apply orb_true_iff in Hguard as [?%Z.eqb_eq|?%Z.leb_le]; lia. }
  apply orb_false_iff in Hguard as [?%Z.eqb_neq Hlow%Z.leb_gt].
  assert (base < reserve_end base len ≤ MEMORY_SIZE ∧
    (reserve_end base len = base + len ∨
     reserve_end base len = MEMORY_SIZE ∧ MEMORY_SIZE < base + len)) as [He1 He2].
  { unfold reserve_end, u64. pmm_consts.
    destruct (decide (base + len < 2 ^ 64)).
    - rewrite Z.mod_small by lia. case_if; [lia|]. case_if; lia.
    - replace ((base + len) mod 2 ^ 64) with (base + len - 2 ^ 64)
        by (apply (Z.mod_unique_pos _ _ 1); lia).
      case_if; lia. }
  set (e := reserve_end base len) in *.
  rewrite (u64_small (e + PAGE_SIZE - 1)) by (pmm_consts; lia).
  assert (0 ≤ base / PAGE_SIZE < TOTAL_PAGES) by
    (pmm_consts; split; [apply Z.div_pos; lia|apply Z.div_lt_upper_bound; lia]).
  assert (base / PAGE_SIZE < (e + PAGE_SIZE - 1) / PAGE_SIZE ≤ TOTAL_PAGES).
  { pmm_consts. Z.to_euclidean_division_equations. lia. }
  rewrite !u32_small by (pmm_consts; lia).
  destruct (reserve_pages_rep s U (base / PAGE_SIZE)
    (Z.to_nat ((e + PAGE_SIZE - 1) / PAGE_SIZE - base / PAGE_SIZE))) as (s' & U' & Hrun & Hrep' & HU');
    [done|lia|lia|].
  exists s', U'. split_and!; [done|done|]. intros p. rewrite HU'.
  rewrite Z2Nat.id by lia. unfold overlaps. apply or_iff_compat_l.
  pmm_consts. Z.to_euclidean_division_equations. lia.
Qed.

End ranges.

Section operations.
Implicit Types (s : pmm_state) (U : gset Z).

Lemma alloc_rep s U :
  pmm_rep s U →
  (pmm_alloc_page s = (0, s) ∧ all_used U) ∨
  (∃ p s', pmm_alloc_page s = (p * PAGE_SIZE, s') ∧ least_free U p ∧ pmm_rep s' ({[p]} ∪ U)).
Proof.
  intros Hrep. pose proof (wf_total _ (proj1 Hrep)) as Ht. unfold pmm_alloc_page. rewrite Ht, <-total_n_eq.
  destruct (bm_find_free 8 _ _) as [p|] eqn:Hf.
  - right. apply bm_find_free_Some in Hf as (Hp & Hfree & Hmin). rewrite total_nat in Hp.
    assert (p ∉ U) as Hnew.
    { intros Hin. apply Hrep in Hin as [_ Hu]. unfold page_used in Hu. congruence. }
    exists p, (mark_page p s). split_and!.
    + rewrite u32_small; [done|]. pmm_consts. lia.
    + split_and!; [lia|lia|done|]. intros k Hk. apply Hrep. split; [lia|]. by apply Hmin.
    + by apply mark_page_rep.
  - left. split; [done|]. intros p Hp. apply Hrep. split; [done|].
    rewrite bm_find_free_None in Hf. apply Hf. by rewrite total_nat.
Qed.

Lemma page_used_clear s p q :
  pmm_wf s → 0 ≤ p < TOTAL_PAGES → 0 ≤ q →
  bm_test 8 (bm_clear 8 (memory_bitmap s) p) q = if decide (p = q) then false else page_used s q.
Proof.
  intros [Hb _ _] Hp Hq.
  apply (bm_test_clear 8 ltac:(lia) _ total_n); [done|by rewrite total_nat|done].
Qed.

Lemma frame_of_address a : 0 ≤ a < MEMORY_SIZE → 0 ≤ a / PAGE_SIZE < TOTAL_PAGES.
Proof.
  pmm_consts. intros. split; [apply Z.div_pos; lia|apply Z.div_lt_upper_bound; lia].
Qed.

Lemma free_rep s U a :
  pmm_rep s U → 0 ≤ a < MEMORY_SIZE →
  ∃ s', pmm_free_page a s = Some s' ∧ pmm_rep s' (U ∖ {[a / PAGE_SIZE]}).
Proof.
  intros Hrep Ha. pose proof (frame_of_address a Ha) as Hp. unfold pmm_free_page.
  set (p := a / PAGE_SIZE) in *. clearbody p.
  rewrite byte_in_range, (rep_used _ _ _ Hrep Hp) by done.
  eexists; split; [done|]. case_bool_decide as Hin.
  - pose proof (wf_used_bounds _ (proj1 Hrep)) as Hub. destruct Hrep as [Hwf HU].
    assert (page_used s p = true) as Hu by (by apply HU).
    pose proof Hwf as [Hb Ht Hc]. split; [split|]; cbn.
    + by apply bm_clear_wf.
    + done.
    + rewrite bm_count_clear; [|lia|done|by rewrite total_nat].
      unfold page_used in Hu. rewrite Hu, <-Hc. apply u32_small.
      assert (0 < used_pages s); [|pmm_consts; lia].
      rewrite (rep_size s U (conj Hwf HU)).
      assert (size U ≠ 0%nat); [|lia]. rewrite size_non_empty_iff. intros HE. by rewrite HE in Hin.
    + intros q. rewrite elem_of_difference, elem_of_singleton, HU. unfold page_used at 2; cbn.
      split.
      * intros [[Hq Huq] Hne]. split; [done|]. rewrite page_used_clear by (done || lia).
        by rewrite decide_False.
      * intros [Hq Huq]. rewrite page_used_clear in Huq by (done || lia).
        case_decide; [done|]. done.
  - by rewrite difference_disjoint_L by set_solver.
Qed.

Lemma rep_range s U p : pmm_rep s U → p ∈ U → 0 ≤ p < TOTAL_PAGES.
Proof. intros [_ HU] Hp. by apply HU. Qed.

End operations.

(** The PMM implements the page-frame allocator interface. *)
#[export] Instance pmm_allocator : PageAllocator pmm_state := {
  pa_alloc := pmm_alloc_page;
  pa_free := pmm_free_page;
  pa_rep := pmm_rep;
}.

#[export] Instance pmm_allocator_laws : PageAllocatorLaws pmm_state.
Proof.
  split; cbn.
  - exact rep_range.
  - intros s U Hrep H0. destruct (alloc_rep s U Hrep) as [?|(p & s' & Ha & (Hp & Hnew & _) & Hs')]; [by left|].
    right. exists p, s'. split_and!; try done; [|lia].
    destruct (decide (p = 0)) as [->|]; [done|]. lia.
  - intros s U a Hrep Ha. apply free_rep; [done|]. pmm_consts. lia.
Qed.

(** The state after [pmm_init] on zeroed static storage. *)
Definition pmm_ready : pmm_state := default pmm_boot (pmm_init pmm_boot).
Definition low_frames : gset Z := list_to_set (seqZ 0 LOW_PAGES).

Lemma pmm_boot_length : Z.of_nat (length (memory_bitmap pmm_boot)) = BITMAP_SIZE.
Proof. unfold pmm_boot. cbn [memory_bitmap]. rewrite length_replicate. pmm_consts. lia. Qed.

Lemma pmm_ready_rep : pmm_rep pmm_ready low_frames.
Proof.
  destruct (pmm_init_rep pmm_boot pmm_boot_length) as (s & Hs & Hrep).
  unfold pmm_ready. by rewrite Hs.
Qed.

Lemma elem_of_low_frames p : p ∈ low_frames ↔ 0 ≤ p < LOW_PAGES.
Proof. unfold low_frames. rewrite elem_of_list_to_set, elem_of_seqZ. done. Qed.

(** ** The theorems *)

(** C1: [pmm_alloc_page] refines "take the least frame not in use".  On a
    consistent state that represents the set [U] of frames in use, either
    every frame of the 128 MiB window is in use, the call returns 0 and the
    state is unchanged, or it returns the byte address of the least frame
    outside [U], the new state represents [U] plus that frame, and
    [used_pages] has grown by one without wrapping. *)
Theorem pmm_alloc_page_spec (s : pmm_state) (U : gset Z) (Hrep : pmm_rep s U) :
  (pmm_alloc_page s = (0, s) ∧ all_used U) ∨
  (∃ p s', pmm_alloc_page s = (p * PAGE_SIZE, s') ∧ least_free U p ∧
           pmm_rep s' ({[p]} ∪ U) ∧ pmm_get_used_pages s' = pmm_get_used_pages s + 1 ∧
           pmm_get_free_pages s' = TOTAL_PAGES - 1 - Z.of_nat (size U)).
Proof.
  destruct (alloc_rep s U Hrep) as [?|(p & s' & Ha & Hp & Hs')]; [by left|right].
  exists p, s'. split_and!; try done.
  - unfold pmm_get_used_pages. rewrite (rep_size s' _ Hs'), (rep_size s U Hrep).
    destruct Hp as (_ & Hnew & _). rewrite size_union by set_solver. rewrite size_singleton. lia.
  - unfold pmm_get_free_pages. rewrite (wf_total _ (proj1 Hs')).
    pose proof (wf_used_bounds _ (proj1 Hs')). rewrite u32_small by (pmm_consts; lia).
    rewrite (rep_size s' _ Hs'). destruct Hp as (_ & Hnew & _).
    rewrite size_union by set_solver. rewrite size_singleton. lia.
Qed.

Lemma pmm_alloc_page_witness :
  ∃ p s', pmm_alloc_page pmm_ready = (p * PAGE_SIZE, s') ∧ least_free low_frames p.
Proof.
  destruct (pmm_alloc_page_spec pmm_ready low_frames pmm_ready_rep)
    as [[_ Hall]|(p & s' & Ha & Hp & _)]; [|eauto].
  exfalso. assert (600 ∈ low_frames) as H%elem_of_low_frames by (apply Hall; pmm_consts; lia).
  pmm_consts. lia.
Defined.

(** [pmm_free_page] on an address of the window releases exactly the
    frame that contains it: the call is defined, the set of frames in use
    loses that frame and no other, a second free of the same frame changes
    nothing (the double-free guard), and if every lower frame is in use the
    next allocation returns the freed frame. *)
Theorem pmm_free_page_spec (s : pmm_state) (U : gset Z) (a : Z)
    (Hrep : pmm_rep s U) (Ha : 0 ≤ a < MEMORY_SIZE) :
  ∃ s', pmm_free_page a s = Some s' ∧ pmm_rep s' (U ∖ {[a / PAGE_SIZE]}) ∧
    pmm_free_page a s' = Some s' ∧
    (least_free (U ∖ {[a / PAGE_SIZE]}) (a / PAGE_SIZE) →
     ∃ s'', pmm_alloc_page s' = (a / PAGE_SIZE * PAGE_SIZE, s'') ∧
            pmm_rep s'' ({[a / PAGE_SIZE]} ∪ U)).
Proof.
  pose proof (frame_of_address a Ha) as Hp.
  destruct (free_rep s U a Hrep Ha) as (s' & Hf & Hrep'). exists s'. split_and!; try done.
  - unfold pmm_free_page. rewrite byte_in_range, (rep_used _ _ _ Hrep') by done.
    rewrite bool_decide_false; [done|]. set_solver.
  - intros (Hr & Hnew & Hmin).
    destruct (alloc_rep s' _ Hrep') as [[_ Hall]|(p & s'' & Hal & (Hp' & Hnew' & Hmin') & Hrep'')].
    { destruct Hnew. by apply Hall. }
    assert (p = a / PAGE_SIZE) as ->.
    { destruct (Z.lt_trichotomy p (a / PAGE_SIZE)) as [?|[?|?]]; [|done|].
      - destruct Hnew'. apply Hmin. lia.
      - destruct Hnew. apply Hmin'. lia. }
    exists s''. split; [done|].
    replace ({[a / PAGE_SIZE]} ∪ U) with ({[a / PAGE_SIZE]} ∪ U ∖ {[a / PAGE_SIZE]}); [done|].
    apply set_eq. intros q. rewrite !elem_of_union, elem_of_difference, elem_of_singleton.
    destruct (decide (q = a / PAGE_SIZE)); naive_solver.
Qed.

Lemma pmm_free_page_witness :
  ∃ s', pmm_free_page 0x1000 pmm_ready = Some s' ∧ pmm_rep s' (low_frames ∖ {[1]}).
Proof.
  destruct (pmm_free_page_spec pmm_ready low_frames 0x1000 pmm_ready_rep) as (s' & H1 & H2 & _).
  - unfold MEMORY_SIZE. lia.
  - exists s'. split; [exact H1|exact H2].
Defined.

(** The fields of a memory map entry are 64-bit values. *)
Definition entry_in_range (e : tocinboot_mmap_entry) : Prop :=
  0 ≤ me_base e < 2 ^ 64 ∧ 0 ≤ me_length e < 2 ^ 64.

(** Memory map entry [i] keeps frame [p] out of the allocator. *)
Definition entry_reserves (entry_at : Z → tocinboot_mmap_entry) (info : tocinboot_info)
    (i p : Z) : Prop :=
  let e := entry_at (u32 (memmap_addr info + i * memmap_entry_size info)) in
  me_type e ≠ TOCINBOOT_MEM_USABLE ∧ overlaps (me_base e) (me_length e) p.

(** The loader handed over a memory map the kernel reads. *)
Definition map_reserves (entry_at : Z → tocinboot_mmap_entry) (info : tocinboot_info)
    (p : Z) : Prop :=
  memmap_addr info ≠ 0 ∧ sizeof_mmap_entry ≤ memmap_entry_size info ∧
  ∃ i, 0 ≤ i < memmap_count info ∧ entry_reserves entry_at info i p.

(** Frame [p] must be kept out of the allocator: it lies in the low 2 MiB, it
    overlaps a memory map entry that is not usable, or it overlaps the
    framebuffer. *)
Definition must_reserve (entry_at : Z → tocinboot_mmap_entry) (info : tocinboot_info) (p : Z) : Prop :=
  0 ≤ p < LOW_PAGES ∨ map_reserves entry_at info p ∨
  (Z.testbit (info_flags info) 2 = true ∧ fb_base info ≠ 0 ∧
   overlaps (fb_base info) (u64 (fb_pitch info * fb_height info)) p).

Section bootinfo.
Context (entry_at : Z → tocinboot_mmap_entry) (info : tocinboot_info).
Context (Hentries : ∀ a, entry_in_range (entry_at a)).
Implicit Types (s : pmm_state) (U : gset Z).

Abbreviation reserves := (entry_reserves entry_at info).

Lemma reserve_entries_rep s U n :
  pmm_rep s U →
  ∃ s' U', for_up n 0 (reserve_entry entry_at info) s = Some s' ∧ pmm_rep s' U' ∧
    ∀ p, p ∈ U' ↔ p ∈ U ∨ ∃ i, 0 ≤ i < Z.of_nat n ∧ reserves i p.
Proof.
  intros Hrep.
  destruct (for_up_inv (fun k t => ∃ V, pmm_rep t V ∧
      ∀ p, p ∈ V ↔ p ∈ U ∨ ∃ i, 0 ≤ i < k ∧ reserves i p)
    (reserve_entry entry_at info) n 0 s) as (s' & Hrun & V & HV & HVU).
  - exists U. split; [done|]. intros p. split; [by left|]. intros [?|(i & ? & _)]; [done|lia].
  - intros k t Hk (V & HV & HVU). unfold reserve_entry.
    set (a := u32 (memmap_addr info + k * memmap_entry_size info)).
    assert (∀ p, (p ∈ U ∨ ∃ i, 0 ≤ i < k + 1 ∧ reserves i p) ↔ p ∈ V ∨ reserves k p) as Hk1.
    { intros p. rewrite HVU. split.
      - intros [?|(i & Hi & Hr)]; [by left; left|]. destruct (decide (i = k)) as [->|]; [by right|].
        left; right. exists i. split; [lia|done].
      - intros [[?|(i & Hi & Hr)]|Hr]; [by left|right; exists i; split; [lia|done]|].
        right. exists k. split; [lia|done]. }
    destruct (Z.eqb_spec (me_type (entry_at a)) TOCINBOOT_MEM_USABLE) as [Ht|Ht]; cbn [negb].
    + exists t. split; [done|]. exists V. split; [done|]. intros p. rewrite Hk1.
      split; [by left|]. intros [?|[Hne _]]; done.
    + destruct (Hentries a) as [Hb Hl].
      destruct (reserve_range_rep t V (me_base (entry_at a)) (me_length (entry_at a)) HV Hb Hl)
        as (t' & V' & Hrun & HV' & HVV'). exists t'. split; [done|]. exists V'. split; [done|].
      intros p. rewrite HVV', Hk1. apply or_iff_compat_l.
      split; [by intros ?|by intros []].
  - rewrite Z.add_0_l in HVU. eauto.
Qed.

End bootinfo.

(** C2: [pmm_init_from_bootinfo] leaves the allocator with exactly the frames
    that must be kept out of it in use: the low 2 MiB, every frame touched by
    a memory map entry that is not USABLE (walked with the loader's stride),
    and the framebuffer when one was handed over; the frame counter is the
    size of that set, although ranges may overlap and may run past 2^64. *)
Theorem pmm_init_from_bootinfo_spec (entry_at : Z → tocinboot_mmap_entry) (info : tocinboot_info)
    (s : pmm_state)
    (Hlen : Z.of_nat (length (memory_bitmap s)) = BITMAP_SIZE)
    (Hentries : ∀ a, entry_in_range (entry_at a))
    (Hcount : 0 ≤ memmap_count info) (Hfb : 0 ≤ fb_base info < 2 ^ 64) :
  ∃ s' U, pmm_init_from_bootinfo entry_at (Some info) s = Some s' ∧ pmm_rep s' U ∧
    (∀ p, p ∈ U ↔ must_reserve entry_at info p) ∧
    pmm_get_used_pages s' = Z.of_nat (size U).
Proof.
  destruct (pmm_init_rep s Hlen) as (s0 & Hinit & Hrep0).
  unfold pmm_init_from_bootinfo. rewrite Hinit. clear Hinit. cbn [mbind option_bind].
  change (list_to_set (seqZ 0 LOW_PAGES)) with low_frames in Hrep0.
  set (usable := negb (memmap_addr info =? 0) && _ && _).
  assert (∃ s1 U1, (if usable
      then for_up (Z.to_nat (memmap_count info)) 0 (reserve_entry entry_at info) s0
      else Some s0) = Some s1 ∧ pmm_rep s1 U1 ∧
      ∀ p, p ∈ U1 ↔ 0 ≤ p < LOW_PAGES ∨ map_reserves entry_at info p)
    as (s1 & U1 & Hrun1 & Hrep1 & HU1).
  { destruct usable eqn:Hu; subst usable.
    - apply andb_true_iff in Hu as [Hu Hsz%Z.leb_le].
      apply andb_true_iff in Hu as [Haddr%negb_true_iff%Z.eqb_neq _].
      destruct (reserve_entries_rep entry_at info Hentries s0 low_frames
        (Z.to_nat (memmap_count info)) Hrep0) as (s1 & U1 & Hrun & Hrep1 & HU1).
      exists s1, U1. split_and!; [done|done|]. intros p.
      rewrite HU1, elem_of_low_frames, Z2Nat.id by done. apply or_iff_compat_l.
      unfold map_reserves. tauto.
    - exists s0, low_frames. split_and!; [done|done|]. intros p. rewrite elem_of_low_frames.
      split; [by left|]. intros [?|(Haddr & Hsz & i & Hi & _)]; [done|]. exfalso.
      apply andb_false_iff in Hu as [[Hu|Hu]%andb_false_iff|Hu%Z.leb_gt]; [| |lia].
      + apply negb_false_iff, Z.eqb_eq in Hu. lia.
      + apply negb_false_iff, Z.eqb_eq in Hu. lia. }
  rewrite Hrun1. cbn [mbind option_bind]. unfold must_reserve.
  change TOCINBOOT_F_FB with (1 <<: 2). rewrite truth_land_bit by lia.
  destruct (Z.testbit (info_flags info) 2 && negb (fb_base info =? 0)) eqn:Hf.
  - apply andb_true_iff in Hf as [Hbit Hbase%negb_true_iff%Z.eqb_neq].
    destruct (reserve_range_rep s1 U1 (fb_base info) (u64 (fb_pitch info * fb_height info)))
      as (s2 & U2 & Hrun2 & Hrep2 & HU2); [done|done|apply u64_range|].
    exists s2, U2. split_and!; [done|done| |by apply rep_size].
    intros p. rewrite HU2, HU1. tauto.
  - exists s1, U1. split_and!; [done|done| |by apply rep_size].
    intros p. rewrite HU1. split; [tauto|]. intros [?|[?|(Hbit & Hbase & _)]]; [tauto..|].
    rewrite Hbit in Hf. apply negb_false_iff, Z.eqb_eq in Hf. lia.
Qed.

Definition sample_info : tocinboot_info :=
  mk_info TOCINBOOT_F_FB 0x9000 2 24 0x7000000 768 4096.
Definition sample_entry (a : Z) : tocinboot_mmap_entry :=
  if a =? 0x9000 then mk_mmap_entry 0 0x7000000 1 else mk_mmap_entry 0x6000000 0x10000 6.

Lemma pmm_init_from_bootinfo_witness :
  ∃ s' U, pmm_init_from_bootinfo sample_entry (Some sample_info) pmm_boot = Some s' ∧
    pmm_rep s' U ∧ (∀ p, p ∈ U ↔ must_reserve sample_entry sample_info p).
Proof.
  destruct (pmm_init_from_bootinfo_spec sample_entry sample_info pmm_boot) as (s' & U & H1 & H2 & H3 & _).
  - exact pmm_boot_length.
  - intros a. unfold sample_entry. destruct (a =? _); split; cbn; lia.
  - cbn. lia.
  - cbn. lia.
  - eauto.
Defined.

(** Outside the window [pmm_free_page] indexes past the end of its bitmap. *)
Lemma pmm_free_page_outside s a : MEMORY_SIZE ≤ a → pmm_free_page a s = None.
Proof.
  intros Ha. unfold pmm_free_page. replace (a / PAGE_SIZE / 8 <? BITMAP_SIZE) with false; [done|].
  symmetry. apply Z.ltb_ge. pmm_consts. Z.to_euclidean_division_equations. lia.
Qed.

(** [pmm_set_page_used] counts a frame that is already in use again. *)
Lemma pmm_set_page_used_twice s U p :
  pmm_rep s U → p ∈ U → ∃ s', pmm_set_page_used p s = Some s' ∧ ¬ pmm_wf s'.
Proof.
  intros Hrep Hp. pose proof (rep_range _ _ _ Hrep Hp) as Hr.
  exists (mark_page p s). split; [unfold pmm_set_page_used; by rewrite byte_in_range|].
  intros Hwf. pose proof (wf_used_bounds _ (proj1 Hrep)). destruct Hwf as [_ _ Hu]. cbn in Hu.
  rewrite bm_count_set in Hu; [|lia|by destruct Hrep as [[? _ _] _]|by rewrite total_nat].
  fold (page_used s p) in Hu. rewrite (rep_used _ _ _ Hrep Hr), bool_decide_true in Hu by done.
  rewrite <-(wf_used _ (proj1 Hrep)), u32_small in Hu by (pmm_consts; lia). lia.
Qed.
