(* ===== verification/Buddy.v ===== *)
(** * The buddy allocator (kernel/mm/buddy.c)

    State: the array of page descriptors, the eleven free lists threaded
    through it, and the page counters.  Operations: [buddy_init],
    [buddy_alloc], [buddy_free], [buddy_get_order] and their page-count
    wrappers, with the helpers they call.

    The invariant says that the free blocks and the allocated blocks partition
    the managed range into naturally aligned power-of-two blocks, that each
    free list is a well-formed list of exactly the free blocks of its order,
    and that no block is free together with its buddy. *)

From stdpp Require Import functions.
From S2P Require Import Prelude PageAlloc Dll.

Definition BUDDY_START_ADDR : Z := 0x400000.
Definition BUDDY_END_ADDR : Z := 0x8000000.
Definition BUDDY_TOTAL_PAGES : Z := 31744.
Definition MAX_ORDER : Z := 11.

Record buddy_page := mk_page {
  next : ptr;
  prev : ptr;
  order : Z;
  flags : Z;
  ref_count : Z;
}.
#[export] Instance eta_page : Eta buddy_page :=
  fun p => mk_page (next p) (prev p) (order p) (flags p) (ref_count p).
#[export] Instance zeroed_page : Zeroed buddy_page := mk_page None None 0 0 0.

#[export] Instance page_linked : Linked buddy_page := {
  lk_next := next;
  lk_prev := prev;
  lk_set_next p a := a⟦next := p⟧;
  lk_set_prev p a := a⟦prev := p⟧;
}.
#[export] Instance page_linked_laws : LinkedLaws buddy_page.
Proof. by split. Qed.

Record buddy_state := mk_buddy {
  free_lists : gmap Z ptr;
  free_pages : gmap Z Z;
  total_free : Z;
  total_used : Z;
  page_descriptors : gmap Z buddy_page;
  buddy_initialized : bool;
}.
#[export] Instance eta_buddy : Eta buddy_state :=
  fun s => mk_buddy (free_lists s) (free_pages s) (total_free s) (total_used s)
                    (page_descriptors s) (buddy_initialized s).

(** Static storage before [buddy_init]. *)
Definition buddy_boot : buddy_state := mk_buddy ∅ ∅ 0 0 ∅ false.

Definition addr_to_page (addr : Z) : ptr :=
  if (addr <? BUDDY_START_ADDR) || (BUDDY_END_ADDR <=? addr) then None
  else Some ((addr - BUDDY_START_ADDR) / PAGE_SIZE).

Definition page_to_addr (page : Z) : Z := u32 (BUDDY_START_ADDR + page * PAGE_SIZE).

Definition get_buddy (addr order : Z) : Z := addr ^: u32 (PAGE_SIZE <<: order).

Definition remove_from_free_list (page ord : Z) (s : buddy_state) : buddy_state :=
  let '(pool, hd) := unlink (page_descriptors s) (free_lists s).[ord] page in
  s⟦free_lists ::= fun f => aset f ord hd⟧
   ⟦page_descriptors := clear_links pool page⟧
   ⟦free_pages ::= fun f => amod f ord (fun n => u32 (n - 1))⟧.

Definition add_to_free_list (page ord : Z) (s : buddy_state) : buddy_state :=
  let pool := amod (page_descriptors s) page (fun p => p⟦order := ord⟧) in
  let '(pool, hd) := push_front pool (free_lists s).[ord] page in
  s⟦free_lists ::= fun f => aset f ord hd⟧
   ⟦page_descriptors := pool⟧
   ⟦free_pages ::= fun f => amod f ord (fun n => u32 (n + 1))⟧.

(** The loop that adds one maximal block per iteration. *)
Definition init_block (max_block_size i : Z) (s : buddy_state) : buddy_state :=
  let addr := u32 (BUDDY_START_ADDR + i * max_block_size) in
  match addr_to_page addr with
  | Some page =>
      (add_to_free_list page (MAX_ORDER - 1) s)
        ⟦total_free ::= fun n => u64 (n + (1 <<: (MAX_ORDER - 1)))⟧
  | None => s
  end.

(** The free lists, the counters and the page descriptors are cleared. *)
Definition buddy_clear (s : buddy_state) : buddy_state :=
  let s := iter_up (Z.to_nat MAX_ORDER) 0 (fun i s =>
             s⟦free_lists ::= fun f => aset f i None⟧
              ⟦free_pages ::= fun f => aset f i 0⟧) s in
  let s := s⟦total_free := 0⟧⟦total_used := 0⟧ in
  iter_up (Z.to_nat BUDDY_TOTAL_PAGES) 0 (fun i s =>
    s⟦page_descriptors ::= fun p => aset p i (mk_page None None 0 0 0)⟧) s.

Definition buddy_init (s : buddy_state) : buddy_state :=
  if buddy_initialized s then s
  else
    let s := buddy_clear s in
    let max_block_size := u32 (PAGE_SIZE <<: (MAX_ORDER - 1)) in
    let num_max_blocks := (BUDDY_END_ADDR - BUDDY_START_ADDR) / max_block_size in
    let s := iter_up (Z.to_nat num_max_blocks) 0 (init_block max_block_size) s in
    s⟦buddy_initialized := true⟧.

(** [while (current_order > order)]: [n] is [current_order - order]. *)
Fixpoint split_block (n : nat) (current_order page : Z) (s : buddy_state) : buddy_state :=
  match n with
  | O => s
  | S n' =>
      let current_order := current_order - 1 in
      let addr := page_to_addr page in
      let buddy_addr := get_buddy addr current_order in
      let s := match addr_to_page buddy_addr with
               | Some buddy_page => add_to_free_list buddy_page current_order s
               | None => s
               end in
      split_block n' current_order page s
  end.

Definition buddy_alloc (ord : Z) (s : buddy_state) : Z * buddy_state :=
  if negb (buddy_initialized s) || (MAX_ORDER <=? ord) then (0, s)
  else
    match find_up (Z.to_nat (MAX_ORDER - ord)) ord (fun o => negb (is_null (free_lists s).[o])) with
    | None => (0, s)
    | Some current_order =>
        match (free_lists s).[current_order] with
        | None => (0, s)
        | Some page =>
            let s := remove_from_free_list page current_order s in
            let s := split_block (Z.to_nat (current_order - ord)) current_order page s in
            let s := s⟦page_descriptors ::= fun d =>
                         amod d page (fun p => p⟦order := ord⟧⟦ref_count := 1⟧⟦flags := 0⟧)⟧ in
            let s := s⟦total_free ::= fun n => u64 (n - (1 <<: ord))⟧
                      ⟦total_used ::= fun n => u64 (n + (1 <<: ord))⟧ in
            (page_to_addr page, s)
        end
    end.

(** Every walk of a free list visits each descriptor at most once. *)
Definition walk_fuel : nat := Z.to_nat BUDDY_TOTAL_PAGES.

(** [while (order < MAX_ORDER - 1)]: [n] is [MAX_ORDER - 1 - order]. *)
Fixpoint coalesce (n : nat) (addr page ord : Z) (s : buddy_state) : option (Z * Z * buddy_state) :=
  match n with
  | O => Some (page, ord, s)
  | S n' =>
      let buddy_addr := get_buddy addr ord in
      match addr_to_page buddy_addr with
      | None => Some (page, ord, s)
      | Some bp =>
          let b := (page_descriptors s).[bp] in
          if negb (order b =? ord) || negb (ref_count b =? 0) then Some (page, ord, s)
          else
            found ← list_member walk_fuel (page_descriptors s) (free_lists s).[ord] bp;
            if negb found then Some (page, ord, s)
            else
              let s := remove_from_free_list bp ord s in
              let '(addr, page) := if buddy_addr <? addr then (buddy_addr, bp) else (addr, page) in
              coalesce n' addr page (ord + 1) s
      end
  end.

Definition buddy_free (addr ord : Z) (s : buddy_state) : option buddy_state :=
  if negb (buddy_initialized s) || (addr =? 0) || (MAX_ORDER <=? ord) then Some s
  else
    match addr_to_page addr with
    | None => Some s
    | Some page =>
        let s := s⟦page_descriptors ::= fun d =>
                     amod d page (fun p => if 0 <? ref_count p then p⟦ref_count := ref_count p - 1⟧ else p)⟧ in
        if 0 <? ref_count (page_descriptors s).[page] then Some s
        else
          let s := s⟦total_free ::= fun n => u64 (n + (1 <<: ord))⟧
                    ⟦total_used ::= fun n => u64 (n - (1 <<: ord))⟧ in
          '(page, ord, s) ← coalesce (Z.to_nat (MAX_ORDER - 1 - ord)) addr page ord s;
          let s := s⟦page_descriptors ::= fun d => amod d page (fun p => p⟦order := ord⟧)⟧ in
          Some (add_to_free_list page ord s)
    end.

(** [while (block_size < size && order < MAX_ORDER - 1)]: [n] is
    [MAX_ORDER - 1 - order]. *)
Fixpoint get_order_loop (n : nat) (block_size ord size : Z) : Z :=
  match n with
  | O => ord
  | S n' =>
      if block_size <? size then get_order_loop n' (u32 (block_size <<: 1)) (ord + 1) size
      else ord
  end.

Definition buddy_get_order (size : Z) : Z :=
  get_order_loop (Z.to_nat (MAX_ORDER - 1)) PAGE_SIZE 0 size.

Definition buddy_alloc_pages (num_pages : Z) (s : buddy_state) : Z * buddy_state :=
  if num_pages =? 0 then (0, s)
  else buddy_alloc (buddy_get_order (u32 (num_pages * PAGE_SIZE))) s.

Definition buddy_free_pages (addr num_pages : Z) (s : buddy_state) : option buddy_state :=
  if (addr =? 0) || (num_pages =? 0) then Some s
  else buddy_free addr (buddy_get_order (u32 (num_pages * PAGE_SIZE))) s.

(** ** Blocks *)

(** A block is the page index of its head and its order. *)
Definition block_ok (i o : Z) : Prop :=
  0 ≤ o < MAX_ORDER ∧ 0 ≤ i ∧ i + 2 ^ o ≤ BUDDY_TOTAL_PAGES ∧ i mod 2 ^ o = 0.

Definition in_block (i o p : Z) : Prop := i ≤ p < i + 2 ^ o.

(** The head of the other half of the block of order [o + 1] around [i]. *)
Definition buddy_index (i o : Z) : Z := if Z.testbit i o then i - 2 ^ o else i + 2 ^ o.

(** The blocks of [blk] are legal, disjoint, and cover the managed range. *)
Record partition (blk : Z → Z → Prop) : Prop := {
  part_ok i o : blk i o → block_ok i o;
  part_disjoint i o j o' p : blk i o → blk j o' → in_block i o p → in_block j o' p → i = j ∧ o = o';
  part_cover p : 0 ≤ p < BUDDY_TOTAL_PAGES → ∃ i o, blk i o ∧ in_block i o p;
}.

Section arithmetic.

Lemma pow2_pos o : 0 ≤ o → 0 < 2 ^ o.
Proof. intros. apply Z.pow_pos_nonneg; lia. Qed.

Lemma pow2_succ o : 0 ≤ o → 2 ^ (o + 1) = 2 * 2 ^ o.
Proof. intros. rewrite Z.add_1_r, Z.pow_succ_r by done. done. Qed.

Lemma lxor_pow2 a o : 0 ≤ o →
  a ^: (2 ^ o) = if Z.testbit a o then a - 2 ^ o else a + 2 ^ o.
Proof.
  intros Ho. destruct (Z.testbit a o) eqn:Hb.
  - assert (a = (a ^: 2 ^ o) + 2 ^ o) as E; [|lia].
    rewrite Z.add_nocarry_lxor.
    + by rewrite Z.lxor_assoc, Z.lxor_nilpotent, Z.lxor_0_r.
    + apply Z.bits_inj'. intros k Hk. rewrite Z.land_spec, Z.lxor_spec, Z.pow2_bits_eqb, Z.bits_0 by done.
      destruct (Z.eqb_spec o k) as [->|]; [by rewrite Hb|apply andb_false_r].
  - symmetry. apply Z.add_nocarry_lxor. apply Z.bits_inj'. intros k Hk.
    rewrite Z.land_spec, Z.pow2_bits_eqb, Z.bits_0 by done.
    destruct (Z.eqb_spec o k) as [->|]; [by rewrite Hb|apply andb_false_r].
Qed.

Lemma testbit_mod_div i o : 0 ≤ o → i mod 2 ^ o = 0 →
  Z.testbit i o = negb (i mod 2 ^ (o + 1) =? 0).
Proof.
  intros Ho Hi. rewrite Z.testbit_odd, Z.shiftr_div_pow2 by done.
  rewrite pow2_succ by done. pose proof (pow2_pos o Ho).
  rewrite (Z.mul_comm 2), Z.rem_mul_r, Hi by lia.
  rewrite Z.add_0_l, Zmod_odd. destruct (Z.odd (i / 2 ^ o)).
  - symmetry. apply negb_true_iff, Z.eqb_neq. lia.
  - rewrite Z.mul_0_r. done.
Qed.

(** The two halves of an aligned block of order [o + 1]. *)
Lemma buddy_index_spec i o : 0 ≤ o → i mod 2 ^ o = 0 →
  (i mod 2 ^ (o + 1) = 0 ∧ buddy_index i o = i + 2 ^ o) ∨
  ((i - 2 ^ o) mod 2 ^ (o + 1) = 0 ∧ buddy_index i o = i - 2 ^ o).
Proof.
  intros Ho Hi. unfold buddy_index. rewrite testbit_mod_div by done.
  destruct (Z.eqb_spec (i mod 2 ^ (o + 1)) 0) as [E|E]; cbn [negb]; [by left|right].
  split; [|done]. rewrite pow2_succ in * by done. pose proof (pow2_pos o Ho).
  rewrite (Z.mul_comm 2), Z.rem_mul_r, Hi in E by lia.
  apply Z.mod_divide; [lia|].
  assert ((i / 2 ^ o) mod 2 = 1) as E2 by (pose proof (Z.mod_pos_bound (i / 2 ^ o) 2); nia).
  exists (i / 2 ^ o / 2).
  rewrite (Z.div_mod i (2 ^ o)) at 1 by lia. rewrite Hi.
  rewrite (Z.div_mod (i / 2 ^ o) 2) at 1 by lia. rewrite E2. ring.
Qed.

Lemma mod_add_self i o : 0 ≤ o → i mod 2 ^ (o + 1) = 0 → i mod 2 ^ o = 0 ∧ (i + 2 ^ o) mod 2 ^ o = 0.
Proof.
  intros Ho Hi. pose proof (pow2_pos o Ho). rewrite pow2_succ in Hi by done.
  apply Z.mod_divide in Hi as [k ->]; [|lia].
  split; apply Z.mod_divide; try lia; [exists (k * 2)|exists (k * 2 + 1)]; ring.
Qed.

Lemma pow2_le o : 0 ≤ o < MAX_ORDER → 2 ^ o ≤ 1024.
Proof. unfold MAX_ORDER. intros. change 1024 with (2 ^ 10). apply Z.pow_le_mono_r; lia. Qed.

(** A maximal-order group contains whole blocks only, and the range is a
    whole number of groups. *)
Lemma block_group i o : 0 ≤ o → o + 1 < MAX_ORDER → 0 ≤ i < BUDDY_TOTAL_PAGES → i mod 2 ^ (o + 1) = 0 →
  i + 2 ^ (o + 1) ≤ BUDDY_TOTAL_PAGES.
Proof.
  unfold MAX_ORDER, BUDDY_TOTAL_PAGES. intros Ho1 Ho2 Hi Hm.
  assert (2 ^ 10 = 2 ^ (10 - (o + 1)) * 2 ^ (o + 1)) as E by (rewrite <-Z.pow_add_r by lia; f_equal; lia).
  change (2 ^ 10) with 1024 in E. pose proof (pow2_pos (o + 1)) as Hp.
  apply Z.mod_divide in Hm as [k Hk]; [|lia].
  set (c := 2 ^ (10 - (o + 1))) in *. set (w := 2 ^ (o + 1)) in *. clearbody c w.
  assert (k < 31 * c) by (apply (Z.mul_lt_mono_pos_r w); lia). nia.
Qed.

Lemma buddy_block_ok i o : o + 1 < MAX_ORDER → block_ok i o →
  block_ok (buddy_index i o) o ∧ block_ok (Z.min i (buddy_index i o)) (o + 1).
Proof.
  intros Ho (Hr & H0 & Hn & Hm). pose proof (pow2_pos o) as Hp.
  destruct (buddy_index_spec i o) as [[Hg ->]|[Hg ->]]; [lia|done| |].
  - pose proof (block_group i o) as Hbg. destruct (mod_add_self i o); [lia|done|].
    rewrite pow2_succ in * by lia. rewrite Z.min_l by lia. unfold block_ok.
    rewrite pow2_succ by lia. split; (split_and!; [lia|lia|lia|lia|done]).
  - assert (0 ≤ i - 2 ^ o).
    { rewrite pow2_succ in Hg by lia. apply Z.mod_divide in Hg as [k Hk]; [|lia].
      assert (0 < 2 ^ o) by lia. destruct (Z.le_gt_cases 0 k); nia. }
    destruct (mod_add_self (i - 2 ^ o) o); [lia|done|].
    rewrite Z.min_r by lia. unfold block_ok.
    rewrite pow2_succ by lia. rewrite pow2_succ in Hg by lia.
    split; (split_and!; [lia|lia|lia|lia|done]).
Qed.

Lemma buddy_index_ne i o : 0 ≤ o → buddy_index i o ≠ i.
Proof. intros. pose proof (pow2_pos o). unfold buddy_index. destruct (Z.testbit i o); lia. Qed.

Lemma buddy_index_low i o : 0 ≤ o → i mod 2 ^ (o + 1) = 0 → buddy_index i o = i + 2 ^ o.
Proof.
  intros Ho Hi. destruct (mod_add_self i o) as [Hi' _]; [done|done|].
  unfold buddy_index. rewrite testbit_mod_div, Hi by done. done.
Qed.

(** The halves of an aligned block are each other's buddies. *)
Lemma buddy_index_high i o : 0 ≤ o → i mod 2 ^ (o + 1) = 0 → buddy_index (i + 2 ^ o) o = i.
Proof.
  intros Ho Hi. destruct (mod_add_self i o) as [Hi' Hi'']; [done|done|]. pose proof (pow2_pos o Ho).
  destruct (buddy_index_spec (i + 2 ^ o) o) as [[Hg _]|[_ ->]]; [done|done| |lia].
  exfalso. rewrite pow2_succ in * by done.
  apply Z.mod_divide in Hg as [k Hk]; [|lia]. apply Z.mod_divide in Hi as [k' Hk']; [|lia].
  assert (2 * k' + 1 = 2 * k) by (apply (Z.mul_reg_r _ _ (2 ^ o)); lia). lia.
Qed.

(** Two aligned blocks are nested or disjoint. *)
Lemma aligned_nested i o j o' p :
  0 ≤ o ≤ o' → i mod 2 ^ o = 0 → j mod 2 ^ o' = 0 → in_block i o p → in_block j o' p →
  j ≤ i ∧ i + 2 ^ o ≤ j + 2 ^ o'.
Proof.
  intros Ho Hi Hj Hp Hp'. unfold in_block in *.
  assert (2 ^ o' = 2 ^ (o' - o) * 2 ^ o) as E by (rewrite <-Z.pow_add_r by lia; f_equal; lia).
  pose proof (pow2_pos o). pose proof (pow2_pos (o' - o)). rewrite E in *.
  apply Z.mod_divide in Hi as [k ->]; [|lia]. apply Z.mod_divide in Hj as [k' ->]; [|nia].
  set (w := 2 ^ o) in *. set (c := 2 ^ (o' - o)) in *. clearbody w c.
  assert (k' * c ≤ k < k' * c + c) by nia. nia.
Qed.

(** ** Addresses *)

Lemma page_to_addr_eq i : 0 ≤ i < BUDDY_TOTAL_PAGES → page_to_addr i = (1024 + i) * PAGE_SIZE.
Proof.
  unfold BUDDY_TOTAL_PAGES, page_to_addr, BUDDY_START_ADDR, PAGE_SIZE. intros.
  rewrite u32_small by lia. lia.
Qed.

Lemma addr_to_page_to_addr i : 0 ≤ i < BUDDY_TOTAL_PAGES → addr_to_page (page_to_addr i) = Some i.
Proof.
  intros Hi. rewrite page_to_addr_eq by done. unfold addr_to_page.
  unfold BUDDY_TOTAL_PAGES, BUDDY_START_ADDR, BUDDY_END_ADDR, PAGE_SIZE in *.
  case_if; [lia|]. case_if; [lia|]. f_equal.
  match goal with |- ?a / _ = _ => replace a with (i * 4096) by lia end. apply Z.div_mul. lia.
Qed.

(** [phys ^ block_size] is the address of the buddy. *)
Lemma get_buddy_spec i o : o + 1 < MAX_ORDER → block_ok i o →
  get_buddy (page_to_addr i) o = page_to_addr (buddy_index i o).
Proof.
  intros Ho Hok. destruct (buddy_block_ok i o Ho Hok) as [(_ & Hb0 & Hbn & _) _].
  pose proof (pow2_pos o) as Hp. destruct Hok as (Hr & H0 & Hn & Hm).
  rewrite !page_to_addr_eq by lia. unfold get_buddy.
  change PAGE_SIZE with (2 ^ 12). rewrite (Z.shiftl_mul_pow2 (2 ^ 12) o), <-Z.pow_add_r by lia.
  rewrite u32_small by (split; [lia|]; apply Z.pow_lt_mono_r; unfold MAX_ORDER in *; lia).
  rewrite lxor_pow2 by lia.
  replace ((1024 + i) * 2 ^ 12) with (Z.shiftl (1024 + i) 12) by (rewrite Z.shiftl_mul_pow2; lia).
  rewrite Z.shiftl_spec by lia. replace (12 + o - 12) with o by lia.
  rewrite Z.shiftl_mul_pow2 by lia. rewrite Z.pow_add_r by lia.
  assert (Z.testbit (1024 + i) o = Z.testbit i o) as ->.
  { unfold MAX_ORDER in *. rewrite <-(Z.mod_pow2_bits_low (1024 + i) 10 o) by lia.
    change 1024 with (1 * 2 ^ 10). rewrite Z.add_comm, Z.mod_add by lia.
    apply Z.mod_pow2_bits_low. lia. }
  unfold buddy_index. destruct (Z.testbit i o); lia.
Qed.

Lemma page_to_addr_lt i j : 0 ≤ i < BUDDY_TOTAL_PAGES → 0 ≤ j < BUDDY_TOTAL_PAGES →
  (page_to_addr i <? page_to_addr j) = (i <? j).
Proof.
  intros Hi Hj. rewrite !page_to_addr_eq by done. unfold PAGE_SIZE.
  destruct (Z.ltb_spec i j), (Z.ltb_spec ((1024 + i) * 4096) ((1024 + j) * 4096)); lia.
Qed.

End arithmetic.

(** ** Partitions: splitting a block and merging two buddies *)

Section partitions.
Implicit Types blk R : Z → Z → Prop.

Lemma partition_ext blk blk' : (∀ i o, blk i o ↔ blk' i o) → partition blk → partition blk'.
Proof.
  intros E [Hok Hdis Hcov]. split.
  - intros i o H%E. eauto.
  - intros i o j o' p H1%E H2%E. eauto.
  - intros p (i & o & H%E & Hin)%Hcov. eauto.
Qed.

Lemma in_block_head i o : 0 ≤ o → in_block i o i.
Proof. intros Ho. pose proof (pow2_pos o Ho). unfold in_block. lia. Qed.

Lemma in_block_halves x k p : 0 ≤ k →
  in_block x (k + 1) p ↔ in_block x k p ∨ in_block (x + 2 ^ k) k p.
Proof. intros Hk. unfold in_block. rewrite pow2_succ by done. pose proof (pow2_pos k Hk). lia. Qed.

(** Every block contains its head, so a head determines its order. *)
Lemma partition_head blk i o o' : partition blk → blk i o → blk i o' → o = o'.
Proof.
  intros [Hok Hdis _] H1 H2. destruct (Hok _ _ H1) as (? & _), (Hok _ _ H2) as (? & _).
  eapply (Hdis i o i o' i); auto using in_block_head with lia; apply in_block_head; lia.
Qed.

Lemma partition_split R x k : 0 ≤ k →
  (∀ o, ¬ R x o) →
  partition (fun i o => R i o ∨ (i = x ∧ o = k + 1)) →
  partition (fun i o => R i o ∨ (i = x ∧ o = k) ∨ (i = x + 2 ^ k ∧ o = k)).
Proof.
  intros Hk HR [Hok Hdis Hcov]. pose proof (pow2_pos k Hk) as Hp.
  destruct (Hok x (k + 1)) as (Hr & H0 & Hn & Hm); [auto|].
  destruct (mod_add_self x k Hk Hm) as [Hm1 Hm2]. rewrite pow2_succ in Hn by done.
  assert (∀ i o p, R i o → in_block i o p → ¬ in_block x (k + 1) p) as Hout.
  { intros i o p HRi Hin Hx. destruct (Hdis i o x (k + 1) p) as [-> ->]; eauto. by eapply HR. }
  split.
  - intros i o [H|[[-> ->]|[-> ->]]]; [eauto|..]; unfold block_ok; (split_and!; [lia..|done]).
  - assert (∀ p, in_block x k p ∨ in_block (x + 2 ^ k) k p → in_block x (k + 1) p) as Hh
      by (intros p; apply in_block_halves; done).
    intros i o j o' p [H1|[[-> ->]|[-> ->]]] [H2|[[-> ->]|[-> ->]]] Hi Hj;
      first [by eauto|by (exfalso; eapply Hout; eauto)|unfold in_block in *; lia].
  - intros p Hpr. destruct (Hcov p Hpr) as (i & o & [H|[-> ->]] & Hin); [by eauto|].
    apply in_block_halves in Hin as [Hin|Hin]; [| |done].
    + exists x, k. auto.
    + exists (x + 2 ^ k), k. auto.
Qed.

Lemma partition_merge R x k : 0 ≤ k →
  (∀ o, ¬ R x o) → (∀ o, ¬ R (x + 2 ^ k) o) →
  block_ok x (k + 1) →
  partition (fun i o => R i o ∨ (i = x ∧ o = k) ∨ (i = x + 2 ^ k ∧ o = k)) →
  partition (fun i o => R i o ∨ (i = x ∧ o = k + 1)).
Proof.
  intros Hk HR HR' Hx [Hok Hdis Hcov].
  assert (∀ i o p, R i o → in_block i o p → ¬ in_block x (k + 1) p) as Hout.
  { intros i o p HRi Hin [Hx1|Hx1]%in_block_halves; [..|done].
    - destruct (Hdis i o x k p) as [-> ->]; eauto. by eapply HR.
    - destruct (Hdis i o (x + 2 ^ k) k p) as [-> ->]; eauto. by eapply HR'. }
  split.
  - intros i o [H|[-> ->]]; eauto.
  - intros i o j o' p [H1|[-> ->]] [H2|[-> ->]] Hi Hj; [by eauto| | |done];
      exfalso; eapply Hout; eauto.
  - intros p Hpr. destruct (Hcov p Hpr) as (i & o & [H|[[-> ->]|[-> ->]]] & Hin); [by eauto|..];
      exists x, (k + 1); (split; [by right|]); apply in_block_halves; auto.
Qed.

End partitions.

(** ** The representation invariant *)

(** Pages in a map from block heads to orders. *)
Definition wsum (m : gmap Z Z) : Z := map_fold (fun _ o a => 2 ^ o + a) 0 m.

(** Pages on the free lists. *)
Definition free_sum (fl : Z → list Z) : Z :=
  foldr (fun o a => Z.of_nat (length (fl o)) * 2 ^ o + a) 0 (seqZ 0 MAX_ORDER).

(** The free blocks, the allocated blocks, and the blocks an operation is
    holding while it moves them between the two. *)
Definition blocks (fl : Z → list Z) (al held : gmap Z Z) (i o : Z) : Prop :=
  (0 ≤ o < MAX_ORDER ∧ i ∈ fl o) ∨ al !! i = Some o ∨ held !! i = Some o.

Record buddy_rep (s : buddy_state) (fl : Z → list Z) (al held : gmap Z Z) : Prop := {
  rep_list o : 0 ≤ o < MAX_ORDER → dll (page_descriptors s) (free_lists s).[o] (fl o);
  rep_count o : 0 ≤ o < MAX_ORDER → (free_pages s).[o] = Z.of_nat (length (fl o));
  rep_free i o : 0 ≤ o < MAX_ORDER → i ∈ fl o → order (page_descriptors s).[i] = o;
  rep_used i o : al !! i = Some o → order (page_descriptors s).[i] = o;
  rep_ref i : ref_count (page_descriptors s).[i] = if decide (is_Some (al !! i)) then 1 else 0;
  rep_part : partition (blocks fl al held);
  rep_free_excl i o : 0 ≤ o < MAX_ORDER → i ∈ fl o → al !! i = None ∧ held !! i = None;
  rep_held_excl : al ##ₘ held;
  rep_sum : free_sum fl + wsum al + wsum held = BUDDY_TOTAL_PAGES;
}.

Definition totals_ok (s : buddy_state) (al : gmap Z Z) : Prop :=
  total_free s = BUDDY_TOTAL_PAGES - wsum al ∧ total_used s = wsum al.

(** No block is free together with its buddy. *)
Definition coalesced (fl : Z → list Z) : Prop :=
  ∀ o i, 0 ≤ o < MAX_ORDER - 1 → i ∈ fl o → buddy_index i o ∉ fl o.

(** The contract: [al] is the map from the heads of the allocated blocks to
    their orders. *)
Definition buddy_inv (s : buddy_state) (al : gmap Z Z) : Prop :=
  buddy_initialized s = true ∧
  ∃ fl, buddy_rep s fl al ∅ ∧ totals_ok s al ∧ coalesced fl.

Section sums.

Lemma wsum_insert m i o : m !! i = None → wsum (<[i:=o]> m) = 2 ^ o + wsum m.
Proof. intros Hi. unfold wsum. rewrite map_fold_insert_L; [done|intros; lia|done]. Qed.

Lemma wsum_delete m i o : m !! i = Some o → wsum m = 2 ^ o + wsum (delete i m).
Proof.
  intros Hi. rewrite <-(insert_delete_id m i o Hi) at 1. apply wsum_insert, lookup_delete_eq.
Qed.

Lemma wsum_nonneg m : 0 ≤ wsum m.
Proof.
  induction m as [|i o m Hi IH] using map_ind; [done|].
  rewrite wsum_insert by done. pose proof (Z.pow_nonneg 2 o). lia.
Qed.

Lemma free_sum_insert fl k (l : list Z) : 0 ≤ k < MAX_ORDER →
  free_sum (<[k:=l]> fl) = free_sum fl + (Z.of_nat (length l) - Z.of_nat (length (fl k))) * 2 ^ k.
Proof.
  intros Hk. unfold free_sum.
  assert (k ∈ seqZ 0 MAX_ORDER) as Hin by (apply elem_of_seqZ; lia).
  pose proof (NoDup_seqZ 0 MAX_ORDER) as Hnd. revert Hin Hnd. clear Hk.
  induction (seqZ 0 MAX_ORDER) as [|o os IH]; [set_solver|].
  intros [->|Hin]%elem_of_cons [Ho Hnd]%NoDup_cons; cbn [foldr].
  - rewrite fn_lookup_insert. enough (∀ os, o ∉ os →
      foldr (λ o0 a, Z.of_nat (length (<[o:=l]> fl o0)) * 2 ^ o0 + a) 0 os =
      foldr (λ o0 a, Z.of_nat (length (fl o0)) * 2 ^ o0 + a) 0 os) as E by (rewrite E; [lia|done]).
    clear. induction os as [|o' os IH]; [done|]. intros Ho. cbn [foldr].
    rewrite fn_lookup_insert_ne, IH by set_solver. done.
  - rewrite fn_lookup_insert_ne by set_solver. rewrite IH by done. lia.
Qed.

Lemma free_sum_nonneg fl : 0 ≤ free_sum fl.
Proof.
  unfold free_sum. induction (seqZ 0 MAX_ORDER) as [|o os IH]; [done|]. cbn [foldr].
  pose proof (Z.pow_nonneg 2 o). nia.
Qed.

End sums.

Section rep.
Context (s : buddy_state) (fl : Z → list Z) (al held : gmap Z Z).
Context (Hrep : buddy_rep s fl al held).

Lemma rep_ok i o : blocks fl al held i o → block_ok i o.
Proof. apply part_ok, Hrep. Qed.

Lemma rep_free_ok i o : 0 ≤ o < MAX_ORDER → i ∈ fl o → block_ok i o.
Proof. intros. apply rep_ok. by left. Qed.

(** A page is on at most one list. *)
Lemma rep_lists_disjoint i o o' :
  0 ≤ o < MAX_ORDER → 0 ≤ o' < MAX_ORDER → i ∈ fl o → i ∈ fl o' → o = o'.
Proof. intros. eapply (partition_head _ i); [apply Hrep|by left..]. Qed.

Lemma rep_length o : 0 ≤ o < MAX_ORDER → Z.of_nat (length (fl o)) ≤ BUDDY_TOTAL_PAGES.
Proof.
  intros Ho. destruct (rep_list _ _ _ _ Hrep o Ho) as (_ & Hnd & _).
  assert (fl o ⊆+ seqZ 0 BUDDY_TOTAL_PAGES) as Hsub.
  { apply NoDup_submseteq; [done|]. intros i Hi. apply elem_of_seqZ.
    destruct (rep_free_ok i o Ho Hi) as (? & ? & ? & _). pose proof (pow2_pos o). lia. }
  apply submseteq_length in Hsub. rewrite length_seqZ in Hsub. unfold BUDDY_TOTAL_PAGES in *. lia.
Qed.

Lemma rep_total_range : wsum held ≤ BUDDY_TOTAL_PAGES - wsum al ∧ 0 ≤ wsum al.
Proof.
  pose proof (rep_sum _ _ _ _ Hrep). pose proof (free_sum_nonneg fl).
  pose proof (wsum_nonneg al). pose proof (wsum_nonneg held). lia.
Qed.

End rep.

(** *** Taking a block off its free list *)

Lemma remove_order s x k i : order (page_descriptors (remove_from_free_list x k s)).[i] = order (page_descriptors s).[i].
Proof.
  unfold remove_from_free_list.
  pose proof (unlink_frame order (fun _ _ => eq_refl) (fun _ _ => eq_refl)
    (page_descriptors s) (free_lists s).[k] x i) as E.
  destruct (unlink _ _ _) as [pool hd]; cbn in *. by rewrite (clear_links_frame order).
Qed.

Lemma remove_ref_count s x k i :
  ref_count (page_descriptors (remove_from_free_list x k s)).[i] = ref_count (page_descriptors s).[i].
Proof.
  unfold remove_from_free_list.
  pose proof (unlink_frame ref_count (fun _ _ => eq_refl) (fun _ _ => eq_refl)
    (page_descriptors s) (free_lists s).[k] x i) as E.
  destruct (unlink _ _ _) as [pool hd]; cbn in *. by rewrite (clear_links_frame ref_count).
Qed.

Lemma remove_list s x k l1 l2 o l :
  dll (page_descriptors s) (free_lists s).[k] (l1 ++ x :: l2) →
  (if decide (o = k) then l = l1 ++ l2
   else dll (page_descriptors s) (free_lists s).[o] l ∧ ∀ i, i ∈ l → i ∉ l1 ++ x :: l2) →
  dll (page_descriptors (remove_from_free_list x k s)) (free_lists (remove_from_free_list x k s)).[o] l.
Proof.
  intros Hk Ho. unfold remove_from_free_list.
  pose proof (unlink_dll _ _ _ _ _ Hk) as Hd. pose proof (unlink_other _ _ _ _ _ Hk) as Hoth.
  destruct (unlink _ _ _) as [pool hd]; cbn in *.
  assert (x ∉ l1 ++ l2) as Hx.
  { destruct Hk as (_ & Hnd & _). apply NoDup_app in Hnd as (_ & ? & [? _]%NoDup_cons). set_solver. }
  case_decide as Hok; subst.
  - rewrite aget_aset_eq. by apply clear_links_dll.
  - rewrite aget_aset_ne by done. destruct Ho as [Ho Hl]. apply clear_links_dll; [set_solver|].
    eapply dll_ext; [|exact Ho]. intros i Hi. apply Hoth. auto.
Qed.

Lemma remove_rep s fl al held k x l1 l2 :
  buddy_rep s fl al held → 0 ≤ k < MAX_ORDER → fl k = l1 ++ x :: l2 →
  buddy_rep (remove_from_free_list x k s) (<[k:=l1 ++ l2]> fl) al (<[x:=k]> held).
Proof.
  intros Hrep Hk Efl.
  assert (x ∈ fl k) as Hxk by (rewrite Efl; set_solver).
  destruct (rep_free_excl _ _ _ _ Hrep x k Hk Hxk) as [Hxa Hxh].
  assert (∀ o, o ≠ k → 0 ≤ o < MAX_ORDER → ∀ i, i ∈ fl o → i ∉ fl k) as Hdis.
  { intros o Hne Ho i Hi Hi'. by apply Hne, (rep_lists_disjoint _ _ _ _ Hrep i). }
  assert (∀ o i, 0 ≤ o < MAX_ORDER → i ∈ (<[k:=l1 ++ l2]> fl) o ↔ i ∈ fl o ∧ i ≠ x) as Hfl.
  { intros o i Ho. destruct (decide (o = k)) as [->|Hne].
    - rewrite fn_lookup_insert, Efl. pose proof (rep_list _ _ _ _ Hrep k Hk) as (_ & Hnd & _).
      rewrite Efl in Hnd. apply NoDup_app in Hnd as (_ & ? & [? _]%NoDup_cons). set_solver.
    - rewrite fn_lookup_insert_ne by done. split; [|tauto]. intros Hi. split; [done|].
      intros ->. by apply (Hdis o Hne Ho x Hi). }
  split.
  - intros o Ho. eapply (remove_list _ _ _ l1 l2); [rewrite <-Efl; by apply Hrep|].
    case_decide as Hok; [subst; by rewrite fn_lookup_insert|].
    rewrite fn_lookup_insert_ne by done. rewrite <-Efl. split; [by apply Hrep|by apply Hdis].
  - intros o Ho. unfold remove_from_free_list. destruct (unlink _ _ _) as [pool hd]; cbn.
    rewrite aget_amod. pose proof (rep_length _ _ _ _ Hrep k Hk) as Hlen.
    case_decide as Hok; [subst|rewrite fn_lookup_insert_ne by done; by apply Hrep].
    rewrite fn_lookup_insert, (rep_count _ _ _ _ Hrep) by done. rewrite Efl in *.
    rewrite !length_app in *. cbn [length] in *. unfold BUDDY_TOTAL_PAGES in Hlen.
    rewrite u32_small by lia. lia.
  - intros i o Ho [Hi _]%Hfl; [|done]. rewrite remove_order. by apply Hrep.
  - intros i o Hi. rewrite remove_order. by apply (rep_used _ _ _ _ Hrep).
  - intros i. rewrite remove_ref_count. apply Hrep.
  - eapply partition_ext, Hrep. intros i o. unfold blocks. rewrite lookup_insert_Some. split.
    + intros [[Ho Hi]|[H|H]]; [|tauto|].
      * destruct (decide (i = x)) as [->|Hne]; [|left; split; [done|]; by apply Hfl].
        right; right; left. split; [done|]. by apply (rep_lists_disjoint _ _ _ _ Hrep x).
      * right; right; right. split; [|done]. congruence.
    + intros [[Ho Hi]|[H|[[<- <-]|[_ H]]]]; [|by auto|by left|by auto].
      left. split; [done|]. by apply Hfl in Hi as [? ?].
  - intros i o Ho [Hi Hne]%Hfl; [|done]. rewrite lookup_insert_ne by done. by apply (rep_free_excl _ _ _ _ Hrep i o).
  - apply map_disjoint_insert_r. split; [done|apply Hrep].
  - pose proof (rep_sum _ _ _ _ Hrep) as Hs. rewrite free_sum_insert, wsum_insert by done.
    rewrite Efl, !length_app. cbn [length]. lia.
Qed.

(** *** Putting a held block on its free list *)

Lemma add_order s x k i :
  order (page_descriptors (add_to_free_list x k s)).[i] =
    if decide (x = i) then k else order (page_descriptors s).[i].
Proof.
  unfold add_to_free_list. set (pool := amod _ _ _).
  pose proof (push_front_frame order (fun _ _ => eq_refl) (fun _ _ => eq_refl)
    pool (free_lists s).[k] x i) as E.
  destruct (push_front _ _ _) as [pool' hd]; cbn in *. rewrite E. subst pool.
  rewrite aget_amod. case_decide; by subst.
Qed.

Lemma add_ref_count s x k i :
  ref_count (page_descriptors (add_to_free_list x k s)).[i] = ref_count (page_descriptors s).[i].
Proof.
  unfold add_to_free_list. set (pool := amod _ _ _).
  pose proof (push_front_frame ref_count (fun _ _ => eq_refl) (fun _ _ => eq_refl)
    pool (free_lists s).[k] x i) as E.
  destruct (push_front _ _ _) as [pool' hd]; cbn in *. rewrite E. subst pool.
  rewrite aget_amod. case_decide; by subst.
Qed.

Lemma add_list s x k o lk l :
  dll (page_descriptors s) (free_lists s).[k] lk → x ∉ lk →
  (if decide (o = k) then l = x :: lk
   else dll (page_descriptors s) (free_lists s).[o] l ∧ (x ∉ l) ∧ ∀ i, i ∈ l → i ∉ lk) →
  dll (page_descriptors (add_to_free_list x k s)) (free_lists (add_to_free_list x k s)).[o] l.
Proof.
  intros Hk Hx Ho. unfold add_to_free_list. set (pool := amod _ _ _).
  assert (∀ hd l, dll (page_descriptors s) hd l → dll pool hd l) as Hpool.
  { intros hd l'. apply dll_ext. intros i Hi. subst pool. rewrite aget_amod.
    destruct (decide (x = i)) as [->|]; done. }
  pose proof (push_front_dll _ _ _ _ (Hpool _ _ Hk) Hx) as Hd.
  pose proof (fun i => push_front_other _ _ _ x i (Hpool _ _ Hk)) as Hoth.
  destruct (push_front _ _ _) as [pool' hd] eqn:E; cbn in *. unfold push_front in E. simplify_eq.
  case_decide as Hok; subst; [by rewrite aget_aset_eq|].
  rewrite aget_aset_ne by done. destruct Ho as (Ho & Hxl & Hl).
  eapply dll_ext; [|apply Hpool, Ho]. intros i Hi. apply Hoth; [|auto]. intros ->. done.
Qed.

Lemma add_rep s fl al held k x :
  buddy_rep s fl al held → held !! x = Some k →
  buddy_rep (add_to_free_list x k s) (<[k:=x :: fl k]> fl) al (delete x held).
Proof.
  intros Hrep Hx.
  destruct (rep_ok _ _ _ _ Hrep x k) as (Hk & _); [by right; right|].
  assert (∀ o, 0 ≤ o < MAX_ORDER → x ∉ fl o) as Hxf.
  { intros o Ho Hi. destruct (rep_free_excl _ _ _ _ Hrep x o Ho Hi). congruence. }
  assert (al !! x = None) as Hxa by (eapply map_disjoint_Some_r; [apply Hrep|done]).
  assert (∀ o i, 0 ≤ o < MAX_ORDER → i ∈ (<[k:=x :: fl k]> fl) o ↔ i ∈ fl o ∨ i = x ∧ o = k) as Hfl.
  { intros o i Ho. destruct (decide (o = k)) as [->|Hne].
    - rewrite fn_lookup_insert, elem_of_cons. tauto.
    - rewrite fn_lookup_insert_ne by done. tauto. }
  split.
  - intros o Ho. eapply (add_list _ _ _ _ (fl k)); [by apply Hrep|by apply Hxf|].
    case_decide as Hok; [subst; by rewrite fn_lookup_insert|].
    rewrite fn_lookup_insert_ne by done. split_and!; [by apply Hrep|by apply Hxf|].
    intros i Hi Hi'. by apply Hok, (rep_lists_disjoint _ _ _ _ Hrep i).
  - intros o Ho. unfold add_to_free_list. destruct (push_front _ _ _) as [pool hd]; cbn.
    rewrite aget_amod. pose proof (rep_length _ _ _ _ Hrep k Hk) as Hlen.
    case_decide as Hok; [subst|rewrite fn_lookup_insert_ne by done; by apply Hrep].
    rewrite fn_lookup_insert, (rep_count _ _ _ _ Hrep) by done.
    cbn [length] in *. unfold BUDDY_TOTAL_PAGES in Hlen. rewrite u32_small by lia. lia.
  - intros i o Ho Hi. rewrite add_order. apply Hfl in Hi as [Hi|[-> ->]]; [|by rewrite decide_True|done].
    rewrite decide_False by (intros ->; by apply (Hxf o)). by apply (rep_free _ _ _ _ Hrep).
  - intros i o Hi. rewrite add_order, decide_False by congruence. by apply (rep_used _ _ _ _ Hrep).
  - intros i. rewrite add_ref_count. apply Hrep.
  - eapply partition_ext, Hrep. intros i o. unfold blocks. rewrite lookup_delete_Some. split.
    + intros [[Ho Hi]|[H|H]]; [left; split; [done|]; apply Hfl; auto|by auto|].
      destruct (decide (x = i)) as [->|Hne]; [|by auto].
      left. assert (o = k) as -> by congruence. split; [done|]. apply Hfl; auto.
    + intros [[Ho Hi]|[H|[_ H]]]; [|by auto..]. apply Hfl in Hi as [Hi|[-> ->]]; [by auto..|done].
  - intros i o Ho Hi. apply Hfl in Hi as [Hi|[-> ->]]; [| |done].
    + rewrite lookup_delete_None. destruct (rep_free_excl _ _ _ _ Hrep i o Ho Hi). auto.
    + split; [done|apply lookup_delete_eq].
  - apply map_disjoint_delete_r, Hrep.
  - pose proof (rep_sum _ _ _ _ Hrep) as Hs. rewrite free_sum_insert by done.
    rewrite (wsum_delete held x k) in Hs by done. cbn [length]. lia.
Qed.

(** *** Splitting and merging held blocks *)

(** The blocks other than the held ones of a set of heads. *)
Lemma blocks_insert fl al held x k i o :
  held !! x = None → blocks fl al (<[x:=k]> held) i o ↔ blocks fl al held i o ∨ (i = x ∧ o = k).
Proof.
  intros Hx. unfold blocks. rewrite lookup_insert_Some. split.
  - intros [H|[H|[[-> ->]|[_ H]]]]; auto.
  - intros [[H|[H|H]]|[-> ->]]; auto. right; right; right. split; [congruence|done].
Qed.

Lemma split_rep s fl al held x k : 0 ≤ k →
  buddy_rep s fl al (<[x:=k + 1]> held) → held !! x = None →
  buddy_rep s fl al (<[x + 2 ^ k:=k]> (<[x:=k]> held)) ∧ held !! (x + 2 ^ k) = None.
Proof.
  intros Hk Hrep Hx. pose proof (pow2_pos k Hk) as Hp.
  assert (∀ o, ¬ blocks fl al held x o) as HR.
  { intros o [[Ho Hi]|[H|H]]; [..|congruence].
    - destruct (rep_free_excl _ _ _ _ Hrep x o Ho Hi) as [_ H]. by rewrite lookup_insert_eq in H.
    - assert (al !! x = None); [|congruence].
      eapply map_disjoint_Some_r; [apply Hrep|apply lookup_insert_eq]. }
  pose proof (rep_part _ _ _ _ Hrep) as Hpart.
  eapply partition_ext in Hpart; [|intros i o; by apply blocks_insert].
  assert (∀ o, ¬ blocks fl al held (x + 2 ^ k) o) as HR'.
  { intros o H. destruct Hpart as [Hok Hdis _].
    destruct (Hok (x + 2 ^ k) o) as (Ho & _); [by left|].
    destruct (Hdis (x + 2 ^ k) o x (k + 1) (x + 2 ^ k)); [by left|by right|..|lia].
    - apply in_block_head. lia.
    - apply in_block_halves; [done|]. right. by apply in_block_head. }
  assert (held !! (x + 2 ^ k) = None) as Hy.
  { apply eq_None_not_Some. intros [o H]. apply (HR' o). by right; right. }
  assert (∀ o, al !! (x + 2 ^ k) = Some o → False) as Hya by (intros o H; apply (HR' o); by right; left).
  assert ((<[x:=k]> held) !! (x + 2 ^ k) = None) as Hy' by (rewrite lookup_insert_ne by lia; done).
  apply (partition_split _ _ _ Hk HR) in Hpart. split; [|done].
  split; [apply Hrep|apply Hrep|apply Hrep|apply (rep_used _ _ _ _ Hrep)|apply Hrep|..].
  - eapply partition_ext, Hpart. intros i o. rewrite blocks_insert, blocks_insert by done. tauto.
  - intros i o Ho Hi. destruct (rep_free_excl _ _ _ _ Hrep i o Ho Hi) as [Ha Hh]. split; [done|].
    apply lookup_insert_None in Hh as [Hh Hne]. rewrite !lookup_insert_None. split_and!; [done|done|].
    intros E. apply (HR' o). rewrite E. by left.
  - pose proof (rep_held_excl _ _ _ _ Hrep) as [Hd Hd']%map_disjoint_insert_r.
    rewrite !map_disjoint_insert_r. split_and!; [|done|done].
    apply eq_None_not_Some. intros [o H]. eauto.
  - pose proof (rep_sum _ _ _ _ Hrep) as Hs. rewrite !wsum_insert by done.
    rewrite wsum_insert, pow2_succ in Hs by done. lia.
Qed.

Lemma merge_rep s fl al held x k : 0 ≤ k →
  buddy_rep s fl al (<[x + 2 ^ k:=k]> (<[x:=k]> held)) →
  held !! x = None → held !! (x + 2 ^ k) = None → block_ok x (k + 1) →
  buddy_rep s fl al (<[x:=k + 1]> held).
Proof.
  intros Hk Hrep Hx Hy Hok. pose proof (pow2_pos k Hk) as Hp.
  assert ((<[x:=k]> held) !! (x + 2 ^ k) = None) as Hy' by (rewrite lookup_insert_ne by lia; done).
  set (h := <[x + 2 ^ k:=k]> (<[x:=k]> held)) in *.
  assert (h !! x = Some k ∧ h !! (x + 2 ^ k) = Some k) as [Hhx Hhy].
  { subst h. rewrite lookup_insert_ne, !lookup_insert_eq by lia. done. }
  assert (∀ y, h !! y = Some k → held !! y = None → ∀ o, ¬ blocks fl al held y o) as HR.
  { intros y Hhy' Hy0 o [[Ho Hi]|[H|H]]; [..|congruence].
    - destruct (rep_free_excl _ _ _ _ Hrep y o Ho Hi). congruence.
    - assert (al !! y = None); [|congruence]. eapply map_disjoint_Some_r; [apply Hrep|done]. }
  split; [apply Hrep|apply Hrep|apply Hrep|apply (rep_used _ _ _ _ Hrep)|apply Hrep|..].
  - eapply partition_ext; [intros i o; symmetry; by apply blocks_insert|].
    apply partition_merge; [done|by apply HR|by apply HR|done|].
    eapply partition_ext, Hrep. intros i o. subst h. rewrite !blocks_insert by done. tauto.
  - intros i o Ho Hi. destruct (rep_free_excl _ _ _ _ Hrep i o Ho Hi) as [Ha Hh]. split; [done|].
    subst h. rewrite !lookup_insert_None in Hh. rewrite lookup_insert_None. tauto.
  - pose proof (rep_held_excl _ _ _ _ Hrep) as [? [? ?]%map_disjoint_insert_r]%map_disjoint_insert_r.
    by apply map_disjoint_insert_r.
  - pose proof (rep_sum _ _ _ _ Hrep) as Hs. subst h. rewrite !wsum_insert in Hs by done.
    rewrite wsum_insert, pow2_succ by done. lia.
Qed.

(** *** Handing a held block out, and taking an allocated block back *)

Lemma take_rep s s' fl al held x k :
  buddy_rep s fl al held → held !! x = Some k →
  free_lists s' = free_lists s → free_pages s' = free_pages s →
  page_descriptors s' = amod (page_descriptors s) x (fun p => p⟦order := k⟧⟦ref_count := 1⟧⟦flags := 0⟧) →
  buddy_rep s' fl (<[x:=k]> al) (delete x held).
Proof.
  intros Hrep Hx El Ec Ep.
  assert (al !! x = None) as Hxa by (eapply map_disjoint_Some_r; [apply Hrep|done]).
  split.
  - intros o Ho. rewrite El, Ep. eapply dll_ext; [|by apply Hrep]. intros i Hi.
    rewrite aget_amod. case_decide; by subst.
  - intros o Ho. rewrite Ec. by apply Hrep.
  - intros i o Ho Hi. rewrite Ep, aget_amod_ne; [by apply (rep_free _ _ _ _ Hrep)|].
    intros <-. destruct (rep_free_excl _ _ _ _ Hrep x o Ho Hi). congruence.
  - intros i o. rewrite lookup_insert_Some, Ep, aget_amod. intros [[<- <-]|[Hne Hi]].
    + by rewrite decide_True.
    + rewrite decide_False by done. by apply (rep_used _ _ _ _ Hrep).
  - intros i. rewrite Ep, aget_amod. destruct (decide (x = i)) as [<-|Hne].
    + rewrite lookup_insert_eq. by rewrite decide_True by eauto.
    + rewrite lookup_insert_ne by done. apply Hrep.
  - eapply partition_ext, Hrep. intros i o. unfold blocks.
    rewrite lookup_insert_Some, lookup_delete_Some.
    destruct (decide (x = i)) as [<-|Hne]; [|naive_solver].
    rewrite Hx, Hxa. naive_solver.
  - intros i o Ho Hi. destruct (rep_free_excl _ _ _ _ Hrep i o Ho Hi) as [Ha Hh].
    rewrite lookup_insert_None, lookup_delete_None. split; [|by right]. split; [done|congruence].
  - apply map_disjoint_insert_l. split; [apply lookup_delete_eq|]. apply map_disjoint_delete_r, Hrep.
  - pose proof (rep_sum _ _ _ _ Hrep) as Hs. rewrite (wsum_delete held x k) in Hs by done.
    rewrite wsum_insert by done. lia.
Qed.

Lemma release_rep s s' fl al held x k :
  buddy_rep s fl al held → al !! x = Some k →
  free_lists s' = free_lists s → free_pages s' = free_pages s →
  page_descriptors s' = amod (page_descriptors s) x
    (fun p => if 0 <? ref_count p then p⟦ref_count := ref_count p - 1⟧ else p) →
  buddy_rep s' fl (delete x al) (<[x:=k]> held).
Proof.
  intros Hrep Hx El Ec Ep.
  assert (held !! x = None) as Hxh by (eapply map_disjoint_Some_l; [apply Hrep|done]).
  assert (ref_count (page_descriptors s).[x] = 1) as Href.
  { rewrite (rep_ref _ _ _ _ Hrep). by rewrite decide_True by eauto. }
  assert (∀ i, next (page_descriptors s').[i] = next (page_descriptors s).[i] ∧
               prev (page_descriptors s').[i] = prev (page_descriptors s).[i] ∧
               order (page_descriptors s').[i] = order (page_descriptors s).[i]) as Hsame.
  { intros i. rewrite Ep, aget_amod. case_decide; subst; [|done]. by case_if. }
  split.
  - intros o Ho. rewrite El. eapply dll_ext; [|by apply Hrep]. intros i Hi. destruct (Hsame i) as (? & ? & ?). done.
  - intros o Ho. rewrite Ec. by apply Hrep.
  - intros i o Ho Hi. destruct (Hsame i) as (_ & _ & ->). by apply (rep_free _ _ _ _ Hrep).
  - intros i o [Hne Hi]%lookup_delete_Some. destruct (Hsame i) as (_ & _ & ->). by apply (rep_used _ _ _ _ Hrep).
  - intros i. rewrite Ep, aget_amod. destruct (decide (x = i)) as [<-|Hne].
    + rewrite Href, lookup_delete_eq. rewrite decide_False by (by intros [??]). done.
    + rewrite lookup_delete_ne by done. apply Hrep.
  - eapply partition_ext, Hrep. intros i o. unfold blocks.
    rewrite lookup_insert_Some, lookup_delete_Some.
    destruct (decide (x = i)) as [<-|Hne]; [|naive_solver].
    rewrite Hx, Hxh. naive_solver.
  - intros i o Ho Hi. destruct (rep_free_excl _ _ _ _ Hrep i o Ho Hi) as [Ha Hh].
    rewrite lookup_insert_None, lookup_delete_None. split; [by right|]. split; [done|congruence].
  - apply map_disjoint_insert_r. split; [apply lookup_delete_eq|]. apply map_disjoint_delete_l, Hrep.
  - pose proof (rep_sum _ _ _ _ Hrep) as Hs. rewrite (wsum_delete al x k) in Hs by done.
    rewrite wsum_insert by done. lia.
Qed.

(** ** Coalescing *)

Lemma buddy_index_involutive i o : 0 ≤ o → buddy_index (buddy_index i o) o = i.
Proof.
  intros Ho. unfold buddy_index. rewrite <-!lxor_pow2 by done.
  by rewrite Z.lxor_assoc, Z.lxor_nilpotent, Z.lxor_0_r.
Qed.

Lemma coalesced_add fl k x :
  coalesced fl → (k < MAX_ORDER - 1 → buddy_index x k ∉ fl k) → coalesced (<[k:=x :: fl k]> fl).
Proof.
  intros Hc Hx o i Ho. destruct (decide (o = k)) as [->|Hne].
  - rewrite fn_lookup_insert, !elem_of_cons. intros [->|Hi] [Hb|Hb].
    + by apply (buddy_index_ne x k) in Hb; [|lia].
    + apply Hx; [lia|done].
    + apply Hx; [lia|]. rewrite <-Hb, buddy_index_involutive by lia. done.
    + by apply (Hc k i Ho).
  - rewrite fn_lookup_insert_ne by done. by apply Hc.
Qed.

Lemma coalesced_remove fl k x l1 l2 :
  coalesced fl → fl k = l1 ++ x :: l2 → coalesced (<[k:=l1 ++ l2]> fl).
Proof.
  intros Hc E o i Ho. destruct (decide (o = k)) as [->|Hne].
  - rewrite fn_lookup_insert. intros Hi Hb. apply (Hc k i Ho); rewrite E; set_solver.
  - rewrite fn_lookup_insert_ne by done. by apply Hc.
Qed.

(** The counters are not touched by list operations. *)
Lemma remove_totals s x k al : totals_ok s al → totals_ok (remove_from_free_list x k s) al.
Proof. unfold remove_from_free_list. by destruct (unlink _ _ _). Qed.
Lemma add_totals s x k al : totals_ok s al → totals_ok (add_to_free_list x k s) al.
Proof. unfold add_to_free_list. by destruct (push_front _ _ _). Qed.
Lemma remove_initialized s x k :
  buddy_initialized (remove_from_free_list x k s) = buddy_initialized s.
Proof. unfold remove_from_free_list. by destruct (unlink _ _ _). Qed.
Lemma add_initialized s x k : buddy_initialized (add_to_free_list x k s) = buddy_initialized s.
Proof. unfold add_to_free_list. by destruct (push_front _ _ _). Qed.

(** A block that holds no allocated page lies inside one free block. *)
Lemma free_block_covered s fl al k i :
  buddy_rep s fl al ∅ → coalesced fl → 0 ≤ k → block_ok i k →
  (∀ j o p, al !! j = Some o → in_block j o p → ¬ in_block i k p) →
  ∃ j o, k ≤ o < MAX_ORDER ∧ j ∈ fl o ∧ j ≤ i ∧ i + 2 ^ k ≤ j + 2 ^ o.
Proof.
  intros Hrep Hc Hk. revert i. revert k Hk. refine (natlike_ind _ _ _).
  - intros i (_ & H0 & Hn & _) Hfree. change (2 ^ 0) with 1 in *.
    destruct (part_cover _ (rep_part _ _ _ _ Hrep) i) as (j & o & [[Ho Hj]|[Hj|Hj]] & Hin); [lia|..].
    + exists j, o. unfold in_block in Hin. split_and!; [lia..|done|lia|lia].
    + exfalso. eapply Hfree; [done..|]. by apply in_block_head.
    + by rewrite lookup_empty in Hj.
  - intros k Hk IH i. unfold Z.succ. intros (Hr & H0 & Hn & Hm) Hfree.
    pose proof (pow2_pos k Hk) as Hp. destruct (mod_add_self i k Hk Hm) as [Hm1 Hm2].
    rewrite pow2_succ in Hn by done.
    destruct (IH i) as (j1 & o1 & Ho1 & Hj1 & Hl1 & Hu1).
    { unfold block_ok. split_and!; [lia..|done]. }
    { intros j o p Hj Hin Hb. eapply Hfree; [done..|]. apply in_block_halves; auto. }
    destruct (IH (i + 2 ^ k)) as (j2 & o2 & Ho2 & Hj2 & Hl2 & Hu2).
    { unfold block_ok. split_and!; [lia..|done]. }
    { intros j o p Hj Hin Hb. eapply Hfree; [done..|]. apply in_block_halves; auto. }
    rewrite pow2_succ by done.
    destruct (rep_free_ok _ _ _ _ Hrep j1 o1) as (_ & _ & _ & Ha1); [lia|done|].
    destruct (rep_free_ok _ _ _ _ Hrep j2 o2) as (_ & _ & _ & Ha2); [lia|done|].
    destruct (decide (o1 = k)) as [->|Hne1].
    2: { exists j1, o1. split_and!; [lia..|done|lia|].
         pose proof (aligned_nested i (k + 1) j1 o1 i) as Hnest. rewrite pow2_succ in * by done.
         unfold in_block in Hnest. rewrite pow2_succ in Hnest by done. lia. }
    destruct (decide (o2 = k)) as [->|Hne2].
    2: { exists j2, o2. split_and!; [lia..|done| |].
         all: pose proof (aligned_nested i (k + 1) j2 o2 (i + 2 ^ k)) as Hnest;
           unfold in_block in Hnest; rewrite pow2_succ in * by done; lia. }
    exfalso. assert (j1 = i) as -> by lia. assert (j2 = i + 2 ^ k) as -> by lia.
    apply (Hc k i); [lia|done|]. by rewrite buddy_index_low.
Qed.

(** ** Allocation *)

Lemma split_block_spec n s fl al held x ord :
  buddy_rep s fl al (<[x:=ord + Z.of_nat n]> held) → held !! x = None → 0 ≤ ord →
  coalesced fl → totals_ok s al →
  let s' := split_block n (ord + Z.of_nat n) x s in
  ∃ fl', buddy_rep s' fl' al (<[x:=ord]> held) ∧ coalesced fl' ∧ totals_ok s' al ∧
         buddy_initialized s' = buddy_initialized s.
Proof.
  revert s fl. induction n as [|n IH]; intros s fl Hrep Hx Ho Hc Ht; cbn [split_block].
  { rewrite Z.add_0_r in Hrep. by exists fl. }
  set (k := ord + Z.of_nat n). replace (ord + Z.of_nat (S n)) with (k + 1) in * by lia.
  replace (k + 1 - 1) with k by lia.
  destruct (rep_ok _ _ _ _ Hrep x (k + 1)) as (Hr & H0 & Hn & Hm); [right; right; apply lookup_insert_eq|].
  assert (block_ok x k) as Hok.
  { pose proof (mod_add_self x k). pose proof (pow2_pos k). rewrite pow2_succ in Hn by lia.
    unfold block_ok. split_and!; [lia..|]. apply mod_add_self; [lia|done]. }
  destruct (buddy_block_ok x k) as [(_ & Hb0 & Hbn & _) _]; [lia|done|].
  rewrite get_buddy_spec by (done || lia). rewrite addr_to_page_to_addr by (pose proof (pow2_pos k); lia).
  rewrite buddy_index_low by (done || lia).
  destruct (split_rep s fl al held x k) as [Hsp Hy]; [lia|done|done|].
  assert (buddy_index (x + 2 ^ k) k ∉ fl k) as Hnb.
  { rewrite buddy_index_high by (done || lia). intros Hi.
    destruct (rep_free_excl _ _ _ _ Hrep x k) as [_ H]; [lia|done|]. by rewrite lookup_insert_eq in H. }
  pose proof (add_rep _ _ _ _ k (x + 2 ^ k) Hsp (lookup_insert_eq _ _ _)) as Hadd.
  rewrite delete_insert_eq, delete_id in Hadd
    by (rewrite lookup_insert_ne by (pose proof (pow2_pos k); lia); done).
  destruct (IH (add_to_free_list (x + 2 ^ k) k s) (<[k:=(x + 2 ^ k) :: fl k]> fl))
    as (fl' & ? & ? & ? & Hi); [done|done|done|by apply coalesced_add|by apply add_totals|].
  exists fl'. split_and!; [done..|]. etrans; [exact Hi|apply add_initialized].
Qed.

(** The first non-empty list at or above the requested order. *)
Lemma buddy_alloc_search s fl al ord :
  buddy_rep s fl al ∅ → 0 ≤ ord < MAX_ORDER →
  match find_up (Z.to_nat (MAX_ORDER - ord)) ord (fun o => negb (is_null (free_lists s).[o])) with
  | Some o => ord ≤ o < MAX_ORDER ∧ ∃ x l, (free_lists s).[o] = Some x ∧ fl o = x :: l
  | None => ∀ o, ord ≤ o < MAX_ORDER → fl o = []
  end.
Proof.
  intros Hrep Ho. destruct (find_up _ _ _) as [o|] eqn:E.
  - apply find_up_Some in E as (Hr & Hb & _). split; [lia|].
    pose proof (rep_list _ _ _ _ Hrep o) as Hd. destruct (free_lists s).[o] as [x|]; [|done].
    destruct (dll_head_Some _ _ _ (Hd ltac:(lia))) as [l Hl]. eauto.
  - intros o Hr. pose proof (proj1 (find_up_None _ _ _) E o ltac:(lia)) as Hn. cbn in Hn.
    pose proof (rep_list _ _ _ _ Hrep o) as Hd. destruct (free_lists s).[o] as [x|]; [done|].
    apply (dll_head_None (page_descriptors s)). apply Hd. lia.
Qed.

(** A block is free of allocated pages, or one can be named. *)
Lemma block_used_dec (al : gmap Z Z) i ord : 0 ≤ ord → (∀ j o, al !! j = Some o → 0 ≤ o) →
  (∃ j o p, al !! j = Some o ∧ in_block j o p ∧ in_block i ord p) ∨
  (∀ j o p, al !! j = Some o → in_block j o p → ¬ in_block i ord p).
Proof.
  intros Hord Hal. pose proof (pow2_pos ord Hord).
  destruct (decide (map_Exists (fun j o => j < i + 2 ^ ord ∧ i < j + 2 ^ o) al)) as [(j & o & Hj & Hov)|Hno].
  - left. exists j, o, (Z.max i j). pose proof (pow2_pos o (Hal _ _ Hj)). unfold in_block. split; [done|lia].
  - right. intros j o p Hj Hp Hp'. apply Hno. exists j, o. unfold in_block in *. split; [done|lia].
Qed.

(** The last steps of [buddy_alloc] hand the held block out. *)
Lemma buddy_inv_take s fl al x ord :
  buddy_initialized s = true → buddy_rep s fl al (<[x:=ord]> ∅) → al !! x = None →
  totals_ok s al → coalesced fl →
  buddy_inv (s⟦page_descriptors ::= fun d =>
                 amod d x (fun p => p⟦order := ord⟧⟦ref_count := 1⟧⟦flags := 0⟧)⟧
              ⟦total_free ::= fun n => u64 (n - (1 <<: ord))⟧
              ⟦total_used ::= fun n => u64 (n + (1 <<: ord))⟧) (<[x:=ord]> al).
Proof.
  intros Hi Hrep Hx [Hf Hu] Hc. split; [done|]. exists fl. split_and!; [| |done].
  - replace (∅ : gmap Z Z) with (delete x (<[x:=ord]> (∅ : gmap Z Z)))
      by (rewrite delete_insert_eq, delete_id; [done|apply lookup_empty]).
    eapply take_rep; [exact Hrep|apply lookup_insert_eq|reflexivity..].
  - pose proof (rep_total_range _ _ _ _ Hrep) as Htr.
    rewrite wsum_insert in Htr by apply lookup_empty. change (wsum ∅) with 0 in Htr.
    pose proof (Z.pow_nonneg 2 ord). unfold totals_ok. cbn.
    rewrite Hf, Hu, wsum_insert, Z.shiftl_1_l by done.
    unfold BUDDY_TOTAL_PAGES in *. rewrite !u64_small by lia. lia.
Qed.

(** One allocation: a fresh block, or a refusal when no block is free. *)
Lemma buddy_alloc_step s al ord :
  buddy_inv s al → 0 ≤ ord < MAX_ORDER →
  (∃ i s', buddy_alloc ord s = (page_to_addr i, s') ∧ block_ok i ord ∧ al !! i = None ∧
           (∀ j o p, al !! j = Some o → in_block j o p → ¬ in_block i ord p) ∧
           buddy_inv s' (<[i:=ord]> al)) ∨
  (buddy_alloc ord s = (0, s) ∧
   ∀ i, block_ok i ord → ∃ j o p, al !! j = Some o ∧ in_block j o p ∧ in_block i ord p).
Proof.
  intros (Hinit & fl & Hrep & Ht & Hc) Ho. unfold buddy_alloc. rewrite Hinit.
  destruct (Z.leb_spec MAX_ORDER ord); [lia|]. cbn [negb orb].
  pose proof (buddy_alloc_search s fl al ord Hrep Ho) as Hs.
  destruct (find_up _ _ _) as [o|].
  - left. destruct Hs as (Hor & x & l & El & Efl). rewrite El. exists x.
    pose proof (remove_rep s fl al ∅ o x [] l Hrep ltac:(lia) Efl) as Hrm.
    pose proof (coalesced_remove fl o x [] l Hc Efl) as Hcr. cbn [app] in *.
    destruct (split_block_spec (Z.to_nat (o - ord)) (remove_from_free_list x o s)
      (<[o:=l]> fl) al ∅ x ord) as (fl' & Hrep' & Hc' & Ht' & Hi').
    { by replace (ord + Z.of_nat (Z.to_nat (o - ord))) with o by lia. }
    { apply lookup_empty. } { lia. } { done. } { by apply remove_totals. }
    replace (ord + Z.of_nat (Z.to_nat (o - ord))) with o in * by lia.
    set (s1 := split_block _ _ _ _) in *. clearbody s1. rewrite remove_initialized in Hi'.
    assert (block_ok x ord) as Hok
      by (apply (rep_ok _ _ _ _ Hrep'); right; right; apply lookup_insert_eq).
    assert (al !! x = None) as Hxa by
      (eapply map_disjoint_Some_r; [apply (rep_held_excl _ _ _ _ Hrep')|apply lookup_insert_eq]).
    eexists. split; [reflexivity|]. split_and!; [done|done| |].
    + intros j o' p Hj Hp Hp'.
      destruct (part_disjoint _ (rep_part _ _ _ _ Hrep') j o' x ord p) as [-> _];
        [by right; left|right; right; apply lookup_insert_eq|done|done|congruence].
    + apply (buddy_inv_take s1 fl'); [congruence|done..].
  - right. split; [done|]. intros i Hok.
    destruct (block_used_dec al i ord) as [Hu|Hf]; [lia| |done|].
    { intros j o Hj. destruct (rep_ok _ _ _ _ Hrep j o) as (? & _); [by right; left|lia]. }
    destruct (free_block_covered s fl al ord i) as (j & o & Hor & Hj & _); [done|done|lia|done|done|].
    rewrite (Hs o Hor) in Hj. by apply elem_of_nil in Hj.
Qed.

(** ** Release *)

(** The buddy a block could be merged with: its descriptor says so exactly
    when it is on the free list of that order. *)
Lemma buddy_free_test s fl al held x k :
  buddy_rep s fl al held → 0 ≤ k < MAX_ORDER → x ∈ fl k →
  order (page_descriptors s).[x] = k ∧ ref_count (page_descriptors s).[x] = 0.
Proof.
  intros Hrep Hk Hx. split; [by apply (rep_free _ _ _ _ Hrep)|].
  rewrite (rep_ref _ _ _ _ Hrep). destruct (rep_free_excl _ _ _ _ Hrep x k Hk Hx) as [-> _].
  rewrite decide_False; [done|]. by intros [??].
Qed.

Lemma walk_complete s fl al held k x :
  buddy_rep s fl al held → 0 ≤ k < MAX_ORDER →
  list_member walk_fuel (page_descriptors s) (free_lists s).[k] x = Some (bool_decide (x ∈ fl k)).
Proof.
  intros Hrep Hk. apply dll_member; [by apply Hrep|].
  pose proof (rep_length _ _ _ _ Hrep k Hk). unfold walk_fuel. lia.
Qed.

(** Merging the held block with its free buddy. *)
Lemma merge_step s fl al x k :
  buddy_rep s fl al (<[x:=k]> ∅) → 0 ≤ k < MAX_ORDER - 1 → buddy_index x k ∈ fl k → coalesced fl →
  ∃ fl', buddy_rep (remove_from_free_list (buddy_index x k) k s) fl' al
           (<[Z.min x (buddy_index x k):=k + 1]> ∅) ∧ coalesced fl'.
Proof.
  intros Hrep Hk Hb Hc. pose proof (pow2_pos k) as Hp.
  assert (block_ok x k) as Hok by (apply (rep_ok _ _ _ _ Hrep); right; right; apply lookup_insert_eq).
  destruct (buddy_block_ok x k) as [_ Hm]; [lia|done|].
  apply list_elem_of_split in Hb as (l1 & l2 & Efl).
  exists (<[k:=l1 ++ l2]> fl). split; [|by eapply coalesced_remove].
  eapply remove_rep in Efl; [|done|lia].
  destruct Hok as (_ & _ & _ & Hal).
  destruct (buddy_index_spec x k) as [[_ E]|[_ E]]; [lia|done|..]; rewrite E in *.
  - rewrite Z.min_l in * by lia. apply merge_rep; [lia|done|apply lookup_empty..|done].
  - rewrite Z.min_r in * by lia. apply merge_rep; [lia| |apply lookup_empty..|done].
    replace (x - 2 ^ k + 2 ^ k) with x by lia. rewrite insert_insert_ne by lia. done.
Qed.

Lemma coalesce_spec n s fl al x ord :
  Z.of_nat n = MAX_ORDER - 1 - ord → 0 ≤ ord →
  buddy_rep s fl al (<[x:=ord]> ∅) → coalesced fl → totals_ok s al →
  ∃ y k s' fl', coalesce n (page_to_addr x) x ord s = Some (y, k, s') ∧
    buddy_rep s' fl' al (<[y:=k]> ∅) ∧ coalesced fl' ∧
    (k < MAX_ORDER - 1 → buddy_index y k ∉ fl' k) ∧ totals_ok s' al ∧
    buddy_initialized s' = buddy_initialized s.
Proof.
  revert s fl x ord. induction n as [|n IH]; intros s fl x ord Hn Ho Hrep Hc Ht; cbn [coalesce].
  { exists x, ord, s, fl. split_and!; [done..|lia|done|done]. }
  assert (block_ok x ord) as Hok by (apply (rep_ok _ _ _ _ Hrep); right; right; apply lookup_insert_eq).
  destruct (buddy_block_ok x ord) as [(_ & Hb0 & Hbn & _) _]; [lia|done|].
  pose proof (pow2_pos ord Ho) as Hp.
  rewrite get_buddy_spec by (done || lia). rewrite addr_to_page_to_addr by lia.
  assert (buddy_index x ord ∉ fl ord → ∃ y k s' fl', Some (x, ord, s) = Some (y, k, s') ∧
    buddy_rep s' fl' al (<[y:=k]> ∅) ∧ coalesced fl' ∧
    (k < MAX_ORDER - 1 → buddy_index y k ∉ fl' k) ∧ totals_ok s' al ∧
    buddy_initialized s' = buddy_initialized s) as Hstop.
  { intros Hb. by exists x, ord, s, fl. }
  pose proof (buddy_free_test _ _ _ _ (buddy_index x ord) ord Hrep ltac:(lia)) as Htest.
  case_if; [case_if; [|apply Hstop; intros Hb; destruct (Htest Hb); lia]|].
  2: { apply Hstop. intros Hb. destruct (Htest Hb). lia. }
  rewrite (walk_complete _ _ _ _ ord _ Hrep) by lia. cbn [mbind option_bind].
  destruct (bool_decide_reflect (buddy_index x ord ∈ fl ord)) as [Hb|Hb]; cbn [negb]; [|by apply Hstop].
  destruct (merge_step s fl al x ord) as (fl' & Hrep' & Hc'); [done|lia|done|done|].
  destruct (IH (remove_from_free_list (buddy_index x ord) ord s) fl'
    (Z.min x (buddy_index x ord)) (ord + 1)) as (y & k & s' & fl'' & Hrun & ? & ? & ? & ? & Hi);
    [lia|lia|done|done|by apply remove_totals|].
  exists y, k, s', fl''. split_and!; [|done..|by rewrite Hi, remove_initialized].
  rewrite <-Hrun. destruct Hok as (_ & ? & ? & _). rewrite page_to_addr_lt by lia.
  destruct (Z.ltb_spec (buddy_index x ord) x); [rewrite Z.min_r by lia|rewrite Z.min_l by lia]; done.
Qed.

(** The last steps of [buddy_free] put the merged block on its list. *)
Lemma buddy_inv_return s fl al x k :
  buddy_initialized s = true → buddy_rep s fl al (<[x:=k]> ∅) → totals_ok s al → coalesced fl →
  (k < MAX_ORDER - 1 → buddy_index x k ∉ fl k) →
  buddy_inv (add_to_free_list x k
    (s⟦page_descriptors ::= fun d => amod d x (fun p => p⟦order := k⟧)⟧)) al.
Proof.
  intros Hi Hrep Ht Hc Hb. set (s1 := s⟦page_descriptors ::= _⟧).
  assert (buddy_rep s1 fl al (<[x:=k]> ∅)) as Hrep1.
  { assert (∀ i, next (page_descriptors s1).[i] = next (page_descriptors s).[i] ∧
      prev (page_descriptors s1).[i] = prev (page_descriptors s).[i] ∧
      ref_count (page_descriptors s1).[i] = ref_count (page_descriptors s).[i] ∧
      (x ≠ i → order (page_descriptors s1).[i] = order (page_descriptors s).[i])) as Hsame.
    { intros i. subst s1. cbn. rewrite aget_amod. by case_decide; subst. }
    split; try (apply Hrep; fail).
    - intros o Ho. eapply dll_ext; [|by apply Hrep]. intros i Hi'. by destruct (Hsame i) as (? & ? & _).
    - intros i o Ho Hi'. destruct (Hsame i) as (_ & _ & _ & ->); [by apply Hrep|]. intros <-.
      destruct (rep_free_excl _ _ _ _ Hrep x o Ho Hi') as [_ H]. by rewrite lookup_insert_eq in H.
    - intros i o Hi'. destruct (Hsame i) as (_ & _ & _ & ->); [by apply (rep_used _ _ _ _ Hrep)|]. intros <-.
      pose proof (map_disjoint_Some_l _ _ _ _ (rep_held_excl _ _ _ _ Hrep) Hi') as H.
      by rewrite lookup_insert_eq in H.
    - intros i. destruct (Hsame i) as (_ & _ & -> & _). apply Hrep. }
  split; [by rewrite add_initialized|].
  exists (<[k:=x :: fl k]> fl). split_and!; [|by apply add_totals|by apply coalesced_add].
  eapply add_rep in Hrep1; [|apply lookup_insert_eq].
  by rewrite delete_insert_eq, delete_id in Hrep1 by apply lookup_empty.
Qed.

(** One release: the block is merged with its buddies as far as they are
    free, and exactly that block is no longer allocated. *)
Lemma buddy_free_step s al i ord :
  buddy_inv s al → al !! i = Some ord →
  ∃ s', buddy_free (page_to_addr i) ord s = Some s' ∧ buddy_inv s' (delete i al).
Proof.
  intros (Hinit & fl & Hrep & [Hf Hu] & Hc) Hi.
  destruct (rep_ok _ _ _ _ Hrep i ord) as (Ho & H0 & Hn & _); [by right; left|].
  pose proof (pow2_pos ord) as Hp.
  assert (ref_count (page_descriptors s).[i] = 1) as Href.
  { rewrite (rep_ref _ _ _ _ Hrep). by rewrite decide_True by eauto. }
  unfold buddy_free. rewrite Hinit, addr_to_page_to_addr by lia.
  assert (page_to_addr i ≠ 0) as Hnz by (rewrite page_to_addr_eq by lia; unfold PAGE_SIZE; lia).
  replace (negb true || (page_to_addr i =? 0) || (MAX_ORDER <=? ord)) with false by lia.
  set (s0 := s⟦page_descriptors ::= _⟧).
  assert ((0 <? ref_count (page_descriptors s0).[i]) = false) as ->
    by (subst s0; cbn; rewrite aget_amod_eq, Href; done).
  set (s1 := s0⟦total_free ::= _⟧⟦total_used ::= _⟧).
  pose proof (rep_total_range _ _ _ _ Hrep) as Htr. change (wsum ∅) with 0 in Htr.
  rewrite (wsum_delete al i ord Hi) in *. pose proof (wsum_nonneg (delete i al)).
  destruct (coalesce_spec (Z.to_nat (MAX_ORDER - 1 - ord)) s1 fl (delete i al) i ord)
    as (y & k & s' & fl' & Hrun & Hrep' & Hc' & Hb & Ht & Hi'); [lia|lia| |done| |].
  { eapply release_rep; [exact Hrep|exact Hi|reflexivity..]. }
  { unfold totals_ok. cbn. rewrite Hf, Hu, Z.shiftl_1_l.
    unfold BUDDY_TOTAL_PAGES in *. rewrite !u64_small by lia. lia. }
  rewrite Hrun. cbn [mbind option_bind]. eexists. split; [reflexivity|].
  apply (buddy_inv_return s' fl'); [|done..]. by rewrite Hi'.
Qed.

(** ** Initialisation *)

(** The maximal blocks from the [j]-th on. *)
Definition top_blocks (j : Z) : gmap Z Z :=
  list_to_map ((fun b => (1024 * b, MAX_ORDER - 1)) <$> seqZ j (31 - j)).

Definition blank (s : buddy_state) : Prop :=
  (∀ o, (free_lists s).[o] = None) ∧ (∀ o, (free_pages s).[o] = 0) ∧
  ∀ i, (page_descriptors s).[i] = mk_page None None 0 0 0.

Lemma top_blocks_step j : 0 ≤ j < 31 →
  top_blocks j = <[1024 * j:=MAX_ORDER - 1]> (top_blocks (j + 1)).
Proof.
  intros Hj. unfold top_blocks. rewrite (seqZ_cons j) by lia. cbn [fmap list_fmap list_to_map].
  unfold Z.succ, Z.pred. by replace (31 - j + -1) with (31 - (j + 1)) by lia.
Qed.

Lemma top_blocks_lookup j i o : 0 ≤ j →
  top_blocks j !! i = Some o → ∃ b, j ≤ b < 31 ∧ i = 1024 * b ∧ o = MAX_ORDER - 1.
Proof.
  intros Hj H. unfold top_blocks in H. apply elem_of_list_to_map_2 in H.
  apply list_elem_of_fmap in H as (b & [= -> ->] & Hb%elem_of_seqZ). exists b. lia.
Qed.

Lemma top_blocks_inv j b : 0 ≤ j ≤ b → b < 31 → top_blocks j !! (1024 * b) = Some (MAX_ORDER - 1).
Proof.
  intros Hj Hb. unfold top_blocks. apply elem_of_list_to_map_1.
  - rewrite <-list_fmap_compose. apply NoDup_fmap_2; [|apply NoDup_seqZ]. intros x y E. cbn in E. lia.
  - apply list_elem_of_fmap. exists b. split; [done|]. apply elem_of_seqZ. lia.
Qed.

Lemma top_partition : partition (blocks (fun _ => []) ∅ (top_blocks 0)).
Proof.
  assert (∀ i o, blocks (fun _ => []) ∅ (top_blocks 0) i o →
    ∃ b, 0 ≤ b < 31 ∧ i = 1024 * b ∧ o = MAX_ORDER - 1) as Hinv.
  { intros i o [[_ H]|[H|H]]; [by apply elem_of_nil in H|by rewrite lookup_empty in H|].
    by apply top_blocks_lookup in H. }
  unfold MAX_ORDER in *. split.
  - intros i o (b & Hb & -> & ->)%Hinv. unfold block_ok, MAX_ORDER, BUDDY_TOTAL_PAGES.
    change (2 ^ (11 - 1)) with 1024. split_and!; [lia..|]. rewrite Z.mul_comm. apply Z.mod_mul. lia.
  - intros i o j o' p (b & Hb & -> & ->)%Hinv (b' & Hb' & -> & ->)%Hinv. unfold in_block.
    change (2 ^ (11 - 1)) with 1024. lia.
  - intros p Hp. unfold BUDDY_TOTAL_PAGES in Hp. exists (1024 * (p / 1024)), (11 - 1). split.
    + right; right. apply (top_blocks_inv 0); [split; [done|apply Z.div_pos; lia]|].
      apply Z.div_lt_upper_bound; lia.
    + unfold in_block. change (2 ^ (11 - 1)) with 1024.
      pose proof (Z.div_mod p 1024). pose proof (Z.mod_pos_bound p 1024). lia.
Qed.

Lemma blank_rep s : blank s → buddy_rep s (fun _ => []) ∅ (top_blocks 0).
Proof.
  intros (Hl & Hc & Hp). split.
  - intros o _. rewrite Hl. apply dll_nil.
  - intros o _. by rewrite Hc.
  - intros i o _ Hi. by apply elem_of_nil in Hi.
  - intros i o Hi. by rewrite lookup_empty in Hi.
  - intros i. rewrite Hp, lookup_empty, decide_False; [done|]. by intros [??].
  - apply top_partition.
  - intros i o _ Hi. by apply elem_of_nil in Hi.
  - apply map_disjoint_empty_l.
  - vm_compute. reflexivity.
Qed.

Lemma init_block_spec s fl j : 0 ≤ j < 31 →
  buddy_rep s fl ∅ (top_blocks j) → coalesced fl → total_free s = 1024 * j →
  ∃ fl', buddy_rep (init_block 0x400000 j s) fl' ∅ (top_blocks (j + 1)) ∧ coalesced fl' ∧
    total_free (init_block 0x400000 j s) = 1024 * (j + 1) ∧
    total_used (init_block 0x400000 j s) = total_used s.
Proof.
  intros Hj Hrep Hc Ht. unfold init_block.
  replace (u32 (BUDDY_START_ADDR + j * 0x400000)) with (page_to_addr (1024 * j))
    by (unfold page_to_addr, PAGE_SIZE; f_equal; lia).
  rewrite addr_to_page_to_addr by (unfold BUDDY_TOTAL_PAGES; lia).
  rewrite top_blocks_step in Hrep by done.
  assert (top_blocks (j + 1) !! (1024 * j) = None) as Hnone.
  { apply eq_None_not_Some. intros [o H]. apply top_blocks_lookup in H as (b & ? & ? & _); lia. }
  pose proof (add_rep _ _ _ _ _ _ Hrep (lookup_insert_eq _ _ _)) as Hadd.
  rewrite delete_insert_eq, delete_id in Hadd by done.
  eexists. split_and!.
  - destruct Hadd. split; done.
  - apply coalesced_add; [done|]. lia.
  - unfold add_to_free_list. destruct (push_front _ _ _). cbn. rewrite Ht.
    change (1 <<: (MAX_ORDER - 1)) with 1024. rewrite u64_small by lia. lia.
  - unfold add_to_free_list. by destruct (push_front _ _ _).
Qed.

Lemma buddy_clear_blank :
  blank (buddy_clear buddy_boot) ∧
  total_free (buddy_clear buddy_boot) = 0 ∧ total_used (buddy_clear buddy_boot) = 0.
Proof.
  unfold buddy_clear. set (s1 := iter_up (Z.to_nat MAX_ORDER) _ _ _).
  assert (blank s1) as H1.
  { subst s1. apply (iter_up_inv (fun _ => blank)); [done|]. intros k s _ (Hl & Hc & Hp).
    split_and!; [intros o; cbn; rewrite aget_aset; by case_decide..|done]. }
  clearbody s1.
  apply (iter_up_inv (fun _ s => blank s ∧ total_free s = 0 ∧ total_used s = 0)); [done|].
  intros k s _ ((Hl & Hc & Hp) & Hf & Hu). split_and!; [|done..].
  split_and!; [done|done|]. intros i. cbn. rewrite aget_aset. by case_decide.
Qed.

Lemma buddy_init_eq s : buddy_initialized s = false →
  buddy_init s = (iter_up 31%nat 0 (init_block 0x400000) (buddy_clear s))⟦buddy_initialized := true⟧.
Proof.
  intros E. unfold buddy_init. rewrite E. generalize (buddy_clear s). intros t. reflexivity.
Qed.

(** The shape of the state [buddy_init] leaves. *)
Lemma buddy_init_shape : ∃ s, blank s ∧ total_free s = 0 ∧ total_used s = 0 ∧
  buddy_init buddy_boot = (iter_up 31%nat 0 (init_block 0x400000) s)⟦buddy_initialized := true⟧.
Proof.
  exists (buddy_clear buddy_boot). destruct buddy_clear_blank as (Hb & Hf & Hu).
  split; [exact Hb|]. split; [exact Hf|]. split; [exact Hu|].
  by apply buddy_init_eq.
Qed.

Lemma buddy_init_inv : buddy_inv (buddy_init buddy_boot) ∅.
Proof.
  destruct buddy_init_shape as (s3 & H3 & Hf & Hu & ->).
  pose proof (iter_up_inv (fun j s => ∃ fl, buddy_rep s fl ∅ (top_blocks j) ∧ coalesced fl ∧
    total_free s = 1024 * j ∧ total_used s = 0) (init_block 0x400000) 31%nat 0 s3) as Hloop.
  destruct Hloop as (fl & Hrep & Hc & Hf' & Hu').
  { exists (fun _ => []). split_and!; [by apply blank_rep|intros o i _ Hi; by apply elem_of_nil in Hi|done|done]. }
  { intros j s Hj (fl & Hrep & Hc & Hfs & Hus).
    destruct (init_block_spec s fl j) as (fl' & ? & ? & ? & E); [lia|done..|]. exists fl'. rewrite E. done. }
  set (s4 := iter_up _ _ _ s3) in *. clearbody s4. change (top_blocks _) with (∅ : gmap Z Z) in Hrep.
  split; [reflexivity|]. exists fl. split; [by destruct Hrep; split|]. split; [|exact Hc].
  split; cbn; [rewrite Hf'|rewrite Hu']; reflexivity.
Qed.

(** ** The states a client can reach *)

(** [al] maps the blocks the client holds to their orders.  A client may ask
    for any order, and returns blocks it holds, with the order it asked for. *)
Inductive buddy_reach : buddy_state → gmap Z Z → Prop :=
  | reach_init : buddy_reach (buddy_init buddy_boot) ∅
  | reach_alloc s al ord i s' :
      buddy_reach s al → 0 ≤ ord → 0 ≤ i < BUDDY_TOTAL_PAGES →
      buddy_alloc ord s = (page_to_addr i, s') → buddy_reach s' (<[i:=ord]> al)
  | reach_alloc_failed s al ord s' :
      buddy_reach s al → 0 ≤ ord → buddy_alloc ord s = (0, s') → buddy_reach s' al
  | reach_free s al ord i s' :
      buddy_reach s al → al !! i = Some ord →
      buddy_free (page_to_addr i) ord s = Some s' → buddy_reach s' (delete i al).

Lemma page_to_addr_inj i j : 0 ≤ i < BUDDY_TOTAL_PAGES → 0 ≤ j < BUDDY_TOTAL_PAGES →
  page_to_addr i = page_to_addr j → i = j.
Proof. intros Hi Hj. rewrite !page_to_addr_eq by done. unfold PAGE_SIZE. lia. Qed.

Lemma page_to_addr_nz i : 0 ≤ i < BUDDY_TOTAL_PAGES → page_to_addr i ≠ 0.
Proof. intros Hi. rewrite page_to_addr_eq by done. unfold PAGE_SIZE. lia. Qed.

Lemma block_ok_range i o : block_ok i o → 0 ≤ i < BUDDY_TOTAL_PAGES.
Proof. intros (? & ? & ? & _). pose proof (pow2_pos o). lia. Qed.

Lemma buddy_alloc_big s ord : MAX_ORDER ≤ ord → buddy_alloc ord s = (0, s).
Proof.
  intros Ho. unfold buddy_alloc. destruct (Z.leb_spec MAX_ORDER ord); [|lia].
  by rewrite orb_true_r.
Qed.

Lemma buddy_reach_inv s al : buddy_reach s al → buddy_inv s al.
Proof.
  induction 1 as [|s al ord i s' _ IH Ho Hi E|s al ord s' _ IH Ho E|s al ord i s' _ IH Hal E].
  - apply buddy_init_inv.
  - destruct (Z.le_gt_cases MAX_ORDER ord) as [Hbig|Hsmall].
    { rewrite buddy_alloc_big in E by done. apply (f_equal fst) in E. cbn in E.
      by apply page_to_addr_nz in Hi. }
    destruct (buddy_alloc_step s al ord) as [(j & s2 & E' & Hok & _ & _ & Hinv)|[E' _]]; [done|lia|..];
      rewrite E' in E; injection E as E1 E2.
    + apply page_to_addr_inj in E1; [by subst|by eapply block_ok_range|done].
    + by apply page_to_addr_nz in Hi.
  - destruct (Z.le_gt_cases MAX_ORDER ord) as [Hbig|Hsmall].
    { rewrite buddy_alloc_big in E by done. injection E as <-. done. }
    destruct (buddy_alloc_step s al ord) as [(j & s2 & E' & Hok & _ & _ & Hinv)|[E' _]]; [done|lia|..];
      rewrite E' in E; injection E as E1; [|by subst].
    apply block_ok_range, page_to_addr_nz in Hok. done.
  - destruct (buddy_free_step s al i ord IH Hal) as (s2 & E' & Hinv). congruence.
Qed.

(** Without blocks in use, a free block below the highest order would have a
    free buddy. *)
Lemma free_has_buddy s fl o i :
  buddy_rep s fl ∅ ∅ → coalesced fl → 0 ≤ o < MAX_ORDER - 1 → i ∈ fl o → False.
Proof.
  intros Hrep Hc Ho Hi. pose proof (rep_free_ok _ _ _ _ Hrep i o ltac:(lia) Hi) as Hok.
  pose proof (pow2_pos o) as Hp.
  destruct (buddy_block_ok i o) as [_ Hm]; [lia|done|].
  destruct (free_block_covered s fl ∅ (o + 1) (Z.min i (buddy_index i o)))
    as (j & o2 & Ho2 & Hj & Hl & Hu); [done|done|lia|done| |].
  { intros j o' p Hj. by rewrite lookup_empty in Hj. }
  rewrite pow2_succ in Hu by lia. destruct Hok as (_ & _ & _ & Hal).
  destruct (part_disjoint _ (rep_part _ _ _ _ Hrep) j o2 i o i) as [_ E]; [left; split; [lia|done]..| | |lia].
  - destruct (buddy_index_spec i o) as [[_ E]|[_ E]]; [lia|done|..]; unfold in_block; lia.
  - apply in_block_head. lia.
Qed.

(** The address returned is that of the head of the first non-empty list. *)
Lemma buddy_alloc_head s ord k x :
  buddy_initialized s = true → ord ≤ k < MAX_ORDER →
  (∀ o, ord ≤ o < k → (free_lists s).[o] = None) → (free_lists s).[k] = Some x →
  (buddy_alloc ord s).1 = page_to_addr x.
Proof.
  intros Hi Hk Hlow Hx. unfold buddy_alloc. rewrite Hi.
  destruct (Z.leb_spec MAX_ORDER ord); [lia|]. cbn [negb orb].
  assert (find_up (Z.to_nat (MAX_ORDER - ord)) ord (fun o => negb (is_null (free_lists s).[o])) = Some k) as ->.
  { apply find_up_Some. split; [lia|]. rewrite Hx. split; [done|]. intros o Ho. by rewrite Hlow. }
  by rewrite Hx.
Qed.

(** After [buddy_init] the topmost block heads the list of the highest order. *)
Lemma add_head s x k : (free_lists (add_to_free_list x k s)).[k] = Some x.
Proof. unfold add_to_free_list, push_front. apply aget_aset_eq. Qed.

Lemma init_block_head j s : 0 ≤ j < 31 →
  (free_lists (init_block 0x400000 j s)).[MAX_ORDER - 1] = Some (1024 * j).
Proof.
  intros Hj. unfold init_block.
  replace (u32 (BUDDY_START_ADDR + j * 0x400000)) with (page_to_addr (1024 * j))
    by (unfold page_to_addr, PAGE_SIZE; f_equal; lia).
  rewrite addr_to_page_to_addr by (unfold BUDDY_TOTAL_PAGES; lia). apply add_head.
Qed.

Lemma free_lists_initialized s b : free_lists (s⟦buddy_initialized := b⟧) = free_lists s.
Proof. reflexivity. Qed.

Lemma buddy_init_head : (free_lists (buddy_init buddy_boot)).[MAX_ORDER - 1] = Some 30720.
Proof.
  destruct buddy_init_shape as (s3 & _ & _ & _ & ->). rewrite free_lists_initialized.
  pose proof (iter_up_inv (fun j s => 0 < j → (free_lists s).[MAX_ORDER - 1] = Some (1024 * (j - 1)))
    (init_block 0x400000) 31%nat 0 s3) as Hloop. cbn beta in Hloop.
  change 30720 with (1024 * (0 + Z.of_nat 31 - 1)). apply Hloop; [lia| |lia].
  intros j s Hj _ _. rewrite init_block_head by lia. f_equal. lia.
Qed.

Lemma buddy_init_lower o : 0 ≤ o < MAX_ORDER - 1 → (free_lists (buddy_init buddy_boot)).[o] = None.
Proof.
  intros Ho. destruct buddy_init_inv as (_ & fl & Hrep & _ & Hc).
  destruct (rep_list _ _ _ _ Hrep o ltac:(lia)) as (-> & _).
  destruct (fl o) as [|i l] eqn:E; [done|]. exfalso.
  apply (free_has_buddy (buddy_init buddy_boot) fl o i); [done|done|done|]. rewrite E. set_solver.
Qed.

(** The state used in the witnesses: one page allocated. *)
Definition buddy_one_page : buddy_state := (buddy_alloc 0 (buddy_init buddy_boot)).2.

Lemma buddy_one_page_reach : buddy_reach buddy_one_page {[ 30720 := 0 ]}.
Proof.
  apply (reach_alloc (buddy_init buddy_boot) ∅ 0 30720); [apply reach_init|lia|unfold BUDDY_TOTAL_PAGES; lia|].
  rewrite <-(buddy_alloc_head (buddy_init buddy_boot) 0 (MAX_ORDER - 1) 30720);
    [apply surjective_pairing|apply buddy_init_inv|unfold MAX_ORDER; lia|apply buddy_init_lower|apply buddy_init_head].
Qed.

(** ** Properties *)

(** C3: in every reachable state, an allocation of order [ord] either returns
    the address of a naturally aligned block of [2 ^ ord] pages of the managed
    range that shares no page with any block in use, and moves [2 ^ ord] pages
    from the free to the used count; or it returns 0, changes nothing, and
    every aligned block of that size has a page in use: the allocator never
    refuses a request it could serve. *)
Theorem buddy_alloc_spec s al ord :
  buddy_reach s al → 0 ≤ ord < MAX_ORDER →
  (∃ i s', buddy_alloc ord s = (page_to_addr i, s') ∧ block_ok i ord ∧
           (∀ j o p, al !! j = Some o → in_block j o p → ¬ in_block i ord p) ∧
           buddy_reach s' (<[i:=ord]> al) ∧
           total_free s' = total_free s - 2 ^ ord ∧ total_used s' = total_used s + 2 ^ ord) ∨
  (buddy_alloc ord s = (0, s) ∧
   ∀ i, block_ok i ord → ∃ j o p, al !! j = Some o ∧ in_block j o p ∧ in_block i ord p).
Proof.
  intros Hr Ho. pose proof (buddy_reach_inv s al Hr) as Hinv.
  destruct (buddy_alloc_step s al ord Hinv Ho) as [(i & s' & E & Hok & Hi & Hd & Hinv')|Hfail]; [left|by right].
  exists i, s'. split; [exact E|]. split; [exact Hok|]. split; [exact Hd|]. split.
  - eapply reach_alloc; [done|lia|by eapply block_ok_range|done].
  - destruct Hinv as (_ & _ & _ & [Hf Hu] & _), Hinv' as (_ & _ & _ & [Hf' Hu'] & _).
    rewrite Hf, Hu, Hf', Hu', wsum_insert by done. lia.
Qed.

Lemma buddy_alloc_witness :
  (∃ i s', buddy_alloc 3 buddy_one_page = (page_to_addr i, s') ∧ block_ok i 3 ∧
    (∀ j o p, ({[ 30720 := 0 ]} : gmap Z Z) !! j = Some o → in_block j o p → ¬ in_block i 3 p) ∧
    buddy_reach s' (<[i:=3]> {[ 30720 := 0 ]}) ∧
    total_free s' = total_free buddy_one_page - 2 ^ 3 ∧
    total_used s' = total_used buddy_one_page + 2 ^ 3) ∨
  (buddy_alloc 3 buddy_one_page = (0, buddy_one_page) ∧
   ∀ i, block_ok i 3 → ∃ j o p, ({[ 30720 := 0 ]} : gmap Z Z) !! j = Some o ∧ in_block j o p ∧ in_block i 3 p).
Proof. apply buddy_alloc_spec; [apply buddy_one_page_reach|unfold MAX_ORDER; lia]. Defined.

(** C4: in every reachable state, releasing a block in use with the order it
    was allocated with terminates normally, puts exactly its pages back, and
    leads to a reachable state in which the other blocks are still in use. *)
Theorem buddy_free_spec s al i ord :
  buddy_reach s al → al !! i = Some ord →
  ∃ s', buddy_free (page_to_addr i) ord s = Some s' ∧ buddy_reach s' (delete i al) ∧
        total_free s' = total_free s + 2 ^ ord ∧ total_used s' = total_used s - 2 ^ ord.
Proof.
  intros Hr Hi. pose proof (buddy_reach_inv s al Hr) as Hinv.
  destruct (buddy_free_step s al i ord Hinv Hi) as (s' & E & Hinv').
  exists s'. split; [exact E|]. split; [by eapply reach_free|].
  destruct Hinv as (_ & _ & _ & [Hf Hu] & _), Hinv' as (_ & _ & _ & [Hf' Hu'] & _).
  rewrite Hf, Hu, Hf', Hu', (wsum_delete al i ord) by done. lia.
Qed.

Lemma buddy_free_witness :
  ∃ s', buddy_free (page_to_addr 30720) 0 buddy_one_page = Some s' ∧
        buddy_reach s' (delete 30720 {[ 30720 := 0 ]}) ∧
        total_free s' = total_free buddy_one_page + 2 ^ 0 ∧
        total_used s' = total_used buddy_one_page - 2 ^ 0.
Proof. apply buddy_free_spec; [apply buddy_one_page_reach|apply lookup_singleton_eq]. Defined.

(** C5: in every reachable state the blocks on the free lists and the blocks in
    use are legal blocks that cover every managed page exactly once; each free
    list is a well-formed list whose length is its counter, none of its blocks
    has a free buddy, and the totals are the number of pages on the lists and
    in use, adding up to all managed pages. *)
Theorem buddy_reach_safe s al :
  buddy_reach s al →
  ∃ fl, partition (blocks fl al ∅) ∧ coalesced fl ∧
        (∀ o, 0 ≤ o < MAX_ORDER → dll (page_descriptors s) (free_lists s).[o] (fl o) ∧
                                   (free_pages s).[o] = Z.of_nat (length (fl o))) ∧
        total_free s = free_sum fl ∧ total_used s = wsum al ∧
        total_free s + total_used s = BUDDY_TOTAL_PAGES.
Proof.
  intros Hr. destruct (buddy_reach_inv s al Hr) as (_ & fl & Hrep & [Hf Hu] & Hc).
  exists fl. split; [apply Hrep|]. split; [exact Hc|]. split.
  { intros o Ho. split; by apply Hrep. }
  pose proof (rep_sum _ _ _ _ Hrep) as Hs. change (wsum ∅) with 0 in Hs. lia.
Qed.

Lemma buddy_reach_safe_witness :
  ∃ fl, partition (blocks fl {[ 30720 := 0 ]} ∅) ∧ coalesced fl ∧
        (∀ o, 0 ≤ o < MAX_ORDER →
           dll (page_descriptors buddy_one_page) (free_lists buddy_one_page).[o] (fl o) ∧
           (free_pages buddy_one_page).[o] = Z.of_nat (length (fl o))) ∧
        total_free buddy_one_page = free_sum fl ∧ total_used buddy_one_page = wsum {[ 30720 := 0 ]} ∧
        total_free buddy_one_page + total_used buddy_one_page = BUDDY_TOTAL_PAGES.
Proof. apply buddy_reach_safe, buddy_one_page_reach. Defined.

Lemma get_order_loop_spec n ord size :
  0 ≤ ord → Z.of_nat n = MAX_ORDER - 1 - ord →
  let o := get_order_loop n (PAGE_SIZE * 2 ^ ord) ord size in
  ord ≤ o ≤ MAX_ORDER - 1 ∧ (o < MAX_ORDER - 1 → size ≤ PAGE_SIZE * 2 ^ o) ∧
  (ord < o → PAGE_SIZE * 2 ^ (o - 1) < size).
Proof.
  revert ord. induction n as [|n IH]; intros ord Ho Hn; cbn [get_order_loop]; [lia|].
  destruct (Z.ltb_spec (PAGE_SIZE * 2 ^ ord) size) as [Hlt|Hge]; [|lia].
  rewrite Z.shiftl_mul_pow2 by done. rewrite u32_small.
  2: { pose proof (pow2_pos ord Ho). pose proof (pow2_le ord). unfold PAGE_SIZE. lia. }
  replace (PAGE_SIZE * 2 ^ ord * 2 ^ 1) with (PAGE_SIZE * 2 ^ (ord + 1)) by (rewrite pow2_succ by done; lia).
  destruct (IH (ord + 1)) as (Hr & Hle & Hmin); [lia|lia|].
  split; [lia|]. split; [done|]. intros _. set (o := get_order_loop _ _ _ _) in *.
  destruct (decide (o = ord + 1)) as [->|]; [by replace (ord + 1 - 1) with ord by lia|]. apply Hmin. lia.
Qed.

(** C6: no fragmentation is left behind: whatever sequence of allocations and
    releases led to it, a reachable state in which every block has been
    returned has all its memory in the 31 blocks of the highest order. *)
Theorem buddy_all_returned s :
  buddy_reach s ∅ →
  (∀ o, 0 ≤ o < MAX_ORDER - 1 → (free_lists s).[o] = None) ∧
  (free_pages s).[MAX_ORDER - 1] = 31 ∧ total_free s = BUDDY_TOTAL_PAGES ∧ total_used s = 0.
Proof.
  intros Hr. destruct (buddy_reach_inv s ∅ Hr) as (_ & fl & Hrep & [Hf Hu] & Hc).
  assert (∀ o, 0 ≤ o < MAX_ORDER - 1 → fl o = []) as Hnil.
  { intros o Ho. destruct (fl o) as [|i l] eqn:E; [done|]. exfalso.
    assert (i ∈ fl o) as Hi by (rewrite E; set_solver).
    by eapply (free_has_buddy s fl o i). }
  split.
  { intros o Ho. destruct (rep_list _ _ _ _ Hrep o ltac:(lia)) as (-> & _). by rewrite Hnil. }
  rewrite (rep_count _ _ _ _ Hrep) by (unfold MAX_ORDER; lia).
  pose proof (rep_sum _ _ _ _ Hrep) as Hs. change (wsum ∅) with 0 in *.
  unfold free_sum in Hs. change (seqZ 0 MAX_ORDER) with ([0;1;2;3;4;5;6;7;8;9] ++ [MAX_ORDER - 1]) in Hs.
  cbn [foldr app] in Hs. rewrite !Hnil in Hs by (unfold MAX_ORDER; lia).
  unfold BUDDY_TOTAL_PAGES in *. change (2 ^ (MAX_ORDER - 1)) with 1024 in Hs. cbn [length] in Hs. lia.
Qed.

Lemma buddy_all_returned_witness :
  (∀ o, 0 ≤ o < MAX_ORDER - 1 → (free_lists (buddy_init buddy_boot)).[o] = None) ∧
  (free_pages (buddy_init buddy_boot)).[MAX_ORDER - 1] = 31 ∧
  total_free (buddy_init buddy_boot) = BUDDY_TOTAL_PAGES ∧ total_used (buddy_init buddy_boot) = 0.
Proof. apply buddy_all_returned, reach_init. Defined.

(** The order computed for a size is the least one whose blocks hold it,
    for every size up to the largest block; the order never exceeds the
    largest. *)
Theorem buddy_get_order_spec size :
  let o := buddy_get_order size in
  0 ≤ o < MAX_ORDER ∧
  (size ≤ PAGE_SIZE * 2 ^ (MAX_ORDER - 1) → size ≤ PAGE_SIZE * 2 ^ o) ∧
  (0 < o → PAGE_SIZE * 2 ^ (o - 1) < size).
Proof.
  destruct (get_order_loop_spec (Z.to_nat (MAX_ORDER - 1)) 0 size) as (Hr & Hle & Hmin);
    [done|unfold MAX_ORDER; lia|]. change (PAGE_SIZE * 2 ^ 0) with PAGE_SIZE in *.
  fold (buddy_get_order size) in *. split; [unfold MAX_ORDER in *; lia|]. split; [|exact Hmin].
  intros Hs. destruct (decide (buddy_get_order size = MAX_ORDER - 1)) as [->|Hne]; [done|].
  apply Hle. lia.
Qed.

(** A request for more than 1024 pages is answered with a block of 1024. *)
Theorem buddy_alloc_pages_undersized :
  (buddy_alloc_pages 1025 (buddy_init buddy_boot)).1 = page_to_addr 30720 ∧
  total_used (buddy_alloc_pages 1025 (buddy_init buddy_boot)).2 = 1024.
Proof.
  unfold buddy_alloc_pages. change (1025 =? 0) with false.
  change (buddy_get_order (u32 (1025 * PAGE_SIZE))) with 10. split.
  - apply (buddy_alloc_head _ 10 10); [apply buddy_init_inv|unfold MAX_ORDER; lia|lia|apply buddy_init_head].
  - destruct (buddy_alloc_step (buddy_init buddy_boot) ∅ 10)
      as [(i & s' & E & _ & _ & _ & (_ & _ & _ & [_ Hu] & _))|[_ H]];
      [apply buddy_init_inv|unfold MAX_ORDER; lia|..].
    + rewrite E. cbn [snd]. rewrite Hu, wsum_insert by apply lookup_empty. reflexivity.
    + destruct (H 0) as (j & o & p & Hj & _); [vm_compute; intuition congruence|].
      by rewrite lookup_empty in Hj.
Qed.
