(* ===== verification/Vmm.v ===== *)
(** * The virtual memory manager (kernel/mm/vmm.c)

    Two-level x86 paging: a directory of 1024 entries at a fixed physical
    address and tables of 1024 entries in frames taken from the page-frame
    allocator.  Physical memory is a map from the byte address of a 32-bit
    word to its value; the kernel reaches tables at their physical address, as
    vmm.c does.

    [pte st v] is the entry the hardware walk finds for the virtual address
    [v].  The theorems say how each operation changes the function [pte st],
    under the invariant that the directory and the tables of its present
    entries are pairwise distinct frames in use. *)

From S2P Require Import Prelude PageAlloc Pmm.

Definition PAGE_PRESENT : Z := 0x1.
Definition PAGE_WRITE : Z := 0x2.
Definition PAGE_USER : Z := 0x4.
Definition TABLES_PER_DIR : Z := 1024.
Definition PAGES_PER_TABLE : Z := 1024.
Definition kernel_directory : Z := 0x9C000.
Definition first_table : Z := 0x9D000.

Record vmm_state (S : Type) := mk_vmm {
  mem : gmap Z Z;
  current_directory : Z;
  pmm : S;
}.
Arguments mk_vmm {S}.
Arguments mem {S}.
Arguments current_directory {S}.
Arguments pmm {S}.
#[export] Instance eta_vmm {S} : Eta (vmm_state S) :=
  fun s => mk_vmm (mem s) (current_directory s) (pmm s).

Section operations.
Context {S : Type} `{PageAllocator S}.
Implicit Types st : vmm_state S.

(** [((unsigned int * )base)[i]] *)
Definition entry (st : vmm_state S) (base i : Z) : Z := (mem st).[base + 4 * i].
Definition set_entry (base i v : Z) (st : vmm_state S) : vmm_state S :=
  st⟦mem ::= fun m => aset m (base + 4 * i) v⟧.

(** [for (int i = 0; i < n; i++) base->entries[i] = g(i);] *)
Definition fill_entries (n base : Z) (g : Z → Z) (st : vmm_state S) : vmm_state S :=
  iter_up (Z.to_nat n) 0 (fun i => set_entry base i (g i)) st.

Definition dir_index (virtual_addr : Z) : Z := virtual_addr >>: 22.
Definition table_index (virtual_addr : Z) : Z := (virtual_addr >>: 12) &: 0x3FF.

(** The asm that loads CR3 and sets the paging bit has no other effect on
    the modelled state. *)
Definition vmm_switch_directory (directory_phys : Z) (st : vmm_state S) : vmm_state S :=
  st⟦current_directory := directory_phys⟧.

Definition vmm_get_current_directory (st : vmm_state S) : Z := current_directory st.

Definition vmm_init (st : vmm_state S) : vmm_state S :=
  let st := fill_entries TABLES_PER_DIR kernel_directory (fun _ => 0) st in
  let st := fill_entries PAGES_PER_TABLE first_table
              (fun i => ((i * PAGE_SIZE) |: PAGE_PRESENT) |: PAGE_WRITE) st in
  let st := set_entry kernel_directory 0 ((first_table |: PAGE_PRESENT) |: PAGE_WRITE) st in
  vmm_switch_directory kernel_directory st.

(** [if (!(kernel_directory->entries[dir_index] & PAGE_PRESENT)) { ... }] *)
Definition ensure_table (dir : Z) (st : vmm_state S) : vmm_state S :=
  if truth (entry st kernel_directory dir &: PAGE_PRESENT) then st
  else
    let '(table_phys, pmm') := pa_alloc (pmm st) in
    let st := st⟦pmm := pmm'⟧ in
    let st := set_entry kernel_directory dir
                (((table_phys |: PAGE_PRESENT) |: PAGE_WRITE) |: PAGE_USER) st in
    fill_entries PAGES_PER_TABLE table_phys (fun _ => 0) st.

Definition vmm_map_page (virtual_addr physical_addr flags : Z) (st : vmm_state S) : vmm_state S :=
  let dir := dir_index virtual_addr in
  let st := ensure_table dir st in
  let table := andn32 (entry st kernel_directory dir) 0xFFF in
  set_entry table (table_index virtual_addr) ((physical_addr |: PAGE_PRESENT) |: flags) st.

Definition vmm_unmap_page (virtual_addr : Z) (st : vmm_state S) : vmm_state S :=
  let dir := dir_index virtual_addr in
  if truth (entry st kernel_directory dir &: PAGE_PRESENT) then
    let table := andn32 (entry st kernel_directory dir) 0xFFF in
    set_entry table (table_index virtual_addr) 0 st
  else st.

Definition vmm_get_physical (virtual_addr : Z) (st : vmm_state S) : Z :=
  let dir := dir_index virtual_addr in
  if negb (truth (entry st kernel_directory dir &: PAGE_PRESENT)) then 0
  else
    let table := andn32 (entry st kernel_directory dir) 0xFFF in
    if negb (truth (entry st table (table_index virtual_addr) &: PAGE_PRESENT)) then 0
    else andn32 (entry st table (table_index virtual_addr)) 0xFFF.

Definition vmm_virt_to_phys (virt_addr : Z) (st : vmm_state S) : Z := vmm_get_physical virt_addr st.

(** Stubs in the source. *)
Definition vmm_mark_cow (vaddr : Z) (st : vmm_state S) : Z * vmm_state S := (0, st).
Definition vmm_set_page_flags (vaddr flags : Z) (st : vmm_state S) : Z * vmm_state S := (0, st).

(** ** What the hardware walk finds *)

Definition present (st : vmm_state S) (dir : Z) : bool :=
  truth (entry st kernel_directory dir &: PAGE_PRESENT).
Definition table_of (st : vmm_state S) (dir : Z) : Z :=
  andn32 (entry st kernel_directory dir) 0xFFF.
Definition pte (st : vmm_state S) (v : Z) : Z :=
  if present st (dir_index v) then entry st (table_of st (dir_index v)) (table_index v) else 0.

(** The directory and the tables are distinct frames in use. *)
Record vmm_wf (st : vmm_state S) (U : gset Z) : Prop := {
  wf_pmm : pa_rep (pmm st) U;
  wf_zero : 0 ∈ U;
  wf_dir : kernel_directory / PAGE_SIZE ∈ U;
  wf_table i : 0 ≤ i < TABLES_PER_DIR → present st i = true →
    ∃ f, table_of st i = f * PAGE_SIZE ∧ f ∈ U ∧ f ≠ kernel_directory / PAGE_SIZE;
  wf_inj i j : 0 ≤ i < TABLES_PER_DIR → 0 ≤ j < TABLES_PER_DIR →
    present st i = true → present st j = true → table_of st i = table_of st j → i = j;
}.

End operations.

Section theory.
Context {S : Type} `{PageAllocatorLaws S}.
Implicit Types st : vmm_state S.

Definition vaddr (v : Z) : Prop := 0 ≤ v < 2 ^ 32.

(** ** Indices and entries *)

Lemma dir_index_range v : vaddr v → 0 ≤ dir_index v < TABLES_PER_DIR.
Proof.
  intros Hv. unfold dir_index, TABLES_PER_DIR. rewrite Z.shiftr_div_pow2 by done.
  split; [apply Z.div_pos; unfold vaddr in *; lia|apply Z.div_lt_upper_bound; unfold vaddr in *; lia].
Qed.

Lemma table_index_eq v : table_index v = (v / 4096) mod 1024.
Proof.
  unfold table_index. rewrite Z.shiftr_div_pow2 by done. change 0x3FF with (Z.ones 10).
  by rewrite Z.land_ones by done.
Qed.

Lemma table_index_range v : 0 ≤ table_index v < PAGES_PER_TABLE.
Proof. rewrite table_index_eq. apply Z.mod_pos_bound. done. Qed.

(** The two indices are the page number. *)
Lemma indices_page v w :
  dir_index v = dir_index w ∧ table_index v = table_index w ↔ v / 4096 = w / 4096.
Proof.
  rewrite !table_index_eq. unfold dir_index. rewrite !Z.shiftr_div_pow2 by done.
  change (2 ^ 22) with (4096 * 1024). rewrite <-!Z.div_div by lia. split.
  - intros [Hd Hm]. rewrite (Z.div_mod (v / 4096) 1024), (Z.div_mod (w / 4096) 1024) by lia. congruence.
  - intros ->. done.
Qed.

Lemma entry_set base i x st base' j :
  entry (set_entry base i x st) base' j = if decide (base + 4 * i = base' + 4 * j) then x else entry st base' j.
Proof. unfold entry, set_entry. cbn. apply aget_aset. Qed.

(** Entries of distinct frames are distinct words. *)
Lemma entry_set_frame f i x st f' j : 0 ≤ i < 1024 → 0 ≤ j < 1024 →
  entry (set_entry (f * 4096) i x st) (f' * 4096) j =
    if decide (f = f' ∧ i = j) then x else entry st (f' * 4096) j.
Proof.
  intros Hi Hj. rewrite entry_set. repeat case_decide; try done; exfalso; lia.
Qed.

(** A loop that writes all entries of one frame. *)
Lemma fill_frame base f (g : Z → Z) st : base = f * 4096 →
  let st' := fill_entries 1024 base g st in
  pmm st' = pmm st ∧ current_directory st' = current_directory st ∧
  ∀ f' j, 0 ≤ j < 1024 →
    entry st' (f' * 4096) j = if decide (f' = f) then g j else entry st (f' * 4096) j.
Proof.
  intros ->. cbv zeta. unfold fill_entries.
  assert (0 + Z.of_nat (Z.to_nat 1024) = 1024) as E by done.
  pose proof (iter_up_inv (fun k st' => pmm st' = pmm st ∧ current_directory st' = current_directory st ∧
    ∀ f' j, 0 ≤ j < 1024 → entry st' (f' * 4096) j =
      if decide (f' = f ∧ j < k) then g j else entry st (f' * 4096) j)
    (fun i => set_entry (f * 4096) i (g i)) (Z.to_nat 1024) 0 st) as Hloop.
  rewrite E in Hloop. set (st' := iter_up _ _ _ st) in *. clearbody st'.
  destruct Hloop as (Hp & Hc & He).
  - split; [done|]. split; [done|]. intros f' j Hj. rewrite decide_False by lia. done.
  - intros k s Hk (Hp & Hc & He). split; [done|]. split; [done|]. intros f' j Hj.
    rewrite entry_set_frame by lia. rewrite He by done. repeat case_decide; try done; try lia.
    f_equal. lia.
  - split; [done|]. split; [done|]. intros f' j Hj. rewrite He by done.
    repeat case_decide; try done; lia.
Qed.

(** ** Flag words *)

Lemma pte_word a flags : 0 ≤ a * 4096 < 2 ^ 32 → 0 ≤ flags < 4096 →
  let e := ((a * 4096) |: PAGE_PRESENT) |: flags in
  truth (e &: PAGE_PRESENT) = true ∧ andn32 e 0xFFF = a * 4096.
Proof.
  intros Ha Hf. cbv zeta. unfold PAGE_PRESENT. rewrite <-Z.lor_assoc.
  assert (0 ≤ 1 |: flags < 4096) as Hr by (apply (lor_range 1 flags 12); lia).
  rewrite lor_page by done. split.
  - rewrite truth_land_1, Z.odd_add, Z.odd_mul, andb_false_r. cbn [xorb].
    by rewrite <-Z.bit0_odd, Z.lor_spec.
  - rewrite andn32_page by lia. rewrite Z.div_add_l, Z.div_small by lia. lia.
Qed.

Lemma vmm_get_physical_pte v st :
  vmm_get_physical v st = if truth (pte st v &: PAGE_PRESENT) then andn32 (pte st v) 0xFFF else 0.
Proof.
  unfold vmm_get_physical, pte, present, table_of. by destruct (truth _); cbn [negb]; [destruct (truth _)|].
Qed.

(** ** Table creation *)

Lemma kernel_directory_frame : kernel_directory = kernel_directory / PAGE_SIZE * 4096.
Proof. done. Qed.

Lemma dir_entry_word f : 0 ≤ f < TOTAL_PAGES →
  let e := (((f * PAGE_SIZE) |: PAGE_PRESENT) |: PAGE_WRITE) |: PAGE_USER in
  truth (e &: PAGE_PRESENT) = true ∧ andn32 e 0xFFF = f * PAGE_SIZE.
Proof.
  intros Hf. cbv zeta. rewrite <-(Z.lor_assoc _ PAGE_WRITE).
  apply (pte_word f (PAGE_WRITE |: PAGE_USER)); [unfold TOTAL_PAGES in *; lia|done].
Qed.

(** A fresh table frame leaves every walk as it was. *)
Lemma fresh_table st st' U dir f :
  vmm_wf st U → 0 ≤ dir < TABLES_PER_DIR → present st dir = false →
  0 < f < TOTAL_PAGES → f ∉ U → pa_rep (pmm st') ({[f]} ∪ U) →
  (∀ f' j, 0 ≤ j < 1024 → entry st' (f' * 4096) j =
     if decide (f' = f) then 0
     else entry (set_entry kernel_directory dir
       ((((f * PAGE_SIZE) |: PAGE_PRESENT) |: PAGE_WRITE) |: PAGE_USER) st) (f' * 4096) j) →
  vmm_wf st' ({[f]} ∪ U) ∧ present st' dir = true ∧ ∀ w, vaddr w → pte st' w = pte st w.
Proof.
  intros Hwf Hdir Hnp Hf HfU Hrep He.
  destruct (dir_entry_word f) as [Hw1 Hw2]; [lia|].
  assert (f ≠ kernel_directory / PAGE_SIZE) as Hfd by (intros ->; apply HfU, Hwf).
  assert (∀ i, 0 ≤ i < TABLES_PER_DIR → entry st' kernel_directory i =
    if decide (i = dir) then ((((f * PAGE_SIZE) |: PAGE_PRESENT) |: PAGE_WRITE) |: PAGE_USER)
    else entry st kernel_directory i) as Hd.
  { intros i Hi. rewrite kernel_directory_frame, He, decide_False by (done || congruence).
    rewrite kernel_directory_frame at 1. rewrite entry_set_frame by done.
    repeat case_decide; try done; lia. }
  assert (∀ i, 0 ≤ i < TABLES_PER_DIR → present st' i = (bool_decide (i = dir) || present st i)%bool ∧
    table_of st' i = if decide (i = dir) then f * PAGE_SIZE else table_of st i) as Hpt.
  { intros i Hi. unfold present, table_of. rewrite Hd by done.
    case_decide; subst; [by rewrite bool_decide_true|by rewrite bool_decide_false]. }
  assert (∀ f' j, f' ∈ U → f' ≠ kernel_directory / PAGE_SIZE → 0 ≤ j < 1024 →
    entry st' (f' * PAGE_SIZE) j = entry st (f' * PAGE_SIZE) j) as Hother.
  { intros f' j Hf' Hne Hj. unfold PAGE_SIZE at 1. rewrite He, decide_False by (done || congruence).
    rewrite kernel_directory_frame at 1. rewrite entry_set_frame by done.
    rewrite decide_False by (intros [? _]; congruence). done. }
  split; [|split].
  - split.
    + done.
    + apply elem_of_union_r, Hwf.
    + apply elem_of_union_r, Hwf.
    + intros i Hi. destruct (Hpt i Hi) as [-> ->]. case_decide as Hc.
      * intros _. exists f. split; [done|]. split; [set_solver|done].
      * rewrite bool_decide_false by done. cbn [orb]. intros Hpi.
        destruct (wf_table _ _ Hwf i Hi Hpi) as (f' & ? & ? & ?). exists f'. set_solver.
    + assert (∀ i, 0 ≤ i < TABLES_PER_DIR → present st i = true → table_of st i ≠ f * PAGE_SIZE) as Hnew.
      { intros i Hi Hpi E. destruct (wf_table _ _ Hwf i Hi Hpi) as (f' & E' & Hf' & _).
        rewrite E in E'. assert (f = f') by (unfold PAGE_SIZE in E'; lia). congruence. }
      assert (∀ i, i ≠ dir → (bool_decide (i = dir) || present st i)%bool = true → present st i = true) as Hold.
      { intros i Hi. by rewrite bool_decide_false. }
      intros i j Hi Hj. destruct (Hpt i Hi) as [-> ->], (Hpt j Hj) as [-> ->]. intros Hpi Hpj.
      destruct (decide (i = dir)) as [Ei|Ei], (decide (j = dir)) as [Ej|Ej].
      * congruence.
      * intros E. symmetry in E. exfalso. apply (Hnew j Hj); auto.
      * intros E. exfalso. apply (Hnew i Hi); auto.
      * apply (wf_inj _ _ Hwf); auto.
  - destruct (Hpt dir Hdir) as [-> _]. by rewrite bool_decide_true.
  - intros w Hw. pose proof (dir_index_range w Hw) as Hdi. pose proof (table_index_range w) as Hti.
    unfold pte. destruct (Hpt _ Hdi) as [-> ->]. case_decide as Hc.
    + rewrite bool_decide_true by done. cbn [orb]. rewrite Hc, Hnp.
      unfold PAGE_SIZE. by rewrite He, decide_True.
    + rewrite bool_decide_false by done. cbn [orb]. destruct (present st (dir_index w)) eqn:Hpw; [|done].
      destruct (wf_table _ _ Hwf _ Hdi Hpw) as (f' & -> & ? & ?). by apply Hother.
Qed.

Lemma ensure_table_spec st U dir :
  vmm_wf st U → 0 ≤ dir < TABLES_PER_DIR → present st dir = true ∨ ¬ all_used U →
  ∃ U', U ⊆ U' ∧ (present st dir = true → U' = U) ∧
    vmm_wf (ensure_table dir st) U' ∧ present (ensure_table dir st) dir = true ∧
    ∀ w, vaddr w → pte (ensure_table dir st) w = pte st w.
Proof.
  intros Hwf Hdir Hor. unfold ensure_table. fold (present st dir).
  destruct (present st dir) eqn:Hp; [by exists U|]. destruct Hor as [?|Hfree]; [done|].
  destruct (pa_alloc_spec _ _ (wf_pmm _ _ Hwf) (wf_zero _ _ Hwf))
    as [[_ ?]|(f & pmm' & -> & Hf & HfU & Hrep)]; [done|].
  set (st1 := set_entry kernel_directory dir _ _).
  destruct (fill_frame (f * 4096) f (fun _ => 0) st1 eq_refl) as (Hp' & _ & He).
  unfold PAGE_SIZE, PAGES_PER_TABLE. set (st' := fill_entries _ _ _ st1) in *. clearbody st'.
  destruct (fresh_table st st' U dir f) as (Hwf' & Hpr & Hpte); [done..|by rewrite Hp'|exact He|].
  exists ({[f]} ∪ U). split; [set_solver|]. split; [done|]. done.
Qed.

(** ** Writing one entry of a present table *)

Lemma store_pte st U v e :
  vmm_wf st U → vaddr v → present st (dir_index v) = true →
  let st' := set_entry (table_of st (dir_index v)) (table_index v) e st in
  vmm_wf st' U ∧
  ∀ w, vaddr w → pte st' w = if decide (w / 4096 = v / 4096) then e else pte st w.
Proof.
  intros Hwf Hv Hp st'. pose proof (dir_index_range v Hv) as Hdv. pose proof (table_index_range v) as Htv.
  destruct (wf_table _ _ Hwf _ Hdv Hp) as (f & Ef & HfU & Hfd).
  assert (∀ f' j, 0 ≤ j < 1024 → entry st' (f' * 4096) j =
    if decide (f = f' ∧ table_index v = j) then e else entry st (f' * 4096) j) as He.
  { intros f' j Hj. subst st'. rewrite Ef. by apply entry_set_frame. }
  assert (∀ i, 0 ≤ i < TABLES_PER_DIR → entry st' kernel_directory i = entry st kernel_directory i) as Hd.
  { intros i Hi. rewrite kernel_directory_frame, He by done. by rewrite decide_False by (intros [? _]; done). }
  assert (∀ i, 0 ≤ i < TABLES_PER_DIR → present st' i = present st i ∧ table_of st' i = table_of st i) as Hpt.
  { intros i Hi. unfold present, table_of. by rewrite Hd. }
  split.
  - destruct Hwf as [? ? ? Htab Hinj]. split; [done..| |].
    + intros i Hi. destruct (Hpt i Hi) as [-> ->]. auto.
    + intros i j Hi Hj. destruct (Hpt i Hi) as [-> ->], (Hpt j Hj) as [-> ->]. auto.
  - intros w Hw. pose proof (dir_index_range w Hw) as Hdw. pose proof (table_index_range w) as Htw.
    unfold pte. destruct (Hpt _ Hdw) as [-> ->].
    destruct (decide (w / 4096 = v / 4096)) as [E|E]; rewrite <-indices_page in E.
    + destruct E as [-> ->]. by rewrite Hp, Ef, He, decide_True.
    + destruct (present st (dir_index w)) eqn:Hpw; [|done].
      destruct (wf_table _ _ Hwf _ Hdw Hpw) as (f' & Ef' & _ & _). rewrite Ef'.
      unfold PAGE_SIZE. rewrite He by done. rewrite decide_False; [done|]. intros [-> Ht]. apply E. split; [|done].
      apply (wf_inj _ _ Hwf); [done..|congruence].
Qed.

(** ** Frames that hold no paging structure

    Data frames keep their contents when pages are mapped or unmapped. *)

Definition paging_frame (st : vmm_state S) (f : Z) : Prop :=
  f = kernel_directory / PAGE_SIZE ∨
  ∃ i, 0 ≤ i < TABLES_PER_DIR ∧ present st i = true ∧ table_of st i = f * PAGE_SIZE.

(** A frame in use that holds data. *)
Definition data_frame (st : vmm_state S) (U : gset Z) (f : Z) : Prop := f ∈ U ∧ ¬ paging_frame st f.

(** The walks depend only on the directory and its tables. *)
Lemma walk_ext st st' U :
  vmm_wf st U → pa_rep (pmm st') U →
  (∀ f j, paging_frame st f → 0 ≤ j < 1024 → entry st' (f * 4096) j = entry st (f * 4096) j) →
  vmm_wf st' U ∧ (∀ w, vaddr w → pte st' w = pte st w) ∧ (∀ f, paging_frame st' f ↔ paging_frame st f).
Proof.
  intros [? ? ? Htab Hinj] Hrep Hsame.
  assert (∀ i, 0 ≤ i < TABLES_PER_DIR → present st' i = present st i ∧ table_of st' i = table_of st i) as Hpt.
  { intros i Hi. unfold present, table_of. rewrite kernel_directory_frame, Hsame; [done|by left|done]. }
  split_and!.
  - split; [done..| |].
    + intros i Hi. destruct (Hpt i Hi) as [-> ->]. auto.
    + intros i j Hi Hj. destruct (Hpt i Hi) as [-> ->], (Hpt j Hj) as [-> ->]. auto.
  - intros w Hw. pose proof (dir_index_range w Hw) as Hdw. pose proof (table_index_range w) as Htw.
    unfold pte. destruct (Hpt _ Hdw) as [-> ->]. destruct (present st (dir_index w)) eqn:Hpw; [|done].
    destruct (Htab _ Hdw Hpw) as (f & Ef & _). rewrite Ef. apply Hsame; [|done]. right. eauto.
  - intros f. unfold paging_frame. f_equiv. f_equiv. intros i.
    split; intros (Hi & Hp & Ht); destruct (Hpt i Hi) as [E1 E2]; (split; [done|]); by rewrite E1, E2 in *.
Qed.

Lemma store_pte_frame st U v e :
  vmm_wf st U → vaddr v → present st (dir_index v) = true →
  let st' := set_entry (table_of st (dir_index v)) (table_index v) e st in
  (∀ i, 0 ≤ i < TABLES_PER_DIR → present st' i = present st i) ∧
  (∀ f, paging_frame st' f ↔ paging_frame st f) ∧
  (∀ f j, ¬ paging_frame st f → 0 ≤ j < 1024 → entry st' (f * 4096) j = entry st (f * 4096) j).
Proof.
  intros Hwf Hv Hp st'. pose proof (dir_index_range v Hv) as Hdv. pose proof (table_index_range v) as Htv.
  destruct (wf_table _ _ Hwf _ Hdv Hp) as (t & Et & HtU & Htd).
  assert (∀ f' j, 0 ≤ j < 1024 → entry st' (f' * 4096) j =
    if decide (t = f' ∧ table_index v = j) then e else entry st (f' * 4096) j) as He.
  { intros f' j Hj. subst st'. rewrite Et. by apply entry_set_frame. }
  assert (∀ i, 0 ≤ i < TABLES_PER_DIR → present st' i = present st i ∧ table_of st' i = table_of st i) as Hpt.
  { intros i Hi. unfold present, table_of. rewrite kernel_directory_frame, He by done.
    by rewrite decide_False by (intros [? _]; done). }
  split_and!.
  - intros i Hi. apply Hpt, Hi.
  - intros f. unfold paging_frame. f_equiv. f_equiv. intros i.
    split; intros (Hi & Hpi & Ht); destruct (Hpt i Hi) as [E1 E2]; (split; [done|]); by rewrite E1, E2 in *.
  - intros f j Hf Hj. rewrite He by done. rewrite decide_False; [done|]. intros [-> _]. apply Hf. right. eauto.
Qed.

Lemma ensure_table_frame st U dir :
  vmm_wf st U → 0 ≤ dir < TABLES_PER_DIR → present st dir = true ∨ ¬ all_used U →
  (∀ f, f ∈ U → paging_frame (ensure_table dir st) f → paging_frame st f) ∧
  (∀ f j, data_frame st U f → 0 ≤ j < 1024 → entry (ensure_table dir st) (f * 4096) j = entry st (f * 4096) j).
Proof.
  intros Hwf Hdir Hor. unfold ensure_table. fold (present st dir).
  destruct (present st dir) eqn:Hp; [done|]. destruct Hor as [?|Hfree]; [done|].
  destruct (pa_alloc_spec _ _ (wf_pmm _ _ Hwf) (wf_zero _ _ Hwf))
    as [[_ ?]|(f & pmm' & -> & Hf & HfU & Hrep)]; [done|].
  set (st0 := st⟦pmm := pmm'⟧). set (st1 := set_entry kernel_directory dir _ st0).
  destruct (fill_frame (f * 4096) f (fun _ => 0) st1 eq_refl) as (Hp' & _ & He).
  unfold PAGE_SIZE, PAGES_PER_TABLE. set (st' := fill_entries _ _ _ st1) in *. clearbody st'.
  assert (∀ g j, 0 ≤ j < 1024 → g ∈ U → entry st' (g * 4096) j =
    if decide (g = kernel_directory / PAGE_SIZE ∧ j = dir)
    then (((f * PAGE_SIZE |: PAGE_PRESENT) |: PAGE_WRITE) |: PAGE_USER) else entry st (g * 4096) j) as Hg.
  { intros g j Hj HgU. rewrite He, decide_False by (done || congruence). subst st1.
    rewrite kernel_directory_frame at 1. rewrite entry_set_frame by done.
    repeat case_decide; try done; naive_solver. }
  destruct (dir_entry_word f) as [Hw1 Hw2]; [lia|]. split.
  - intros g HgU [->|(i & Hi & Hpi & Ht)]; [by left|]. right.
    unfold present, table_of in Hpi, Ht. rewrite kernel_directory_frame, Hg in Hpi, Ht by (done || apply Hwf).
    destruct (decide (i = dir)) as [->|Hne].
    + rewrite decide_True in Ht by done. rewrite Hw2 in Ht. assert (f = g) as -> by (unfold PAGE_SIZE in Ht; lia). done.
    + rewrite decide_False in Hpi, Ht by naive_solver. exists i. done.
  - intros g j [HgU Hng] Hj. rewrite Hg by done. rewrite decide_False; [done|]. intros [-> _]. apply Hng. by left.
Qed.

(** [vmm_map_page] in full: the walks, the frames in use and the data
    frames. *)
Lemma map_page_ok st U v a flags :
  vmm_wf st U → vaddr v → present st (dir_index v) = true ∨ ¬ all_used U →
  let st' := vmm_map_page v (a * PAGE_SIZE) flags st in
  (∃ U', U ⊆ U' ∧ (present st (dir_index v) = true → U' = U) ∧ vmm_wf st' U') ∧
  (∀ w, vaddr w → pte st' w = if decide (w / PAGE_SIZE = v / PAGE_SIZE)
                              then a * PAGE_SIZE |: PAGE_PRESENT |: flags else pte st w) ∧
  (∀ f, f ∈ U → paging_frame st' f → paging_frame st f) ∧
  (∀ f j, data_frame st U f → 0 ≤ j < 1024 → entry st' (f * 4096) j = entry st (f * 4096) j).
Proof.
  intros Hwf Hv Hor. cbv zeta. unfold vmm_map_page.
  destruct (ensure_table_spec st U (dir_index v) Hwf (dir_index_range v Hv) Hor)
    as (U' & HU & Heq & Hwf' & Hp & Hpte).
  destruct (ensure_table_frame st U (dir_index v) Hwf (dir_index_range v Hv) Hor) as [Hpf Hdf].
  set (st1 := ensure_table (dir_index v) st) in *. clearbody st1. fold (table_of st1 (dir_index v)).
  destruct (store_pte st1 U' v ((a * PAGE_SIZE |: PAGE_PRESENT) |: flags) Hwf' Hv Hp) as [Hwf2 Hpte2].
  destruct (store_pte_frame st1 U' v ((a * PAGE_SIZE |: PAGE_PRESENT) |: flags) Hwf' Hv Hp) as (_ & Hpf2 & Hdf2).
  split_and!; [eauto|..].
  - intros w Hw. rewrite Hpte2 by done. unfold PAGE_SIZE. case_decide; [done|by apply Hpte].
  - intros f Hf Hpf'. apply Hpf; [done|]. by apply Hpf2.
  - intros f j [HfU Hnf] Hj. rewrite Hdf2; [by apply Hdf|auto|done].
Qed.

(** A frame taken from the allocator is a data frame, and a data frame may be
    given back. *)
Lemma take_frame st U f a :
  vmm_wf st U → f ∉ U → pa_rep a ({[f]} ∪ U) →
  vmm_wf st⟦pmm := a⟧ ({[f]} ∪ U) ∧ data_frame st⟦pmm := a⟧ ({[f]} ∪ U) f.
Proof.
  intros [Hp Hz Hd Htab Hinj] Hf Hrep. split.
  - split; [done|set_solver|set_solver| |done]. intros i Hi Hpi. destruct (Htab i Hi Hpi) as (g & ? & ? & ?).
    exists g. set_solver.
  - split; [set_solver|]. intros [->|(i & Hi & Hpi & Ht)]; [done|]. destruct (Htab i Hi Hpi) as (g & Eg & Hg & _).
    change (table_of st i = f * PAGE_SIZE) in Ht. rewrite Ht in Eg.
    assert (f = g) as -> by (unfold PAGE_SIZE in Eg; lia). done.
Qed.

Lemma release_frame st U f a :
  vmm_wf st U → data_frame st U f → f ≠ 0 → pa_rep a (U ∖ {[f]}) → vmm_wf st⟦pmm := a⟧ (U ∖ {[f]}).
Proof.
  intros [Hp Hz Hd Htab Hinj] [Hf Hnp] Hf0 Hrep. split; [done|set_solver| | |done].
  - apply elem_of_difference. split; [done|]. intros E%elem_of_singleton. apply Hnp. by left.
  - intros i Hi Hpi. destruct (Htab i Hi Hpi) as (g & ? & ? & ?). exists g. split; [done|]. split; [|done].
    apply elem_of_difference. split; [done|]. intros ->%elem_of_singleton. apply Hnp. right. eauto.
Qed.

(** Writing a data frame changes no walk. *)
Lemma fill_data st U f h :
  vmm_wf st U → data_frame st U f →
  let st' := fill_entries 1024 (f * 4096) h st in
  vmm_wf st' U ∧ pmm st' = pmm st ∧ (∀ w, vaddr w → pte st' w = pte st w) ∧
  (∀ g, paging_frame st' g ↔ paging_frame st g) ∧
  (∀ g j, 0 ≤ j < 1024 → entry st' (g * 4096) j = if decide (g = f) then h j else entry st (g * 4096) j).
Proof.
  intros Hwf [HfU Hnf] st'. destruct (fill_frame (f * 4096) f h st eq_refl) as (Hp & _ & He). fold st' in Hp, He.
  clearbody st'. destruct (walk_ext st st' U Hwf) as (Hwf' & Hpte & Hpf).
  - rewrite Hp. apply Hwf.
  - intros g j Hg Hj. rewrite He by done. rewrite decide_False; [done|]. by intros ->.
  - done.
Qed.

Lemma entry_addr st base i : entry st (base + 4 * i) 0 = entry st base i.
Proof. unfold entry. f_equal. lia. Qed.

Lemma set_entry_addr st base i x : set_entry (base + 4 * i) 0 x st = set_entry base i x st.
Proof. unfold set_entry. by replace (base + 4 * i + 4 * 0) with (base + 4 * i) by lia. Qed.

Lemma page_base v : vaddr v →
  andn32 v 0xFFF / PAGE_SIZE = v / PAGE_SIZE ∧ vaddr (andn32 v 0xFFF) ∧ dir_index (andn32 v 0xFFF) = dir_index v.
Proof.
  intros Hv. unfold vaddr in *. rewrite andn32_page by done.
  assert (v / 4096 * 4096 / 4096 = v / 4096) as E by (by apply Z.div_mul).
  pose proof (Z.div_mod v 4096 ltac:(done)). pose proof (Z.mod_pos_bound v 4096 ltac:(done)).
  assert (0 ≤ v / 4096) by (apply Z.div_pos; lia).
  split; [done|]. split; [lia|]. by apply indices_page in E as [? _].
Qed.

(** Taking a frame, filling it and mapping it: what every fault handler
    does. *)
Lemma install_ok st U v g a h flags :
  vmm_wf st U → vaddr v → g ∉ U → pa_rep a ({[g]} ∪ U) →
  present st (dir_index v) = true ∨ ¬ all_used ({[g]} ∪ U) →
  let st' := vmm_map_page (andn32 v 0xFFF) (g * PAGE_SIZE) flags (fill_entries 1024 (g * PAGE_SIZE) h st⟦pmm := a⟧) in
  ∃ U', {[g]} ∪ U ⊆ U' ∧ (present st (dir_index v) = true → U' = {[g]} ∪ U) ∧ vmm_wf st' U' ∧
    (∀ w, vaddr w → pte st' w = if decide (w / PAGE_SIZE = v / PAGE_SIZE)
                                then g * PAGE_SIZE |: PAGE_PRESENT |: flags else pte st w) ∧
    (∀ j, 0 ≤ j < 1024 → entry st' (g * PAGE_SIZE) j = h j) ∧
    (∀ f j, data_frame st U f → 0 ≤ j < 1024 → entry st' (f * PAGE_SIZE) j = entry st (f * PAGE_SIZE) j) ∧
    (∀ f, data_frame st U f → data_frame st' U' f).
Proof.
  intros Hwf Hv HgU Ha Hor st'. destruct (take_frame st U g a Hwf HgU Ha) as [Hwf1 Hdf1].
  assert (∀ f, paging_frame st⟦pmm := a⟧ f ↔ paging_frame st f) as Hpf1 by done.
  set (st1 := st⟦pmm := a⟧) in *. assert (present st1 (dir_index v) = present st (dir_index v)) as Hp1 by done.
  assert (∀ w, pte st1 w = pte st w) as Hpte1 by done. assert (∀ b j, entry st1 b j = entry st b j) as He1 by done.
  clearbody st1. destruct (fill_data st1 _ g h Hwf1 Hdf1) as (Hwf2 & _ & Hpte2 & Hpf2 & He2).
  change (g * 4096) with (g * PAGE_SIZE) in *. set (st2 := fill_entries 1024 (g * PAGE_SIZE) h st1) in *.
  assert (present st2 (dir_index v) = present st (dir_index v)) as Hp2.
  { pose proof (dir_index_range v Hv) as Hd. rewrite <- Hp1. unfold present. rewrite kernel_directory_frame.
    rewrite (He2 (kernel_directory / PAGE_SIZE)) by done.
    rewrite decide_False by (intros E; apply (proj2 Hdf1); left; congruence). done. }
  clearbody st2. destruct (page_base v Hv) as (Epg & Hvb & Edir).
  destruct (map_page_ok st2 _ (andn32 v 0xFFF) g flags Hwf2 Hvb)
    as ((U' & HU & HU' & Hwf3) & Hpte3 & Hpf3 & Hdat3); [by rewrite Edir, Hp2|]. rewrite Edir, Hp2 in HU'.
  assert (∀ f, data_frame st U f → data_frame st2 ({[g]} ∪ U) f) as Hdf.
  { intros f [Hf Hnf]. split; [set_solver|]. by rewrite Hpf2, Hpf1. }
  exists U'. split_and!; [done|done|done|..].
  - intros w Hw. rewrite Hpte3, Epg by done. case_decide; [done|]. by rewrite Hpte2, Hpte1.
  - intros j Hj. unfold PAGE_SIZE. rewrite Hdat3; [by rewrite He2, decide_True| |done]. split; [apply Hdf1|].
    rewrite Hpf2. apply Hdf1.
  - intros f j Hf Hj. unfold PAGE_SIZE. rewrite Hdat3; [|by apply Hdf|done]. rewrite He2, He1 by done.
    rewrite decide_False; [done|]. intros ->. by destruct Hf.
  - intros f Hf. destruct (Hdf f Hf) as [HfU Hnf]. split; [set_solver|]. intros Hp. by apply Hnf, Hpf3.
Qed.

(** ** The frames vmm.c fixes, and initialisation *)

Lemma vmm_init_eq st :
  vmm_init st = vmm_switch_directory kernel_directory
    (set_entry kernel_directory 0 (first_table |: PAGE_PRESENT |: PAGE_WRITE)
      (fill_entries 1024 first_table (fun i => i * PAGE_SIZE |: PAGE_PRESENT |: PAGE_WRITE)
        (fill_entries 1024 kernel_directory (fun _ => 0) st))).
Proof. reflexivity. Qed.

(** The directory and the first table after the two loops. *)
Lemma vmm_init_fills st st1 st2 :
  st1 = fill_entries 1024 kernel_directory (fun _ => 0) st →
  st2 = fill_entries 1024 first_table (fun i => i * PAGE_SIZE |: PAGE_PRESENT |: PAGE_WRITE) st1 →
  pmm st2 = pmm st ∧
  (∀ i, 0 ≤ i < 1024 → entry st2 kernel_directory i = 0) ∧
  ∀ i, 0 ≤ i < 1024 → entry st2 first_table i = i * PAGE_SIZE |: PAGE_PRESENT |: PAGE_WRITE.
Proof.
  intros E1 E2.
  pose proof (fill_frame kernel_directory 156 (fun _ => 0) st eq_refl) as Hf1.
  pose proof (fill_frame first_table 157
    (fun i => i * PAGE_SIZE |: PAGE_PRESENT |: PAGE_WRITE) st1 eq_refl) as Hf2.
  rewrite <-E1 in Hf1. rewrite <-E2 in Hf2. clear E1 E2.
  destruct Hf1 as (Hp1 & _ & He1), Hf2 as (Hp2 & _ & He2).
  split; [congruence|]. change kernel_directory with (156 * 4096). change first_table with (157 * 4096).
  split; intros i Hi; rewrite He2 by done; [|by rewrite decide_True].
  rewrite decide_False, He1 by done. by rewrite decide_True.
Qed.

Lemma vmm_init_steps st :
  pmm (vmm_init st) = pmm st ∧ current_directory (vmm_init st) = kernel_directory ∧
  (∀ i, 0 ≤ i < 1024 → entry (vmm_init st) kernel_directory i =
     if decide (i = 0) then first_table |: PAGE_PRESENT |: PAGE_WRITE else 0) ∧
  ∀ i, 0 ≤ i < 1024 → entry (vmm_init st) first_table i = i * PAGE_SIZE |: PAGE_PRESENT |: PAGE_WRITE.
Proof.
  rewrite vmm_init_eq. destruct (vmm_init_fills st _ _ eq_refl eq_refl) as (Hp & Hd & Ht).
  set (st2 := fill_entries 1024 first_table _ _) in *. clearbody st2.
  split; [exact Hp|]. split; [reflexivity|].
  split; intros i Hi; unfold vmm_switch_directory, entry; cbn; rewrite aget_aset.
  - specialize (Hd i Hi). unfold entry in Hd. repeat case_decide; [done|lia|lia|done].
  - specialize (Ht i Hi). unfold entry in Ht. rewrite decide_False; [done|].
    unfold kernel_directory, first_table. lia.
Qed.

(** After initialisation the directory is well formed. *)
Lemma vmm_init_wf st U :
  pa_rep (pmm st) U → 0 ∈ U → kernel_directory / PAGE_SIZE ∈ U → first_table / PAGE_SIZE ∈ U →
  vmm_wf (vmm_init st) U.
Proof.
  intros Hrep Hz Hkd Hft. destruct (vmm_init_steps st) as (Hp & _ & Hd & _).
  assert (∀ i, 0 ≤ i < TABLES_PER_DIR → present (vmm_init st) i = true → i = 0) as Hpr.
  { intros i Hi. unfold present. rewrite Hd by done. by case_decide. }
  split; [by rewrite Hp|done..| |].
  - intros i Hi Hpi. apply Hpr in Hpi as ->; [|done]. exists (first_table / PAGE_SIZE).
    unfold table_of. rewrite Hd by done. rewrite decide_True by reflexivity.
    split; [reflexivity|]. split; [exact Hft|]. vm_compute. discriminate.
  - intros i j Hi Hj Hpi Hpj _. apply Hpr in Hpi, Hpj; [congruence|done..].
Qed.

Lemma vmm_init_pte st v : vaddr v →
  pte (vmm_init st) v = if v <? 0x400000 then v / 4096 * 4096 + 3 else 0.
Proof.
  intros Hv. destruct (vmm_init_steps st) as (_ & _ & Hd & Ht).
  pose proof (dir_index_range v Hv) as Hdi. pose proof (table_index_range v) as Hti.
  unfold pte, present, table_of. rewrite Hd by done.
  unfold vaddr, dir_index in *. rewrite Z.shiftr_div_pow2 in * by done.
  destruct (Z.ltb_spec v 0x400000) as [Hlt|Hge].
  - rewrite decide_True by (apply Z.div_small; lia).
    change (truth _) with true. cbn iota. change (andn32 _ _) with first_table.
    rewrite Ht by done. rewrite table_index_eq, Z.mod_small.
    + unfold PAGE_SIZE. rewrite <-Z.lor_assoc. by apply (lor_page _ 3).
    + split; [apply Z.div_pos; lia|apply Z.div_lt_upper_bound; lia].
  - rewrite decide_False; [done|]. intros E. apply Z.div_small_iff in E; lia.
Qed.

End theory.

(** ** Properties *)

Section properties.
Context {S : Type} `{PageAllocatorLaws S}.
Implicit Types st : vmm_state S.


(** Unmapping a page makes exactly its addresses unmapped, keeps every
    other translation and the invariant, and takes no frame. *)
Theorem vmm_unmap_page_spec st U v :
  vmm_wf st U → vaddr v →
  let st' := vmm_unmap_page v st in
  vmm_wf st' U ∧
  (∀ w, vaddr w → pte st' w = if decide (w / PAGE_SIZE = v / PAGE_SIZE) then 0 else pte st w) ∧
  (∀ w, vaddr w → vmm_get_physical w st' =
     if decide (w / PAGE_SIZE = v / PAGE_SIZE) then 0 else vmm_get_physical w st).
Proof.
  intros Hwf Hv. cbv zeta. unfold vmm_unmap_page. fold (present st (dir_index v)).
  fold (table_of st (dir_index v)).
  assert (vmm_wf (if present st (dir_index v)
      then set_entry (table_of st (dir_index v)) (table_index v) 0 st else st) U ∧
    ∀ w, vaddr w → pte (if present st (dir_index v)
      then set_entry (table_of st (dir_index v)) (table_index v) 0 st else st) w =
      if decide (w / PAGE_SIZE = v / PAGE_SIZE) then 0 else pte st w) as [Hwf' Hpte].
  { destruct (present st (dir_index v)) eqn:Hp.
    - by apply store_pte.
    - split; [done|]. intros w Hw. case_decide as E; [|done].
      unfold pte. apply indices_page in E as [-> _]. by rewrite Hp. }
  split; [exact Hwf'|]. split; [exact Hpte|].
  intros w Hw. rewrite !vmm_get_physical_pte, Hpte by done. by case_decide.
Qed.

(** After [vmm_init] the first 4 MiB are mapped to themselves, nothing
    else is mapped, and the paging structures are well formed, provided the
    frames of the directory and of the first table are reserved. *)
Theorem vmm_init_spec st U :
  pa_rep (pmm st) U → 0 ∈ U → kernel_directory / PAGE_SIZE ∈ U → first_table / PAGE_SIZE ∈ U →
  vmm_wf (vmm_init st) U ∧ vmm_get_current_directory (vmm_init st) = kernel_directory ∧
  (∀ v, vaddr v → v < 0x400000 → vmm_get_physical v (vmm_init st) = v / PAGE_SIZE * PAGE_SIZE) ∧
  (∀ v, vaddr v → 0x400000 ≤ v → vmm_get_physical v (vmm_init st) = 0).
Proof.
  intros Hrep Hz Hkd Hft. split; [by apply vmm_init_wf|]. split; [by apply vmm_init_steps|].
  split; intros v Hv Hlt; rewrite vmm_get_physical_pte, vmm_init_pte by done.
  - destruct (Z.ltb_spec v 0x400000); [|lia]. unfold vaddr in Hv.
    assert (0 ≤ v / 4096 < 1024) by (split; [apply Z.div_pos; lia|apply Z.div_lt_upper_bound; lia]).
    unfold PAGE_PRESENT. rewrite truth_land_1, Z.odd_add, Z.odd_mul, andb_false_r. cbn [xorb].
    change (Z.odd 3) with true. cbn iota. rewrite andn32_page by lia.
    rewrite Z.div_add_l, Z.add_0_r by lia. done.
  - destruct (Z.ltb_spec v 0x400000); [lia|done].
Qed.

End properties.

(** *** The boot state, for the witnesses *)

Definition vmm_boot : vmm_state pmm_state := mk_vmm ∅ 0x9C000 pmm_ready.

Lemma vmm_boot_wf : vmm_wf (vmm_init vmm_boot) low_frames.
Proof.
  apply vmm_init_wf; [apply pmm_ready_rep|apply elem_of_low_frames..]; unfold LOW_PAGES; vm_compute; intuition discriminate.
Qed.

Lemma low_frames_free : ¬ all_used low_frames.
Proof.
  intros Hall. assert (600 ∈ low_frames) as H%elem_of_low_frames by (apply Hall; unfold TOTAL_PAGES; lia).
  unfold LOW_PAGES in H. vm_compute in H. intuition discriminate.
Qed.


Lemma vmm_unmap_page_witness :
  vmm_get_physical 0x5000 (vmm_unmap_page 0x5000 (vmm_init vmm_boot)) = 0.
Proof.
  destruct (vmm_unmap_page_spec (vmm_init vmm_boot) low_frames 0x5000)
    as (_ & _ & Hget); [apply vmm_boot_wf|unfold vaddr; lia|].
  rewrite Hget by (unfold vaddr; lia). rewrite decide_True by reflexivity. reflexivity.
Defined.

Lemma vmm_init_witness :
  vmm_get_physical 0x12345 (vmm_init vmm_boot) = 0x12000 ∧
  vmm_get_physical 0x400000 (vmm_init vmm_boot) = 0.
Proof.
  destruct (vmm_init_spec vmm_boot low_frames) as (_ & _ & Hlow & Hhigh);
    [apply pmm_ready_rep|apply elem_of_low_frames; vm_compute; intuition discriminate..|].
  split; [rewrite Hlow by (unfold vaddr; lia); reflexivity|rewrite Hhigh by (unfold vaddr; lia); reflexivity].
Defined.

(** ** Exhausted memory

    [vmm_map_page] does not look at the result of [pmm_alloc_page]: when no
    frame is left, every new table is put at physical address 0, so that two
    mappings in different 4 MiB regions share one table and the second
    replaces the first. *)

Section exhausted.
Context {S : Type} `{PageAllocatorLaws S}.
Implicit Types st : vmm_state S.

Lemma ensure_table_exhausted st dir :
  0 ≤ dir < 1024 → present st dir = false → pa_alloc (pmm st) = (0, pmm st) →
  pmm (ensure_table dir st) = pmm st ∧
  (∀ i, 0 ≤ i < 1024 → entry (ensure_table dir st) kernel_directory i =
     if decide (i = dir) then 7 else entry st kernel_directory i).
Proof.
  intros Hd Hp Ha. unfold ensure_table. fold (present st dir). rewrite Hp, Ha.
  unfold PAGES_PER_TABLE. set (st1 := set_entry _ _ _ _).
  destruct (fill_frame 0 0 (fun _ => 0) st1 eq_refl) as (Hp1 & _ & He).
  set (st' := fill_entries _ _ _ st1) in *. clearbody st'. split; [by rewrite Hp1|].
  intros i Hi. change kernel_directory with (156 * 4096). rewrite He, decide_False by done.
  subst st1. change kernel_directory with (156 * 4096). rewrite entry_set_frame by done.
  repeat case_decide; try done; lia.
Qed.

Theorem vmm_map_exhausted st U v1 v2 a1 a2 :
  vmm_wf st U → all_used U → vaddr v1 → vaddr v2 → 0 ≤ a2 * PAGE_SIZE < 2 ^ 32 →
  present st (dir_index v1) = false → present st (dir_index v2) = false →
  dir_index v1 ≠ dir_index v2 → table_index v1 = table_index v2 →
  vmm_get_physical v1 (vmm_map_page v2 (a2 * PAGE_SIZE) 0 (vmm_map_page v1 (a1 * PAGE_SIZE) 0 st))
  = a2 * PAGE_SIZE.
Proof.
  intros Hwf Hall Hv1 Hv2 Ha2 Hp1 Hp2 Hne Hti.
  pose proof (dir_index_range v1 Hv1) as Hd1. pose proof (dir_index_range v2 Hv2) as Hd2.
  pose proof (table_index_range v1) as Ht1. unfold TABLES_PER_DIR, PAGES_PER_TABLE in *.
  assert (pa_alloc (pmm st) = (0, pmm st)) as Ha.
  { destruct (pa_alloc_spec _ _ (wf_pmm _ _ Hwf) (wf_zero _ _ Hwf)) as [[? _]|(p & s' & _ & Hp & Hn & _)]; [done|].
    exfalso. apply Hn, Hall. lia. }
  destruct (ensure_table_exhausted st (dir_index v1) Hd1 Hp1 Ha) as [Hpm Hk1].
  unfold vmm_map_page. set (st1 := ensure_table (dir_index v1) st) in *. clearbody st1.
  rewrite (Hk1 (dir_index v1)), decide_True by done. change (andn32 7 0xFFF) with (0 * 4096).
  set (st2 := set_entry (0 * 4096) (table_index v1) _ st1).
  assert (∀ i, 0 ≤ i < 1024 → entry st2 kernel_directory i = entry st1 kernel_directory i) as Hk2.
  { intros i Hi. change kernel_directory with (156 * 4096). subst st2. rewrite entry_set_frame by done.
    by rewrite decide_False by (intros [? _]; done). }
  destruct (ensure_table_exhausted st2 (dir_index v2)) as [_ Hk3]; [done| |cbn; congruence|].
  { unfold present. rewrite Hk2, Hk1, decide_False by (done || congruence). exact Hp2. }
  clearbody st2. set (st3 := ensure_table (dir_index v2) st2) in *. clearbody st3.
  rewrite (Hk3 (dir_index v2)), decide_True by done. change (andn32 7 0xFFF) with (0 * 4096).
  set (e := (a2 * PAGE_SIZE |: PAGE_PRESENT) |: 0).
  assert (∀ f' j, 0 ≤ j < 1024 → entry (set_entry (0 * 4096) (table_index v2) e st3) (f' * 4096) j =
    if decide (0 = f' ∧ table_index v2 = j) then e else entry st3 (f' * 4096) j) as He.
  { intros f' j Hj. apply entry_set_frame; [congruence|done]. }
  destruct (pte_word a2 0 Ha2) as [Hw1 Hw2]; [done|].
  rewrite vmm_get_physical_pte. unfold pte, present, table_of.
  change kernel_directory with (156 * 4096). rewrite He, decide_False by (done || by intros [? _]).
  change (156 * 4096) with kernel_directory. rewrite Hk3, decide_False by done.
  rewrite Hk2, Hk1, decide_True by done. change (truth (7 &: PAGE_PRESENT)) with true. cbn iota.
  change (andn32 7 0xFFF) with (0 * 4096). rewrite He, decide_True by done.
  subst e. unfold PAGE_SIZE. by rewrite Hw1, Hw2.
Qed.

End exhausted.
