(* ===== verification/Sched.v ===== *)
(** * The task scheduler (kernel/task/scheduler.c, include/kernel/task.h)

    State: the task pool with its allocation bitmap, the per-CPU run queues
    (one doubly-linked list per priority, threaded through the tasks), the
    scheduler flags and statistics, the timer's tick counter and the
    page-frame allocator the stacks come from.  Every function of scheduler.c
    that touches this state is a definition; printing is left out.

    Writes outside [ready_lists] or [cpu_runqueues] and shifts by a negative
    count are undefined behaviour and make an operation return [None]. *)

From S2P Require Import Prelude Bitmap PageAlloc Dll.

Definition MAX_TASKS : Z := 256.
Definition MAX_CPUS : Z := 64.
Definition DEFAULT_STACK_SIZE : Z := 16384.
Definition DEFAULT_TIME_SLICE : Z := 10.
Definition RT_TIME_SLICE : Z := 100.
Definition MAX_NORMAL_PRIORITY : Z := 139.
Definition CPU_MASK_ALL : Z := 2 ^ 64 - 1.
Definition CPU_MASK_NONE : Z := 0.
Definition NICE_TO_PRIORITY (nice : Z) : Z := 120 + nice.
Definition PRIORITY_TO_NICE (prio : Z) : Z := prio - 120.

(** [affinity & CPU_MASK_CPU(cpu)] for [0 <= cpu < 64]. *)
Definition in_mask (affinity cpu : Z) : bool := truth (affinity &: (1 <<: cpu)).

Inductive sched_policy := SCHED_NORMAL | SCHED_FIFO | SCHED_RR | SCHED_BATCH | SCHED_IDLE.
#[export] Instance sched_policy_eq_dec : EqDecision sched_policy.
Proof. solve_decision. Defined.

Inductive task_state :=
  | TASK_NEW | TASK_READY | TASK_RUNNING | TASK_BLOCKED | TASK_SLEEPING | TASK_ZOMBIE | TASK_TERMINATED.
#[export] Instance task_state_eq_dec : EqDecision task_state.
Proof. solve_decision. Defined.
Definition state_is (a b : task_state) : bool := bool_decide (a = b).

Record task_stats := mk_task_stats {
  exec_time : Z;
  wait_time : Z;
  ctx_switches : Z;
  preemptions : Z;
  migrations : Z;
}.
#[export] Instance eta_task_stats : Eta task_stats := fun t =>
  mk_task_stats (exec_time t) (wait_time t) (ctx_switches t) (preemptions t) (migrations t).

(** The fields scheduler.c uses; thread.c owns the rest. *)
Record task := mk_task {
  id : Z;
  name : string;
  esp : Z;
  ebp : Z;
  eip : Z;
  eflags : Z;
  cr3 : Z;
  policy : sched_policy;
  priority : Z;
  static_priority : Z;
  nice : Z;
  state : task_state;
  cpu : Z;
  affinity : Z;
  time_slice : Z;
  exec_start : Z;
  sleep_until : Z;
  blocked_on : Z;
  pi_waiters : ptr;
  effective_priority : Z;
  stats : task_stats;
  stack_base : Z;
  stack_size : Z;
  next : ptr;
  prev : ptr;
}.
#[export] Instance eta_task : Eta task := fun t =>
  mk_task (id t) (name t) (esp t) (ebp t) (eip t) (eflags t) (cr3 t) (policy t) (priority t)
    (static_priority t) (nice t) (state t) (cpu t) (affinity t) (time_slice t) (exec_start t)
    (sleep_until t) (blocked_on t) (pi_waiters t) (effective_priority t) (stats t)
    (stack_base t) (stack_size t) (next t) (prev t).
#[export] Instance zeroed_task : Zeroed task :=
  mk_task 0 "" 0 0 0 0 0 SCHED_NORMAL 0 0 0 TASK_NEW 0 0 0 0 0 0 None 0
    (mk_task_stats 0 0 0 0 0) 0 0 None None.
#[export] Instance task_linked : Linked task := {
  lk_next := next;
  lk_prev := prev;
  lk_set_next p a := a⟦next := p⟧;
  lk_set_prev p a := a⟦prev := p⟧;
}.
#[export] Instance task_linked_laws : LinkedLaws task.
Proof. by split. Qed.

Record runqueue := mk_rq {
  current : ptr;
  idle_task : ptr;
  ready_lists : gmap Z ptr;
  nr_running : Z;
  load_weight : Z;
  last_balance : Z;
}.
#[export] Instance eta_rq : Eta runqueue := fun r =>
  mk_rq (current r) (idle_task r) (ready_lists r) (nr_running r) (load_weight r) (last_balance r).
#[export] Instance zeroed_rq : Zeroed runqueue := mk_rq None None ∅ 0 0 0.

Record scheduler_stats := mk_sched_stats {
  total_ctx_switches : Z;
  total_migrations : Z;
  total_preemptions : Z;
  load_balance_count : Z;
  idle_time : Z;
}.
#[export] Instance eta_sched_stats : Eta scheduler_stats := fun t =>
  mk_sched_stats (total_ctx_switches t) (total_migrations t) (total_preemptions t)
    (load_balance_count t) (idle_time t).

Record sched (S : Type) := mk_sched {
  task_pool : gmap Z task;
  task_bitmap : list Z;
  cpu_runqueues : gmap Z runqueue;
  num_cpus : Z;
  current_cpu : Z;
  scheduler_enabled : bool;
  preemption_enabled : bool;
  preemption_count : Z;
  global_stats : scheduler_stats;
  timer_ticks : Z;
  pmm : S;
}.
Arguments mk_sched {S}.
Arguments task_pool {S}.
Arguments task_bitmap {S}.
Arguments cpu_runqueues {S}.
Arguments num_cpus {S}.
Arguments current_cpu {S}.
Arguments scheduler_enabled {S}.
Arguments preemption_enabled {S}.
Arguments preemption_count {S}.
Arguments global_stats {S}.
Arguments timer_ticks {S}.
Arguments pmm {S}.
#[export] Instance eta_sched {S} : Eta (sched S) := fun s =>
  mk_sched (task_pool s) (task_bitmap s) (cpu_runqueues s) (num_cpus s) (current_cpu s)
    (scheduler_enabled s) (preemption_enabled s) (preemption_count s) (global_stats s)
    (timer_ticks s) (pmm s).

(** Static storage at boot, over the state of the frame allocator. *)
Definition sched_boot {S} (p : S) : sched S :=
  mk_sched ∅ (replicate 8 0) ∅ 1 0 false true 0 (mk_sched_stats 0 0 0 0 0) 0 p.

Section operations.
Context {S : Type} `{PageAllocator S}.
Implicit Types s : sched S.

Definition task_at (s : sched S) (t : Z) : task := (task_pool s).[t].
Definition rq_at (s : sched S) (c : Z) : runqueue := (cpu_runqueues s).[c].
Definition upd_task (t : Z) (f : task → task) (s : sched S) : sched S :=
  s⟦task_pool ::= fun p => amod p t f⟧.
Definition upd_rq (c : Z) (f : runqueue → runqueue) (s : sched S) : sched S :=
  s⟦cpu_runqueues ::= fun r => amod r c f⟧.

(** [timer_get_ticks] and the interrupt handler of kernel/timer.c. *)
Definition timer_get_ticks (s : sched S) : Z := timer_ticks s.
Definition timer_handler (s : sched S) : sched S := s⟦timer_ticks ::= fun n => u32 (n + 1)⟧.

(** Copies at most [n] characters, up to the terminator. *)
Fixpoint strcpy_safe (n : nat) (src : string) : string :=
  match n, src with
  | Datatypes.S n', String c src' =>
      if Ascii.eqb c Ascii.zero then EmptyString else String c (strcpy_safe n' src')
  | _, _ => EmptyString
  end.

Definition alloc_task_id (s : sched S) : Z * sched S :=
  match bm_find_free 32 (task_bitmap s) (Z.to_nat MAX_TASKS) with
  | Some i => (i, s⟦task_bitmap ::= fun b => bm_set 32 b i⟧)
  | None => (-1, s)
  end.

Definition free_task_id (task_id : Z) (s : sched S) : sched S :=
  if (0 <=? task_id) && (task_id <? MAX_TASKS) then s⟦task_bitmap ::= fun b => bm_clear 32 b task_id⟧
  else s.

Definition get_task (task_id : Z) (s : sched S) : ptr :=
  if (0 <=? task_id) && (task_id <? MAX_TASKS) then
    if bm_test 32 (task_bitmap s) task_id then Some task_id else None
  else None.

Definition enqueue_task (c t : Z) (s : sched S) : option (sched S) :=
  let p := priority (task_at s t) in
  if MAX_NORMAL_PRIORITY <? p then Some s
  else if p <? 0 then None
  else
    let '(pool, hd) := push_front (task_pool s) (ready_lists (rq_at s c)).[p] t in
    Some (upd_rq c (fun r => r⟦ready_lists ::= fun l => aset l p hd⟧
                              ⟦nr_running ::= fun n => u32 (n + 1)⟧) (s⟦task_pool := pool⟧)).

Definition dequeue_task (c t : Z) (s : sched S) : option (sched S) :=
  let p := priority (task_at s t) in
  if MAX_NORMAL_PRIORITY <? p then Some s
  else if (p <? 0) && is_null (prev (task_at s t)) then None
  else
    let '(pool, hd) := unlink (task_pool s) (ready_lists (rq_at s c)).[p] t in
    Some (upd_rq c (fun r => r⟦ready_lists ::= fun l => aset l p hd⟧
                              ⟦nr_running ::= fun n => u32 (n - 1)⟧)
                 (s⟦task_pool := clear_links pool t⟧)).

Definition pick_next_task (c : Z) (s : sched S) : ptr :=
  match find_up (Z.to_nat (MAX_NORMAL_PRIORITY + 1)) 0
          (fun i => negb (is_null (ready_lists (rq_at s c)).[i])) with
  | Some i => (ready_lists (rq_at s c)).[i]
  | None => idle_task (rq_at s c)
  end.

(** The [int] product does not overflow for priorities below [2 ^ 27]. *)
Definition calculate_time_slice (t : task) : Z :=
  match policy t with
  | SCHED_FIFO => RT_TIME_SLICE * 10
  | SCHED_RR => RT_TIME_SLICE
  | SCHED_BATCH => DEFAULT_TIME_SLICE * 5
  | SCHED_IDLE => DEFAULT_TIME_SLICE / 2
  | SCHED_NORMAL =>
      let nice_value := PRIORITY_TO_NICE (priority t) in
      u64 (Z.quot (DEFAULT_TIME_SLICE * (20 - nice_value)) 20)
  end.

Definition scheduler_init_cpu (cpu_id : Z) (s : sched S) : option (sched S) :=
  if MAX_CPUS <=? cpu_id then Some s
  else if cpu_id <? 0 then None
  else
    let s := upd_rq cpu_id (fun r =>
      r⟦current := None⟧⟦idle_task := None⟧⟦nr_running := 0⟧⟦load_weight := 0⟧⟦last_balance := 0⟧) s in
    Some (iter_up (Z.to_nat (MAX_NORMAL_PRIORITY + 1)) 0 (fun i =>
      upd_rq cpu_id (fun r => r⟦ready_lists ::= fun l => aset l i None⟧)) s).

Definition scheduler_init (s : sched S) : option (sched S) :=
  let s := iter_up (Z.to_nat MAX_TASKS) 0 (fun i =>
             upd_task i (fun t => t⟦state := TASK_TERMINATED⟧⟦id := 0⟧)) s in
  let s := iter_up (Z.to_nat (MAX_TASKS / 32)) 0 (fun i s =>
             s⟦task_bitmap ::= fun b => <[Z.to_nat i := 0]> b⟧) s in
  s ← for_up (Z.to_nat (num_cpus s)) 0 scheduler_init_cpu s;
  Some (s⟦scheduler_enabled := false⟧).

(** The fields [task_create_ex] fills in before it asks for a stack. *)
Definition init_task (task_id : Z) (nm : option string) (pol : sched_policy) (prio aff stack c : Z)
    (t : task) : task :=
  let t := t⟦id := task_id⟧⟦name := strcpy_safe 31 (default "unnamed"%string nm)⟧⟦policy := pol⟧
            ⟦static_priority := prio⟧⟦priority := prio⟧⟦effective_priority := prio⟧
            ⟦nice := PRIORITY_TO_NICE prio⟧⟦state := TASK_NEW⟧⟦cpu := c⟧⟦affinity := aff⟧ in
  let t := t⟦time_slice := calculate_time_slice t⟧⟦exec_start := 0⟧⟦sleep_until := 0⟧
            ⟦blocked_on := -1⟧⟦pi_waiters := None⟧⟦stats := mk_task_stats 0 0 0 0 0⟧ in
  t⟦stack_size := stack⟧.

(** The fields it fills in once the stack is there. *)
Definition start_task (entry_point base stack : Z) (t : task) : task :=
  t⟦esp := u32 (base + stack)⟧⟦ebp := u32 (base + stack)⟧⟦eip := entry_point⟧
   ⟦eflags := 0x202⟧⟦cr3 := 0⟧⟦next := None⟧⟦prev := None⟧⟦state := TASK_READY⟧.

Definition task_create_ex (entry_point : Z) (nm : option string) (pol : sched_policy)
    (prio aff stack : Z) (s : sched S) : option (Z * sched S) :=
  let '(task_id, s) := alloc_task_id s in
  if task_id <? 0 then Some (-1, s)
  else
    let stack := if stack <? 4096 then 4096 else stack in
    let s := upd_task task_id (init_task task_id nm pol prio aff stack (current_cpu s)) s in
    let '(base, pmm') := pa_alloc (pmm s) in
    let s := upd_task task_id (fun t => t⟦stack_base := base⟧) (s⟦pmm := pmm'⟧) in
    if base =? 0 then Some (-1, free_task_id task_id s)
    else
      let s := upd_task task_id (start_task entry_point base stack) s in
      s ← enqueue_task (cpu (task_at s task_id)) task_id s;
      Some (task_id, s).

Definition task_create (entry_point : Z) (nm : option string) (pol : sched_policy) (prio : Z)
    (s : sched S) : option (Z * sched S) :=
  task_create_ex entry_point nm pol prio CPU_MASK_ALL DEFAULT_STACK_SIZE s.

(** The tail of [scheduler_schedule], once [next] is chosen. *)
Definition dispatch (c : Z) (prev : ptr) (nx : Z) (s : sched S) : option (sched S) :=
  s ← (if state_is (state (task_at s nx)) TASK_READY then dequeue_task c nx s else Some s);
  let s := upd_task nx (fun t =>
    let t := t⟦state := TASK_RUNNING⟧ in
    t⟦time_slice := calculate_time_slice t⟧⟦exec_start := timer_get_ticks s⟧) s in
  let s := match prev with
           | Some p =>
               if p =? nx then s
               else upd_task p (fun t => t⟦stats ::= fun st => st⟦ctx_switches ::= fun n => u64 (n + 1)⟧⟧)
                      (s⟦global_stats ::= fun g => g⟦total_ctx_switches ::= fun n => u64 (n + 1)⟧⟧)
           | None => s
           end in
  Some (upd_rq c (fun r => r⟦current := Some nx⟧) s).

Definition scheduler_schedule (s : sched S) : option (sched S) :=
  if negb (scheduler_enabled s) || negb (preemption_enabled s) then Some s
  else
    let c := current_cpu s in
    let prev := current (rq_at s c) in
    s ← match prev with
        | Some p =>
            if state_is (state (task_at s p)) TASK_RUNNING then
              enqueue_task c p (upd_task p (fun t => t⟦state := TASK_READY⟧) s)
            else Some s
        | None => Some s
        end;
    match pick_next_task c s with
    | None => Some s
    | Some nx => dispatch c prev nx s
    end.

Definition task_wakeup (task_id : Z) (s : sched S) : option (sched S) :=
  match get_task task_id s with
  | None => Some s
  | Some t =>
      if negb (state_is (state (task_at s t)) TASK_SLEEPING) then Some s
      else
        let s := upd_task t (fun k => k⟦state := TASK_READY⟧⟦sleep_until := 0⟧) s in
        enqueue_task (cpu (task_at s t)) t s
  end.

(** The body of the loop of [scheduler_tick] over the task pool. *)
Definition wake_sleeper (i : Z) (s : sched S) : option (sched S) :=
  if bm_test 32 (task_bitmap s) i then
    let t := task_at s i in
    if state_is (state t) TASK_SLEEPING && (sleep_until t <=? timer_get_ticks s)
    then task_wakeup (id t) s
    else Some s
  else Some s.

Definition scheduler_tick (s : sched S) : option (sched S) :=
  if negb (scheduler_enabled s) then Some s
  else
    match current (rq_at s (current_cpu s)) with
    | None => Some s
    | Some cur =>
        let s := upd_task cur (fun t => t⟦stats ::= fun st => st⟦exec_time ::= fun n => u64 (n + 1)⟧⟧) s in
        let s := upd_task cur (fun t => if 0 <? time_slice t then t⟦time_slice ::= fun n => n - 1⟧ else t) s in
        let expired := time_slice (task_at s cur) =? 0 in
        if expired && bool_decide (policy (task_at s cur) = SCHED_FIFO) then
          Some (upd_task cur (fun t => t⟦time_slice := calculate_time_slice t⟧) s)
        else
          s ← (if expired then
                 scheduler_schedule
                   (upd_task cur (fun t => t⟦stats ::= fun st => st⟦preemptions ::= fun n => u64 (n + 1)⟧⟧)
                     (s⟦global_stats ::= fun g => g⟦total_preemptions ::= fun n => u64 (n + 1)⟧⟧))
               else Some s);
          for_up (Z.to_nat MAX_TASKS) 0 wake_sleeper s
    end.

Definition scheduler_start (s : sched S) : option (sched S) :=
  if scheduler_enabled s then Some s
  else scheduler_schedule (s⟦scheduler_enabled := true⟧).

Definition task_block (resource_id : Z) (s : sched S) : option (sched S) :=
  match current (rq_at s (current_cpu s)) with
  | None => Some s
  | Some cur =>
      scheduler_schedule (upd_task cur (fun t => t⟦state := TASK_BLOCKED⟧⟦blocked_on := resource_id⟧) s)
  end.

Definition task_unblock (task_id : Z) (s : sched S) : option (sched S) :=
  match get_task task_id s with
  | None => Some s
  | Some t =>
      if negb (state_is (state (task_at s t)) TASK_BLOCKED) then Some s
      else
        let s := upd_task t (fun k => k⟦state := TASK_READY⟧⟦blocked_on := -1⟧) s in
        enqueue_task (cpu (task_at s t)) t s
  end.

Definition task_sleep (n : Z) (s : sched S) : option (sched S) :=
  match current (rq_at s (current_cpu s)) with
  | None => Some s
  | Some cur =>
      scheduler_schedule (upd_task cur (fun t =>
        t⟦state := TASK_SLEEPING⟧⟦sleep_until := u64 (timer_get_ticks s + n)⟧) s)
  end.

Definition task_exit (exit_code : Z) (s : sched S) : option (sched S) :=
  match current (rq_at s (current_cpu s)) with
  | None => Some s
  | Some cur =>
      let s := upd_task cur (fun t => t⟦state := TASK_ZOMBIE⟧) s in
      s ← (if stack_base (task_at s cur) =? 0 then Some s
           else p ← pa_free (stack_base (task_at s cur)) (pmm s); Some (s⟦pmm := p⟧));
      scheduler_schedule (free_task_id (id (task_at s cur)) s)
  end.

Definition task_yield (s : sched S) : option (sched S) := scheduler_schedule s.

Definition task_get_current_id (s : sched S) : Z :=
  match current (rq_at s (current_cpu s)) with Some t => id (task_at s t) | None => -1 end.

Definition task_get_current (s : sched S) : ptr := current (rq_at s (current_cpu s)).

Definition task_set_priority (task_id prio : Z) (s : sched S) : option (Z * sched S) :=
  match get_task task_id s with
  | None => Some (-1, s)
  | Some t =>
      if MAX_NORMAL_PRIORITY <? prio then Some (-1, s)
      else if state_is (state (task_at s t)) TASK_READY then
        let c := cpu (task_at s t) in
        s ← dequeue_task c t s;
        let s := upd_task t (fun k => k⟦priority := prio⟧⟦static_priority := prio⟧) s in
        s ← enqueue_task c t s;
        Some (0, s)
      else Some (0, upd_task t (fun k => k⟦priority := prio⟧⟦static_priority := prio⟧) s)
  end.

Definition task_get_priority (task_id : Z) (s : sched S) : Z :=
  match get_task task_id s with Some t => priority (task_at s t) | None => -1 end.

Definition task_set_policy (task_id : Z) (pol : sched_policy) (s : sched S) : Z * sched S :=
  match get_task task_id s with
  | None => (-1, s)
  | Some t =>
      (0, upd_task t (fun k => let k := k⟦policy := pol⟧ in k⟦time_slice := calculate_time_slice k⟧) s)
  end.

Definition task_migrate (task_id target_cpu : Z) (s : sched S) : option (Z * sched S) :=
  match get_task task_id s with
  | None => Some (-1, s)
  | Some t =>
      if (num_cpus s <=? target_cpu) || (target_cpu =? cpu (task_at s t)) then Some (-1, s)
      else if (target_cpu <? 0) || (MAX_CPUS <=? target_cpu) then None
      else if negb (in_mask (affinity (task_at s t)) target_cpu) then Some (-1, s)
      else
        s ← (if state_is (state (task_at s t)) TASK_READY then dequeue_task (cpu (task_at s t)) t s else Some s);
        let s := upd_task t (fun k =>
          k⟦cpu := target_cpu⟧⟦stats ::= fun st => st⟦migrations ::= fun n => u64 (n + 1)⟧⟧) s in
        let s := s⟦global_stats ::= fun g => g⟦total_migrations ::= fun n => u64 (n + 1)⟧⟧ in
        s ← (if state_is (state (task_at s t)) TASK_READY then enqueue_task target_cpu t s else Some s);
        Some (0, s)
  end.

Definition task_set_affinity (task_id aff : Z) (s : sched S) : option (Z * sched S) :=
  match get_task task_id s with
  | None => Some (-1, s)
  | Some t =>
      if aff =? CPU_MASK_NONE then Some (-1, s)
      else
        let s := upd_task t (fun k => k⟦affinity := aff⟧) s in
        if in_mask aff (cpu (task_at s t)) then Some (0, s)
        else
          match find_up (Z.to_nat (num_cpus s)) 0 (in_mask aff) with
          | Some c => task_migrate task_id c s
          | None => Some (0, s)
          end
  end.

Definition task_get_affinity (task_id : Z) (s : sched S) : option Z :=
  match get_task task_id s with Some t => Some (affinity (task_at s t)) | None => None end.

Definition task_set_nice (task_id n : Z) (s : sched S) : option (Z * sched S) :=
  if (n <? -20) || (19 <? n) then Some (-1, s)
  else task_set_priority task_id (NICE_TO_PRIORITY n) s.

(** One step of the search for the most and the least loaded CPU. *)
Definition load_extremes (s : sched S) (i : Z) (acc : Z * Z * Z * Z) : Z * Z * Z * Z :=
  let '(max_cpu, max_load, min_cpu, min_load) := acc in
  let load := nr_running (rq_at s i) in
  let '(max_cpu, max_load) := if max_load <? load then (i, load) else (max_cpu, max_load) in
  let '(min_cpu, min_load) := if load <? min_load then (i, load) else (min_cpu, min_load) in
  (max_cpu, max_load, min_cpu, min_load).

Definition scheduler_balance_load (s : sched S) : option (sched S) :=
  if num_cpus s <? 2 then Some s
  else
    let current_time := timer_get_ticks s in
    let c := current_cpu s in
    if u64 (current_time - last_balance (rq_at s c)) <? 100 then Some s
    else
      let s := upd_rq c (fun r => r⟦last_balance := current_time⟧) s in
      let s := s⟦global_stats ::= fun g => g⟦load_balance_count ::= fun n => u64 (n + 1)⟧⟧ in
      let load0 := nr_running (rq_at s 0) in
      let '(max_cpu, max_load, min_cpu, min_load) :=
        iter_up (Z.to_nat (num_cpus s - 1)) 1 (load_extremes s) (0, load0, 0, load0) in
      if u32 (min_load + 2) <? max_load then
        let suitable k := match (ready_lists (rq_at s max_cpu)).[MAX_NORMAL_PRIORITY - k] with
                          | Some t => in_mask (affinity (task_at s t)) min_cpu
                          | None => false
                          end in
        match find_up (Z.to_nat (MAX_NORMAL_PRIORITY + 1)) 0 suitable with
        | Some k =>
            match (ready_lists (rq_at s max_cpu)).[MAX_NORMAL_PRIORITY - k] with
            | Some t => '(_, s) ← task_migrate (id (task_at s t)) min_cpu s; Some s
            | None => Some s
            end
        | None => Some s
        end
      else Some s.

Definition task_pi_boost (task_id prio : Z) (s : sched S) : option (sched S) :=
  match get_task task_id s with
  | None => Some s
  | Some t =>
      if prio <? effective_priority (task_at s t) then
        let s := upd_task t (fun k => k⟦effective_priority := prio⟧) s in
        if state_is (state (task_at s t)) TASK_READY then
          let c := cpu (task_at s t) in
          s ← dequeue_task c t s;
          enqueue_task c t (upd_task t (fun k => k⟦priority := prio⟧) s)
        else Some s
      else Some s
  end.

Definition task_pi_deboost (task_id : Z) (s : sched S) : sched S :=
  match get_task task_id s with
  | None => s
  | Some t =>
      upd_task t (fun k => k⟦effective_priority := static_priority k⟧⟦priority := static_priority k⟧) s
  end.

Definition task_get_stats (task_id : Z) (s : sched S) : option task_stats :=
  match get_task task_id s with Some t => Some (stats (task_at s t)) | None => None end.

Definition scheduler_get_stats (s : sched S) : scheduler_stats := global_stats s.

Definition scheduler_enable_preemption (s : sched S) : sched S :=
  let s := if 0 <? preemption_count s then s⟦preemption_count ::= fun n => n - 1⟧ else s in
  if preemption_count s =? 0 then s⟦preemption_enabled := true⟧ else s.

Definition scheduler_disable_preemption (s : sched S) : sched S :=
  s⟦preemption_enabled := false⟧⟦preemption_count ::= fun n => i32 (n + 1)⟧.

Definition scheduler_preemption_enabled (s : sched S) : bool := preemption_enabled s.

End operations.
