(* ===== verification/SchedInv.v ===== *)
(** * The scheduler's invariant and properties (kernel/task/scheduler.c)

    [sched_wf s q U pend] ties the ready lists, the task pool, the slot bitmap,
    the counters and the stack frames together, for the single-CPU
    configuration scheduler.c is compiled with ([num_cpus] is 1 and nothing
    changes it).  Every operation is shown to be defined and to keep it; the
    scheduling decision is characterised exactly. *)

From stdpp Require Import functions.
From S2P Require Import Prelude Bitmap PageAlloc Dll Sched.

(** ** The invariant *)

Section invariant.
Context {S : Type} `{PageAllocatorLaws S}.
Implicit Types (s : sched S) (q : Z → list Z) (U : gset Z).

(** The slot is allocated. *)
Definition live (s : sched S) (t : Z) : Prop :=
  0 ≤ t < MAX_TASKS ∧ bm_test 32 (task_bitmap s) t = true.

Definition prio_ok (p : Z) : Prop := 0 ≤ p ≤ MAX_NORMAL_PRIORITY.
Definition prios : list Z := seqZ 0 (MAX_NORMAL_PRIORITY + 1).

(** [q p] is the ready list of priority [p]; [U] the frames in use; [pend] a
    task an operation has taken out of the queues, or not yet put into them. *)
Record sched_wf (s : sched S) (q : Z → list Z) (U : gset Z) (pend : ptr) : Prop := {
  wf_cpus : num_cpus s = 1 ∧ current_cpu s = 0;
  wf_bm : bm_wf 32 (task_bitmap s) (Z.to_nat MAX_TASKS);
  wf_list p : prio_ok p → dll (task_pool s) (ready_lists (rq_at s 0)).[p] (q p);
  wf_queued p t : prio_ok p → t ∈ q p →
    live s t ∧ state (task_at s t) = TASK_READY ∧ priority (task_at s t) = p;
  wf_ready t : live s t → state (task_at s t) = TASK_READY →
    t ∈ q (priority (task_at s t)) ∨ pend = Some t;
  wf_task t : live s t → id (task_at s t) = t ∧ cpu (task_at s t) = 0 ∧
    prio_ok (priority (task_at s t)) ∧ prio_ok (static_priority (task_at s t));
  wf_stack t : live s t → ∃ f, stack_base (task_at s t) = f * PAGE_SIZE ∧ 0 < f ∧ f ∈ U;
  wf_stack_inj t t' : live s t → live s t' →
    stack_base (task_at s t) = stack_base (task_at s t') → t = t';
  wf_nr : nr_running (rq_at s 0) = u32 (zsum prios (fun p => Z.of_nat (length (q p))));
  wf_running t : live s t → state (task_at s t) = TASK_RUNNING →
    current (rq_at s 0) = Some t ∨ pend = Some t;
  wf_current t : current (rq_at s 0) = Some t →
    0 ≤ t < MAX_TASKS ∧ (state (task_at s t) = TASK_RUNNING → live s t);
  wf_idle : idle_task (rq_at s 0) = None;
  wf_preempt : 0 ≤ preemption_count s ∧ preemption_enabled s = (preemption_count s =? 0);
  wf_pmm : pa_rep (pmm s) U;
  wf_zero : 0 ∈ U;
}.

(** A component of the invariant that an operation does not touch. *)
Ltac wf_kept Hwf :=
  first [exact (wf_cpus _ _ _ _ Hwf)|exact (wf_bm _ _ _ _ Hwf)|exact (wf_list _ _ _ _ Hwf)
        |exact (wf_queued _ _ _ _ Hwf)|exact (wf_ready _ _ _ _ Hwf)|exact (wf_task _ _ _ _ Hwf)
        |exact (wf_stack _ _ _ _ Hwf)|exact (wf_stack_inj _ _ _ _ Hwf)|exact (wf_nr _ _ _ _ Hwf)
        |exact (wf_running _ _ _ _ Hwf)|exact (wf_current _ _ _ _ Hwf)|exact (wf_idle _ _ _ _ Hwf)
        |exact (wf_preempt _ _ _ _ Hwf)|exact (wf_pmm _ _ _ _ Hwf)|exact (wf_zero _ _ _ _ Hwf)].

(** Everything but the links of the tasks and the ready lists is the same. *)
Definition core (t : task) : task := t⟦next := None⟧⟦prev := None⟧.
Record frame (s s' : sched S) : Prop := {
  fr_task t : core (task_at s' t) = core (task_at s t);
  fr_current c : current (rq_at s' c) = current (rq_at s c);
  fr_idle c : idle_task (rq_at s' c) = idle_task (rq_at s c);
  fr_bitmap : task_bitmap s' = task_bitmap s;
  fr_rest : num_cpus s' = num_cpus s ∧ current_cpu s' = current_cpu s ∧
    scheduler_enabled s' = scheduler_enabled s ∧ preemption_enabled s' = preemption_enabled s ∧
    preemption_count s' = preemption_count s ∧ timer_ticks s' = timer_ticks s ∧ pmm s' = pmm s;
}.

Lemma core_fields t u : core t = core u →
  id t = id u ∧ policy t = policy u ∧ priority t = priority u ∧ static_priority t = static_priority u ∧
  state t = state u ∧ cpu t = cpu u ∧ stack_base t = stack_base u ∧ sleep_until t = sleep_until u ∧
  time_slice t = time_slice u ∧ effective_priority t = effective_priority u.
Proof.
  intros E.
  pose proof (f_equal id E). pose proof (f_equal policy E). pose proof (f_equal priority E).
  pose proof (f_equal static_priority E). pose proof (f_equal state E). pose proof (f_equal cpu E).
  pose proof (f_equal stack_base E). pose proof (f_equal sleep_until E). pose proof (f_equal time_slice E).
  pose proof (f_equal effective_priority E). done.
Qed.

Lemma frame_refl s : frame s s.
Proof. by split. Qed.

Lemma frame_trans s1 s2 s3 : frame s1 s2 → frame s2 s3 → frame s1 s3.
Proof.
  intros [T1 C1 I1 B1 R1] [T2 C2 I2 B2 R2]. split.
  - intros t. by rewrite T2.
  - intros c. by rewrite C2.
  - intros c. by rewrite I2.
  - by rewrite B2.
  - intuition congruence.
Qed.

Lemma frame_live s s' t : frame s s' → live s' t ↔ live s t.
Proof. intros Hf. unfold live. by rewrite (fr_bitmap _ _ Hf). Qed.

Lemma rq_at_upd c f s c' : rq_at (upd_rq c f s) c' = if decide (c = c') then f (rq_at s c) else rq_at s c'.
Proof. apply aget_amod. Qed.
Lemma task_at_upd t f s t' :
  task_at (upd_task t f s) t' = if decide (t = t') then f (task_at s t) else task_at s t'.
Proof. apply aget_amod. Qed.

Lemma get_task_Some s i t : get_task i s = Some t ↔ t = i ∧ live s i.
Proof.
  unfold get_task, live. destruct ((0 <=? i) && (i <? MAX_TASKS)) eqn:E.
  - apply andb_true_iff in E as [E1%Z.leb_le E2%Z.ltb_lt].
    destruct (bm_test 32 (task_bitmap s) i); split; naive_solver.
  - split; [done|]. intros (_ & Hr & _). apply andb_false_iff in E as [E%Z.leb_gt|E%Z.ltb_ge]; lia.
Qed.

Lemma get_task_live s t : live s t → get_task t s = Some t.
Proof. intros. by apply get_task_Some. Qed.

(** A live task that is not ready is on no list. *)
Lemma not_ready_unqueued s q U pend t :
  sched_wf s q U pend → state (task_at s t) ≠ TASK_READY → ∀ p, prio_ok p → t ∉ q p.
Proof. intros Hwf Hs p Hp Ht. by destruct (wf_queued _ _ _ _ Hwf p t Hp Ht) as (_ & ? & _). Qed.

Lemma queues_disjoint s q U pend t p p' :
  sched_wf s q U pend → prio_ok p → prio_ok p' → t ∈ q p → t ∈ q p' → p = p'.
Proof.
  intros Hwf Hp Hp' H1 H2. destruct (wf_queued _ _ _ _ Hwf p t Hp H1) as (_ & _ & <-).
  by destruct (wf_queued _ _ _ _ Hwf p' t Hp' H2) as (_ & _ & <-).
Qed.

Lemma wf_pend_weaken s q U t : sched_wf s q U None → sched_wf s q U (Some t).
Proof.
  intros [? ? ? ? Hr ? ? ? ? Hrun ? ? ? ? ?]. split; try done.
  - intros t' Hl Hs. destruct (Hr t' Hl Hs); [by left|done].
  - intros t' Hl Hs. destruct (Hrun t' Hl Hs); [by left|done].
Qed.

Lemma prio_in_prios p : prio_ok p → p ∈ prios.
Proof. unfold prio_ok, prios. intros. apply elem_of_seqZ. lia. Qed.

(** *** Moving tasks between queues *)

Lemma frame_wf s s' q q' U pend pend' :
  sched_wf s q U pend → frame s s' →
  (∀ p, prio_ok p → dll (task_pool s') (ready_lists (rq_at s' 0)).[p] (q' p)) →
  nr_running (rq_at s' 0) = u32 (zsum prios (fun p => Z.of_nat (length (q' p)))) →
  (∀ p t, prio_ok p → t ∈ q' p →
     live s t ∧ state (task_at s t) = TASK_READY ∧ priority (task_at s t) = p) →
  (∀ t, live s t → state (task_at s t) = TASK_READY →
     t ∈ q' (priority (task_at s t)) ∨ pend' = Some t) →
  (∀ t, live s t → state (task_at s t) = TASK_RUNNING →
     current (rq_at s 0) = Some t ∨ pend' = Some t) →
  sched_wf s' q' U pend'.
Proof.
  intros Hwf Hf Hl Hn Hq Hr Hrun.
  assert (∀ t, live s' t ↔ live s t) as Hlive by (intros t; by apply frame_live).
  pose proof (fun t => core_fields _ _ (fr_task _ _ Hf t)) as Hc.
  destruct (fr_rest _ _ Hf) as (E1 & E2 & _ & E4 & E5 & _ & E7).
  split; rewrite ?E1, ?E2, ?E4, ?E5, ?E7, ?(fr_bitmap _ _ Hf), ?(fr_idle _ _ Hf), ?(fr_current _ _ Hf);
    try (apply Hwf; fail).
  - done.
  - intros p t Hp Ht. destruct (Hc t) as (_ & _ & -> & _ & -> & _). rewrite Hlive. auto.
  - intros t. destruct (Hc t) as (_ & _ & -> & _ & -> & _). rewrite Hlive. auto.
  - intros t. destruct (Hc t) as (-> & _ & -> & -> & _ & -> & _). rewrite Hlive. apply Hwf.
  - intros t. destruct (Hc t) as (_ & _ & _ & _ & _ & _ & -> & _). rewrite Hlive. apply Hwf.
  - intros t t'. destruct (Hc t) as (_ & _ & _ & _ & _ & _ & -> & _), (Hc t') as (_ & _ & _ & _ & _ & _ & -> & _).
    rewrite !Hlive. apply Hwf.
  - done.
  - intros t. destruct (Hc t) as (_ & _ & _ & _ & -> & _). rewrite Hlive. auto.
  - intros t. destruct (Hc t) as (_ & _ & _ & _ & -> & _). rewrite Hlive. apply Hwf.
Qed.

Lemma task_at_links s s' t :
  (∀ t, core (task_at s' t) = core (task_at s t)) → priority (task_at s' t) = priority (task_at s t).
Proof. intros Hc. by destruct (core_fields _ _ (Hc t)) as (_ & _ & ? & _). Qed.

Lemma enqueue_frame c t s s' : enqueue_task c t s = Some s' → frame s s'.
Proof.
  unfold enqueue_task. repeat case_if; intros E; simplify_eq; [apply frame_refl|].
  pose proof (push_front_frame core (fun _ _ => eq_refl) (fun _ _ => eq_refl)
    (task_pool s) (ready_lists (rq_at s c)).[priority (task_at s t)] t) as Hc.
  destruct (push_front _ _ _) as [pool hd]; simplify_eq. split; try done.
  - intros c'. unfold rq_at, upd_rq. cbn. rewrite aget_amod. by case_decide; subst.
  - intros c'. unfold rq_at, upd_rq. cbn. rewrite aget_amod. by case_decide; subst.
Qed.

Lemma dequeue_frame c t s s' : dequeue_task c t s = Some s' → frame s s'.
Proof.
  unfold dequeue_task. repeat case_if; intros E; simplify_eq; try apply frame_refl;
  pose proof (unlink_frame core (fun _ _ => eq_refl) (fun _ _ => eq_refl)
    (task_pool s) (ready_lists (rq_at s c)).[priority (task_at s t)] t) as Hc;
  destruct (unlink _ _ _) as [pool hd]; simplify_eq; (split; try done;
  [intros t'; unfold task_at; cbn; by rewrite (clear_links_frame core)
  |intros c'; unfold rq_at, upd_rq; cbn; rewrite aget_amod; by case_decide; subst..]).
Qed.

(** The lists after a push, as the queue function sees them. *)
Lemma enqueue_wf s q U t :
  sched_wf s q U (Some t) → live s t → state (task_at s t) = TASK_READY →
  (∀ p, prio_ok p → t ∉ q p) →
  let p := priority (task_at s t) in
  ∃ s', enqueue_task 0 t s = Some s' ∧ frame s s' ∧ sched_wf s' (<[p:=t :: q p]> q) U None.
Proof.
  intros Hwf Hl Hst Hnq p. destruct (wf_task _ _ _ _ Hwf t Hl) as (_ & _ & Hp & _).
  assert (∃ s', enqueue_task 0 t s = Some s' ∧
    (∀ p', prio_ok p' → dll (task_pool s') (ready_lists (rq_at s' 0)).[p'] ((<[p:=t :: q p]> q) p')) ∧
    nr_running (rq_at s' 0) = u32 (nr_running (rq_at s 0) + 1)) as (s' & E & Hlists & Hnr).
  { unfold enqueue_task. fold p in Hp |- *. unfold prio_ok in Hp. repeat (case_if; [lia|]).
    pose proof (push_front_dll _ _ _ t (wf_list _ _ _ _ Hwf p Hp) (Hnq p Hp)) as Hd.
    pose proof (fun y => push_front_other _ _ _ t y (wf_list _ _ _ _ Hwf p Hp)) as Ho.
    destruct (push_front _ _ _) as [pool hd] eqn:Epf. unfold push_front in Epf.
    assert (hd = Some t) as -> by congruence. eexists. split; [reflexivity|]. split.
    - intros p' Hp'. rewrite rq_at_upd, decide_True by done. cbn [modify_field ready_lists].
      rewrite aget_aset.
      destruct (decide (p = p')) as [<-|Hne]; [by rewrite fn_lookup_insert|].
      rewrite fn_lookup_insert_ne by done. eapply dll_ext; [|by apply (wf_list _ _ _ _ Hwf)].
      intros y Hy. apply Ho; [intros ->; by eapply Hnq|]. intros Hy'.
      by apply Hne, (queues_disjoint s q U (Some t) y).
    - by rewrite rq_at_upd, decide_True. }
  exists s'. split; [done|]. pose proof (enqueue_frame _ _ _ _ E) as Hf. split; [done|].
  eapply frame_wf; [done..| | | |].
  - rewrite Hnr, (wf_nr _ _ _ _ Hwf), u32_add_l. f_equal.
    rewrite (zsum_update prios (fun p => Z.of_nat (length (q p)))
      (fun p' => Z.of_nat (length ((<[p:=t :: q p]> q) p'))) p);
      [rewrite fn_lookup_insert; cbn [length]; lia|apply NoDup_seqZ|by apply prio_in_prios|].
    intros i _ Hne. by rewrite fn_lookup_insert_ne.
  - intros p' t' Hp'. destruct (decide (p = p')) as [<-|Hne].
    + rewrite fn_lookup_insert. intros [->|Ht]%elem_of_cons; [done|]. by apply (wf_queued _ _ _ _ Hwf).
    + rewrite fn_lookup_insert_ne by done. by apply (wf_queued _ _ _ _ Hwf).
  - intros t' Hl' Hs'. left. destruct (wf_ready _ _ _ _ Hwf t' Hl' Hs') as [Hin|[= <-]].
    + destruct (decide (p = priority (task_at s t'))) as [Ep|Hne];
        [|by rewrite fn_lookup_insert_ne].
      rewrite <-Ep in *. rewrite fn_lookup_insert. apply elem_of_cons. by right.
    + fold p. rewrite fn_lookup_insert. apply elem_of_cons. by left.
  - intros t' Hl' Hs'. left. destruct (wf_running _ _ _ _ Hwf t' Hl' Hs') as [?|[= <-]]; congruence.
Qed.

Lemma dequeue_wf s q U t p :
  sched_wf s q U None → prio_ok p → t ∈ q p →
  ∃ s' l1 l2, q p = l1 ++ t :: l2 ∧ dequeue_task 0 t s = Some s' ∧ frame s s' ∧
    sched_wf s' (<[p:=l1 ++ l2]> q) U (Some t) ∧ ∀ p', prio_ok p' → t ∉ (<[p:=l1 ++ l2]> q) p'.
Proof.
  intros Hwf Hp Ht. destruct (wf_queued _ _ _ _ Hwf p t Hp Ht) as (Hl & Hst & Ep).
  pose proof (wf_list _ _ _ _ Hwf p Hp) as Hd.
  pose proof Ht as (l1 & l2 & Eq)%list_elem_of_split.
  assert (t ∉ l1 ++ l2) as Htl.
  { destruct Hd as (_ & Hnd & _). rewrite Eq in Hnd.
    apply NoDup_app in Hnd as (_ & ? & [? _]%NoDup_cons). set_solver. }
  assert (∃ s', dequeue_task 0 t s = Some s' ∧
    (∀ p', prio_ok p' → dll (task_pool s') (ready_lists (rq_at s' 0)).[p'] ((<[p:=l1 ++ l2]> q) p')) ∧
    nr_running (rq_at s' 0) = u32 (nr_running (rq_at s 0) - 1)) as (s' & E & Hlists & Hnr).
  { unfold dequeue_task. rewrite Ep. unfold prio_ok in Hp.
    replace (MAX_NORMAL_PRIORITY <? p) with false by lia. replace (p <? 0) with false by lia. cbn [andb].
    rewrite Eq in Hd. pose proof (unlink_dll _ _ _ _ _ Hd) as Hd'. pose proof (unlink_other _ _ _ _ _ Hd) as Ho.
    destruct (unlink _ _ _) as [pool hd]. cbn [fst snd] in *. eexists. split; [reflexivity|]. split.
    - intros p' Hp'. rewrite rq_at_upd, decide_True by done. cbn [modify_field ready_lists task_pool].
      rewrite aget_aset. change (task_pool _) with (clear_links pool t).
      destruct (decide (p = p')) as [<-|Hne]; [rewrite fn_lookup_insert; by apply clear_links_dll|].
      rewrite fn_lookup_insert_ne by done. apply clear_links_dll.
      { intros Ht'. by apply Hne, (queues_disjoint s q U None t). }
      eapply dll_ext; [|by apply (wf_list _ _ _ _ Hwf)]. intros y Hy. apply Ho. rewrite <-Eq.
      intros Hy'. by apply Hne, (queues_disjoint s q U None y).
    - by rewrite rq_at_upd, decide_True. }
  exists s', l1, l2. split; [done|]. split; [done|].
  pose proof (dequeue_frame _ _ _ _ E) as Hf. split; [done|].
  assert (∀ p' t', prio_ok p' → t' ∈ (<[p:=l1 ++ l2]> q) p' ↔ t' ∈ q p' ∧ t' ≠ t) as Hmem.
  { intros p' t' Hp'. destruct (decide (p = p')) as [<-|Hne].
    - rewrite fn_lookup_insert, Eq. set_solver.
    - rewrite fn_lookup_insert_ne by done. split; [|tauto]. intros Ht'. split; [done|].
      intros ->. by apply Hne, (queues_disjoint s q U None t). }
  split; [|intros p' Hp'; rewrite Hmem by done; tauto].
  eapply frame_wf; [done..| | | |].
  - rewrite Hnr, (wf_nr _ _ _ _ Hwf), u32_sub_l. f_equal.
    rewrite (zsum_update prios (fun p => Z.of_nat (length (q p)))
      (fun p' => Z.of_nat (length ((<[p:=l1 ++ l2]> q) p'))) p);
      [|apply NoDup_seqZ|by apply prio_in_prios|intros i _ Hne; by rewrite fn_lookup_insert_ne].
    rewrite fn_lookup_insert, Eq, !length_app. cbn [length]. lia.
  - intros p' t' Hp' [Ht' _]%Hmem; [|done]. by apply (wf_queued _ _ _ _ Hwf).
  - intros t' Hl' Hs'. destruct (decide (t' = t)) as [->|Hne]; [by right|]. left.
    apply Hmem; [by apply (wf_task _ _ _ _ Hwf t' Hl')|]. split; [|done].
    by destruct (wf_ready _ _ _ _ Hwf t' Hl' Hs').
  - intros t' Hl' Hs'. left. by destruct (wf_running _ _ _ _ Hwf t' Hl' Hs').
Qed.

(** *** Changing a task that is on no list *)

Lemma upd_wf s q U t f :
  sched_wf s q U (Some t) → (∀ p, prio_ok p → t ∉ q p) → live s t →
  let k := task_at s t in
  id (f k) = id k → cpu (f k) = cpu k → stack_base (f k) = stack_base k →
  prio_ok (priority (f k)) → prio_ok (static_priority (f k)) →
  sched_wf (upd_task t f s) q U (Some t).
Proof.
  intros Hwf Hnq Hl k Hid Hcpu Hst Hp Hsp.
  assert (∀ t', live (upd_task t f s) t' ↔ live s t') as Hlive by done.
  split; try wf_kept Hwf.
  - intros p Hpp. eapply dll_ext; [|by apply (wf_list _ _ _ _ Hwf)]. intros y Hy.
    change ((task_pool (upd_task t f s)).[y]) with (task_at (upd_task t f s) y).
    rewrite task_at_upd, decide_False; [done|]. intros ->. by apply (Hnq p Hpp).
  - intros p t' Hpp Ht'. rewrite task_at_upd, decide_False; [by apply (wf_queued _ _ _ _ Hwf)|].
    intros ->. by apply (Hnq p Hpp).
  - intros t' Hl'. rewrite task_at_upd. case_decide as E; [subst; by right|]. by apply (wf_ready _ _ _ _ Hwf).
  - intros t' Hl'. rewrite task_at_upd. case_decide as E; [subst|by apply (wf_task _ _ _ _ Hwf)].
    fold k. rewrite Hid, Hcpu. destruct (wf_task _ _ _ _ Hwf t' Hl') as (? & ? & _). done.
  - intros t' Hl'. rewrite task_at_upd. case_decide as E; [subst|by apply (wf_stack _ _ _ _ Hwf)].
    fold k. rewrite Hst. by apply (wf_stack _ _ _ _ Hwf).
  - intros t1 t2 Hl1 Hl2. rewrite !task_at_upd.
    assert (∀ t', stack_base (if decide (t = t') then f (task_at s t) else task_at s t') =
      stack_base (task_at s t')) as Hsame by (intros t'; case_decide; [by subst t'|done]).
    rewrite !Hsame. by apply (wf_stack_inj _ _ _ _ Hwf).
  - intros t' Hl'. rewrite task_at_upd. case_decide as E; [subst; by right|]. by apply (wf_running _ _ _ _ Hwf).
  - intros t' Hc. destruct (wf_current _ _ _ _ Hwf t' Hc) as [Hr Hrun]. split; [done|].
    rewrite task_at_upd. case_decide as E; [by subst|]. done.
Qed.

(** A pending task may be dropped when it is neither ready nor running. *)
Lemma wf_pend_drop s q U t :
  sched_wf s q U (Some t) →
  (live s t → state (task_at s t) ≠ TASK_READY ∧
     (state (task_at s t) = TASK_RUNNING → current (rq_at s 0) = Some t)) →
  sched_wf s q U None.
Proof.
  intros Hwf Hd. split; try wf_kept Hwf.
  - intros t' Hl Hs. left. destruct (wf_ready _ _ _ _ Hwf t' Hl Hs) as [?|[= <-]]; [done|]. by destruct (Hd Hl).
  - intros t' Hl Hs. left. destruct (wf_running _ _ _ _ Hwf t' Hl Hs) as [?|[= <-]]; [done|].
    destruct (Hd Hl). auto.
Qed.

(** Fields the invariant does not mention may change anywhere. *)
Lemma upd_neutral s q U pend t f :
  sched_wf s q U pend →
  (let k := task_at s t in
   next (f k) = next k ∧ prev (f k) = prev k ∧ state (f k) = state k ∧ priority (f k) = priority k ∧
   static_priority (f k) = static_priority k ∧ id (f k) = id k ∧ cpu (f k) = cpu k ∧
   stack_base (f k) = stack_base k) →
  sched_wf (upd_task t f s) q U pend.
Proof.
  intros Hwf Hf.
  assert (∀ t', let k := task_at s t' in let k' := task_at (upd_task t f s) t' in
    next k' = next k ∧ prev k' = prev k ∧ state k' = state k ∧ priority k' = priority k ∧
    static_priority k' = static_priority k ∧ id k' = id k ∧ cpu k' = cpu k ∧ stack_base k' = stack_base k) as Hsame.
  { intros t'. cbv zeta. rewrite task_at_upd. case_decide; [subst t'; apply Hf|done]. }
  assert (∀ t', live (upd_task t f s) t' ↔ live s t') as Hlive by done.
  split; try wf_kept Hwf.
  - intros p Hp. eapply dll_ext; [|by apply (wf_list _ _ _ _ Hwf)]. intros y Hy.
    by destruct (Hsame y) as (? & ? & _).
  - intros p t' Hp Ht'. destruct (Hsame t') as (_ & _ & -> & -> & _). by apply (wf_queued _ _ _ _ Hwf).
  - intros t'. destruct (Hsame t') as (_ & _ & -> & -> & _). apply (wf_ready _ _ _ _ Hwf).
  - intros t'. destruct (Hsame t') as (_ & _ & _ & -> & -> & -> & -> & _). apply (wf_task _ _ _ _ Hwf).
  - intros t'. destruct (Hsame t') as (_ & _ & _ & _ & _ & _ & _ & ->). apply (wf_stack _ _ _ _ Hwf).
  - intros t1 t2. destruct (Hsame t1) as (_ & _ & _ & _ & _ & _ & _ & ->), (Hsame t2) as (_ & _ & _ & _ & _ & _ & _ & ->).
    apply (wf_stack_inj _ _ _ _ Hwf).
  - intros t'. destruct (Hsame t') as (_ & _ & -> & _). apply (wf_running _ _ _ _ Hwf).
  - intros t'. destruct (Hsame t') as (_ & _ & -> & _). apply (wf_current _ _ _ _ Hwf).
Qed.

(** ** Scheduling *)

(** The part of the state a scheduling decision leaves alone. *)
Definition kept (s s' : sched S) : Prop :=
  task_bitmap s' = task_bitmap s ∧ scheduler_enabled s' = scheduler_enabled s ∧
  preemption_enabled s' = preemption_enabled s ∧ preemption_count s' = preemption_count s ∧
  timer_ticks s' = timer_ticks s ∧ pmm s' = pmm s.

(** The task [current] points to, when it is running. *)
Definition running (s : sched S) : ptr :=
  match current (rq_at s 0) with
  | Some t => if state_is (state (task_at s t)) TASK_RUNNING then Some t else None
  | None => None
  end.

Lemma running_Some s t :
  running s = Some t ↔ current (rq_at s 0) = Some t ∧ state (task_at s t) = TASK_RUNNING.
Proof.
  unfold running, state_is. destruct (current (rq_at s 0)) as [t'|]; [|naive_solver].
  destruct (bool_decide_reflect (state (task_at s t') = TASK_RUNNING)); naive_solver.
Qed.

(** The queues once the running task has been put back. *)
Definition requeued (s : sched S) (q : Z → list Z) : Z → list Z :=
  match running s with
  | Some t => <[priority (task_at s t):=t :: q (priority (task_at s t))]> q
  | None => q
  end.

Lemma requeue_running s q U :
  sched_wf s q U None →
  ∃ s1, match current (rq_at s 0) with
        | Some p => if state_is (state (task_at s p)) TASK_RUNNING
                    then enqueue_task 0 p (upd_task p (fun t => t⟦state := TASK_READY⟧) s) else Some s
        | None => Some s
        end = Some s1 ∧
    sched_wf s1 (requeued s q) U None ∧ kept s s1 ∧ current (rq_at s1 0) = current (rq_at s 0) ∧
    (∀ t, core (task_at s1 t) =
      core (if decide (running s = Some t) then (task_at s t)⟦state := TASK_READY⟧ else task_at s t)) ∧
    (running s = None → s1 = s).
Proof.
  intros Hwf. unfold requeued. destruct (running s) as [t|] eqn:Hr.
  - apply running_Some in Hr as [Hc Hs]. rewrite Hc, Hs. unfold state_is. rewrite bool_decide_true by done.
    destruct (wf_current _ _ _ _ Hwf t Hc) as [Hrange Hl]. specialize (Hl Hs).
    assert (∀ p, prio_ok p → t ∉ q p) as Hnq by (eapply not_ready_unqueued; [done|congruence]).
    destruct (wf_task _ _ _ _ Hwf t Hl) as (_ & _ & Hp & Hsp).
    assert (sched_wf (upd_task t (fun k => k⟦state := TASK_READY⟧) s) q U (Some t)) as Hwf1
      by (apply upd_wf; [by apply wf_pend_weaken|done..]).
    set (s0 := upd_task t _ s) in *.
    assert (task_at s0 t = (task_at s t)⟦state := TASK_READY⟧) as Et
      by (subst s0; by rewrite task_at_upd, decide_True).
    destruct (enqueue_wf s0 q U t Hwf1) as (s1 & E & Hf & Hwf2); [done|by rewrite Et|done|].
    rewrite Et in Hwf2. change (priority (_⟦state := _⟧)) with (priority (task_at s t)) in Hwf2.
    exists s1. split; [done|]. split; [done|].
    destruct (fr_rest _ _ Hf) as (_ & _ & ? & ? & ? & ? & ?).
    split; [split_and!; [by rewrite (fr_bitmap _ _ Hf)|done..]|].
    split; [rewrite (fr_current _ _ Hf); exact Hc|]. split; [|done].
    intros t'. rewrite (fr_task _ _ Hf). subst s0. rewrite task_at_upd.
    destruct (decide (t = t')) as [<-|Hne]; [by rewrite decide_True|].
    rewrite decide_False by congruence. done.
  - exists s. assert (∀ p, current (rq_at s 0) = Some p → state_is (state (task_at s p)) TASK_RUNNING = false) as Hn.
    { intros p Hp. unfold state_is. apply bool_decide_false. intros E.
      assert (running s = Some p) by (by apply running_Some). congruence. }
    split; [destruct (current (rq_at s 0)) as [p|] eqn:E; [by rewrite Hn|done]|].
    split; [done|]. split; [by split_and!|]. split; [done|]. split; [|done].
    intros t. by rewrite decide_False by done.
Qed.

Lemma pick_next_spec s q U pend :
  sched_wf s q U pend →
  match pick_next_task 0 s with
  | Some t => ∃ p l, prio_ok p ∧ q p = t :: l ∧ ∀ p', 0 ≤ p' < p → q p' = []
  | None => ∀ p, prio_ok p → q p = []
  end.
Proof.
  intros Hwf. unfold pick_next_task.
  destruct (find_up _ _ _) as [p|] eqn:E.
  - apply find_up_Some in E as (Hr & Hp & Hmin).
    assert (prio_ok p) as Hok by (unfold prio_ok, MAX_NORMAL_PRIORITY in *; lia).
    pose proof (wf_list _ _ _ _ Hwf p Hok) as Hd.
    destruct ((ready_lists (rq_at s 0)).[p]) as [t|]; [|done].
    destruct (dll_head_Some _ _ _ Hd) as [l Hl]. exists p, l. split; [done|]. split; [done|].
    intros p' Hp'. specialize (Hmin p' ltac:(lia)). cbn in Hmin.
    assert (prio_ok p') as Hok' by (unfold prio_ok in *; lia).
    pose proof (wf_list _ _ _ _ Hwf p' Hok') as Hd'.
    destruct ((ready_lists (rq_at s 0)).[p']); [done|]. by eapply dll_head_None.
  - rewrite (wf_idle _ _ _ _ Hwf). intros p Hp.
    pose proof (proj1 (find_up_None _ _ _) E p) as Hn. cbn in Hn.
    specialize (Hn ltac:(unfold prio_ok, MAX_NORMAL_PRIORITY in *; lia)).
    pose proof (wf_list _ _ _ _ Hwf p Hp) as Hd.
    destruct ((ready_lists (rq_at s 0)).[p]); [done|]. by eapply dll_head_None.
Qed.

Lemma set_current_wf s q U t :
  sched_wf s q U (Some t) → live s t → state (task_at s t) = TASK_RUNNING →
  (∀ t', live s t' → state (task_at s t') = TASK_RUNNING → t' = t) →
  sched_wf (upd_rq 0 (fun r => r⟦current := Some t⟧) s) q U None.
Proof.
  intros Hwf Hl Hs Honly.
  assert (∀ c, ready_lists (rq_at (upd_rq 0 (fun r => r⟦current := Some t⟧) s) c) = ready_lists (rq_at s c) ∧
    nr_running (rq_at (upd_rq 0 (fun r => r⟦current := Some t⟧) s) c) = nr_running (rq_at s c) ∧
    idle_task (rq_at (upd_rq 0 (fun r => r⟦current := Some t⟧) s) c) = idle_task (rq_at s c)) as Hrq.
  { intros c. rewrite rq_at_upd. by case_decide; subst. }
  assert (current (rq_at (upd_rq 0 (fun r => r⟦current := Some t⟧) s) 0) = Some t) as Hc
    by (by rewrite rq_at_upd, decide_True).
  destruct (Hrq 0) as (El & En & Ei). split; rewrite ?El, ?En, ?Ei; try wf_kept Hwf.
  - intros t' Hl' Hs'. left. destruct (wf_ready _ _ _ _ Hwf t' Hl' Hs') as [?|[= <-]]; [done|].
    exfalso. change (state (task_at s t) = TASK_READY) in Hs'. congruence.
  - intros t' Hl' Hs'. left. rewrite Hc. f_equal. symmetry. by apply Honly.
  - intros t'. rewrite Hc. intros [= <-]. split; [apply Hl|done].
Qed.

Lemma dispatch_wf s q U prevp nx p l :
  sched_wf s q U None → (∀ t, live s t → state (task_at s t) ≠ TASK_RUNNING) →
  prio_ok p → q p = nx :: l →
  ∃ s', dispatch 0 prevp nx s = Some s' ∧ sched_wf s' (<[p:=l]> q) U None ∧ kept s s' ∧
    current (rq_at s' 0) = Some nx ∧
    (∀ t, state (task_at s' t) = if decide (t = nx) then TASK_RUNNING else state (task_at s t)) ∧
    (∀ t, priority (task_at s' t) = priority (task_at s t) ∧ sleep_until (task_at s' t) = sleep_until (task_at s t)).
Proof.
  intros Hwf Hnr Hp Eq. assert (nx ∈ q p) as Hin by (rewrite Eq; set_solver).
  destruct (wf_queued _ _ _ _ Hwf p nx Hp Hin) as (Hl & Hs & Hpr).
  destruct (dequeue_wf s q U nx p Hwf Hp Hin) as (s1 & l1 & l2 & Eq' & E & Hf & Hwf1 & Hnq).
  assert (l1 ++ l2 = l) as <-.
  { pose proof (wf_list _ _ _ _ Hwf p Hp) as (_ & Hnd & _). rewrite Eq in Eq'. destruct l1 as [|y l1]; simplify_eq/=; [done|].
    rewrite Eq in Hnd. apply NoDup_cons in Hnd as [Hn _]. set_solver. }
  unfold dispatch. rewrite Hs. unfold state_is. rewrite bool_decide_true by done. rewrite E. cbn [mbind option_bind].
  pose proof (fun t => core_fields _ _ (fr_task _ _ Hf t)) as Hc.
  set (f := fun t : task => _).
  assert (sched_wf (upd_task nx f s1) (<[p:=l1 ++ l2]> q) U (Some nx)) as Hwf2.
  { assert (live s1 nx) as Hl1 by (by apply (frame_live s)).
    destruct (wf_task _ _ _ _ Hwf1 nx Hl1) as (_ & _ & ? & ?). by apply upd_wf. }
  set (s2 := upd_task nx f s1) in *.
  assert (∀ t, state (task_at s2 t) = if decide (t = nx) then TASK_RUNNING else state (task_at s t)) as Hst2.
  { intros t. subst s2. rewrite task_at_upd. destruct (Hc t) as (_ & _ & _ & _ & Est & _).
    destruct (decide (nx = t)) as [->|]; [by rewrite decide_True|by rewrite decide_False]. }
  assert (∀ t, priority (task_at s2 t) = priority (task_at s t) ∧ sleep_until (task_at s2 t) = sleep_until (task_at s t)) as Hpr2.
  { intros t. subst s2. rewrite task_at_upd. destruct (Hc t) as (_ & _ & Ep & _ & _ & _ & _ & Esl & _).
    destruct (decide (nx = t)) as [->|]; done. }
  assert (kept s s2) as Hk2.
  { destruct (fr_rest _ _ Hf) as (_ & _ & ? & ? & ? & ? & ?). split_and!; [apply (fr_bitmap _ _ Hf)|done..]. }
  set (s3 := match prevp with Some _ => _ | None => _ end).
  assert (sched_wf s3 (<[p:=l1 ++ l2]> q) U (Some nx) ∧ kept s s3 ∧
    (∀ t, state (task_at s3 t) = state (task_at s2 t) ∧ priority (task_at s3 t) = priority (task_at s2 t) ∧
          sleep_until (task_at s3 t) = sleep_until (task_at s2 t))) as (Hwf3 & Hk3 & Hsame).
  { subst s3. destruct prevp as [pv|]; [|done]. destruct (pv =? nx); [done|].
    set (s2' := s2⟦global_stats ::= _⟧).
    assert (sched_wf s2' (<[p:=l1 ++ l2]> q) U (Some nx)) as Hw by (destruct Hwf2; split; done).
    split; [by apply upd_neutral|]. split; [done|]. intros t. rewrite task_at_upd.
    by destruct (decide (pv = t)) as [->|]. }
  exists (upd_rq 0 (fun r => r⟦current := Some nx⟧) s3). split; [done|].
  assert (∀ t, live s3 t ↔ live s t) as Hlive.
  { intros t. unfold live. destruct Hk3 as (-> & _). done. }
  split; [|split; [done|split; [by rewrite rq_at_upd, decide_True|split]]].
  - apply set_current_wf; [done|by apply Hlive| |].
    + destruct (Hsame nx) as (-> & _). by rewrite Hst2, decide_True.
    + intros t Hlt Hrt. destruct (Hsame t) as (Est & _). rewrite Est, Hst2 in Hrt.
      case_decide; [done|]. apply Hlive in Hlt. by apply Hnr in Hrt.
  - intros t. change (task_at (upd_rq _ _ s3) t) with (task_at s3 t). destruct (Hsame t) as (-> & _). apply Hst2.
  - intros t. change (task_at (upd_rq _ _ s3) t) with (task_at s3 t). destruct (Hsame t) as (_ & -> & ->). apply Hpr2.
Qed.

(** What a scheduling decision does: nothing when no task is ready, else it
    makes the head of the first non-empty list run. *)
Lemma schedule_spec s q U :
  sched_wf s q U None → scheduler_enabled s = true → preemption_enabled s = true →
  ∃ s', scheduler_schedule s = Some s' ∧
    (((∀ p, prio_ok p → requeued s q p = []) ∧ s' = s) ∨
     ∃ nx p l, prio_ok p ∧ requeued s q p = nx :: l ∧ (∀ p', 0 ≤ p' < p → requeued s q p' = []) ∧
       sched_wf s' (<[p:=l]> (requeued s q)) U None ∧ kept s s' ∧ current (rq_at s' 0) = Some nx ∧
       (∀ t, state (task_at s' t) =
          if decide (t = nx) then TASK_RUNNING
          else if decide (running s = Some t) then TASK_READY else state (task_at s t)) ∧
       (∀ t, priority (task_at s' t) = priority (task_at s t) ∧
             sleep_until (task_at s' t) = sleep_until (task_at s t))).
Proof.
  intros Hwf He Hpe. unfold scheduler_schedule. rewrite He, Hpe. cbn [negb orb].
  destruct (wf_cpus _ _ _ _ Hwf) as [_ ->].
  destruct (requeue_running s q U Hwf) as (s1 & -> & Hwf1 & Hk1 & Hc1 & Ht1 & Hsame). cbn [mbind option_bind].
  pose proof (pick_next_spec _ _ _ _ Hwf1) as Hpick.
  destruct (pick_next_task 0 s1) as [nx|].
  - destruct Hpick as (p & l & Hp & Eq & Hmin).
    assert (∀ t, state (task_at s1 t) = (if decide (running s = Some t) then TASK_READY else state (task_at s t)) ∧
      priority (task_at s1 t) = priority (task_at s t) ∧ sleep_until (task_at s1 t) = sleep_until (task_at s t)) as Hf1.
    { intros t. destruct (core_fields _ _ (Ht1 t)) as (_ & _ & -> & _ & -> & _ & _ & -> & _). by case_decide. }
    destruct (dispatch_wf s1 (requeued s q) U (current (rq_at s 0)) nx p l) as (s' & E & Hwf' & Hk & Hc & Hst & Hpr);
      [done| |done|done|].
    { intros t Hl Hr. destruct (Hf1 t) as (Est & _). rewrite Est in Hr. case_decide as Hrun; [done|].
      assert (live s t) as Hl' by (unfold live in *; by destruct Hk1 as (<- & _)).
      destruct (wf_running _ _ _ _ Hwf t Hl' Hr) as [Hcur|]; [|done].
      apply Hrun. by apply running_Some. }
    exists s'. split; [done|]. right. exists nx, p, l. split; [done|]. split; [done|]. split; [done|].
    split; [done|]. split; [unfold kept in *; intuition congruence|]. split; [done|]. split.
    + intros t. rewrite Hst. case_decide; [done|]. apply Hf1.
    + intros t. destruct (Hpr t) as [-> ->]. apply Hf1.
  - exists s1. split; [done|]. left. split; [done|]. apply Hsame.
    destruct (running s) as [t|] eqn:Hr; [|done]. exfalso.
    pose proof Hr as [Hc Hs]%running_Some. destruct (wf_current _ _ _ _ Hwf t Hc) as [_ Hl].
    destruct (wf_task _ _ _ _ Hwf t (Hl Hs)) as (_ & _ & Hp & _). specialize (Hpick _ Hp).
    unfold requeued in Hpick. rewrite Hr, fn_lookup_insert in Hpick. done.
Qed.

Lemma schedule_wf s q U :
  sched_wf s q U None → ∃ s' q', scheduler_schedule s = Some s' ∧ sched_wf s' q' U None ∧ kept s s'.
Proof.
  intros Hwf. destruct (scheduler_enabled s && preemption_enabled s) eqn:E.
  - apply andb_true_iff in E as [He Hp].
    destruct (schedule_spec s q U Hwf He Hp) as (s' & Hrun & [[_ ->]|(nx & p & l & _ & _ & _ & Hwf' & Hk & _)]).
    + exists s, q. done.
    + eauto 6.
  - exists s, q. split; [|done]. unfold scheduler_schedule.
    by destruct (scheduler_enabled s), (preemption_enabled s).
Qed.

(** ** Every operation keeps the invariant *)

(** Making a blocked or sleeping task ready. *)
Lemma make_ready_wf s q U t f :
  sched_wf s q U None → live s t → state (task_at s t) ≠ TASK_READY →
  (let k := task_at s t in
   state (f k) = TASK_READY ∧ priority (f k) = priority k ∧ static_priority (f k) = static_priority k ∧
   id (f k) = id k ∧ cpu (f k) = cpu k ∧ stack_base (f k) = stack_base k) →
  let s0 := upd_task t f s in
  ∃ s' q', enqueue_task (cpu (task_at s0 t)) t s0 = Some s' ∧ sched_wf s' q' U None ∧ kept s s' ∧
    core (task_at s' t) = core (f (task_at s t)) ∧
    ∀ t', t' ≠ t → core (task_at s' t') = core (task_at s t').
Proof.
  intros Hwf Hl Hs (F1 & F2 & F3 & F4 & F5 & F6) s0.
  destruct (wf_task _ _ _ _ Hwf t Hl) as (_ & Hcpu & Hp & Hsp).
  assert (∀ p, prio_ok p → t ∉ q p) as Hnq by (by eapply not_ready_unqueued).
  assert (sched_wf s0 q U (Some t)) as Hwf0.
  { apply upd_wf; [by apply wf_pend_weaken|done|done|done|done|done|by rewrite F2|by rewrite F3]. }
  assert (task_at s0 t = f (task_at s t)) as Et by (subst s0; by rewrite task_at_upd, decide_True).
  destruct (enqueue_wf s0 q U t Hwf0) as (s' & E & Hf & Hwf'); [done|by rewrite Et|done|].
  rewrite Et, F5, Hcpu. eexists s', _. split; [done|]. split; [done|].
  destruct (fr_rest _ _ Hf) as (_ & _ & ? & ? & ? & ? & ?).
  split; [split_and!; [by rewrite (fr_bitmap _ _ Hf)|done..]|]. split; [by rewrite (fr_task _ _ Hf), Et|].
  intros t' Hne. rewrite (fr_task _ _ Hf). subst s0. by rewrite task_at_upd, decide_False.
Qed.

(** Waking a task: it no longer sleeps, and no other task changes. *)
Lemma task_wakeup_effect s q U t :
  sched_wf s q U None →
  ∃ s' q', task_wakeup t s = Some s' ∧ sched_wf s' q' U None ∧ kept s s' ∧
    (live s t → state (task_at s' t) ≠ TASK_SLEEPING) ∧
    ∀ t', t' ≠ t → core (task_at s' t') = core (task_at s t').
Proof.
  intros Hwf. unfold task_wakeup. destruct (get_task t s) as [t'|] eqn:E.
  - apply get_task_Some in E as [-> Hl]. unfold state_is.
    destruct (bool_decide_reflect (state (task_at s t) = TASK_SLEEPING)) as [Hs|Hs]; cbn [negb]; [|by exists s, q].
    destruct (make_ready_wf s q U t (fun k => k⟦state := TASK_READY⟧⟦sleep_until := 0⟧) Hwf Hl)
      as (s' & q' & Hrun & ? & ? & Ht & ?); [congruence|done|].
    exists s', q'. split; [exact Hrun|]. split; [done|]. split; [done|]. split; [|done].
    intros _. by destruct (core_fields _ _ Ht) as (_ & _ & _ & _ & -> & _).
  - exists s, q. split; [done|]. split; [done|]. split; [done|]. split; [|done].
    intros Hl. by rewrite (get_task_live s t Hl) in E.
Qed.

Lemma task_wakeup_wf s q U t :
  sched_wf s q U None → ∃ s' q', task_wakeup t s = Some s' ∧ sched_wf s' q' U None ∧ kept s s'.
Proof. intros Hwf. destruct (task_wakeup_effect s q U t Hwf) as (s' & q' & ? & ? & ? & _). eauto. Qed.

Lemma task_unblock_wf s q U t :
  sched_wf s q U None → ∃ s' q', task_unblock t s = Some s' ∧ sched_wf s' q' U None ∧ kept s s'.
Proof.
  intros Hwf. unfold task_unblock. destruct (get_task t s) as [t'|] eqn:E; [|by exists s, q].
  apply get_task_Some in E as [-> Hl]. unfold state_is.
  destruct (bool_decide_reflect (state (task_at s t) = TASK_BLOCKED)) as [Hs|Hs]; cbn [negb]; [|by exists s, q].
  destruct (make_ready_wf s q U t (fun k => k⟦state := TASK_READY⟧⟦blocked_on := -1⟧) Hwf Hl)
    as (s' & q' & ? & ? & ? & _); [congruence|done|eauto].
Qed.

(** The current task, if any, is running: what the callers of the blocking
    operations rely on. *)
Definition current_runs (s : sched S) : Prop :=
  ∀ t, current (rq_at s 0) = Some t → state (task_at s t) = TASK_RUNNING.

(** The running task stops running. *)
Lemma suspend_wf s q U t f :
  sched_wf s q U None → running s = Some t →
  (let k := task_at s t in
   state (f k) ≠ TASK_READY ∧ state (f k) ≠ TASK_RUNNING ∧ priority (f k) = priority k ∧
   static_priority (f k) = static_priority k ∧ id (f k) = id k ∧ cpu (f k) = cpu k ∧
   stack_base (f k) = stack_base k) →
  live s t ∧ sched_wf (upd_task t f s) q U None.
Proof.
  intros Hwf [Hc Hs]%running_Some (F0 & F1 & F2 & F3 & F4 & F5 & F6).
  destruct (wf_current _ _ _ _ Hwf t Hc) as [_ Hl]. specialize (Hl Hs). split; [done|].
  destruct (wf_task _ _ _ _ Hwf t Hl) as (_ & _ & Hp & Hsp).
  apply (wf_pend_drop _ _ _ t).
  - apply upd_wf; [by apply wf_pend_weaken| |done|done|done|done|by rewrite F2|by rewrite F3].
    eapply not_ready_unqueued; [done|congruence].
  - intros _. rewrite task_at_upd, decide_True by done. done.
Qed.

Lemma current_runs_cases s q U :
  sched_wf s q U None → current_runs s →
  current (rq_at s (current_cpu s)) = None ∨
  ∃ t, current (rq_at s (current_cpu s)) = Some t ∧ running s = Some t.
Proof.
  intros Hwf Hr. destruct (wf_cpus _ _ _ _ Hwf) as [_ ->].
  destruct (current (rq_at s 0)) as [t|] eqn:E; [right|by left].
  exists t. split; [done|]. apply running_Some. auto.
Qed.

Lemma task_block_wf s q U r :
  sched_wf s q U None → current_runs s →
  ∃ s' q', task_block r s = Some s' ∧ sched_wf s' q' U None.
Proof.
  intros Hwf Hr. unfold task_block.
  destruct (current_runs_cases s q U Hwf Hr) as [->|(t & -> & Hrun)]; [by exists s, q|].
  destruct (suspend_wf s q U t (fun k => k⟦state := TASK_BLOCKED⟧⟦blocked_on := r⟧) Hwf Hrun) as [_ Hwf1]; [done|].
  destruct (schedule_wf _ _ _ Hwf1) as (s' & q' & ? & ? & _). eauto.
Qed.

Lemma task_sleep_wf s q U n :
  sched_wf s q U None → current_runs s →
  ∃ s' q', task_sleep n s = Some s' ∧ sched_wf s' q' U None.
Proof.
  intros Hwf Hr. unfold task_sleep.
  destruct (current_runs_cases s q U Hwf Hr) as [->|(t & -> & Hrun)]; [by exists s, q|].
  destruct (suspend_wf s q U t (fun k => k⟦state := TASK_SLEEPING⟧⟦sleep_until := u64 (timer_get_ticks s + n)⟧)
    Hwf Hrun) as [_ Hwf1]; [done|].
  destruct (schedule_wf _ _ _ Hwf1) as (s' & q' & ? & ? & _). eauto.
Qed.

(** *** Exit *)

Lemma free_task_id_eq s t : 0 ≤ t < MAX_TASKS →
  free_task_id t s = s⟦task_bitmap ::= fun b => bm_clear 32 b t⟧.
Proof. intros Ht. unfold free_task_id. by replace ((0 <=? t) && (t <? MAX_TASKS)) with true by lia. Qed.

Lemma free_id_live s t t' : bm_wf 32 (task_bitmap s) (Z.to_nat MAX_TASKS) → 0 ≤ t < MAX_TASKS →
  live (free_task_id t s) t' ↔ live s t' ∧ t' ≠ t.
Proof.
  intros Hbm Ht. rewrite free_task_id_eq by done. unfold live.
  change (task_bitmap (s⟦task_bitmap ::= _⟧)) with (bm_clear 32 (task_bitmap s) t).
  pose proof (bm_test_clear 32 ltac:(lia) _ _ t t' Hbm) as Hc. split.
  - intros [Hr Hb]. rewrite Hc in Hb by (unfold MAX_TASKS in *; lia). case_decide; [done|]. auto.
  - intros [[Hr Hb] Hne]. split; [done|]. rewrite Hc by (unfold MAX_TASKS in *; lia). by rewrite decide_False.
Qed.

(** Giving up the slot and the stack frame of a task that is on no list. *)
Lemma release_task_wf s q U t f p' :
  sched_wf s q U None → live s t → state (task_at s t) ≠ TASK_READY → state (task_at s t) ≠ TASK_RUNNING →
  stack_base (task_at s t) = f * PAGE_SIZE → 0 < f → pa_rep p' (U ∖ {[f]}) →
  sched_wf (free_task_id t (s⟦pmm := p'⟧)) q (U ∖ {[f]}) None.
Proof.
  intros Hwf Hl Hnr Hnrun Hst Hf Hrep. pose proof (wf_bm _ _ _ _ Hwf) as Hbm.
  assert (∀ t', live (free_task_id t (s⟦pmm := p'⟧)) t' ↔ live s t' ∧ t' ≠ t) as Hlive.
  { intros t'. rewrite free_id_live; [done|done|apply Hl]. }
  assert (∀ t', task_at (free_task_id t (s⟦pmm := p'⟧)) t' = task_at s t') as Ht
    by (intros t'; unfold free_task_id; by case_match).
  pose proof (free_task_id_eq (s⟦pmm := p'⟧) t (proj1 Hl)) as Eeq.
  split; rewrite ?Eeq; try wf_kept Hwf; rewrite <-?Eeq; try done.
  - rewrite Eeq. by apply bm_clear_wf.
  - intros p t' Hp Hin. rewrite Ht, Hlive. destruct (wf_queued _ _ _ _ Hwf p t' Hp Hin) as (? & ? & ?).
    split; [|done]. split; [done|]. congruence.
  - intros t'. rewrite Ht, Hlive. intros [? _]. by apply (wf_ready _ _ _ _ Hwf).
  - intros t'. rewrite Ht, Hlive. intros [? _]. by apply (wf_task _ _ _ _ Hwf).
  - intros t'. rewrite Ht, Hlive. intros [Hl' Hne]. destruct (wf_stack _ _ _ _ Hwf t' Hl') as (f' & Ef & Hf' & HU).
    exists f'. split; [done|]. split; [done|]. apply elem_of_difference. split; [done|].
    intros ->%elem_of_singleton. apply Hne. apply (wf_stack_inj _ _ _ _ Hwf); [done|done|congruence].
  - intros t1 t2. rewrite !Ht, !Hlive. intros [? _] [? _]. by apply (wf_stack_inj _ _ _ _ Hwf).
  - intros t'. rewrite Ht, Hlive. intros [? _]. rewrite Eeq. by apply (wf_running _ _ _ _ Hwf).
  - intros t'. rewrite Eeq at 1. rewrite Ht, Hlive. intros Hc.
    destruct (wf_current _ _ _ _ Hwf t' Hc) as [Hr Hrun]. split; [done|]. intros Hs.
    split; [auto|]. congruence.
  - rewrite Eeq. done.
  - apply elem_of_difference. split; [apply (wf_zero _ _ _ _ Hwf)|]. intros E%elem_of_singleton. lia.
Qed.

Lemma task_exit_wf s q U code :
  sched_wf s q U None → current_runs s →
  ∃ s' q' U', task_exit code s = Some s' ∧ sched_wf s' q' U' None ∧ U' ⊆ U.
Proof.
  intros Hwf Hr. unfold task_exit.
  destruct (current_runs_cases s q U Hwf Hr) as [->|(t & -> & Hrun)]; [by exists s, q, U|].
  destruct (suspend_wf s q U t (fun k => k⟦state := TASK_ZOMBIE⟧) Hwf Hrun) as [Hl Hwf1]; [done|].
  set (s1 := upd_task t _ s) in *.
  assert (task_at s1 t = (task_at s t)⟦state := TASK_ZOMBIE⟧) as Et
    by (subst s1; by rewrite task_at_upd, decide_True).
  destruct (wf_stack _ _ _ _ Hwf1 t Hl) as (f & Ef & Hf & HfU).
  destruct (wf_task _ _ _ _ Hwf1 t Hl) as (Hid & _).
  pose proof (pa_rep_range _ _ _ (wf_pmm _ _ _ _ Hwf1) HfU) as Hfr.
  rewrite Ef. replace (f * PAGE_SIZE =? 0) with false by (unfold PAGE_SIZE; lia).
  destruct (pa_free_spec _ _ (f * PAGE_SIZE) (wf_pmm _ _ _ _ Hwf1)) as (p' & -> & Hrep);
    [unfold PAGE_SIZE in *; lia|].
  replace (f * PAGE_SIZE / PAGE_SIZE) with f in Hrep by (symmetry; apply Z.div_mul; done).
  cbn [mbind option_bind]. change (task_at (s1⟦pmm := p'⟧) t) with (task_at s1 t). rewrite Hid.
  destruct (schedule_wf (free_task_id t (s1⟦pmm := p'⟧)) q (U ∖ {[f]})) as (s' & q' & ? & ? & _).
  { apply release_task_wf; try done; by rewrite Et. }
  exists s', q', (U ∖ {[f]}). split; [done|]. split; [done|]. set_solver.
Qed.

(** *** Creation *)

(** Rewriting a slot that was not in use, and possibly taking it. *)
Lemma slot_wf s s' q U U' t pend :
  sched_wf s q U None → ¬ live s t →
  (∀ t', t' ≠ t → task_at s' t' = task_at s t') → cpu_runqueues s' = cpu_runqueues s →
  num_cpus s' = num_cpus s → current_cpu s' = current_cpu s →
  preemption_count s' = preemption_count s → preemption_enabled s' = preemption_enabled s →
  bm_wf 32 (task_bitmap s') (Z.to_nat MAX_TASKS) → pa_rep (pmm s') U' → U ⊆ U' →
  (∀ t', t' ≠ t → live s' t' ↔ live s t') → state (task_at s' t) ≠ TASK_RUNNING →
  (live s' t → id (task_at s' t) = t ∧ cpu (task_at s' t) = 0 ∧ prio_ok (priority (task_at s' t)) ∧
     prio_ok (static_priority (task_at s' t)) ∧ pend = Some t ∧
     ∃ f, stack_base (task_at s' t) = f * PAGE_SIZE ∧ 0 < f ∧ f ∈ U' ∧ f ∉ U) →
  sched_wf s' q U' pend.
Proof.
  intros Hwf Hdead Hoth Erq Enc Ecc Epc Epe Hbm Hrep HU Hlive Hnr Hnew.
  assert (∀ p, prio_ok p → t ∉ q p) as Hnq.
  { intros p Hp Hin. by destruct (wf_queued _ _ _ _ Hwf p t Hp Hin) as (? & _). }
  assert (∀ c, rq_at s' c = rq_at s c) as Hrq by (intros c; unfold rq_at; by rewrite Erq).
  assert (∀ t', live s' t' → t' ≠ t → live s t') as Hold by (intros t' Hl Hne; by apply Hlive).
  split; rewrite ?Enc, ?Ecc, ?Epc, ?Epe, ?Hrq; try wf_kept Hwf; try done.
  - intros p Hp. eapply dll_ext; [|by apply (wf_list _ _ _ _ Hwf)]. intros y Hy.
    change ((task_pool s').[y]) with (task_at s' y). rewrite Hoth; [done|]. intros ->. by eapply Hnq.
  - intros p t' Hp Hin. assert (t' ≠ t) by (intros ->; by eapply Hnq).
    rewrite Hoth, Hlive by done. by apply (wf_queued _ _ _ _ Hwf).
  - intros t' Hl Hs. destruct (decide (t' = t)) as [->|Hne]; [right; by apply Hnew|]. left.
    rewrite Hoth in * by done. by destruct (wf_ready _ _ _ _ Hwf t' (Hold _ Hl Hne) Hs).
  - intros t' Hl. destruct (decide (t' = t)) as [->|Hne]; [destruct (Hnew Hl) as (? & ? & ? & ? & _); done|].
    rewrite Hoth by done. apply (wf_task _ _ _ _ Hwf); auto.
  - intros t' Hl. destruct (decide (t' = t)) as [->|Hne].
    + destruct (Hnew Hl) as (_ & _ & _ & _ & _ & f & ? & ? & ? & _). eauto.
    + rewrite Hoth by done. destruct (wf_stack _ _ _ _ Hwf t') as (f & ? & ? & ?); [auto|]. exists f. set_solver.
  - assert (∀ t', live s' t' → live s' t → t' ≠ t → stack_base (task_at s' t') ≠ stack_base (task_at s' t)) as Hdiff.
    { intros t' Hl Hlt Hne. destruct (Hnew Hlt) as (_ & _ & _ & _ & _ & f & -> & _ & _ & HfU).
      rewrite Hoth by done. destruct (wf_stack _ _ _ _ Hwf t') as (f' & -> & _ & Hf'); [auto|].
      intros E. assert (f' = f) by (unfold PAGE_SIZE in E; lia). congruence. }
    intros t1 t2 Hl1 Hl2 E. destruct (decide (t1 = t)) as [->|H1], (decide (t2 = t)) as [->|H2]; [done|..].
    + exfalso. by apply (Hdiff t2).
    + exfalso. by apply (Hdiff t1).
    + rewrite !Hoth in E by done. apply (wf_stack_inj _ _ _ _ Hwf); auto.
  - intros t' Hl Hs. destruct (decide (t' = t)) as [->|Hne]; [done|]. left.
    rewrite Hoth in * by done. by destruct (wf_running _ _ _ _ Hwf t' (Hold _ Hl Hne) Hs).
  - intros t' Hc. destruct (wf_current _ _ _ _ Hwf t' Hc) as [Hr Hrun]. split; [done|].
    destruct (decide (t' = t)) as [->|Hne]; [done|]. rewrite Hoth, Hlive by done. done.
  - apply HU, (wf_zero _ _ _ _ Hwf).
Qed.

Lemma alloc_task_id_spec s :
  match alloc_task_id s with
  | (i, s') => (i = -1 ∧ s' = s ∧ ∀ t, 0 ≤ t < MAX_TASKS → live s t) ∨
               (0 ≤ i < MAX_TASKS ∧ ¬ live s i ∧ (∀ t, 0 ≤ t < i → live s t) ∧
                s' = s⟦task_bitmap ::= fun b => bm_set 32 b i⟧)
  end.
Proof.
  unfold alloc_task_id. destruct (bm_find_free 32 (task_bitmap s) (Z.to_nat MAX_TASKS)) as [i|] eqn:E.
  - apply bm_find_free_Some in E as (Hr & Hi & Hmin). right. unfold live, MAX_TASKS in *.
    split; [lia|]. split; [intros [_ ?]; congruence|]. split; [|done]. intros t Ht. split; [lia|auto].
  - left. pose proof (proj1 (bm_find_free_None _ _ _) E) as Hall. split; [done|]. split; [done|].
    intros t Ht. split; [done|]. apply Hall. unfold MAX_TASKS in *. lia.
Qed.

(** What creation does, in the three ways it can end. *)
Record created (s s' : sched S) (U U' : gset Z) (r entry : Z) (nm : option string) (pol : sched_policy)
    (prio aff stack : Z) : Prop := {
  cr_range : 0 ≤ r < MAX_TASKS;
  cr_least : ¬ live s r ∧ ∀ t, 0 ≤ t < r → live s t;
  cr_live t : live s' t ↔ live s t ∨ t = r;
  cr_other t : t ≠ r → core (task_at s' t) = core (task_at s t);
  cr_frame : ∃ f, 0 < f < TOTAL_PAGES ∧ (f ∉ U) ∧ U' = {[f]} ∪ U ∧
    core (task_at s' r) = core (start_task entry (f * PAGE_SIZE) stack
      ((init_task r nm pol prio aff stack 0 (task_at s r))⟦stack_base := f * PAGE_SIZE⟧));
}.

Lemma set_id_live s t t' : bm_wf 32 (task_bitmap s) (Z.to_nat MAX_TASKS) → 0 ≤ t < MAX_TASKS →
  live (s⟦task_bitmap ::= fun b => bm_set 32 b t⟧) t' ↔ live s t' ∨ t' = t.
Proof.
  intros Hbm Ht. unfold live.
  change (task_bitmap (s⟦task_bitmap ::= _⟧)) with (bm_set 32 (task_bitmap s) t).
  pose proof (bm_test_set 32 ltac:(lia) _ _ t t' Hbm) as Hc. split.
  - intros [Hr Hb]. rewrite Hc in Hb by (unfold MAX_TASKS in *; lia). case_decide; [by right|]. by left.
  - intros [[Hr Hb]| ->]; (split; [done|]); rewrite Hc by (unfold MAX_TASKS in *; lia); by case_decide.
Qed.

Lemma task_create_wf s q U entry nm pol prio aff stack :
  sched_wf s q U None → prio_ok prio →
  ∃ r s' q' U', task_create_ex entry nm pol prio aff stack s = Some (r, s') ∧ sched_wf s' q' U' None ∧
    ((r = -1 ∧ U' = U ∧ (∀ t, live s' t ↔ live s t) ∧
        ((∀ t, 0 ≤ t < MAX_TASKS → live s t) ∨ all_used U)) ∨
     created s s' U U' r entry nm pol prio aff (if stack <? 4096 then 4096 else stack)).
Proof.
  intros Hwf Hp. unfold task_create_ex. pose proof (alloc_task_id_spec s) as Ha.
  pose proof (wf_bm _ _ _ _ Hwf) as Hbm. destruct (wf_cpus _ _ _ _ Hwf) as [_ Hcc].
  destruct (alloc_task_id s) as [i s1]. destruct Ha as [(-> & -> & Hall)|(Hr & Hdead & Hmin & ->)].
  { exists (-1), s, q, U. split; [done|]. split; [done|]. left. auto. }
  replace (i <? 0) with false by lia. set (stk := if stack <? 4096 then 4096 else stack).
  set (s1 := s⟦task_bitmap ::= _⟧). change (current_cpu s1) with (current_cpu s). rewrite Hcc.
  change (pmm (upd_task i _ s1)) with (pmm s).
  assert (∀ t, live s1 t ↔ live s t ∨ t = i) as Hl1 by (intros t; by apply set_id_live).
  destruct (pa_alloc_spec _ _ (wf_pmm _ _ _ _ Hwf) (wf_zero _ _ _ _ Hwf))
    as [[-> Hfull]|(f & p' & -> & Hf & HfU & Hrep)].
  - set (s2 := upd_task i _ _). change (0 =? 0) with true. cbn iota.
    assert (∀ t, live (free_task_id i s2) t ↔ live s t) as Hl2.
    { intros t. rewrite free_id_live; [|by apply bm_set_wf|done]. change (live s2 t) with (live s1 t).
      rewrite Hl1. split; [tauto|]. intros Hl. split; [by left|]. congruence. }
    exists (-1), (free_task_id i s2), q, U. split; [done|]. split; [|left; auto].
    apply (slot_wf s _ q U U i None Hwf Hdead); try (rewrite free_task_id_eq by done; done).
    + intros t Hne. rewrite free_task_id_eq by done. subst s2. unfold task_at, upd_task. cbn.
      by rewrite !aget_amod_ne by done.
    + rewrite free_task_id_eq by done. by apply bm_clear_wf, bm_set_wf.
    + rewrite free_task_id_eq by done. apply (wf_pmm _ _ _ _ Hwf).
    + done.
    + intros t _. apply Hl2.
    + rewrite free_task_id_eq by done. subst s2. unfold task_at, upd_task. cbn. by rewrite !aget_amod_eq.
    + rewrite Hl2. done.
  - replace (f * PAGE_SIZE =? 0) with false by (unfold PAGE_SIZE; lia).
    set (base := f * PAGE_SIZE). set (s2 := upd_task i (start_task _ _ _) _).
    assert (task_at s2 i = start_task entry base stk
      ((init_task i nm pol prio aff stk 0 (task_at s i))⟦stack_base := base⟧)) as Ei.
    { subst s2. rewrite !task_at_upd, !decide_True by done. f_equal.
      unfold task_at, upd_task. cbn. by rewrite aget_amod_eq. }
    assert (∀ t, t ≠ i → task_at s2 t = task_at s t) as Eo.
    { intros t Hne. subst s2. rewrite !task_at_upd, !decide_False by done.
      unfold task_at, upd_task. cbn. by rewrite aget_amod_ne. }
    assert (sched_wf s2 q ({[f]} ∪ U) (Some i)) as Hwf2.
    { apply (slot_wf s _ q U _ i _ Hwf Hdead); try done.
      - by apply bm_set_wf.
      - set_solver.
      - intros t Hne. change (live s2 t) with (live s1 t). rewrite Hl1. naive_solver.
      - by rewrite Ei.
      - rewrite Ei. intros _. split_and!; [done..|]. exists f. set_solver. }
    assert (live s2 i) as Hli by (change (live s1 i); rewrite Hl1; auto).
    destruct (enqueue_wf s2 q ({[f]} ∪ U) i Hwf2 Hli) as (s' & E & Hfr & Hwf').
    { by rewrite Ei. }
    { intros p Hpp Hin. by destruct (wf_queued _ _ _ _ Hwf p i Hpp Hin). }
    rewrite Ei. change (cpu (start_task _ _ _ _)) with 0. rewrite E. cbn [mbind option_bind].
    eexists i, s', _, _. split; [done|]. split; [exact Hwf'|]. right. split; [done|done|..].
    + intros t. rewrite (frame_live _ _ _ Hfr). apply Hl1.
    + intros t Hne. by rewrite (fr_task _ _ Hfr), Eo.
    + exists f. split; [done|]. split; [done|]. split; [done|]. rewrite (fr_task _ _ Hfr), Ei. reflexivity.
Qed.

(** *** Attributes *)

(** A field update that keeps the identity of the task and its state. *)
Definition same_task (f : task → task) (k : task) : Prop :=
  state (f k) = state k ∧ id (f k) = id k ∧ cpu (f k) = cpu k ∧ stack_base (f k) = stack_base k ∧
  prio_ok (priority (f k)) ∧ prio_ok (static_priority (f k)).

(** Updating a live task that is not on a ready list. *)
Lemma update_idle_wf s q U t f :
  sched_wf s q U None → live s t → state (task_at s t) ≠ TASK_READY → same_task f (task_at s t) →
  sched_wf (upd_task t f s) q U None.
Proof.
  intros Hwf Hl Hs (F1 & F2 & F3 & F4 & F5 & F6). apply (wf_pend_drop _ _ _ t).
  - apply upd_wf; [by apply wf_pend_weaken|by eapply not_ready_unqueued|done..].
  - intros _. rewrite task_at_upd, decide_True by done. rewrite F1. split; [done|]. intros Hrun.
    by destruct (wf_running _ _ _ _ Hwf t Hl Hrun).
Qed.

(** Updating a ready task by taking it off its list and queueing it again. *)
Lemma requeue_wf s q U t f :
  sched_wf s q U None → live s t → state (task_at s t) = TASK_READY →
  (∀ k, core k = core (task_at s t) → same_task f k) →
  ∃ s1 s' q', dequeue_task 0 t s = Some s1 ∧ enqueue_task 0 t (upd_task t f s1) = Some s' ∧
    sched_wf s' q' U None ∧ kept s s'.
Proof.
  intros Hwf Hl Hs Hf. destruct (wf_task _ _ _ _ Hwf t Hl) as (_ & _ & Hp & _).
  destruct (wf_ready _ _ _ _ Hwf t Hl Hs) as [Hin|]; [|done].
  destruct (dequeue_wf s q U t _ Hwf Hp Hin) as (s1 & l1 & l2 & _ & E1 & Hfr & Hwf1 & Hnq).
  assert (live s1 t) as Hl1 by (by apply (frame_live s)).
  destruct (Hf _ (fr_task _ _ Hfr t)) as (F1 & F2 & F3 & F4 & F5 & F6).
  assert (sched_wf (upd_task t f s1) (<[priority (task_at s t):=l1 ++ l2]> q) U (Some t)) as Hwf2 by (by apply upd_wf).
  destruct (enqueue_wf _ _ _ t Hwf2 Hl1) as (s' & E2 & Hfr2 & Hwf'); [|done|].
  { rewrite task_at_upd, decide_True, F1 by done.
    destruct (core_fields _ _ (fr_task _ _ Hfr t)) as (_ & _ & _ & _ & -> & _). done. }
  eexists s1, s', _. split; [done|]. split; [done|]. split; [done|].
  destruct (fr_rest _ _ Hfr) as (_ & _ & ? & ? & ? & ? & ?), (fr_rest _ _ Hfr2) as (_ & _ & ? & ? & ? & ? & ?).
  pose proof (fr_bitmap _ _ Hfr). pose proof (fr_bitmap _ _ Hfr2). unfold kept. cbn in *. intuition congruence.
Qed.

Lemma task_set_priority_wf s q U t prio :
  sched_wf s q U None → 0 ≤ prio →
  ∃ r s' q', task_set_priority t prio s = Some (r, s') ∧ sched_wf s' q' U None ∧ kept s s'.
Proof.
  intros Hwf Hp0. unfold task_set_priority. destruct (get_task t s) as [t'|] eqn:E; [|by exists (-1), s, q].
  apply get_task_Some in E as [-> Hl].
  destruct (Z.ltb_spec MAX_NORMAL_PRIORITY prio) as [|Hle]; [by exists (-1), s, q|].
  destruct (wf_task _ _ _ _ Hwf t Hl) as (_ & -> & _). unfold state_is.
  destruct (bool_decide_reflect (state (task_at s t) = TASK_READY)) as [Hs|Hs].
  - destruct (requeue_wf s q U t (fun k => k⟦priority := prio⟧⟦static_priority := prio⟧) Hwf Hl Hs)
      as (s1 & s' & q' & -> & Hrun & ? & ?); [by intros k _|].
    cbn [mbind option_bind]. rewrite Hrun. by exists 0, s', q'.
  - eexists 0, _, q. split; [done|]. split; [|done]. by apply update_idle_wf.
Qed.

Lemma task_pi_boost_wf s q U t prio :
  sched_wf s q U None → 0 ≤ prio ≤ MAX_NORMAL_PRIORITY →
  ∃ s' q', task_pi_boost t prio s = Some s' ∧ sched_wf s' q' U None ∧ kept s s'.
Proof.
  intros Hwf Hp0. unfold task_pi_boost. destruct (get_task t s) as [t'|] eqn:E; [|by exists s, q].
  apply get_task_Some in E as [-> Hl]. destruct (prio <? _); [|by exists s, q].
  set (s0 := upd_task t _ s).
  assert (sched_wf s0 q U None) as Hwf0 by (by apply upd_neutral).
  destruct (wf_task _ _ _ _ Hwf0 t Hl) as (_ & -> & _ & Hsp). unfold state_is.
  destruct (bool_decide_reflect (state (task_at s0 t) = TASK_READY)) as [Hs|Hs]; [|by exists s0, q].
  destruct (requeue_wf s0 q U t (fun k => k⟦priority := prio⟧) Hwf0 Hl Hs)
    as (s1 & s' & q' & -> & Hrun & ? & ?); [|by exists s', q'].
  intros k Hk. destruct (core_fields _ _ Hk) as (_ & _ & _ & Esp & _).
  split_and!; [done..|]. change (prio_ok (static_priority k)). by rewrite Esp.
Qed.

Lemma task_pi_deboost_wf s q U t :
  sched_wf s q U None →
  (state (task_at s t) = TASK_READY → priority (task_at s t) = static_priority (task_at s t)) →
  sched_wf (task_pi_deboost t s) q U None ∧ kept s (task_pi_deboost t s).
Proof.
  intros Hwf Hd. unfold task_pi_deboost. destruct (get_task t s) as [t'|] eqn:E; [|done].
  apply get_task_Some in E as [-> Hl]. split; [|done].
  destruct (wf_task _ _ _ _ Hwf t Hl) as (_ & _ & Hp & Hsp).
  destruct (decide (state (task_at s t) = TASK_READY)) as [Hs|Hs].
  - apply upd_neutral; [done|]. cbn. rewrite (Hd Hs). done.
  - by apply update_idle_wf.
Qed.

(** On the single CPU of the configuration a migration never happens. *)
Lemma task_migrate_single s q U t target :
  sched_wf s q U None → 0 ≤ target → task_migrate t target s = Some (-1, s).
Proof.
  intros Hwf Ht. unfold task_migrate. destruct (get_task t s) as [t'|] eqn:E; [|done].
  apply get_task_Some in E as [-> Hl]. destruct (wf_task _ _ _ _ Hwf t Hl) as (_ & -> & _).
  destruct (wf_cpus _ _ _ _ Hwf) as [-> _].
  replace ((1 <=? target) || (target =? 0)) with true by lia. done.
Qed.

Lemma task_set_affinity_wf s q U t aff :
  sched_wf s q U None →
  ∃ r s', task_set_affinity t aff s = Some (r, s') ∧ sched_wf s' q U None ∧ kept s s'.
Proof.
  intros Hwf. unfold task_set_affinity. destruct (get_task t s) as [t'|] eqn:E; [|by exists (-1), s].
  apply get_task_Some in E as [-> Hl]. destruct (aff =? CPU_MASK_NONE); [by exists (-1), s|].
  set (s0 := upd_task t _ s). assert (sched_wf s0 q U None) as Hwf0 by (by apply upd_neutral).
  destruct (in_mask aff _); [by exists 0, s0|].
  destruct (find_up _ _ _) as [c|] eqn:Ec; [|by exists 0, s0].
  apply find_up_Some in Ec as (Hc & _). rewrite (task_migrate_single s0 q U) by (done || lia). by exists (-1), s0.
Qed.

(** *** The timer tick *)

(** A task whose sleep has run out. *)
Definition due (s : sched S) (t : Z) : Prop :=
  live s t ∧ state (task_at s t) = TASK_SLEEPING ∧ sleep_until (task_at s t) ≤ timer_ticks s.

Lemma kept_trans s1 s2 s3 : kept s1 s2 → kept s2 s3 → kept s1 s3.
Proof. unfold kept. intuition congruence. Qed.

Lemma kept_due s s' t : kept s s' → core (task_at s' t) = core (task_at s t) → due s' t → due s t.
Proof.
  intros (Eb & _ & _ & _ & Et & _) Hc. unfold due, live. rewrite Eb, Et.
  destruct (core_fields _ _ Hc) as (_ & _ & _ & _ & -> & _ & _ & -> & _). done.
Qed.

Lemma wake_sleeper_wf s q U i :
  sched_wf s q U None → 0 ≤ i < MAX_TASKS →
  ∃ s' q', wake_sleeper i s = Some s' ∧ sched_wf s' q' U None ∧ kept s s' ∧
    ∀ t, due s' t → due s t ∧ t ≠ i.
Proof.
  intros Hwf Hi. unfold wake_sleeper. destruct (bm_test 32 (task_bitmap s) i) eqn:Hb.
  - assert (live s i) as Hl by done. destruct (wf_task _ _ _ _ Hwf i Hl) as (-> & _).
    unfold state_is. destruct (bool_decide_reflect (state (task_at s i) = TASK_SLEEPING)) as [Hs|Hs]; cbn [andb].
    2: { exists s, q. split; [done|]. split; [done|]. split; [done|]. intros t Hd. split; [done|].
         intros ->. by destruct Hd as (_ & ? & _). }
    destruct (Z.leb_spec (sleep_until (task_at s i)) (timer_get_ticks s)) as [Hle|Hgt].
    + destruct (task_wakeup_effect s q U i Hwf) as (s' & q' & ? & ? & Hk & Hst & Hoth).
      exists s', q'. split; [done|]. split; [done|]. split; [done|]. intros t Hd.
      destruct (decide (t = i)) as [->|Hne]; [by destruct Hd as (_ & ? & _); apply Hst in Hl|].
      split; [|done]. eapply kept_due; [done|by apply Hoth|done].
    + exists s, q. split; [done|]. split; [done|]. split; [done|]. intros t Hd. split; [done|].
      intros ->. destruct Hd as (_ & _ & ?). unfold timer_get_ticks in Hgt. lia.
  - exists s, q. split; [done|]. split; [done|]. split; [done|]. intros t Hd. split; [done|].
    intros ->. destruct Hd as ((_ & ?) & _). congruence.
Qed.

Lemma wake_loop_wf s q U :
  sched_wf s q U None →
  ∃ s' q', for_up (Z.to_nat MAX_TASKS) 0 wake_sleeper s = Some s' ∧ sched_wf s' q' U None ∧ kept s s' ∧
    ∀ t, ¬ due s' t.
Proof.
  intros Hwf.
  destruct (for_up_inv (fun i s' => (∃ q', sched_wf s' q' U None) ∧ kept s s' ∧ ∀ t, due s' t → i ≤ t)
    wake_sleeper (Z.to_nat MAX_TASKS) 0 s) as (s' & E & (q' & ?) & ? & Hd).
  - split; [by exists q|]. split; [done|]. intros t [[? _] _]. lia.
  - intros k s' Hk ([q' Hwf'] & Hkp & Hd).
    destruct (wake_sleeper_wf s' q' U k Hwf') as (s2 & q2 & ? & ? & ? & Hd2); [unfold MAX_TASKS in *; lia|].
    exists s2. split; [done|]. split; [by exists q2|]. split; [by eapply kept_trans|].
    intros t [Hd' Hne]%Hd2. apply Hd in Hd'. lia.
  - exists s', q'. split; [done|]. split; [done|]. split; [done|]. intros t Ht.
    pose proof (Hd t Ht). destruct Ht as [[? _] _]. unfold MAX_TASKS in *. lia.
Qed.

(** [true] when the tick returns early because the slice of a FIFO task ran
    out: the loop over the sleeping tasks is then skipped. *)
Definition fifo_expired (s : sched S) (cur : Z) : bool :=
  (time_slice (task_at s cur) <=? 1) && bool_decide (policy (task_at s cur) = SCHED_FIFO).

Lemma scheduler_tick_effect s q U :
  sched_wf s q U None →
  ∃ s' q', scheduler_tick s = Some s' ∧ sched_wf s' q' U None ∧ kept s s' ∧
    (∀ cur, scheduler_enabled s = true → current (rq_at s 0) = Some cur →
       fifo_expired s cur = false → ∀ t, ¬ due s' t).
Proof.
  intros Hwf. unfold scheduler_tick. destruct (scheduler_enabled s); cbn [negb]; [|by exists s, q].
  destruct (wf_cpus _ _ _ _ Hwf) as [_ ->]. destruct (current (rq_at s 0)) as [cur|]; [|by exists s, q].
  set (s1 := upd_task cur _ s). assert (sched_wf s1 q U None) as Hwf1 by (by apply upd_neutral).
  set (s2 := upd_task cur _ s1).
  assert (sched_wf s2 q U None) as Hwf2 by (apply upd_neutral; [done|]; cbn; by destruct (0 <? _)).
  assert (kept s s2) as Hk2 by done.
  destruct ((time_slice (task_at s2 cur) =? 0) && _) eqn:Hfifo.
  - eexists _, q. split; [done|]. split; [by apply upd_neutral|]. split; [done|].
    intros cur' _ [= <-] Hff t _. apply andb_true_iff in Hfifo as [Hz%Z.eqb_eq Hpol].
    assert (policy (task_at s2 cur) = policy (task_at s cur) ∧ time_slice (task_at s cur) ≤ 1) as [Epol Hle].
    { revert Hz. subst s2 s1. rewrite !task_at_upd, !decide_True by done. cbn.
      destruct (Z.ltb_spec 0 (time_slice (task_at s cur))); cbn; (split; [done|lia]). }
    unfold fifo_expired in Hff. rewrite <-Epol, Hpol in Hff. lia.
  - match goal with |- context [mbind _ ?m] => set (s3 := m) end.
    assert (∃ s4 q4, s3 = Some s4 ∧ sched_wf s4 q4 U None ∧ kept s s4) as (s4 & q4 & -> & Hwf4 & Hk4).
    { subst s3. destruct (_ =? _); [|by exists s2, q].
      set (s2' := s2⟦global_stats ::= _⟧).
      assert (sched_wf s2' q U None) as Hw by (destruct Hwf2; by split).
      destruct (schedule_wf (upd_task cur (fun t => t⟦stats ::= fun st => st⟦preemptions ::= fun n => u64 (n + 1)⟧⟧) s2') q U)
        as (s4 & q4 & ? & ? & Hk); [by apply upd_neutral|]. exists s4, q4. done. }
    cbn [mbind option_bind]. destruct (wake_loop_wf s4 q4 U Hwf4) as (s5 & q5 & ? & ? & ? & Hd).
    exists s5, q5. split; [done|]. split; [done|]. split; [by eapply kept_trans|done].
Qed.

Lemma scheduler_tick_wf s q U :
  sched_wf s q U None → ∃ s' q', scheduler_tick s = Some s' ∧ sched_wf s' q' U None ∧ kept s s'.
Proof. intros Hwf. destruct (scheduler_tick_effect s q U Hwf) as (s' & q' & ? & ? & ? & _). eauto. Qed.

Lemma scheduler_start_wf s q U :
  sched_wf s q U None → ∃ s' q', scheduler_start s = Some s' ∧ sched_wf s' q' U None.
Proof.
  intros Hwf. unfold scheduler_start. destruct (scheduler_enabled s); [by exists s, q|].
  destruct (schedule_wf (s⟦scheduler_enabled := true⟧) q U) as (s' & q' & ? & ? & _); [|eauto].
  destruct Hwf; by split.
Qed.

(** *** Initialisation *)

(** The state of the run queue and the bitmap that [scheduler_init] leaves. *)
Definition quiet (p : S) (s : sched S) : Prop :=
  num_cpus s = 1 ∧ current_cpu s = 0 ∧ preemption_count s = 0 ∧ preemption_enabled s = true ∧ pmm s = p ∧
  task_bitmap s = replicate 8 0 ∧
  current (rq_at s 0) = None ∧ idle_task (rq_at s 0) = None ∧ nr_running (rq_at s 0) = 0 ∧
  ∀ i, (ready_lists (rq_at s 0)).[i] = None.

Lemma quiet_wf p s U : quiet p s → pa_rep p U → 0 ∈ U → sched_wf s (fun _ => []) U None.
Proof.
  intros (? & ? & Hpc & Hpe & Ep & Ebm & Hc & Hi & Hn & Hl) Hrep Hz.
  assert (∀ t, ¬ live s t) as Hdead.
  { intros t [_ Hb]. rewrite Ebm, bm_test_zeros in Hb; done. }
  split; try done; try (intros t Ht; by apply Hdead in Ht).
  - rewrite Ebm. by apply bm_zeros_wf.
  - intros i _. rewrite Hl. apply dll_nil.
  - intros i t _ Hin. by apply elem_of_nil in Hin.
  - intros t t' Ht. by apply Hdead in Ht.
  - intros t. by rewrite Hc.
  - by rewrite Hpc, Hpe.
  - by rewrite Ep.
Qed.

Lemma init_cpu_quiet p s : quiet p s → ∃ s', scheduler_init_cpu 0 s = Some s' ∧ quiet p s'.
Proof.
  intros Hq. eexists. split; [reflexivity|].
  apply (iter_up_inv (fun _ => quiet p)); [|intros k s' _ Hq']; unfold quiet in *.
  - rewrite !rq_at_upd, !decide_True by done. tauto.
  - rewrite !rq_at_upd, !decide_True by done. destruct Hq' as (? & ? & ? & ? & ? & ? & ? & ? & ? & Hl).
    split_and!; try done. intros i. cbn [modify_field ready_lists]. rewrite aget_aset. by case_decide.
Qed.

Lemma scheduler_init_quiet p : ∃ s, scheduler_init (sched_boot p) = Some s ∧ quiet p s.
Proof.
  unfold scheduler_init. set (s1 := iter_up (Z.to_nat MAX_TASKS) _ _ _).
  assert (quiet p s1) as H1.
  { subst s1. apply (iter_up_inv (fun _ => quiet p)); [done|]. intros k s _ Hs. exact Hs. }
  clearbody s1. set (s2 := iter_up (Z.to_nat (MAX_TASKS / 32)) _ _ _).
  assert (quiet p s2) as H2.
  { subst s2. apply (iter_up_inv (fun _ => quiet p)); [done|]. intros k s _ Hs. unfold quiet in *.
    destruct Hs as (? & ? & ? & ? & ? & Hbm & ?). split_and!; try tauto.
    change (<[Z.to_nat k:=0]> (task_bitmap s) = replicate 8 0). rewrite Hbm. apply insert_replicate. }
  clearbody s2. pose proof H2 as (-> & _). destruct (init_cpu_quiet p s2 H2) as (s3 & E & H3).
  change (Z.to_nat 1) with 1%nat. cbn [for_up]. rewrite E. cbn. eexists. split; [done|]. exact H3.
Qed.

(** ** The scheduler as a state machine *)

Inductive sched_op :=
  | op_create (entry : Z) (nm : option string) (pol : sched_policy) (prio aff stack : Z)
  | op_start | op_tick | op_timer | op_yield
  | op_block (resource : Z) | op_unblock (t : Z) | op_sleep (n : Z) | op_wakeup (t : Z) | op_exit (code : Z)
  | op_set_priority (t prio : Z) | op_set_policy (t : Z) (pol : sched_policy)
  | op_set_affinity (t aff : Z) | op_set_nice (t n : Z) | op_migrate (t c : Z) | op_balance
  | op_pi_boost (t prio : Z) | op_pi_deboost (t : Z)
  | op_enable_preemption | op_disable_preemption.

Definition run_op (op : sched_op) (s : sched S) : option (sched S) :=
  match op with
  | op_create entry nm pol prio aff stack => snd <$> task_create_ex entry nm pol prio aff stack s
  | op_start => scheduler_start s
  | op_tick => scheduler_tick s
  | op_timer => Some (timer_handler s)
  | op_yield => task_yield s
  | op_block r => task_block r s
  | op_unblock t => task_unblock t s
  | op_sleep n => task_sleep n s
  | op_wakeup t => task_wakeup t s
  | op_exit c => task_exit c s
  | op_set_priority t prio => snd <$> task_set_priority t prio s
  | op_set_policy t pol => Some (task_set_policy t pol s).2
  | op_set_affinity t aff => snd <$> task_set_affinity t aff s
  | op_set_nice t n => snd <$> task_set_nice t n s
  | op_migrate t c => snd <$> task_migrate t c s
  | op_balance => scheduler_balance_load s
  | op_pi_boost t prio => task_pi_boost t prio s
  | op_pi_deboost t => Some (task_pi_deboost t s)
  | op_enable_preemption => Some (scheduler_enable_preemption s)
  | op_disable_preemption => Some (scheduler_disable_preemption s)
  end.

(** What callers have to respect: priorities and CPU numbers are not negative
    (a new task's priority is legal), the blocking calls come from a running
    task, a boosted task is deboosted while it is not queued. *)
Definition allowed (op : sched_op) (s : sched S) : Prop :=
  match op with
  | op_create _ _ _ prio _ _ => prio_ok prio
  | op_block _ | op_sleep _ | op_exit _ => current_runs s
  | op_set_priority _ prio => 0 ≤ prio
  | op_migrate _ c => 0 ≤ c
  | op_pi_boost _ prio => prio_ok prio
  | op_pi_deboost t =>
      state (task_at s t) = TASK_READY → priority (task_at s t) = static_priority (task_at s t)
  | op_disable_preemption => preemption_count s < 2 ^ 31 - 1
  | _ => True
  end.

Lemma preemption_wf s q U :
  sched_wf s q U None →
  sched_wf (scheduler_enable_preemption s) q U None ∧
  (preemption_count s < 2 ^ 31 - 1 → sched_wf (scheduler_disable_preemption s) q U None).
Proof.
  intros Hwf. destruct (wf_preempt _ _ _ _ Hwf) as [Hc He]. split.
  - unfold scheduler_enable_preemption. destruct (Z.ltb_spec 0 (preemption_count s)).
    + set (s0 := s⟦preemption_count ::= _⟧).
      change (preemption_count s0) with (preemption_count s - 1).
      destruct (Z.eqb_spec (preemption_count s - 1) 0) as [E|E]; split; try wf_kept Hwf.
      * change (0 ≤ preemption_count s - 1 ∧ true = (preemption_count s - 1 =? 0)). lia.
      * change (0 ≤ preemption_count s - 1 ∧ preemption_enabled s = (preemption_count s - 1 =? 0)).
        rewrite He. lia.
    + assert (preemption_count s = 0) as E by lia. rewrite E. cbn. split; try wf_kept Hwf.
      change (0 ≤ preemption_count s ∧ true = (preemption_count s =? 0)). lia.
  - intros Hm. unfold scheduler_disable_preemption. split; try wf_kept Hwf.
    change (0 ≤ i32 (preemption_count s + 1) ∧ false = (i32 (preemption_count s + 1) =? 0)).
    rewrite i32_small by lia. lia.
Qed.

Local Ltac fin := do 3 eexists; split; [first [eassumption|reflexivity]|eassumption].

Lemma sched_op_wf s q U op :
  sched_wf s q U None → allowed op s →
  ∃ s' q' U', run_op op s = Some s' ∧ sched_wf s' q' U' None.
Proof.
  intros Hwf Hal. destruct op; cbn [run_op allowed] in *.
  - destruct (task_create_wf s q U entry nm pol prio aff stack Hwf Hal) as (r & s' & q' & U' & -> & ? & _). fin.
  - destruct (scheduler_start_wf s q U Hwf) as (s' & q' & ? & ?). fin.
  - destruct (scheduler_tick_wf s q U Hwf) as (s' & q' & ? & ? & _). fin.
  - exists (timer_handler s), q, U. split; [done|]. destruct Hwf; by split.
  - destruct (schedule_wf s q U Hwf) as (s' & q' & ? & ? & _). fin.
  - destruct (task_block_wf s q U resource Hwf Hal) as (s' & q' & ? & ?). fin.
  - destruct (task_unblock_wf s q U t Hwf) as (s' & q' & ? & ? & _). fin.
  - destruct (task_sleep_wf s q U n Hwf Hal) as (s' & q' & ? & ?). fin.
  - destruct (task_wakeup_wf s q U t Hwf) as (s' & q' & ? & ? & _). fin.
  - destruct (task_exit_wf s q U code Hwf Hal) as (s' & q' & U' & ? & ? & _). fin.
  - destruct (task_set_priority_wf s q U t prio Hwf Hal) as (r & s' & q' & -> & ? & _). fin.
  - eexists _, q, U. split; [done|]. unfold task_set_policy. destruct (get_task t s); [|done]. by apply upd_neutral.
  - destruct (task_set_affinity_wf s q U t aff Hwf) as (r & s' & -> & ? & _). fin.
  - unfold task_set_nice. destruct (Z.ltb_spec n (-20)); [fin|]. destruct (Z.ltb_spec 19 n); [fin|].
    destruct (task_set_priority_wf s q U t (NICE_TO_PRIORITY n) Hwf) as (r & s' & q' & E & ? & _);
      [unfold NICE_TO_PRIORITY; lia|]. cbn [orb]. rewrite E. fin.
  - rewrite (task_migrate_single s q U) by done. fin.
  - unfold scheduler_balance_load. destruct (wf_cpus _ _ _ _ Hwf) as [-> _]. fin.
  - destruct (task_pi_boost_wf s q U t prio Hwf Hal) as (s' & q' & ? & ? & _). fin.
  - destruct (task_pi_deboost_wf s q U t Hwf Hal). fin.
  - destruct (preemption_wf s q U Hwf). fin.
  - destruct (preemption_wf s q U Hwf) as [_ Hd]. specialize (Hd Hal). fin.
Qed.

(** The states reached from boot by allowed operations. *)
Inductive sched_reach : sched S → Prop :=
  | sched_reach_init p U s : pa_rep p U → 0 ∈ U → scheduler_init (sched_boot p) = Some s → sched_reach s
  | sched_reach_op s op s' : sched_reach s → allowed op s → run_op op s = Some s' → sched_reach s'.

Lemma sched_reach_wf s : sched_reach s → ∃ q U, sched_wf s q U None.
Proof.
  induction 1 as [p U s Hrep Hz E|s op s' _ (q & U & Hwf) Hal E].
  - destruct (scheduler_init_quiet p) as (s' & E' & Hq). assert (s = s') as -> by congruence.
    exists (fun _ => []), U. by apply (quiet_wf p).
  - destruct (sched_op_wf s q U op Hwf Hal) as (s2 & q' & U' & E' & ?).
    assert (s' = s2) as -> by congruence. eauto.
Qed.

End invariant.

(** ** Properties *)

Section properties.
Context {S : Type} `{PageAllocatorLaws S}.
Implicit Types s : sched S.

(** The requeued lists hold exactly the ready tasks and the running one. *)
Lemma requeued_in s q U t :
  sched_wf s q U None → live s t → state (task_at s t) = TASK_READY ∨ running s = Some t →
  prio_ok (priority (task_at s t)) ∧ t ∈ requeued s q (priority (task_at s t)).
Proof.
  intros Hwf Hl Ht. destruct (wf_task _ _ _ _ Hwf t Hl) as (_ & _ & Hpt & _). split; [done|].
  unfold requeued. destruct Ht as [Hs|Ht].
  - destruct (wf_ready _ _ _ _ Hwf t Hl Hs) as [Hq|]; [|done].
    destruct (running s) as [c|]; [|done].
    destruct (decide (priority (task_at s c) = priority (task_at s t))) as [->|Hne].
    + rewrite fn_lookup_insert. set_solver.
    + by rewrite fn_lookup_insert_ne.
  - rewrite Ht, fn_lookup_insert. set_solver.
Qed.

Lemma requeued_inv s q U p t :
  sched_wf s q U None → prio_ok p → t ∈ requeued s q p →
  (state (task_at s t) = TASK_READY ∨ running s = Some t) ∧ priority (task_at s t) = p.
Proof.
  intros Hwf Hp Hi. unfold requeued in Hi.
  assert (t ∈ q p → (state (task_at s t) = TASK_READY ∨ running s = Some t) ∧ priority (task_at s t) = p) as Hq.
  { intros Hq. destruct (wf_queued _ _ _ _ Hwf p t Hp Hq) as (_ & ? & ?). auto. }
  destruct (running s) as [c|] eqn:Hrun; [|auto].
  destruct (decide (priority (task_at s c) = p)) as [Epc|Hne].
  - rewrite Epc, fn_lookup_insert in Hi. apply elem_of_cons in Hi as [->|Hi]; auto.
  - rewrite fn_lookup_insert_ne in Hi by done. auto.
Qed.

(** C8: every state reached from boot by allowed calls satisfies the
    invariant: each ready task is on exactly the list of its priority and the
    lists hold nothing else, at most the current task is running, the counter
    of ready tasks is the number of queued tasks, every live task owns a
    distinct frame in use; and every further allowed call is defined. *)
Theorem sched_reach_safe s :
  sched_reach s →
  (∃ q U, sched_wf s q U None) ∧
  ∀ op, allowed op s → ∃ s', run_op op s = Some s' ∧ sched_reach s'.
Proof.
  intros Hr. destruct (sched_reach_wf s Hr) as (q & U & Hwf). split; [eauto|].
  intros op Hal. destruct (sched_op_wf s q U op Hwf Hal) as (s' & q' & U' & E & _).
  exists s'. split; [done|]. by eapply sched_reach_op.
Qed.

(** C9: a scheduling decision makes a task of the best priority run.  With
    scheduling and preemption enabled, either no task is ready or running and
    nothing changes; or the new current task is live and running, no ready
    task and not the task that ran before has a better priority, and it is the
    only running task. *)
Theorem schedule_picks_highest s :
  sched_reach s → scheduler_enabled s = true → preemption_enabled s = true →
  ∃ s', scheduler_schedule s = Some s' ∧
    ((s' = s ∧ running s = None ∧ ∀ t, live s t → state (task_at s t) ≠ TASK_READY) ∨
     ∃ nx, current (rq_at s' 0) = Some nx ∧ live s' nx ∧
       (state (task_at s nx) = TASK_READY ∨ running s = Some nx) ∧
       (∀ t, live s t → state (task_at s t) = TASK_READY ∨ running s = Some t →
             priority (task_at s nx) ≤ priority (task_at s t)) ∧
       (∀ t, live s' t → state (task_at s' t) = TASK_RUNNING ↔ t = nx)).
Proof.
  intros Hr He Hp. destruct (sched_reach_wf s Hr) as (q & U & Hwf).
  pose proof (fun t => requeued_in s q U t Hwf) as Hin.
  destruct (schedule_spec s q U Hwf He Hp)
    as (s' & E & [[Hnone ->]|(nx & p & l & Hpp & Eq & Hmin & Hwf' & Hk & Hc & Hst & _)]);
    exists s' || exists s; (split; [done|]).
  - left. split; [done|]. split.
    + destruct (running s) as [t|] eqn:Hrun; [|done]. exfalso.
      pose proof Hrun as [Hcur Hs]%running_Some. destruct (wf_current _ _ _ _ Hwf t Hcur) as [_ Hl].
      destruct (Hin t (Hl Hs)) as [Hpt Hi]; [by right|]. rewrite Hnone in Hi by done. by apply elem_of_nil in Hi.
    + intros t Hl Hs. destruct (Hin t Hl) as [Hpt Hi]; [by left|]. rewrite Hnone in Hi by done. by apply elem_of_nil in Hi.
  - right. exists nx. destruct (wf_current _ _ _ _ Hwf' nx Hc) as [_ Hlnx].
    assert (state (task_at s' nx) = TASK_RUNNING) as Hsnx by (by rewrite Hst, decide_True).
    specialize (Hlnx Hsnx).
    assert (live s nx) as Hlnx0 by (unfold live in *; by destruct Hk as (<- & _)).
    destruct (requeued_inv s q U p nx Hwf Hpp) as [Hsel Hpnx]; [rewrite Eq; set_solver|].
    split; [done|]. split; [done|]. split; [done|]. split.
    + intros t Hl Ht. destruct (Hin t Hl Ht) as [Hpt Hi]. rewrite Hpnx.
      destruct (Z.le_gt_cases p (priority (task_at s t))) as [|Hlt]; [done|].
      rewrite Hmin in Hi by (unfold prio_ok in *; lia). by apply elem_of_nil in Hi.
    + intros t Hl. split; [|by intros ->]. intros Hs. destruct (wf_running _ _ _ _ Hwf' t Hl Hs); [congruence|done].
Qed.

(** Creating a task either fails with -1, because every slot is taken or
    memory is exhausted, leaving every slot and frame as it was; or returns the
    least free slot, which becomes a ready task with the given entry point,
    priority and policy and one fresh frame as its stack base, and no other
    task changes. *)
Theorem task_create_spec s entry nm pol prio aff stack :
  sched_reach s → prio_ok prio →
  ∃ r s' U U', task_create_ex entry nm pol prio aff stack s = Some (r, s') ∧ sched_reach s' ∧
    pa_rep (pmm s) U ∧ pa_rep (pmm s') U' ∧
    ((r = -1 ∧ U' = U ∧ (∀ t, live s' t ↔ live s t) ∧
        ((∀ t, 0 ≤ t < MAX_TASKS → live s t) ∨ all_used U)) ∨
     (0 ≤ r < MAX_TASKS ∧ ¬ live s r ∧ (∀ t, 0 ≤ t < r → live s t) ∧ (∀ t, live s' t ↔ live s t ∨ t = r) ∧
      state (task_at s' r) = TASK_READY ∧ priority (task_at s' r) = prio ∧ policy (task_at s' r) = pol ∧
      eip (task_at s' r) = entry ∧ cpu (task_at s' r) = 0 ∧
      (∃ f, (f ∉ U) ∧ U' = {[f]} ∪ U ∧ stack_base (task_at s' r) = f * PAGE_SIZE) ∧
      ∀ t, t ≠ r → core (task_at s' t) = core (task_at s t))).
Proof.
  intros Hr Hp. destruct (sched_reach_wf s Hr) as (q & U & Hwf).
  destruct (task_create_wf s q U entry nm pol prio aff stack Hwf Hp) as (r & s' & q' & U' & E & Hwf' & Hcase).
  exists r, s', U, U'. split; [done|]. split.
  { eapply (sched_reach_op s (op_create entry nm pol prio aff stack)); [done|exact Hp|]. cbn [run_op]. by rewrite E. }
  split; [apply Hwf|]. split; [apply Hwf'|].
  destruct Hcase as [?|[Hrange [Hdead Hmin] Hlive Hoth (f & Hf & HfU & EU & Hcore)]]; [by left|right].
  pose proof (f_equal eip Hcore) as Heip. pose proof (core_fields _ _ Hcore) as (_ & Hpol & Hprio & _ & Hst & Hcpu & Hsb & _).
  split_and!; [lia|lia|done..| |done]. exists f. done.
Qed.


(** A time slice never rotates tasks of equal priority: a running task that no
    ready task beats is chosen again, however many tasks wait at its priority. *)
Theorem equal_priority_starves s t :
  sched_reach s → scheduler_enabled s = true → preemption_enabled s = true → running s = Some t →
  (∀ t', live s t' → state (task_at s t') = TASK_READY → priority (task_at s t) ≤ priority (task_at s t')) →
  ∃ s', scheduler_schedule s = Some s' ∧ current (rq_at s' 0) = Some t.
Proof.
  intros Hr He Hp Hrun Hmax. destruct (sched_reach_wf s Hr) as (q & U & Hwf).
  pose proof Hrun as [Hcur Hs]%running_Some. destruct (wf_current _ _ _ _ Hwf t Hcur) as [_ Hl]. specialize (Hl Hs).
  destruct (requeued_in s q U t Hwf Hl) as [Hpt Hin]; [by right|].
  destruct (schedule_spec s q U Hwf He Hp)
    as (s' & E & [[Hnone _]|(nx & p & l & Hpp & Eq & Hmin & _ & _ & Hc & _)]).
  { rewrite Hnone in Hin by done. by apply elem_of_nil in Hin. }
  exists s'. split; [done|]. rewrite Hc. f_equal.
  destruct (requeued_inv s q U p nx Hwf Hpp) as [Hsel Hpnx]; [rewrite Eq; set_solver|].
  assert (p ≤ priority (task_at s t)) as Hle.
  { destruct (Z.le_gt_cases p (priority (task_at s t))) as [|Hlt]; [done|].
    rewrite Hmin in Hin by (unfold prio_ok in *; lia). by apply elem_of_nil in Hin. }
  destruct Hsel as [Hready|]; [|congruence].
  assert (priority (task_at s t) = p) as Ep.
  { apply Z.le_antisymm; [|done]. rewrite <-Hpnx. apply Hmax; [|done].
    destruct (wf_current _ _ _ _ Hwf t Hcur). destruct (decide (nx = t)) as [->|]; [done|].
    unfold requeued in Eq. rewrite Hrun in Eq. destruct (decide (priority (task_at s t) = p)) as [Ep|Ep].
    - rewrite Ep, fn_lookup_insert in Eq. congruence.
    - rewrite fn_lookup_insert_ne in Eq by done.
      destruct (wf_queued _ _ _ _ Hwf p nx Hpp) as (? & _); [rewrite Eq; set_solver|done]. }
  unfold requeued in Eq. rewrite Hrun, Ep, fn_lookup_insert in Eq. congruence.
Qed.

End properties.

(** ** Concrete states *)

(** Boot, then two normal tasks and the start of the scheduler. *)
Definition demo_boot : sched (list Z) := default (sched_boot three_free) (scheduler_init (sched_boot three_free)).
Definition demo_step (s : sched (list Z)) (op : sched_op) : sched (list Z) := default s (run_op op s).
Definition demo (ops : list sched_op) : sched (list Z) := foldl demo_step demo_boot ops.

Definition create_normal (prio : Z) : sched_op := op_create 0x1000 None SCHED_NORMAL prio CPU_MASK_ALL 4096.

Lemma demo_boot_reach : sched_reach demo_boot.
Proof.
  apply (sched_reach_init three_free three_free_used); [apply three_free_rep|apply three_free_zero|].
  unfold demo_boot. destruct (scheduler_init_quiet three_free) as (s & -> & _). reflexivity.
Qed.

Lemma demo_step_reach s op : sched_reach s → allowed op s → sched_reach (demo_step s op).
Proof.
  intros Hr Hal. destruct (sched_reach_wf s Hr) as (q & U & Hwf).
  destruct (sched_op_wf s q U op Hwf Hal) as (s' & _ & _ & E & _).
  unfold demo_step. rewrite E. by eapply sched_reach_op.
Qed.

Definition two_tasks : list sched_op := [create_normal 120; create_normal 110; op_start].

Lemma two_tasks_reach : sched_reach (demo two_tasks).
Proof.
  unfold demo, two_tasks. cbn [foldl]. repeat apply demo_step_reach; try done; try apply demo_boot_reach.
Qed.

Lemma sched_reach_safe_witness :
  ∃ s', run_op op_yield (demo two_tasks) = Some s' ∧ sched_reach s'.
Proof. apply (sched_reach_safe (demo two_tasks)); [apply two_tasks_reach|exact I]. Defined.

Lemma schedule_picks_highest_witness :
  ∃ s', scheduler_schedule (demo two_tasks) = Some s' ∧
    ((s' = demo two_tasks ∧ running (demo two_tasks) = None ∧
        ∀ t, live (demo two_tasks) t → state (task_at (demo two_tasks) t) ≠ TASK_READY) ∨
     ∃ nx, current (rq_at s' 0) = Some nx ∧ live s' nx ∧
       (state (task_at (demo two_tasks) nx) = TASK_READY ∨ running (demo two_tasks) = Some nx) ∧
       (∀ t, live (demo two_tasks) t →
             state (task_at (demo two_tasks) t) = TASK_READY ∨ running (demo two_tasks) = Some t →
             priority (task_at (demo two_tasks) nx) ≤ priority (task_at (demo two_tasks) t)) ∧
       (∀ t, live s' t → state (task_at s' t) = TASK_RUNNING ↔ t = nx)).
Proof. apply schedule_picks_highest; [apply two_tasks_reach|vm_compute; reflexivity..]. Defined.

Lemma task_create_witness :
  ∃ r s' U U', task_create_ex 0x2000 (Some "init"%string) SCHED_RR 50 CPU_MASK_ALL 8192 (demo two_tasks) = Some (r, s') ∧
    sched_reach s' ∧ pa_rep (pmm (demo two_tasks)) U ∧ pa_rep (pmm s') U' ∧ (r = -1 ∨ live s' r).
Proof.
  destruct (task_create_spec (demo two_tasks) 0x2000 (Some "init"%string) SCHED_RR 50 CPU_MASK_ALL 8192)
    as (r & s' & U & U' & E & Hr & HU & HU' & Hcase); [apply two_tasks_reach|unfold prio_ok, MAX_NORMAL_PRIORITY; lia|].
  exists r, s', U, U'. split; [exact E|]. split; [exact Hr|]. split; [exact HU|]. split; [exact HU'|].
  destruct Hcase as [[-> _]|(_ & _ & _ & Hl & _)]; [by left|right; apply Hl; by right].
Defined.


(** ** What the unchecked calls do *)

(** A task that blocks while no other task is ready stays current; if it is
    unblocked and blocks again, the second call makes it run instead, still
    queued. *)
Theorem block_again_corrupts :
  let s := demo [create_normal 120; op_start; op_block 1; op_unblock 0; op_block 2] in
  state (task_at s 0) = TASK_RUNNING ∧ blocked_on (task_at s 0) = 2 ∧ (ready_lists (rq_at s 0)).[120] = Some 0.
Proof. vm_compute. split_and!; reflexivity. Qed.

(** Deboosting a queued task leaves it on the list of the boosted priority:
    after it has been scheduled it runs and is still queued. *)
Theorem deboost_corrupts :
  let s := demo [create_normal 120; create_normal 130; op_pi_boost 1 10; op_pi_deboost 1; op_start] in
  state (task_at s 1) = TASK_RUNNING ∧ (ready_lists (rq_at s 0)).[10] = Some 1.
Proof. vm_compute. split; reflexivity. Qed.

(** A task of the default stack size gets one frame, but its stack pointer
    starts three frames above it. *)
Theorem stack_overruns_frame :
  let s := demo [op_create 0x1000 None SCHED_NORMAL 120 CPU_MASK_ALL DEFAULT_STACK_SIZE] in
  stack_base (task_at s 0) = 600 * PAGE_SIZE ∧ (esp (task_at s 0) - 4) / PAGE_SIZE = 603.
Proof. vm_compute. split; reflexivity. Qed.
