(* ===== verification/Cfs.v ===== *)
(** * The completely fair scheduler (kernel/task/cfs.c)

    The run queue: a binary search tree of tasks by virtual runtime, threaded
    through the tasks, the cached leftmost node and the accounting; and the
    virtual clock with its division routine.

    A task is known by its address and [run_node] is its first field, so that the
    conversions between the two pointers are the identity.  [link] is the
    [struct rb_node **] of the insertion loop: the place it points to.  The loops
    have the number of tasks as fuel; a result [None] is that the fuel does not
    suffice, as in a tree with a cycle.  [exec_start] is not used by the code. *)

From S2P Require Import Prelude Bytes.

Definition NICE_0_LOAD : Z := 1024.

Definition prio_to_weight : list Z :=
  [88761; 71755; 56483; 46273; 36291; 29154; 23254; 18705; 14949; 11916;
   9548; 7620; 6100; 4904; 3906; 3121; 2501; 1991; 1586; 1277;
   1024; 820; 655; 526; 423; 335; 272; 215; 172; 137;
   110; 87; 70; 56; 45; 36; 29; 23; 18; 15].

Record cfs_task := mk_cfs_task {
  left : ptr;
  right : ptr;
  parent : ptr;
  color : Z;
  vruntime : Z;
  sum_exec_runtime : Z;
  load_weight : Z;
  on_rq : bool;
}.
#[export] Instance eta_cfs_task : Eta cfs_task := fun t =>
  mk_cfs_task (left t) (right t) (parent t) (color t) (vruntime t) (sum_exec_runtime t) (load_weight t) (on_rq t).
#[export] Instance zeroed_cfs_task : Zeroed cfs_task := mk_cfs_task None None None 0 0 0 0 false.

Record cfs_rq := mk_cfs_rq {
  tasks_timeline : ptr;
  rb_leftmost_cached : ptr;
  min_vruntime : Z;
  rq_load_weight : Z;
  nr_running : Z;
  rq_lock : Z;
}.
#[export] Instance eta_cfs_rq : Eta cfs_rq := fun q =>
  mk_cfs_rq (tasks_timeline q) (rb_leftmost_cached q) (min_vruntime q) (rq_load_weight q) (nr_running q) (rq_lock q).

Record cfs_state := mk_cfs {
  cfs_tasks : gmap Z cfs_task;
  rq : cfs_rq;
}.
#[export] Instance eta_cfs : Eta cfs_state := fun s => mk_cfs (cfs_tasks s) (rq s).

Definition ctask_at (s : cfs_state) (a : Z) : cfs_task := (cfs_tasks s).[a].
Definition upd_ctask (a : Z) (f : cfs_task → cfs_task) (s : cfs_state) : cfs_state := s⟦cfs_tasks ::= fun m => amod m a f⟧.

(** ** The tree *)

Definition rb_init (s : cfs_state) : cfs_state := s⟦rq ::= fun q => q⟦tasks_timeline := None⟧⟧.

(** [while (node->left) node = node->left;] *)
Fixpoint go_left (fuel : nat) (node : Z) (s : cfs_state) : option Z :=
  match left (ctask_at s node) with
  | None => Some node
  | Some l => match fuel with O => None | S fuel' => go_left fuel' l s end
  end.

Definition rb_leftmost (fuel : nat) (s : cfs_state) : option ptr :=
  match tasks_timeline (rq s) with
  | None => Some None
  | Some node => n ← go_left fuel node s; Some (Some n)
  end.

Inductive link := link_root | link_left (p : Z) | link_right (p : Z).

Definition load_link (s : cfs_state) (lk : link) : ptr :=
  match lk with
  | link_root => tasks_timeline (rq s)
  | link_left p => left (ctask_at s p)
  | link_right p => right (ctask_at s p)
  end.

Definition store_link (lk : link) (v : ptr) (s : cfs_state) : cfs_state :=
  match lk with
  | link_root => s⟦rq ::= fun q => q⟦tasks_timeline := v⟧⟧
  | link_left p => upd_ctask p (fun t => t⟦left := v⟧) s
  | link_right p => upd_ctask p (fun t => t⟦right := v⟧) s
  end.

(** The search for the insertion point. *)
Fixpoint rb_descend (fuel : nat) (s : cfs_state) (key : Z) (lk : link) (par : ptr) : option (link * ptr) :=
  match load_link s lk with
  | None => Some (lk, par)
  | Some p =>
      match fuel with
      | O => None
      | S fuel' => rb_descend fuel' s key (if key <? vruntime (ctask_at s p) then link_left p else link_right p) (Some p)
      end
  end.

Definition rb_insert (fuel : nat) (node key : Z) (s : cfs_state) : option cfs_state :=
  '(lk, par) ← rb_descend fuel s key link_root None;
  Some (store_link lk (Some node) (upd_ctask node (fun t => t⟦parent := par⟧⟦left := None⟧⟦right := None⟧⟦color := 1⟧) s)).

(** [rb_erase] is an empty placeholder. *)
Definition rb_erase (node : Z) (s : cfs_state) : cfs_state := s.

(** ** The run queue *)

Definition cfs_rq_init (s : cfs_state) : cfs_state :=
  (rb_init s)⟦rq ::= fun q => q⟦rb_leftmost_cached := None⟧⟦min_vruntime := 0⟧⟦rq_load_weight := 0⟧⟦nr_running := 0⟧⟦rq_lock := 0⟧⟧.

Definition cfs_init (s : cfs_state) : cfs_state := cfs_rq_init s.

Definition cfs_enqueue_task (fuel : nat) (a : Z) (s : cfs_state) : option cfs_state :=
  let t := ctask_at s a in
  if on_rq t then Some s
  else
    s ← rb_insert fuel a (vruntime t) s;
    lm ← rb_leftmost fuel s;
    let s := s⟦rq ::= fun q => q⟦rb_leftmost_cached := lm⟧⟦rq_load_weight ::= fun w => u64 (w + load_weight t)⟧
                                ⟦nr_running ::= fun n => u32 (n + 1)⟧⟧ in
    Some (upd_ctask a (fun t => t⟦on_rq := true⟧) s).

Definition cfs_dequeue_task (fuel : nat) (a : Z) (s : cfs_state) : option cfs_state :=
  let t := ctask_at s a in
  if negb (on_rq t) then Some s
  else
    let s := rb_erase a s in
    lm ← rb_leftmost fuel s;
    let s := s⟦rq ::= fun q => q⟦rb_leftmost_cached := lm⟧⟦rq_load_weight ::= fun w => u64 (w - load_weight t)⟧
                                ⟦nr_running ::= fun n => u32 (n - 1)⟧⟧ in
    Some (upd_ctask a (fun t => t⟦on_rq := false⟧) s).

Definition cfs_pick_next_task (s : cfs_state) : ptr := rb_leftmost_cached (rq s).

(** ** The virtual clock *)

(** [for (int i = 63; i >= 0; i--)]: the iterations from [i = n - 1] down. *)
Fixpoint div_loop (n : nat) (divisor result remainder : Z) : Z :=
  match n with
  | O => result
  | S i =>
      let result := u64 (result <<: 1) in
      let v := u64 (divisor <<: Z.of_nat i) in
      if v <=? remainder then div_loop i divisor (result |: 1) (u64 (remainder - v))
      else div_loop i divisor result remainder
  end.

Definition div64 (dividend divisor : Z) : Z :=
  if divisor =? 0 then 0 else div_loop 64 divisor 0 dividend.

Definition cfs_calc_vruntime (t : cfs_task) (delta_exec : Z) : Z :=
  u64 (vruntime t + div64 (u64 (delta_exec * NICE_0_LOAD)) (load_weight t)).

Definition cfs_update_curr (a delta_exec : Z) (s : cfs_state) : cfs_state :=
  let s := upd_ctask a (fun t => t⟦sum_exec_runtime ::= fun x => u64 (x + delta_exec)⟧) s in
  let v := cfs_calc_vruntime (ctask_at s a) delta_exec in
  let s := upd_ctask a (fun t => t⟦vruntime := v⟧) s in
  if min_vruntime (rq s) <? v then s⟦rq ::= fun q => q⟦min_vruntime := v⟧⟧ else s.

(** [cfs_load_balance] is an empty placeholder. *)
Definition cfs_load_balance (cpu : Z) (s : cfs_state) : cfs_state := s.

(** * Properties *)

(** ** Division *)

Lemma double r : 0 ≤ r → 2 * r < 2 ^ 64 → u64 (r <<: 1) = 2 * r ∧ u64 (r <<: 1) |: 1 = 2 * r + 1.
Proof.
  intros Hr Hb. assert (r <<: 1 = 2 * r) as E by (rewrite Z.shiftl_mul_pow2; lia).
  rewrite u64_small by lia. split; [done|]. rewrite Z.lor_comm, lor_shiftl_add by lia. lia.
Qed.

Section division.
Context (d : Z) (Hd : 0 < d).

(** The iterations whose shifted divisor is 0: each sets a bit. *)
Lemma div_ones m n res rem : 0 ≤ rem < 2 ^ 64 → 0 ≤ res → (res + 1) * 2 ^ Z.of_nat m ≤ 2 ^ 64 →
  (∀ i, (n ≤ i < m + n)%nat → u64 (d <<: Z.of_nat i) = 0) →
  div_loop (m + n) d res rem = div_loop n d ((res + 1) * 2 ^ Z.of_nat m - 1) rem.
Proof.
  intros Hrem. revert res. induction m as [|m IH]; intros res Hr Hb Hz.
  { cbn [Nat.add]. f_equal. lia. }
  rewrite Nat2Z.inj_succ, Z.pow_succ_r in * by lia. cbn [Nat.add div_loop]. rewrite Hz by lia.
  case_Z (0 <=? rem); [|lia]. assert (0 < 2 ^ Z.of_nat m) by lia.
  destruct (double res) as [_ ->]; [lia|nia|]. rewrite Z.sub_0_r, u64_small by lia.
  rewrite IH; [f_equal; lia|lia|lia|]. intros i Hi. apply Hz. lia.
Qed.

(** The iterations whose shifted divisor is too large. *)
Lemma div_skip m n res rem : 0 ≤ res → res * 2 ^ Z.of_nat m < 2 ^ 64 →
  (∀ i, (n ≤ i < m + n)%nat → rem < u64 (d <<: Z.of_nat i)) →
  div_loop (m + n) d res rem = div_loop n d (res * 2 ^ Z.of_nat m) rem.
Proof.
  revert res. induction m as [|m IH]; intros res Hr Hb Hz.
  { cbn [Nat.add]. f_equal. lia. }
  rewrite Nat2Z.inj_succ, Z.pow_succ_r in * by lia. cbn [Nat.add div_loop].
  specialize (Hz (m + n)%nat ltac:(lia)) as Hm. case_Z (u64 (d <<: Z.of_nat (m + n)) <=? rem); [lia|].
  assert (0 < 2 ^ Z.of_nat m) by lia. destruct (double res) as [-> _]; [lia|nia|].
  rewrite IH; [f_equal; lia|lia|lia|]. intros i Hi. apply Hz. lia.
Qed.

(** The remaining iterations are long division. *)
Lemma div_low n res rem : 0 ≤ rem < d * 2 ^ Z.of_nat n → d * 2 ^ Z.of_nat n ≤ 2 ^ 65 → d * 2 ^ (Z.of_nat n - 1) < 2 ^ 64 → rem < 2 ^ 64 →
  0 ≤ res → (res + 1) * 2 ^ Z.of_nat n ≤ 2 ^ 64 → div_loop n d res rem = res * 2 ^ Z.of_nat n + rem / d.
Proof.
  revert res rem. induction n as [|n IH]; intros res rem Hrem H1 H2 H3 Hr Hb.
  { cbn [div_loop]. rewrite Z.div_small by lia. lia. }
  rewrite Nat2Z.inj_succ, Z.pow_succ_r in * by lia. cbn [div_loop]. replace (Z.succ (Z.of_nat n) - 1) with (Z.of_nat n) in H2 by lia.
  assert (0 < 2 ^ Z.of_nat n) by lia. set (w := 2 ^ Z.of_nat n) in *.
  assert (u64 (d <<: Z.of_nat n) = d * w) as -> by (rewrite Z.shiftl_mul_pow2 by lia; apply u64_small; nia).
  destruct (double res) as [E1 E2]; [lia|nia|]. rewrite E2, E1.
  assert (d * 2 ^ (Z.of_nat n - 1) < 2 ^ 64).
  { destruct n; [cbn; lia|]. assert (2 ^ (Z.of_nat (S n) - 1) ≤ w) by (apply Z.pow_le_mono_r; lia). nia. }
  case_Z (d * w <=? rem).
  - rewrite u64_small by lia. rewrite IH; fold w; try nia.
    replace rem with (rem - d * w + w * d) at 2 by lia. rewrite Z.div_add by lia. lia.
  - rewrite IH; fold w; try nia.
Qed.
End division.

(** The divisors of the code: [2 ^ j] times an odd number, below [2 ^ k]. *)
Record divisor_shape (d : Z) (j k : nat) (o : Z) : Prop := {
  ds_eq : d = 2 ^ Z.of_nat j * o;
  ds_odd : Z.odd o = true;
  ds_pos : 0 < o;
  ds_max : d < 2 ^ Z.of_nat k;
  ds_k : (k ≤ 63)%nat;
}.

Lemma shape_lt d j k o : divisor_shape d j k o → (j < k)%nat.
Proof.
  intros []. subst d. destruct (decide (j < k)%nat); [done|]. exfalso.
  assert (2 ^ Z.of_nat k ≤ 2 ^ Z.of_nat j) by (apply Z.pow_le_mono_r; lia). nia.
Qed.

(** The shifted divisor loses its high bits: all of them, or it stays large. *)
Lemma shape_zero d j k o i : divisor_shape d j k o → (64 - j ≤ i)%nat → u64 (d <<: Z.of_nat i) = 0.
Proof.
  intros Hs Hi. pose proof (shape_lt _ _ _ _ Hs). destruct Hs. subst d. rewrite Z.shiftl_mul_pow2 by lia. unfold u64.
  replace (2 ^ Z.of_nat j * o * 2 ^ Z.of_nat i) with (o * 2 ^ (Z.of_nat j + Z.of_nat i - 64) * 2 ^ 64); [apply Z.mod_mul; lia|].
  rewrite <-Z.mul_assoc, <-Z.pow_add_r by lia. replace (Z.of_nat j + Z.of_nat i - 64 + 64) with (Z.of_nat j + Z.of_nat i) by lia.
  rewrite Z.pow_add_r by lia. lia.
Qed.

Lemma shape_large d j k o i : divisor_shape d j k o → (i < 64 - j)%nat → 2 ^ Z.of_nat i ≤ u64 (d <<: Z.of_nat i).
Proof.
  intros Hs Hi. pose proof (shape_lt _ _ _ _ Hs). destruct Hs. subst d. rewrite Z.shiftl_mul_pow2 by lia. unfold u64.
  set (e := Z.of_nat j + Z.of_nat i). replace (2 ^ Z.of_nat j * o * 2 ^ Z.of_nat i) with (2 ^ e * o)
    by (unfold e; rewrite Z.pow_add_r by lia; lia).
  replace (2 ^ 64) with (2 ^ e * 2 ^ (64 - e)) by (rewrite <-Z.pow_add_r by lia; f_equal; lia).
  rewrite Z.mul_mod_distr_l by lia. assert (2 ^ Z.of_nat i ≤ 2 ^ e) by (apply Z.pow_le_mono_r; lia).
  assert (1 ≤ o mod 2 ^ (64 - e)); [|nia].
  pose proof (Z.mod_pos_bound o (2 ^ (64 - e)) ltac:(lia)). destruct (decide (o mod 2 ^ (64 - e) = 0)) as [E|]; [|lia].
  exfalso. apply Z.mod_divide in E as [q E]; [|lia].
  replace (64 - e) with (1 + (63 - e)) in E by lia. rewrite Z.pow_add_r in E by lia.
  rewrite E, Z.odd_mul, Z.odd_mul in ds_odd0. cbn in ds_odd0. by rewrite andb_false_r in ds_odd0.
Qed.

Lemma div64_ok x d j k o : divisor_shape d j k o → 0 ≤ x < 2 ^ (64 - Z.of_nat k) →
  div64 x d = x / d + (2 ^ 64 - 2 ^ (64 - Z.of_nat j)).
Proof.
  intros Hs Hx. pose proof (shape_lt _ _ _ _ Hs) as Hjk. pose proof Hs as []. assert (0 < 2 ^ Z.of_nat j) by lia.
  assert (0 < d) as Hd by nia. unfold div64. case_Z (d =? 0); [lia|].
  assert (2 ^ (64 - Z.of_nat k) ≤ 2 ^ 64) by (apply Z.pow_le_mono_r; lia).
  replace 64%nat with (j + ((k - 1 - j) + (65 - k)))%nat by lia.
  assert (2 ^ 64 = 2 ^ Z.of_nat j * 2 ^ Z.of_nat (k - 1 - j) * 2 ^ Z.of_nat (65 - k)) as E64
    by (rewrite <-!Z.pow_add_r by lia; f_equal; lia).
  assert (2 ^ (64 - Z.of_nat j) = 2 ^ Z.of_nat (k - 1 - j) * 2 ^ Z.of_nat (65 - k)) as Ej
    by (rewrite <-Z.pow_add_r by lia; f_equal; lia).
  assert (2 ^ (64 - Z.of_nat k) * 2 = 2 ^ Z.of_nat (65 - k)) as Ek
    by (rewrite Z.mul_comm, <-(Z.pow_1_r 2) at 1; rewrite <-Z.pow_add_r by lia; f_equal; lia).
  assert (2 ^ Z.of_nat k * 2 ^ (64 - Z.of_nat k) = 2 ^ 64) as Ekk by (rewrite <-Z.pow_add_r by lia; f_equal; lia).
  assert (0 < 2 ^ Z.of_nat (k - 1 - j) ∧ 0 < 2 ^ Z.of_nat (65 - k) ∧ 0 < 2 ^ (64 - Z.of_nat k)) as (P1 & P2 & P3) by lia.
  rewrite div_ones; [|lia|lia|nia|intros i Hi; eapply shape_zero; [done|lia]].
  rewrite div_skip; [|lia|nia|].
  2: { intros i Hi. eapply Z.lt_le_trans; [apply Hx|]. etrans; [|eapply shape_large; [done|lia]]. apply Z.pow_le_mono_r; lia. }
  rewrite div_low; [|lia|nia|nia| |lia|nia|nia].
  - rewrite Z.mul_1_l, E64, Ej. lia.
  - replace (Z.of_nat (65 - k) - 1) with (64 - Z.of_nat k) by lia. nia.
Qed.

Lemma ctask_at_upd a f s b : ctask_at (upd_ctask a f s) b = if decide (a = b) then f (ctask_at s a) else ctask_at s b.
Proof. apply aget_amod. Qed.

(** A task with an odd weight is charged its time scaled by 1024 over its weight,
    and no other task is touched. *)
Theorem cfs_update_curr_spec a delta k s :
  let t := ctask_at s a in let s' := cfs_update_curr a delta s in
  Z.odd (load_weight t) = true → 0 < load_weight t < 2 ^ Z.of_nat k → (k ≤ 32)%nat →
  0 ≤ delta → delta * 1024 < 2 ^ (64 - Z.of_nat k) →
  vruntime (ctask_at s' a) = u64 (vruntime t + delta * 1024 / load_weight t) ∧
  sum_exec_runtime (ctask_at s' a) = u64 (sum_exec_runtime t + delta) ∧
  (∀ b, b ≠ a → ctask_at s' b = ctask_at s b).
Proof.
  cbv zeta. intros Ho Hw Hk Hd Hx. unfold cfs_update_curr. set (s1 := upd_ctask a _ s).
  assert (ctask_at s1 a = (ctask_at s a)⟦sum_exec_runtime ::= fun x => u64 (x + delta)⟧) as E1
    by (unfold s1; rewrite ctask_at_upd; by rewrite decide_True).
  set (v := cfs_calc_vruntime _ _).
  assert (v = u64 (vruntime (ctask_at s a) + delta * 1024 / load_weight (ctask_at s a))) as Hv.
  { unfold v, cfs_calc_vruntime. rewrite E1. cbn. unfold NICE_0_LOAD.
    assert (2 ^ (64 - Z.of_nat k) ≤ 2 ^ 64) by (apply Z.pow_le_mono_r; lia). rewrite (u64_small (delta * 1024)) by lia.
    rewrite (div64_ok _ _ 0 k (load_weight (ctask_at s a))); [|split; lia || done|lia].
    change (2 ^ 64 - 2 ^ (64 - Z.of_nat 0)) with 0. by rewrite Z.add_0_r. }
  clearbody v. rewrite <-Hv. set (s2 := upd_ctask a _ s1).
  assert (∀ b, ctask_at (if min_vruntime (rq s2) <? v then s2⟦rq ::= fun q => q⟦min_vruntime := v⟧⟧ else s2) b = ctask_at s2 b)
    as E2 by (intros b; by destruct (_ <? v)).
  rewrite !E2. unfold s2. rewrite !ctask_at_upd, !decide_True by done. rewrite E1. split; [done|]. split; [done|].
  intros b Hb. rewrite E2. unfold s2, s1. by rewrite !ctask_at_upd, !decide_False.
Qed.

Lemma cfs_update_curr_witness :
  vruntime (ctask_at (cfs_update_curr 7 3000 (mk_cfs {[7 := (zero : cfs_task)⟦load_weight := 335⟧]} (mk_cfs_rq None None 0 0 0 0))) 7)
  = 9170.
Proof.
  etrans; [apply (cfs_update_curr_spec 7 3000 9); [reflexivity|split; reflexivity|lia|lia|reflexivity]|reflexivity].
Defined.

(** A task with the weight of nice 0 is thrown back by 2^54: its divisor loses
    its ten factors of two in the ten highest shifts, and ten high bits of the
    quotient are set. *)
Theorem cfs_nice_0_thrown_back t delta :
  load_weight t = 1024 → 0 ≤ delta → delta * 1024 < 2 ^ 53 →
  cfs_calc_vruntime t delta = u64 (vruntime t + delta - 2 ^ 54).
Proof.
  intros Hw Hd Hx. unfold cfs_calc_vruntime, NICE_0_LOAD. rewrite Hw, (u64_small (delta * 1024)) by lia.
  rewrite (div64_ok _ 1024 10 11 1); [|split; done || lia|cbn; lia]. rewrite Z.div_mul by lia.
  change (2 ^ (64 - Z.of_nat 10)) with (2 ^ 54). unfold u64.
  replace (vruntime t + (delta + (2 ^ 64 - 2 ^ 54))) with (vruntime t + delta - 2 ^ 54 + 1 * 2 ^ 64) by lia.
  by rewrite Z.mod_add.
Qed.

(** ** The tree of tasks *)

Inductive tree := Leaf | Node (l : tree) (a : Z) (r : tree).

Fixpoint nodes (t : tree) : list Z :=
  match t with
  | Leaf => []
  | Node l a r => nodes l ++ a :: nodes r
  end.

(** The tree that hangs from a pointer. *)
Fixpoint rep (s : cfs_state) (p : ptr) (t : tree) : Prop :=
  match t with
  | Leaf => p = None
  | Node l a r => p = Some a ∧ rep s (left (ctask_at s a)) l ∧ rep s (right (ctask_at s a)) r
  end.

(** Insertion behind the tasks with the same key. *)
Fixpoint tree_insert (key : Z → Z) (a : Z) (t : tree) : tree :=
  match t with
  | Leaf => Node Leaf a Leaf
  | Node l b r => if key a <? key b then Node (tree_insert key a l) b r else Node l b (tree_insert key a r)
  end.

Definition vr (s : cfs_state) (a : Z) : Z := vruntime (ctask_at s a).
Definition children (s : cfs_state) (a : Z) : ptr * ptr := (left (ctask_at s a), right (ctask_at s a)).

Lemma rep_frame s s' p t : rep s p t → (∀ a, a ∈ nodes t → children s' a = children s a) → rep s' p t.
Proof.
  revert p. induction t as [|l IHl a r IHr]; intros p Hrep Hc; [done|]. destruct Hrep as (-> & Hl & Hr).
  cbn [nodes] in Hc. pose proof (Hc a ltac:(set_solver)) as E. injection E as El Er. split; [done|]. rewrite El, Er.
  split; [apply IHl|apply IHr]; [done| |done|]; intros b Hb; apply Hc; set_solver.
Qed.

Lemma nodes_insert key a t : nodes (tree_insert key a t) ≡ₚ a :: nodes t.
Proof.
  induction t as [|l IHl b r IHr]; [done|]. cbn [tree_insert]. destruct (key a <? key b); cbn [nodes].
  - by rewrite IHl.
  - rewrite IHr. solve_Permutation.
Qed.

(** The node whose field a link is. *)
Definition owner (lk : link) : list Z :=
  match lk with link_root => [] | link_left p | link_right p => [p] end.

(** [s'] is [s] with node [a] put at [lk]. *)
Definition placed (lk : link) (a : Z) (s s' : cfs_state) : Prop :=
  load_link s' lk = Some a ∧ children s' a = (None, None) ∧ (∀ lk', lk' ≠ lk → a ∉ owner lk' → load_link s' lk' = load_link s lk').

Lemma placed_children lk a s s' b : placed lk a s s' → b ≠ a → b ∉ owner lk → children s' b = children s b.
Proof.
  intros (_ & _ & Hp) Hb Ho. unfold children.
  pose proof (Hp (link_left b)) as Hl. pose proof (Hp (link_right b)) as Hr. cbn in Hl, Hr.
  rewrite Hl, Hr; try done; try set_solver; intros <-; cbn in Ho; set_solver.
Qed.

Lemma rep_elsewhere lk a s s' p t :
  rep s p t → placed lk a s s' → a ∉ nodes t → (∀ b, b ∈ owner lk → b ∉ nodes t) → rep s' p t.
Proof.
  intros Hrep Hp Ha Ho. apply (rep_frame s); [done|]. intros b Hb. apply (placed_children lk a); [done|set_solver|].
  intros Hin. by apply (Ho b).
Qed.

Lemma load_elsewhere lk lk' a s s' : placed lk' a s s' → lk ≠ lk' → a ∉ owner lk → load_link s' lk = load_link s lk.
Proof. intros (_ & _ & Hp) Hne Ha. by apply Hp. Qed.

(** The search ends at the place where the specification inserts. *)
Lemma rb_descend_ok s a t lk par fuel :
  rep s (load_link s lk) t → NoDup (nodes t) → (∀ b, b ∈ owner lk → b ∉ nodes t) → a ∉ nodes t → a ∉ owner lk →
  (length (nodes t) ≤ fuel)%nat →
  ∃ lk' par', rb_descend fuel s (vr s a) lk par = Some (lk', par') ∧
    (lk' = lk ∨ (∃ b, b ∈ nodes t ∧ owner lk' = [b])) ∧ (a ∉ owner lk') ∧
    ∀ s', placed lk' a s s' → rep s' (load_link s' lk) (tree_insert (vr s) a t).
Proof.
  revert lk par fuel. induction t as [|l IHl p r IHr]; intros lk par fuel Hrep Hnd Hown Ha Halk Hfuel.
  { cbn in Hrep. exists lk, par. split; [destruct fuel; cbn; by rewrite Hrep|]. split; [by left|]. split; [done|].
    intros s' (Hp & Hc & _). cbn [tree_insert rep]. rewrite Hp. injection Hc as -> ->. done. }
  destruct Hrep as (Hp & Hl & Hr). cbn [nodes] in *. rewrite length_app in Hfuel. cbn [length] in Hfuel.
  apply NoDup_app in Hnd as (Hndl & Hdis & [Hpr Hndr]%NoDup_cons).
  destruct fuel as [|fuel]; [lia|]. cbn [rb_descend tree_insert]. rewrite Hp. fold (vr s p).
  destruct (vr s a <? vr s p).
  - destruct (IHl (link_left p) (Some p) fuel) as (lk' & par' & Hd & Hlk & Halk' & Hs'); [done|done| |set_solver|set_solver|lia|].
    { intros b. cbn [owner]. set_solver. }
    assert (∃ b, b ∈ p :: nodes l ∧ owner lk' = [b]) as (b & Hb & Hob)
      by (destruct Hlk as [->|(b & ? & ?)]; [exists p|exists b]; set_solver).
    exists lk', par'. split; [done|]. split; [right; exists b; set_solver|]. split; [done|]. intros s' Hpl. cbn [rep].
    split; [rewrite (load_elsewhere _ _ _ _ _ Hpl); [done| |done]|split; [by apply Hs'|]].
    { intros ->. apply (Hown b); rewrite ?Hob; set_solver. }
    change (right (ctask_at s' p)) with (load_link s' (link_right p)). rewrite (load_elsewhere _ _ _ _ _ Hpl); [|intros <-|cbn; set_solver].
    + apply (rep_elsewhere _ _ _ _ _ _ Hr Hpl); [set_solver|]. rewrite Hob. set_solver.
    + destruct Hlk as [|(b' & Hb' & Hob')]; [done|]. cbn in Hob'. injection Hob' as <-. set_solver.
  - destruct (IHr (link_right p) (Some p) fuel) as (lk' & par' & Hd & Hlk & Halk' & Hs'); [done|done| |set_solver|set_solver|lia|].
    { intros b. cbn [owner]. set_solver. }
    assert (∃ b, b ∈ p :: nodes r ∧ owner lk' = [b]) as (b & Hb & Hob)
      by (destruct Hlk as [->|(b & ? & ?)]; [exists p|exists b]; set_solver).
    exists lk', par'. split; [done|]. split; [right; exists b; set_solver|]. split; [done|]. intros s' Hpl. cbn [rep].
    split; [rewrite (load_elsewhere _ _ _ _ _ Hpl); [done| |done]|split; [|by apply Hs']].
    { intros ->. apply (Hown b); rewrite ?Hob; set_solver. }
    change (left (ctask_at s' p)) with (load_link s' (link_left p)). rewrite (load_elsewhere _ _ _ _ _ Hpl); [|intros <-|cbn; set_solver].
    + apply (rep_elsewhere _ _ _ _ _ _ Hl Hpl); [set_solver|]. rewrite Hob. set_solver.
    + destruct Hlk as [|(b' & Hb' & Hob')]; [done|]. cbn in Hob'. injection Hob' as <-. set_solver.
Qed.

(** Sorted by virtual runtime. *)
Fixpoint ordered (key : Z → Z) (t : tree) : Prop :=
  match t with
  | Leaf => True
  | Node l a r => ordered key l ∧ ordered key r ∧ Forall (fun b => key b ≤ key a) (nodes l) ∧ Forall (fun b => key a ≤ key b) (nodes r)
  end.

Lemma ordered_insert key a t : ordered key t → ordered key (tree_insert key a t).
Proof.
  induction t as [|l IHl b r IHr]; [done|]. intros (Hl & Hr & Hfl & Hfr). cbn [tree_insert].
  case_Z (key a <? key b); cbn [ordered]; split_and!; auto; rewrite nodes_insert; constructor; (lia || done).
Qed.

Lemma ordered_ext key key' t : (∀ a, a ∈ nodes t → key' a = key a) → ordered key t → ordered key' t.
Proof.
  induction t as [|l IHl b r IHr]; intros He; [done|]. cbn [nodes] in He. intros (Hl & Hr & Hfl & Hfr). cbn [ordered].
  rewrite Forall_forall in Hfl, Hfr. split; [apply IHl; [|done]; intros x Hx; apply He; set_solver|].
  split; [apply IHr; [|done]; intros x Hx; apply He; set_solver|].
  rewrite !Forall_forall. split; intros x Hx; rewrite !He by set_solver; auto.
Qed.

Fixpoint leftmost (t : tree) : ptr :=
  match t with
  | Leaf => None
  | Node Leaf a _ => Some a
  | Node l _ _ => leftmost l
  end.

Lemma leftmost_min key t a : ordered key t → leftmost t = Some a → a ∈ nodes t ∧ ∀ b, b ∈ nodes t → key a ≤ key b.
Proof.
  induction t as [|l IHl b r _]; [done|]. intros (Hl & Hr & Hfl & Hfr). rewrite Forall_forall in Hfl, Hfr.
  destruct l as [|l1 c l2].
  - intros [= <-]. cbn [nodes app]. split; [set_solver|]. intros x [->|Hx]%elem_of_cons; [lia|]. by apply Hfr.
  - intros Hlm. destruct (IHl Hl Hlm) as [Hin Hmin]. set (t := Node l1 c l2) in *. cbn [nodes]. split; [set_solver|].
    intros x [Hx|[->|Hx]%elem_of_cons]%elem_of_app; [by apply Hmin|by apply Hfl|].
    etrans; [by apply Hfl|]. by apply Hfr.
Qed.

Lemma leftmost_None t : leftmost t = None ↔ nodes t = [].
Proof.
  induction t as [|l IHl b r _]; [done|]. destruct l as [|l1 c l2]; [done|]. set (t := Node l1 c l2) in *.
  cbn [nodes leftmost]. change (leftmost t = None ↔ nodes t ++ b :: nodes r = []). rewrite IHl. split.
  - intros E. unfold t in E. cbn in E. by destruct (nodes l1).
  - intros E. by destruct (nodes t).
Qed.

Lemma go_left_ok s fuel t a p : rep s (Some a) t → leftmost t = Some p → (length (nodes t) ≤ fuel)%nat → go_left fuel a s = Some p.
Proof.
  revert fuel a. induction t as [|l IHl b r _]; intros fuel a Hrep Hlm Hf; [done|]. destruct Hrep as (Hab & Hl & Hr).
  injection Hab as <-. destruct l as [|l1 c l2].
  - injection Hlm as <-. cbn in Hl. destruct fuel; cbn; by rewrite Hl.
  - pose proof Hl as (El & _). cbn [nodes] in Hf. rewrite length_app in Hf. cbn [length] in Hf.
    destruct fuel as [|fuel]; [lia|]. cbn [go_left]. rewrite El. rewrite El in Hl. apply IHl; [done|done|cbn [nodes]; lia].
Qed.

Lemma rb_leftmost_ok s fuel t : rep s (tasks_timeline (rq s)) t → (length (nodes t) ≤ fuel)%nat → rb_leftmost fuel s = Some (leftmost t).
Proof.
  intros Hrep Hf. unfold rb_leftmost. destruct (tasks_timeline (rq s)) as [a|] eqn:E; [|by destruct t; [|destruct Hrep]].
  destruct (leftmost t) as [p|] eqn:Hlm; [by rewrite (go_left_ok s fuel t a p)|].
  apply leftmost_None in Hlm. destruct t as [|l b r]; [done|]. cbn in Hlm. by destruct (nodes l).
Qed.

(** The run queue of the specification: the queued tasks, in some order. *)
Record cfs_inv (s : cfs_state) (queue : list Z) : Prop := {
  ci_tree : ∃ t, rep s (tasks_timeline (rq s)) t ∧ ordered (vr s) t ∧ nodes t ≡ₚ queue ∧ rb_leftmost_cached (rq s) = leftmost t;
  ci_nodup : NoDup queue;
  ci_on_rq a : on_rq (ctask_at s a) = true ↔ a ∈ queue;
  ci_count : nr_running (rq s) = u32 (Z.of_nat (length queue));
  ci_load : rq_load_weight (rq s) = u64 (foldr (fun a w => load_weight (ctask_at s a) + w) 0 queue);
}.

Lemma cfs_rq_init_inv s : (∀ a, on_rq (ctask_at s a) = false) → cfs_inv (cfs_rq_init s) [].
Proof.
  intros Hoff. split; [by exists Leaf|constructor| |done|done]. intros a.
  change (ctask_at (cfs_rq_init s) a) with (ctask_at s a). rewrite Hoff. set_solver.
Qed.

Lemma ctask_at_store lk v s b :
  ctask_at (store_link lk v s) b =
  match lk with
  | link_root => ctask_at s b
  | link_left p => if decide (p = b) then (ctask_at s b)⟦left := v⟧ else ctask_at s b
  | link_right p => if decide (p = b) then (ctask_at s b)⟦right := v⟧ else ctask_at s b
  end.
Proof. destruct lk; [done|..]; cbn [store_link]; rewrite ctask_at_upd; by destruct (decide _) as [->|]. Qed.

(** What linking a node in does to the state. *)
Lemma store_link_placed lk a s par : a ∉ owner lk →
  let s' := store_link lk (Some a) (upd_ctask a (fun t => t⟦parent := par⟧⟦left := None⟧⟦right := None⟧⟦color := 1⟧) s) in
  placed lk a s s' ∧
  ∀ b, vruntime (ctask_at s' b) = vruntime (ctask_at s b) ∧ load_weight (ctask_at s' b) = load_weight (ctask_at s b) ∧
       on_rq (ctask_at s' b) = on_rq (ctask_at s b).
Proof.
  intros Ha. cbv zeta. set (s1 := upd_ctask a _ s).
  assert (∀ b, ctask_at s1 b = if decide (a = b) then (ctask_at s a)⟦parent := par⟧⟦left := None⟧⟦right := None⟧⟦color := 1⟧
                              else ctask_at s b) as E1 by (intros b; apply ctask_at_upd).
  assert (rq s1 = rq s) as Erq by done. clearbody s1. split; [split; [|split]|].
  - destruct lk as [|p|p]; cbn [load_link]; [done|..]; rewrite ctask_at_store, decide_True by done; done.
  - unfold children. rewrite ctask_at_store, E1, decide_True by done.
    destruct lk as [|p|p]; [done|..]; rewrite decide_False by (cbn in Ha; set_solver); done.
  - intros lk' Hne Ha'. destruct lk' as [|q|q]; cbn [load_link].
    + destruct lk; [done|..]; cbn; by rewrite Erq.
    + rewrite ctask_at_store, E1, decide_False by (cbn in Ha'; set_solver). destruct lk as [|p|p]; [done|..]; by destruct (decide _) as [->|].
    + rewrite ctask_at_store, E1, decide_False by (cbn in Ha'; set_solver). destruct lk as [|p|p]; [done|..]; by destruct (decide _) as [->|].
  - intros b. rewrite ctask_at_store, E1. destruct lk as [|p|p]; repeat (destruct (decide _) as [->|]); done.
Qed.

(** A task without its place in the tree. *)
Definition task_data (s : cfs_state) (a : Z) : Z * Z * bool := (vruntime (ctask_at s a), load_weight (ctask_at s a), on_rq (ctask_at s a)).

Lemma rb_insert_ok s t a fuel :
  rep s (tasks_timeline (rq s)) t → NoDup (nodes t) → a ∉ nodes t → (length (nodes t) ≤ fuel)%nat →
  ∃ s', rb_insert fuel a (vruntime (ctask_at s a)) s = Some s' ∧ rep s' (tasks_timeline (rq s')) (tree_insert (vr s) a t) ∧
    (∀ b, task_data s' b = task_data s b) ∧ nr_running (rq s') = nr_running (rq s) ∧ rq_load_weight (rq s') = rq_load_weight (rq s).
Proof.
  intros Hrep Hnd Ha Hf. unfold rb_insert.
  destruct (rb_descend_ok s a t link_root None fuel) as (lk & par & Hd & _ & Hlk & Hs'); [done|done|set_solver|done|set_solver|done|].
  unfold vr in Hd at 1. rewrite Hd. cbn [mbind option_bind]. eexists. split; [reflexivity|].
  destruct (store_link_placed lk a s par Hlk) as [Hp Hdata]. split; [exact (Hs' _ Hp)|]. split.
  - intros b. unfold task_data. by destruct (Hdata b) as (-> & -> & ->).
  - by destruct lk.
Qed.

Lemma cfs_enqueue_ok s queue fuel a : cfs_inv s queue → (length queue < fuel)%nat → on_rq (ctask_at s a) = false →
  ∃ s', cfs_enqueue_task fuel a s = Some s' ∧ cfs_inv s' (a :: queue) ∧
    ∀ b, vr s' b = vr s b ∧ load_weight (ctask_at s' b) = load_weight (ctask_at s b).
Proof.
  intros [(t & Hrep & Hord & Hperm & Hlm) Hnd Hon Hcount Hload] Hf Ha.
  assert (a ∉ queue) as Hni by (rewrite <-Hon; congruence). unfold cfs_enqueue_task. rewrite Ha.
  pose proof (Permutation_length Hperm) as Hlen.
  destruct (rb_insert_ok s t a fuel) as (s1 & Hins & Hrep1 & Hdata & Hn1 & Hw1); [done|by rewrite Hperm|by rewrite Hperm|lia|].
  rewrite Hins. cbn [mbind option_bind]. pose proof (nodes_insert (vr s) a t) as Hni'.
  rewrite (rb_leftmost_ok s1 fuel _ Hrep1) by (rewrite (Permutation_length Hni'); cbn; lia). cbn [mbind option_bind].
  eexists. split; [reflexivity|]. set (s2 := upd_ctask a _ _).
  assert (∀ b, children s2 b = children s1 b ∧ vr s2 b = vr s b ∧ load_weight (ctask_at s2 b) = load_weight (ctask_at s b) ∧
               on_rq (ctask_at s2 b) = if decide (a = b) then true else on_rq (ctask_at s b)) as Hb.
  { intros b. specialize (Hdata b). injection Hdata as E1 E2 E3. unfold s2, children, vr. rewrite ctask_at_upd.
    destruct (decide (a = b)) as [->|]; split_and!; done. }
  split; [|intros b; by destruct (Hb b) as (_ & ? & ? & _)]. split.
  - exists (tree_insert (vr s) a t). split; [|split; [|split]].
    + apply (rep_frame s1); [exact Hrep1|]. intros b _. apply Hb.
    + apply (ordered_ext (vr s)); [intros b _; apply Hb|by apply ordered_insert].
    + by rewrite Hni', Hperm.
    + done.
  - by constructor.
  - intros b. destruct (Hb b) as (_ & _ & _ & ->). rewrite elem_of_cons. destruct (decide (a = b)) as [->|]; [naive_solver|].
    rewrite Hon. naive_solver.
  - change (nr_running (rq s2)) with (u32 (nr_running (rq s1) + 1)). rewrite Hn1, Hcount, u32_add_l. f_equal. cbn [length]. lia.
  - change (rq_load_weight (rq s2)) with (u64 (rq_load_weight (rq s1) + load_weight (ctask_at s a))). rewrite Hw1, Hload.
    unfold u64 at 1 2. rewrite Z.add_mod_idemp_l by lia. unfold u64. f_equal. cbn [foldr].
    destruct (Hb a) as (_ & _ & -> & _). rewrite Z.add_comm. f_equal. clear -Hb. induction queue as [|b q IH]; [done|].
    cbn [foldr]. rewrite IH. by destruct (Hb b) as (_ & _ & -> & _).
Qed.

Lemma cfs_pick_ok s queue : cfs_inv s queue →
  match cfs_pick_next_task s with
  | None => queue = []
  | Some a => a ∈ queue ∧ ∀ b, b ∈ queue → vruntime (ctask_at s a) ≤ vruntime (ctask_at s b)
  end.
Proof.
  intros [(t & _ & Hord & Hperm & Hlm) _ _ _ _]. unfold cfs_pick_next_task. rewrite Hlm.
  destruct (leftmost t) as [a|] eqn:E.
  - destruct (leftmost_min _ _ _ Hord E) as [Hin Hmin]. rewrite Hperm in Hin. split; [done|].
    intros b Hb. apply Hmin. by rewrite Hperm.
  - apply leftmost_None in E. rewrite E in Hperm. by apply Permutation_nil_l in Hperm.
Qed.


(** Three tasks, none of them queued. *)
Definition demo_tasks : gmap Z cfs_task :=
  aset (aset (aset ∅ 1 (zero⟦vruntime := 30⟧)) 2 (zero⟦vruntime := 10⟧)) 3 (zero⟦vruntime := 20⟧).
Definition cfs_demo : cfs_state := cfs_init (mk_cfs demo_tasks (mk_cfs_rq None None 0 0 0 0)).

Lemma cfs_demo_off a : on_rq (demo_tasks.[a]) = false.
Proof. unfold demo_tasks. rewrite !aget_aset. by repeat (destruct (decide _)). Qed.


(** [cfs_dequeue_task] does not take the task out of the tree: the task that was
    picked is picked again, although it is no longer marked as queued. *)
Theorem cfs_dequeued_still_picked s queue fuel a :
  cfs_inv s queue → (length queue ≤ fuel)%nat → cfs_pick_next_task s = Some a →
  ∃ s', cfs_dequeue_task fuel a s = Some s' ∧ cfs_pick_next_task s' = Some a ∧ on_rq (ctask_at s' a) = false.
Proof.
  intros Hinv Hf Hp. pose proof (cfs_pick_ok _ _ Hinv) as Hin. rewrite Hp in Hin. destruct Hin as [Hin _].
  destruct Hinv as [(t & Hrep & _ & Hperm & Hlm) _ Hon _ _]. unfold cfs_dequeue_task. rewrite (proj2 (Hon a) Hin). cbn [negb].
  unfold rb_erase. rewrite (rb_leftmost_ok s fuel t Hrep) by (rewrite (Permutation_length Hperm); done). cbn [mbind option_bind].
  eexists. split; [reflexivity|]. split; [|by rewrite ctask_at_upd, decide_True].
  unfold cfs_pick_next_task in *. rewrite Hlm in Hp. exact Hp.
Qed.
