(* ===== verification/Vma.v ===== *)
(** * Virtual memory areas (kernel/mm/vma.c, include/kernel/memory.h)

    A process's address space is a doubly-linked list of areas taken from a
    static pool, sorted by address; the descriptors of address spaces come from
    a second pool.  This file models the pools and the list operations of
    vma.c; [Mmap] models the system calls built on them.

    [mm_areas st mm l] says that [l] are the areas of [mm] in address order:
    page-aligned, non-empty, pairwise disjoint.  The theorems give the exact
    effect of lookup, insertion, removal and merging on that list, and of the
    search for a free region. *)

From Stdlib Require Import Sorted.
From S2P Require Import Prelude PageAlloc Dll.

Definition VM_READ : Z := 0x001.
Definition VM_WRITE : Z := 0x002.
Definition VM_EXEC : Z := 0x004.
Definition VM_SHARED : Z := 0x008.
Definition VM_PRIVATE : Z := 0x010.
Definition VM_ANONYMOUS : Z := 0x020.
Definition VM_FILE : Z := 0x040.
Definition VM_LAZY : Z := 0x080.
Definition VM_LOCKED : Z := 0x100.
Definition VM_GROWSDOWN : Z := 0x200.
Definition VM_STACK : Z := 0x800.

Definition VMA_POOL_SIZE : Z := 256.
Definition MM_POOL_SIZE : Z := 64.
Definition KERNEL_BASE : Z := 0xC0000000.

Record vma := mk_vma {
  vm_start : Z;
  vm_end : Z;
  vm_flags : Z;
  vm_file_inode : Z;
  vm_file_offset : Z;
  vm_fd : Z;
  swap_count : Z;
  vma_ref_count : Z;
  vm_next : ptr;
  vm_prev : ptr;
}.
#[export] Instance eta_vma : Eta vma := fun v =>
  mk_vma (vm_start v) (vm_end v) (vm_flags v) (vm_file_inode v) (vm_file_offset v) (vm_fd v)
    (swap_count v) (vma_ref_count v) (vm_next v) (vm_prev v).
#[export] Instance zeroed_vma : Zeroed vma := mk_vma 0 0 0 0 0 0 0 0 None None.
#[export] Instance vma_linked : Linked vma := {
  lk_next := vm_next;
  lk_prev := vm_prev;
  lk_set_next p a := a⟦vm_next := p⟧;
  lk_set_prev p a := a⟦vm_prev := p⟧;
}.
#[export] Instance vma_linked_laws : LinkedLaws vma.
Proof. by split. Qed.

Record mm_struct := mk_mm {
  vmas : ptr;
  vma_count : Z;
  page_directory : Z;
  code_start : Z;
  code_end : Z;
  data_start : Z;
  data_end : Z;
  heap_start : Z;
  heap_end : Z;
  stack_start : Z;
  stack_end : Z;
  mmap_base : Z;
  total_vm : Z;
  rss : Z;
  shared : Z;
  locked : Z;
  mm_ref_count : Z;
}.
#[export] Instance eta_mm : Eta mm_struct := fun m =>
  mk_mm (vmas m) (vma_count m) (page_directory m) (code_start m) (code_end m) (data_start m) (data_end m)
    (heap_start m) (heap_end m) (stack_start m) (stack_end m) (mmap_base m) (total_vm m) (rss m)
    (shared m) (locked m) (mm_ref_count m).
#[export] Instance zeroed_mm : Zeroed mm_struct := mk_mm None 0 0 0 0 0 0 0 0 0 0 0 0 0 0 0 0.

(** [mm_free_list] links unused descriptors through their [vmas] field, as the
    source does by casting the pointer. *)
Record vma_state := mk_vma_state {
  vma_pool : gmap Z vma;
  vma_free_list : ptr;
  vma_initialized : bool;
  mm_pool : gmap Z mm_struct;
  mm_free_list : ptr;
}.
#[export] Instance eta_vma_state : Eta vma_state := fun s =>
  mk_vma_state (vma_pool s) (vma_free_list s) (vma_initialized s) (mm_pool s) (mm_free_list s).

Definition vma_boot : vma_state := mk_vma_state ∅ None false ∅ None.

Definition vma_at (st : vma_state) (v : Z) : vma := (vma_pool st).[v].
Definition mm_at (st : vma_state) (m : Z) : mm_struct := (mm_pool st).[m].
Definition upd_vma (v : Z) (f : vma → vma) (st : vma_state) : vma_state :=
  st⟦vma_pool ::= fun p => amod p v f⟧.
Definition upd_mm (m : Z) (f : mm_struct → mm_struct) (st : vma_state) : vma_state :=
  st⟦mm_pool ::= fun p => amod p m f⟧.

Definition vma_allocator_init (st : vma_state) : vma_state :=
  if vma_initialized st then st
  else
    let st := iter_up (Z.to_nat (VMA_POOL_SIZE - 1)) 0 (fun i =>
                upd_vma i (fun v => v⟦vm_next := Some (i + 1)⟧)) st in
    let st := upd_vma (VMA_POOL_SIZE - 1) (fun v => v⟦vm_next := None⟧) st in
    let st := st⟦vma_free_list := Some 0⟧ in
    let st := iter_up (Z.to_nat (MM_POOL_SIZE - 1)) 0 (fun i =>
                upd_mm i (fun m => m⟦vmas := Some (i + 1)⟧)) st in
    let st := upd_mm (MM_POOL_SIZE - 1) (fun m => m⟦vmas := None⟧) st in
    st⟦mm_free_list := Some 0⟧⟦vma_initialized := true⟧.

Definition vma_alloc (st : vma_state) : ptr * vma_state :=
  let st := if vma_initialized st then st else vma_allocator_init st in
  match vma_free_list st with
  | None => (None, st)
  | Some v =>
      let st := st⟦vma_free_list := vm_next (vma_at st v)⟧ in
      (Some v, upd_vma v (fun _ => mk_vma 0 0 0 0 0 (-1) 0 1 None None) st)
  end.

Definition vma_free (v : Z) (st : vma_state) : vma_state :=
  let st := upd_vma v (fun a => a⟦vm_next := vma_free_list st⟧) st in
  st⟦vma_free_list := Some v⟧.

Definition vma_create (start fin flags : Z) (st : vma_state) : ptr * vma_state :=
  if (fin <=? start) || truth (start &: 0xFFF) || truth (fin &: 0xFFF) then (None, st)
  else
    match vma_alloc st with
    | (None, st) => (None, st)
    | (Some v, st) =>
        (Some v, upd_vma v (fun a => a⟦vm_start := start⟧⟦vm_end := fin⟧⟦vm_flags := flags⟧⟦vma_ref_count := 1⟧) st)
    end.

Definition vma_destroy (v : Z) (st : vma_state) : vma_state :=
  let st := upd_vma v (fun a => a⟦vma_ref_count ::= fun n => u32 (n - 1)⟧) st in
  if vma_ref_count (vma_at st v) =? 0 then vma_free v st else st.

(** The walks of a list of areas; [None] when the list is longer than the
    pool. *)
Fixpoint find_loop (fuel : nat) (st : vma_state) (addr : Z) (v : ptr) : option ptr :=
  match v with
  | None => Some None
  | Some x =>
      if (vm_start (vma_at st x) <=? addr) && (addr <? vm_end (vma_at st x)) then Some (Some x)
      else match fuel with
           | O => None
           | S fuel' => find_loop fuel' st addr (vm_next (vma_at st x))
           end
  end.

Definition walk_bound : nat := Z.to_nat VMA_POOL_SIZE.

Definition vma_find (mm addr : Z) (st : vma_state) : option ptr :=
  find_loop walk_bound st addr (vmas (mm_at st mm)).

Fixpoint nearest_loop (fuel : nat) (st : vma_state) (addr : Z) (nearest v : ptr) : option ptr :=
  match v with
  | None => Some nearest
  | Some x =>
      let nearest :=
        if addr <? vm_end (vma_at st x) then
          match nearest with
          | None => Some x
          | Some n => if vm_start (vma_at st x) <? vm_start (vma_at st n) then Some x else Some n
          end
        else nearest in
      match fuel with
      | O => None
      | S fuel' => nearest_loop fuel' st addr nearest (vm_next (vma_at st x))
      end
  end.

Definition vma_find_nearest (mm addr : Z) (st : vma_state) : option ptr :=
  nearest_loop walk_bound st addr None (vmas (mm_at st mm)).

(** [while (curr && curr->vm_start < vma->vm_start)] *)
Fixpoint insert_point (fuel : nat) (st : vma_state) (start : Z) (prev curr : ptr) : option (ptr * ptr) :=
  match curr with
  | None => Some (prev, None)
  | Some c =>
      if vm_start (vma_at st c) <? start then
        match fuel with
        | O => None
        | S fuel' => insert_point fuel' st start (Some c) (vm_next (vma_at st c))
        end
      else Some (prev, Some c)
  end.

(** Insert [v] between [prev] and [curr]. *)
Definition link_between (mm v : Z) (prev curr : ptr) (st : vma_state) : vma_state :=
  let st := upd_vma v (fun a => a⟦vm_prev := prev⟧⟦vm_next := curr⟧) st in
  let st := match prev with
            | Some p => upd_vma p (fun a => a⟦vm_next := Some v⟧) st
            | None => upd_mm mm (fun m => m⟦vmas := Some v⟧) st
            end in
  match curr with
  | Some c => upd_vma c (fun a => a⟦vm_prev := Some v⟧) st
  | None => st
  end.

Definition vma_insert (mm v : Z) (st : vma_state) : option (Z * vma_state) :=
  match vmas (mm_at st mm) with
  | None =>
      let st := upd_mm mm (fun m => m⟦vmas := Some v⟧) st in
      let st := upd_vma v (fun a => a⟦vm_next := None⟧⟦vm_prev := None⟧) st in
      Some (0, upd_mm mm (fun m => m⟦vma_count := 1⟧) st)
  | Some h =>
      '(prev, curr) ← insert_point walk_bound st (vm_start (vma_at st v)) None (Some h);
      if match prev with Some p => vm_start (vma_at st v) <? vm_end (vma_at st p) | None => false end
      then Some (-1, st)
      else if match curr with Some c => vm_start (vma_at st c) <? vm_end (vma_at st v) | None => false end
      then Some (-1, st)
      else
        let st := link_between mm v prev curr st in
        let size := vm_end (vma_at st v) - vm_start (vma_at st v) in
        Some (0, upd_mm mm (fun m => m⟦vma_count ::= fun n => u32 (n + 1)⟧
                                      ⟦total_vm ::= fun n => u32 (n + size)⟧) st)
  end.

Definition vma_remove (mm v : Z) (st : vma_state) : Z * vma_state :=
  let '(pool, hd) := unlink (vma_pool st) (vmas (mm_at st mm)) v in
  let size := vm_end (vma_at st v) - vm_start (vma_at st v) in
  let st := st⟦vma_pool := pool⟧ in
  let st := upd_mm mm (fun m => m⟦vmas := hd⟧⟦vma_count ::= fun n => u32 (n - 1)⟧
                                 ⟦total_vm ::= fun n => u32 (n - size)⟧) st in
  (0, st⟦vma_pool ::= fun p => clear_links p v⟧).

(** The two halves of [vma_merge]: [a] absorbs its successor [b]. *)
Definition absorb_next (mm a b : Z) (st : vma_state) : vma_state :=
  let fin := vm_end (vma_at st b) in
  let nx := vm_next (vma_at st b) in
  let st := upd_vma a (fun k => k⟦vm_end := fin⟧⟦vm_next := nx⟧) st in
  let st := match nx with Some n => upd_vma n (fun k => k⟦vm_prev := Some a⟧) st | None => st end in
  let st := upd_mm mm (fun m => m⟦vma_count ::= fun n => u32 (n - 1)⟧) st in
  vma_free b st.

Definition mergeable (st : vma_state) (a b : Z) : bool :=
  (vm_end (vma_at st a) =? vm_start (vma_at st b)) &&
  (vm_flags (vma_at st a) =? vm_flags (vma_at st b)) && (vm_fd (vma_at st a) =? vm_fd (vma_at st b)).

Definition vma_merge (mm v : Z) (st : vma_state) : Z * vma_state :=
  let '(merged, v, st) :=
    match vm_prev (vma_at st v) with
    | Some p => if mergeable st p v then (1, p, absorb_next mm p v st) else (0, v, st)
    | None => (0, v, st)
    end in
  match vm_next (vma_at st v) with
  | Some n => if mergeable st v n then (merged + 1, absorb_next mm v n st) else (merged, st)
  | None => (merged, st)
  end.

Definition mm_alloc (st : vma_state) : ptr * vma_state :=
  let st := if vma_initialized st then st else vma_allocator_init st in
  match mm_free_list st with
  | None => (None, st)
  | Some m =>
      let st := st⟦mm_free_list := vmas (mm_at st m)⟧ in
      (Some m, upd_mm m (fun _ => mk_mm None 0 0 0 0 0 0 0 0 0 0 0x40000000 0 0 0 0 1) st)
  end.

Definition mm_free_struct (m : Z) (st : vma_state) : vma_state :=
  let st := upd_mm m (fun k => k⟦vmas := mm_free_list st⟧) st in
  st⟦mm_free_list := Some m⟧.

(** [while (vma)] of [find_free_region]. *)
Fixpoint region_loop (fuel : nat) (st : vma_state) (size addr : Z) (v : ptr) : option Z :=
  match v with
  | None => Some (if u32 (addr + size) <=? KERNEL_BASE then addr else 0)
  | Some x =>
      if u32 (addr + size) <=? vm_start (vma_at st x) then Some addr
      else
        let addr := if addr <? vm_end (vma_at st x) then vm_end (vma_at st x) else addr in
        match fuel with
        | O => None
        | S fuel' => region_loop fuel' st size addr (vm_next (vma_at st x))
        end
  end.

Definition find_free_region (mm size : Z) (st : vma_state) : option Z :=
  region_loop walk_bound st size (mmap_base (mm_at st mm)) (vmas (mm_at st mm)).

(** ** Well-formed address spaces *)

Definition area_ok (a : vma) : Prop :=
  0 ≤ vm_start a < vm_end a ∧ vm_end a < 2 ^ 32 ∧ vm_start a mod 4096 = 0 ∧ vm_end a mod 4096 = 0.

Definition below (st : vma_state) (a b : Z) : Prop := vm_end (vma_at st a) ≤ vm_start (vma_at st b).

Definition contains (st : vma_state) (addr : Z) (v : Z) : bool :=
  (vm_start (vma_at st v) <=? addr) && (addr <? vm_end (vma_at st v)).

Definition overlap (st : vma_state) (a b : Z) : Prop :=
  vm_start (vma_at st a) < vm_end (vma_at st b) ∧ vm_start (vma_at st b) < vm_end (vma_at st a).

(** [l] are the areas of [mm], in address order. *)
Record mm_areas (st : vma_state) (mm : Z) (l : list Z) : Prop := {
  ma_dll : dll (vma_pool st) (vmas (mm_at st mm)) l;
  ma_pool : ∀ v, v ∈ l → 0 ≤ v < VMA_POOL_SIZE;
  ma_ok : ∀ v, v ∈ l → area_ok (vma_at st v);
  ma_sorted : StronglySorted (below st) l;
  ma_count : vma_count (mm_at st mm) = Z.of_nat (length l);
}.

(** The state of the two pools: [F] and [G] are the free areas and free
    descriptors, [M] the areas of every descriptor in use. *)
Record vma_wf (st : vma_state) (F G : list Z) (M : gmap Z (list Z)) : Prop := {
  vw_init : vma_initialized st = true;
  vw_free : chain vm_next (vma_pool st) (vma_free_list st) F;
  vw_free_nodup : NoDup F;
  vw_free_pool : ∀ v, v ∈ F → 0 ≤ v < VMA_POOL_SIZE;
  vw_mmfree : chain vmas (mm_pool st) (mm_free_list st) G;
  vw_mmfree_nodup : NoDup G;
  vw_mm_used : ∀ m l, M !! m = Some l → m ∉ G;
  vw_areas : ∀ m l, M !! m = Some l → mm_areas st m l;
  vw_used : ∀ m l v, M !! m = Some l → v ∈ l → v ∉ F;
  vw_apart : ∀ m m' l l' v, M !! m = Some l → M !! m' = Some l' → v ∈ l → v ∈ l' → m = m';
}.

(** An area taken from the pool and not (or no longer) in an address space. *)
Definition detached (F : list Z) (M : gmap Z (list Z)) (v : Z) : Prop :=
  0 ≤ v < VMA_POOL_SIZE ∧ (v ∉ F) ∧ (∀ m l, M !! m = Some l → v ∉ l).

Lemma vma_at_upd st v f u :
  vma_at (upd_vma v f st) u = if decide (v = u) then f (vma_at st v) else vma_at st u.
Proof. apply aget_amod. Qed.
Lemma vma_at_upd_mm st m f u : vma_at (upd_mm m f st) u = vma_at st u.
Proof. done. Qed.
Lemma mm_at_upd st m f k :
  mm_at (upd_mm m f st) k = if decide (m = k) then f (mm_at st m) else mm_at st k.
Proof. apply aget_amod. Qed.
Lemma mm_at_upd_vma st v f k : mm_at (upd_vma v f st) k = mm_at st k.
Proof. done. Qed.

(** ** Framing *)

Lemma sorted_ext st st' l :
  (∀ v, v ∈ l → vm_start (vma_at st' v) = vm_start (vma_at st v) ∧
                vm_end (vma_at st' v) = vm_end (vma_at st v)) →
  StronglySorted (below st) l → StronglySorted (below st') l.
Proof.
  intros Hext. induction 1 as [|v l Hs IH Hf]; constructor.
  - apply IH. intros u Hu. apply Hext. set_solver.
  - rewrite Forall_forall in *. intros u Hu. unfold below.
    rewrite (proj2 (Hext v ltac:(set_solver))), (proj1 (Hext u ltac:(set_solver))). by apply Hf.
Qed.

Lemma mm_areas_ext st st' m l :
  mm_areas st m l →
  vmas (mm_at st' m) = vmas (mm_at st m) → vma_count (mm_at st' m) = vma_count (mm_at st m) →
  (∀ v, v ∈ l → vma_at st' v = vma_at st v) → mm_areas st' m l.
Proof.
  intros [Hd Hp Ho Hs Hc] E1 E2 Ev. split.
  - rewrite E1. eapply dll_ext; [|done]. intros v Hv. apply Ev in Hv. unfold vma_at in Hv. by rewrite Hv.
  - done.
  - intros v Hv. rewrite Ev by done. by apply Ho.
  - eapply sorted_ext; [|done]. intros v Hv. by rewrite Ev.
  - by rewrite E2.
Qed.

Lemma mm_areas_length st m l : mm_areas st m l → (length l ≤ walk_bound)%nat.
Proof.
  intros [(_ & Hnd & _) Hp _ _ _].
  assert (l ⊆+ seqZ 0 VMA_POOL_SIZE) as Hsub.
  { apply NoDup_submseteq; [done|]. intros v Hv. apply elem_of_seqZ. apply Hp in Hv. lia. }
  apply submseteq_length in Hsub. rewrite length_seqZ in Hsub. done.
Qed.

(** ** Lookup *)

Lemma find_loop_eq fuel st addr p l :
  dseg (vma_pool st) p l None → (length l ≤ fuel)%nat →
  find_loop fuel st addr (first_or l None) = Some (List.find (contains st addr) l).
Proof.
  revert p fuel. induction l as [|v l IH]; intros p fuel Hs Hf; cbn [dseg first_or length] in *.
  { by destruct fuel. }
  destruct Hs as (_ & Hn & Hs). destruct fuel as [|fuel]; [lia|]. cbn [find_loop List.find].
  destruct (contains st addr v) eqn:E; unfold contains in E; rewrite E; [done|].
  change (lk_next (vma_pool st).[v]) with (vm_next (vma_at st v)) in Hn.
  rewrite Hn. apply (IH (Some v)); [done|lia].
Qed.

Lemma vma_find_eq st mm l addr :
  mm_areas st mm l → vma_find mm addr st = Some (List.find (contains st addr) l).
Proof.
  intros Hm. pose proof (mm_areas_length _ _ _ Hm). destruct Hm as [(Hh & _ & Hs) _ _ _ _].
  unfold vma_find. rewrite Hh. by eapply find_loop_eq.
Qed.

Lemma sorted_before st l1 v l2 :
  StronglySorted (below st) (l1 ++ v :: l2) →
  (∀ u, u ∈ l1 → below st u v) ∧ (∀ u, u ∈ l2 → below st v u).
Proof.
  induction l1 as [|w l1 IH]; simpl; intros Hs; apply StronglySorted_inv in Hs as [Hs Hf].
  - split; [set_solver|]. intros u Hu. rewrite Forall_forall in Hf. by apply Hf.
  - destruct (IH Hs) as [H1 H2]. split; [|done]. rewrite Forall_forall in Hf.
    intros u [->|Hu]%elem_of_cons; [apply Hf; set_solver|by apply H1].
Qed.

Lemma sorted_disjoint st mm l u v :
  mm_areas st mm l → u ∈ l → v ∈ l → u ≠ v → below st u v ∨ below st v u.
Proof.
  intros Hm Hu Hv Hne. apply list_elem_of_split in Hv as (l1 & l2 & ->).
  destruct (sorted_before _ _ _ _ (ma_sorted _ _ _ Hm)) as [H1 H2].
  rewrite elem_of_app, elem_of_cons in Hu. naive_solver.
Qed.

Lemma contains_spec st addr v :
  contains st addr v = true ↔ vm_start (vma_at st v) ≤ addr < vm_end (vma_at st v).
Proof. unfold contains. rewrite andb_true_iff, Z.leb_le, Z.ltb_lt. done. Qed.

(** The nearest area is the first one that ends above the address. *)
Lemma nearest_loop_eq fuel st addr p l n :
  dseg (vma_pool st) p l None → (length l ≤ fuel)%nat → StronglySorted (below st) l →
  (∀ v, v ∈ l → area_ok (vma_at st v)) →
  (∀ u, n = Some u → ∀ v, v ∈ l → vm_start (vma_at st u) ≤ vm_start (vma_at st v)) →
  nearest_loop fuel st addr n (first_or l None) =
    Some (match n with Some u => Some u
          | None => List.find (fun v => addr <? vm_end (vma_at st v)) l end).
Proof.
  revert p n fuel. induction l as [|v l IH]; intros p n fuel Hs Hf Hsort Hok Hn; cbn [dseg first_or length] in *.
  { destruct fuel; by destruct n. }
  destruct Hs as (_ & Hnx & Hs). destruct fuel as [|fuel]; [lia|]. cbn [nearest_loop List.find].
  change (lk_next (vma_pool st).[v]) with (vm_next (vma_at st v)) in Hnx. rewrite Hnx.
  apply StronglySorted_inv in Hsort as [Hsort Hfa]. rewrite Forall_forall in Hfa.
  assert (match n with Some u => if vm_start (vma_at st v) <? vm_start (vma_at st u) then Some v else Some u
          | None => Some v end = match n with Some u => Some u | None => Some v end) as E1.
  { destruct n as [u|]; [|done]. specialize (Hn u eq_refl v ltac:(set_solver)). case_Z (Z.ltb); [lia|done]. }
  rewrite E1. erewrite (IH (Some v)); [|done|lia|done|set_solver|].
  - by destruct n, (addr <? vm_end (vma_at st v)).
  - intros u Hu w Hw. specialize (Hfa w Hw). specialize (Hok v ltac:(set_solver)).
    unfold below, area_ok in *. destruct n as [u'|].
    + apply (Hn u); [|set_solver]. by destruct (addr <? vm_end (vma_at st v)).
    + destruct (addr <? vm_end (vma_at st v)); simplify_eq. lia.
Qed.

Lemma vma_find_nearest_eq st mm l addr :
  mm_areas st mm l →
  vma_find_nearest mm addr st = Some (List.find (fun v => addr <? vm_end (vma_at st v)) l).
Proof.
  intros Hm. pose proof (mm_areas_length _ _ _ Hm). destruct Hm as [(Hh & _ & Hs) _ Hok Hsort _].
  unfold vma_find_nearest. rewrite Hh. eapply nearest_loop_eq; done.
Qed.

(** ** Insertion *)

Lemma insert_point_eq fuel st s p l :
  dseg (vma_pool st) p l None → (length l ≤ fuel)%nat →
  ∃ l1 l2, l = l1 ++ l2 ∧ insert_point fuel st s p (first_or l None) = Some (last_or p l1, first_or l2 None) ∧
    (∀ v, v ∈ l1 → vm_start (vma_at st v) < s) ∧ (∀ v, first_or l2 None = Some v → s ≤ vm_start (vma_at st v)).
Proof.
  revert p fuel. induction l as [|v l IH]; intros p fuel Hs Hf; cbn [dseg first_or length] in *.
  { exists [], []. split_and!; [done| |set_solver|done]. by destruct fuel. }
  destruct Hs as (_ & Hnx & Hs). destruct fuel as [|fuel]; [lia|]. cbn [insert_point].
  change (lk_next (vma_pool st).[v]) with (vm_next (vma_at st v)) in Hnx. rewrite Hnx.
  destruct (Z.ltb_spec (vm_start (vma_at st v)) s) as [Hlt|Hge].
  - destruct (IH (Some v) fuel Hs ltac:(lia)) as (l1 & l2 & -> & -> & H1 & H2).
    exists (v :: l1), l2. split_and!; [done| |set_solver|done]. do 2 f_equal.
    by rewrite last_or_cons.
  - exists [], (v :: l). split_and!; [done|done|set_solver|]. intros u [= <-]. done.
Qed.

(** Everything of an area but its links. *)
Definition attrs (a : vma) : vma := a⟦vm_next := None⟧⟦vm_prev := None⟧.

Lemma attrs_range a b : attrs a = attrs b → vm_start a = vm_start b ∧ vm_end a = vm_end b.
Proof. by intros [= ???]. Qed.

Lemma vma_eq a b :
  attrs a = attrs b → vm_next a = vm_next b → vm_prev a = vm_prev b → a = b.
Proof. destruct a, b. cbn. by intros [= -> -> -> -> -> -> -> ->] -> ->. Qed.

Lemma attrs_ok a b : attrs a = attrs b → area_ok a → area_ok b.
Proof. intros [E1 E2]%attrs_range. unfold area_ok. by rewrite E1, E2. Qed.

Section link_between.
Context (mm v : Z) (prev curr : ptr) (st : vma_state).
Context (Hprev : prev ≠ Some v) (Hcurr : curr ≠ Some v).
Let st' := link_between mm v prev curr st.

Lemma link_between_attrs u : attrs (vma_at st' u) = attrs (vma_at st u).
Proof.
  subst st'. unfold link_between. destruct prev as [p|], curr as [c|];
    rewrite ?vma_at_upd, ?vma_at_upd_mm, ?vma_at_upd; repeat case_decide; simplify_eq; try done;
    rewrite ?vma_at_upd_mm, ?vma_at_upd; repeat case_decide; simplify_eq; done.
Qed.

Lemma link_between_next u :
  vm_next (vma_at st' u) =
    if decide (u = v) then curr else if decide (prev = Some u) then Some v else vm_next (vma_at st u).
Proof.
  subst st'. unfold link_between. destruct prev as [p|], curr as [c|];
    rewrite ?vma_at_upd, ?vma_at_upd_mm, ?vma_at_upd; repeat case_decide; simplify_eq; try done;
    rewrite ?vma_at_upd_mm, ?vma_at_upd; cbn; rewrite ?vma_at_upd_mm, ?vma_at_upd;
    repeat case_decide; simplify_eq; done.
Qed.

Lemma link_between_prev u :
  vm_prev (vma_at st' u) =
    if decide (u = v) then prev else if decide (curr = Some u) then Some v else vm_prev (vma_at st u).
Proof.
  subst st'. unfold link_between. destruct prev as [p|], curr as [c|];
    rewrite ?vma_at_upd, ?vma_at_upd_mm, ?vma_at_upd; repeat case_decide; simplify_eq; try done;
    rewrite ?vma_at_upd_mm, ?vma_at_upd; cbn; rewrite ?vma_at_upd_mm, ?vma_at_upd;
    repeat case_decide; simplify_eq; done.
Qed.

Lemma link_between_mm k :
  mm_at st' k = if decide (mm = k ∧ prev = None) then (mm_at st k)⟦vmas := Some v⟧ else mm_at st k.
Proof.
  subst st'. unfold link_between. destruct prev as [p|], curr as [c|];
    rewrite ?mm_at_upd_vma, ?mm_at_upd, ?mm_at_upd_vma; repeat case_decide; naive_solver.
Qed.

End link_between.

Lemma sorted_insert st l1 v l2 :
  StronglySorted (below st) (l1 ++ l2) →
  (∀ u, u ∈ l1 → below st u v) → (∀ u, u ∈ l2 → below st v u) →
  StronglySorted (below st) (l1 ++ v :: l2).
Proof.
  intros Hs H1 H2. induction l1 as [|w l1 IH]; simpl in *.
  - constructor; [done|]. by apply Forall_forall.
  - apply StronglySorted_inv in Hs as [Hs Hf]. constructor; [apply IH; set_solver|].
    rewrite Forall_forall in *. intros u. rewrite elem_of_app, elem_of_cons.
    specialize (Hf u). rewrite elem_of_app in Hf. specialize (H1 w ltac:(set_solver)). naive_solver.
Qed.

Lemma insert_areas st st' mm l1 l2 v :
  mm_areas st mm (l1 ++ l2) → v ∉ l1 ++ l2 → 0 ≤ v < VMA_POOL_SIZE → area_ok (vma_at st v) →
  (∀ u, u ∈ l1 → below st u v) → (∀ u, u ∈ l2 → below st v u) →
  vma_pool st' = vma_pool (link_between mm v (last_or None l1) (first_or l2 None) st) →
  vmas (mm_at st' mm) = first_or (l1 ++ [v]) None →
  vma_count (mm_at st' mm) = vma_count (mm_at st mm) + 1 →
  mm_areas st' mm (l1 ++ v :: l2).
Proof.
  intros [Hd Hp Ho Hs Hc] Hv Hvp Hvo H1 H2 Epool Evmas Ecnt.
  assert (last_or None l1 ≠ Some v) as Hpv.
  { intros E. apply last_or_elem in E as [?|[? _]]; [set_solver|done]. }
  assert (first_or l2 None ≠ Some v) as Hnv by (destruct l2; [done|]; intros [= ->]; set_solver).
  assert (∀ u, vma_at st' u = vma_at (link_between mm v (last_or None l1) (first_or l2 None) st) u) as Eat.
  { intros u. unfold vma_at. by rewrite Epool. }
  assert (∀ u, attrs (vma_at st' u) = attrs (vma_at st u)) as Eattr.
  { intros u. rewrite Eat. by apply link_between_attrs. }
  assert (∀ u, last_or None l1 = Some u ↔ last l1 = Some u) as Elast.
  { intros u. unfold last_or. by destruct (last l1). }
  split.
  - rewrite Evmas. eapply (dll_insert _ _ _ l1 v l2 Hd); [done|..].
    + change (vm_next (vma_at st' v) = first_or l2 None). rewrite Eat, link_between_next, decide_True; done.
    + change (vm_prev (vma_at st' v) = last_or None l1). rewrite Eat, link_between_prev, decide_True; done.
    + intros u Hu. change (vm_next (vma_at st' u) = if decide (last l1 = Some u) then Some v else vm_next (vma_at st u)).
      assert (u ≠ v) by (by intros ->). rewrite Eat, link_between_next, decide_False by done.
      apply decide_ext. by apply Elast.
    + intros u Hu.
      change (vm_prev (vma_at st' u) = if decide (first_or l2 None = Some u) then Some v else vm_prev (vma_at st u)).
      assert (u ≠ v) by (by intros ->). rewrite Eat, link_between_prev, decide_False; done.
  - intros u. rewrite elem_of_app, elem_of_cons. intros [?|[->|?]]; [apply Hp; set_solver|done|apply Hp; set_solver].
  - intros u. rewrite elem_of_app, elem_of_cons. intros Hu. apply (attrs_ok (vma_at st u)); [by rewrite Eattr|].
    destruct Hu as [?|[->|?]]; [apply Ho; set_solver|done|apply Ho; set_solver].
  - eapply sorted_ext; [|by apply (sorted_insert st)]. intros u _. by apply attrs_range.
  - rewrite Ecnt, Hc, !length_app. simpl. lia.
Qed.

(** [st'] differs from [st] only in the areas [T], the descriptor [mm] and the
    head of the free list of areas. *)
Record writes_only (st st' : vma_state) (mm : Z) (T : list Z) : Prop := {
  wo_vma : ∀ u, u ∉ T → vma_at st' u = vma_at st u;
  wo_mm : ∀ k, k ≠ mm → mm_at st' k = mm_at st k;
  wo_mm_free : mm_free_list st' = mm_free_list st;
  wo_init : vma_initialized st' = vma_initialized st;
}.

(** An operation on the address space [mm] writes only areas [T] of [mm] or
    outside every list, and returns some of them to the pool. *)
Lemma wf_replace st st' F F' G M mm l l' (T : list Z) :
  vma_wf st F G M → M !! mm = Some l →
  (∀ u, u ∈ T → u ∈ l ∨ detached F M u) →
  writes_only st st' mm T →
  chain vm_next (vma_pool st') (vma_free_list st') F' → NoDup F' → (∀ u, u ∈ F' → u ∈ F ∨ u ∈ T) →
  mm_areas st' mm l' → (∀ u, u ∈ l' → u ∈ T ∧ u ∉ F') →
  vma_wf st' F' G (<[mm := l']> M).
Proof.
  intros [Hin Hf Hfn Hfp Hmf Hmn Hmu Ha Hu Hap] Hmm HT [Hat Hk Emf Ein] Hc HnF' HF' Hm' Hl'.
  assert (∀ k l2 u, k ≠ mm → M !! k = Some l2 → u ∈ l2 → u ∉ T) as HTother.
  { intros k l2 u Hne Hk2 Hu2 HuT. destruct (HT u HuT) as [Hul|(_ & _ & Hd)].
    - by apply Hne, (Hap k mm l2 l u).
    - by apply (Hd k l2). }
  split; try done.
  - by rewrite Ein.
  - intros u [HuF|HuT]%HF'; [by apply Hfp|]. destruct (HT u HuT) as [Hul|[? _]]; [|done].
    by apply (ma_pool _ _ _ (Ha mm l Hmm)).
  - rewrite Emf. eapply chain_ext; [|done]. intros x Hx.
    assert (x ≠ mm) as Hne by (intros ->; by eapply Hmu). apply Hk in Hne.
    unfold mm_at in Hne. by rewrite Hne.
  - intros m k. destruct (decide (mm = m)) as [<-|Hne]; rewrite ?lookup_insert_eq, ?lookup_insert_ne by done;
      [intros _; by eapply Hmu|by apply Hmu].
  - intros m k. destruct (decide (mm = m)) as [<-|Hne]; rewrite ?lookup_insert_eq, ?lookup_insert_ne by done;
      [by intros [= <-]|]. intros Hmk. eapply mm_areas_ext; [by apply Ha|by rewrite Hk..|].
    intros u Hu2. apply Hat. by eapply HTother.
  - intros m k u. destruct (decide (mm = m)) as [<-|Hne]; rewrite ?lookup_insert_eq, ?lookup_insert_ne by done.
    + intros [= <-]. by intros [_ ?]%Hl'.
    + intros Hmk Huk [HuF|HuT]%HF'; [by eapply Hu|by eapply HTother].
  - intros m1 m2 k1 k2 u. destruct (decide (mm = m1)) as [<-|Hne1], (decide (mm = m2)) as [<-|Hne2];
      rewrite ?lookup_insert_eq, ?lookup_insert_ne by done; try done.
    + intros [= <-] Hk2 [Hu1 _]%Hl' Hu2. exfalso. by eapply (HTother m2).
    + intros Hk1 [= <-] Hu1 [Hu2 _]%Hl'. exfalso. by eapply (HTother m1).
    + apply Hap.
Qed.

(** The case of an operation that leaves the pool's free list alone. *)
Lemma wf_replace_same_free st st' F G M mm l l' T :
  vma_wf st F G M → M !! mm = Some l →
  (∀ u, u ∈ T → u ∈ l ∨ detached F M u) →
  writes_only st st' mm T → vma_free_list st' = vma_free_list st →
  mm_areas st' mm l' → (∀ u, u ∈ l' → u ∈ T) →
  vma_wf st' F G (<[mm := l']> M).
Proof.
  intros Hwf Hmm HT Hwo Efree Hm' Hl'.
  assert (∀ u, u ∈ T → u ∉ F) as HTF.
  { intros u Hu. destruct (HT u Hu) as [?|(_ & ? & _)]; [by eapply vw_used|done]. }
  eapply wf_replace; try done.
  - rewrite Efree. eapply chain_ext; [|apply Hwf]. intros u Hu.
    assert (u ∉ T) as HuT by (intros ?; by eapply HTF). apply (wo_vma _ _ _ _ Hwo) in HuT.
    unfold vma_at in HuT. by rewrite HuT.
  - apply Hwf.
  - by left.
  - intros u Hu. apply Hl' in Hu. eauto.
Qed.

Lemma sorted_app_last st l1 l2 p u :
  StronglySorted (below st) (l1 ++ l2) → (∀ v, v ∈ l1 ++ l2 → area_ok (vma_at st v)) →
  last l1 = Some p → u ∈ l1 → vm_end (vma_at st u) ≤ vm_end (vma_at st p).
Proof.
  intros Hs Hok [l ->]%last_Some Hu. rewrite <- app_assoc in Hs. apply sorted_before in Hs as [Hs _].
  apply elem_of_app in Hu as [Hu|Hu%list_elem_of_singleton]; [|by subst].
  specialize (Hs u Hu). specialize (Hok p ltac:(set_solver)). unfold below, area_ok in *. lia.
Qed.

Lemma sorted_app_first st l1 c l2 u :
  StronglySorted (below st) (l1 ++ c :: l2) → (∀ v, v ∈ l1 ++ c :: l2 → area_ok (vma_at st v)) →
  u ∈ c :: l2 → vm_start (vma_at st c) ≤ vm_start (vma_at st u).
Proof.
  intros Hs Hok Hu. apply sorted_before in Hs as [_ Hs].
  apply elem_of_cons in Hu as [->|Hu]; [done|].
  specialize (Hs u Hu). specialize (Hok c ltac:(set_solver)). unfold below, area_ok in *. lia.
Qed.

(** What the two checks of [vma_insert] decide. *)
Lemma insert_checks st mm l1 l2 v :
  mm_areas st mm (l1 ++ l2) → area_ok (vma_at st v) →
  (∀ u, u ∈ l1 → vm_start (vma_at st u) < vm_start (vma_at st v)) →
  (∀ u, first_or l2 None = Some u → vm_start (vma_at st v) ≤ vm_start (vma_at st u)) →
  if match last_or None l1 with Some p => vm_start (vma_at st v) <? vm_end (vma_at st p) | None => false end
     || match first_or l2 None with Some c => vm_start (vma_at st c) <? vm_end (vma_at st v) | None => false end
  then ∃ u, u ∈ l1 ++ l2 ∧ overlap st u v
  else (∀ u, u ∈ l1 → below st u v) ∧ (∀ u, u ∈ l2 → below st v u).
Proof.
  intros [_ _ Hok Hs _] Hv H1 H2.
  destruct (match last_or None l1 with Some p => _ | None => _ end) eqn:Ep; cbn [orb].
  { unfold last_or in Ep. destruct (last l1) as [p|] eqn:El; [|done]. apply Z.ltb_lt in Ep.
    apply last_Some_elem_of in El. exists p. split; [set_solver|]. specialize (H1 p El).
    unfold overlap, area_ok in *. lia. }
  destruct (match first_or l2 None with Some c => _ | None => _ end) eqn:Ec.
  { destruct l2 as [|c l2]; [done|]. cbn in Ec. apply Z.ltb_lt in Ec. exists c. split; [set_solver|].
    specialize (H2 c eq_refl). specialize (Hok c ltac:(set_solver)). unfold overlap, area_ok in *. lia. }
  split.
  - intros u Hu. unfold last_or in Ep. destruct (last l1) as [p|] eqn:El.
    + apply Z.ltb_ge in Ep. pose proof (sorted_app_last _ _ _ _ u Hs Hok El Hu). unfold below. lia.
    + apply last_None in El as ->. set_solver.
  - intros u Hu. destruct l2 as [|c l2]; [set_solver|]. cbn in Ec. apply Z.ltb_ge in Ec.
    pose proof (sorted_app_first _ _ _ _ u Hs Hok Hu). unfold below. lia.
Qed.

Lemma first_or_app l1 l2 q : first_or (l1 ++ l2) q = first_or l1 (first_or l2 q).
Proof. by destruct l1. Qed.

(** The effect of a successful insertion. *)
Record inserted (st : vma_state) (mm v : Z) (l1 l2 : list Z) (st' : vma_state) : Prop := {
  ins_areas : mm_areas st' mm (l1 ++ v :: l2);
  ins_writes : writes_only st st' mm (v :: l1 ++ l2);
  ins_free : vma_free_list st' = vma_free_list st;
  ins_attrs : ∀ u, attrs (vma_at st' u) = attrs (vma_at st u);
}.

Lemma link_inserted st st' mm l1 l2 v g :
  let lst := link_between mm v (last_or None l1) (first_or l2 None) st in
  mm_areas st mm (l1 ++ l2) → v ∉ l1 ++ l2 → 0 ≤ v < VMA_POOL_SIZE → area_ok (vma_at st v) →
  (∀ u, u ∈ l1 → below st u v) → (∀ u, u ∈ l2 → below st v u) →
  st' = upd_mm mm g lst → (∀ m, vmas (g m) = vmas m) →
  vma_count (g (mm_at lst mm)) = vma_count (mm_at st mm) + 1 →
  inserted st mm v l1 l2 st'.
Proof.
  intros lst Hm Hv Hvp Hvo H1 H2 -> Hg Hcnt.
  assert (last_or None l1 ≠ Some v) as Hpv.
  { intros E. apply last_or_elem in E as [?|[? _]]; [set_solver|done]. }
  assert (first_or l2 None ≠ Some v) as Hnv by (destruct l2; [done|]; intros [= ->]; set_solver).
  split.
  - eapply (insert_areas st); try done.
    + rewrite mm_at_upd, decide_True by done. rewrite Hg. subst lst. rewrite link_between_mm by done.
      destruct (ma_dll _ _ _ Hm) as (Hh & _). destruct l1 as [|u l1]; [by rewrite decide_True|].
      rewrite decide_False; [done|]. rewrite last_or_cons. intros [_ E]. unfold last_or in E.
      by destruct (last l1).
    + rewrite mm_at_upd, decide_True; done.
  - split; try done.
    + intros u Hu. rewrite vma_at_upd_mm. apply vma_eq.
      * apply link_between_attrs; done.
      * subst lst. rewrite link_between_next, !decide_False; [done|..|done|done]; [|set_solver].
        intros E. apply last_or_elem in E as [?|[? _]]; [set_solver|done].
      * subst lst. rewrite link_between_prev, !decide_False; [done|..|done|done]; [|set_solver].
        destruct l2; [done|]. intros [= ->]. set_solver.
    + intros k Hk. rewrite mm_at_upd, decide_False by done. subst lst. rewrite link_between_mm by done.
      rewrite decide_False; [done|naive_solver].
    + subst lst. unfold link_between. by destruct (last_or None l1), (first_or l2 None).
    + subst lst. unfold link_between. by destruct (last_or None l1), (first_or l2 None).
  - subst lst. unfold link_between. by destruct (last_or None l1), (first_or l2 None).
  - intros u. rewrite vma_at_upd_mm. by apply link_between_attrs.
Qed.

Lemma vma_insert_areas st mm l v :
  mm_areas st mm l → v ∉ l → 0 ≤ v < VMA_POOL_SIZE → area_ok (vma_at st v) →
  (∃ u, u ∈ l ∧ overlap st u v) ∧ vma_insert mm v st = Some (-1, st) ∨
  ∃ l1 l2 st', l = l1 ++ l2 ∧ vma_insert mm v st = Some (0, st') ∧ inserted st mm v l1 l2 st' ∧
    (∀ u, u ∈ l1 → below st u v) ∧ (∀ u, u ∈ l2 → below st v u) ∧
    total_vm (mm_at st' mm) =
      if decide (l = []) then total_vm (mm_at st mm)
      else u32 (total_vm (mm_at st mm) + (vm_end (vma_at st v) - vm_start (vma_at st v))).
Proof.
  intros Hm Hv Hvp Hvo. pose proof (mm_areas_length _ _ _ Hm) as Hlen.
  destruct (ma_dll _ _ _ Hm) as (Hh & _ & Hs). pose proof (ma_count _ _ _ Hm) as Hcnt.
  unfold vma_insert. destruct l as [|h l].
  { right. rewrite Hh. exists [], []. eexists. split_and!; [done|done| |set_solver|set_solver|].
    - eapply (link_inserted _ _ mm [] [] v (fun m => m⟦vma_count := 1⟧)); try done.
      1, 2: set_solver. by rewrite Hcnt.
    - rewrite decide_True by done. by rewrite mm_at_upd, decide_True, mm_at_upd_vma, mm_at_upd, decide_True. }
  rewrite Hh. cbn [first_or].
  destruct (insert_point_eq walk_bound st (vm_start (vma_at st v)) None (h :: l) Hs Hlen)
    as (l1 & l2 & El & Ept & H1 & H2).
  cbn [first_or] in Ept. rewrite Ept, El in *. cbn [mbind option_bind].
  pose proof (insert_checks _ _ _ _ _ Hm Hvo H1 H2) as Hck.
  destruct (match last_or None l1 with Some p => _ | None => _ end); [left; by split|].
  destruct (match first_or l2 None with Some p => _ | None => _ end); [left; by split|].
  cbn [orb] in Hck. destruct Hck as [Hb1 Hb2]. right. exists l1, l2. eexists.
  set (lst := link_between mm v (last_or None l1) (first_or l2 None) st).
  assert (last_or None l1 ≠ Some v) as Hpv.
  { intros E. apply last_or_elem in E as [?|[? _]]; [set_solver|done]. }
  assert (first_or l2 None ≠ Some v) as Hnv by (destruct l2; [done|]; intros [= ->]; set_solver).
  assert (vma_count (mm_at lst mm) = vma_count (mm_at st mm) ∧ total_vm (mm_at lst mm) = total_vm (mm_at st mm))
    as [Ec Et].
  { subst lst. rewrite link_between_mm by done. by case_decide. }
  split_and!; [done|done| |done|done|].
  - eapply (link_inserted st _ mm l1 l2 v); try done. fold lst. cbn. rewrite Ec, Hcnt.
    apply u32_small. rewrite <- El in *. unfold walk_bound, VMA_POOL_SIZE in Hlen. lia.
  - rewrite decide_False by (by destruct l1, l2). rewrite mm_at_upd, decide_True by done.
    cbn [modify_field total_vm]. fold lst. rewrite Et. pose proof (attrs_range _ _ (link_between_attrs mm v _ _ st Hpv Hnv v)) as [E1 E2].
    subst lst. by rewrite E1, E2.
Qed.

Lemma vma_insert_ok st F G M mm l v :
  vma_wf st F G M → M !! mm = Some l → detached F M v → area_ok (vma_at st v) →
  (∃ u, u ∈ l ∧ overlap st u v) ∧ vma_insert mm v st = Some (-1, st) ∨
  ∃ l1 l2 st', l = l1 ++ l2 ∧ vma_insert mm v st = Some (0, st') ∧
    vma_wf st' F G (<[mm := l1 ++ v :: l2]> M) ∧
    (∀ u, attrs (vma_at st' u) = attrs (vma_at st u)) ∧
    (∀ u, u ∈ l → ¬ overlap st u v) ∧
    total_vm (mm_at st' mm) =
      if decide (l = []) then total_vm (mm_at st mm)
      else u32 (total_vm (mm_at st mm) + (vm_end (vma_at st v) - vm_start (vma_at st v))).
Proof.
  intros Hwf Hmm (Hvp & HvF & Hvl) Hok.
  destruct (vma_insert_areas st mm l v (vw_areas _ _ _ _ Hwf mm l Hmm) (Hvl mm l Hmm) Hvp Hok)
    as [?|(l1 & l2 & st' & -> & E & Hins & H1 & H2 & Ht)]; [by left|].
  right. exists l1, l2, st'. split_and!; [done|done| |apply Hins| |done].
  - eapply wf_replace_same_free; [done|done| |apply Hins|apply Hins|apply Hins|].
    + intros u [->|?]%elem_of_cons; [by right|by left].
    + intros u. rewrite elem_of_app, elem_of_cons. set_solver.
  - intros u [Hu|Hu]%elem_of_app; [apply H1 in Hu|apply H2 in Hu]; unfold below, overlap in *; lia.
Qed.

(** C11: [vma_insert] refuses an area that overlaps one of the address space,
    leaving everything unchanged, and otherwise links it at its place in
    address order; the pools stay consistent and no area's range, flags or
    backing changes.  [total_vm] grows by the size of the area, except that the
    first area of an address space is not counted. *)
Theorem vma_insert_spec st F G M mm l v :
  vma_wf st F G M → M !! mm = Some l → detached F M v → area_ok (vma_at st v) →
  (∃ u, u ∈ l ∧ overlap st u v) ∧ vma_insert mm v st = Some (-1, st) ∨
  ∃ l1 l2 st', l = l1 ++ l2 ∧ vma_insert mm v st = Some (0, st') ∧
    vma_wf st' F G (<[mm := l1 ++ v :: l2]> M) ∧
    (∀ u, attrs (vma_at st' u) = attrs (vma_at st u)) ∧
    (∀ u, u ∈ l → ¬ overlap st u v) ∧
    total_vm (mm_at st' mm) =
      if decide (l = []) then total_vm (mm_at st mm)
      else u32 (total_vm (mm_at st mm) + (vm_end (vma_at st v) - vm_start (vma_at st v))).
Proof. apply vma_insert_ok. Qed.

(** ** Removal *)

Lemma sorted_remove st l1 v l2 :
  StronglySorted (below st) (l1 ++ v :: l2) → StronglySorted (below st) (l1 ++ l2).
Proof.
  induction l1 as [|w l1 IH]; simpl; intros [Hs Hf]%StronglySorted_inv; [done|].
  constructor; [by apply IH|]. rewrite Forall_forall in *. set_solver.
Qed.

Lemma vma_remove_areas st mm l1 v l2 :
  mm_areas st mm (l1 ++ v :: l2) →
  let st' := (vma_remove mm v st).2 in
  (vma_remove mm v st).1 = 0 ∧ mm_areas st' mm (l1 ++ l2) ∧
  writes_only st st' mm (l1 ++ v :: l2) ∧ vma_free_list st' = vma_free_list st ∧
  (∀ u, attrs (vma_at st' u) = attrs (vma_at st u)) ∧
  total_vm (mm_at st' mm) =
    u32 (total_vm (mm_at st mm) - (vm_end (vma_at st v) - vm_start (vma_at st v))).
Proof.
  intros Hm st'. pose proof (mm_areas_length _ _ _ Hm) as Hlen. destruct Hm as [Hd Hp Ho Hs Hc].
  pose proof (unlink_dll _ _ _ _ _ Hd) as Hd'. pose proof (unlink_head _ _ _ _ _ Hd) as Hh.
  assert (v ∉ l1 ++ l2) as Hv.
  { destruct Hd as (_ & Hnd & _). apply NoDup_app in Hnd as (_ & H1 & [H2 _]%NoDup_cons). set_solver. }
  pose proof (unlink_other _ _ _ _ _ Hd) as Hoth.
  pose proof (unlink_frame attrs (fun _ _ => eq_refl) (fun _ _ => eq_refl) (vma_pool st) (vmas (mm_at st mm)) v) as Hfr.
  subst st'. unfold vma_remove.
  destruct (unlink (vma_pool st) (vmas (mm_at st mm)) v) as [pool hd]. cbn [fst snd] in *.
  assert (∀ u, attrs (clear_links pool v).[u] = attrs (vma_at st u)) as Hat.
  { intros u. rewrite (clear_links_frame attrs); [apply Hfr|done|done]. }
  assert (∀ u, u ∉ l1 ++ v :: l2 → (clear_links pool v).[u] = vma_at st u) as Hkeep.
  { intros u Hu. unfold clear_links. rewrite aget_amod_ne by set_solver.
    destruct (Hoth u Hu). by apply vma_eq; [apply Hfr|..]. }
  split_and!; [done| |split; try done|done|done|].
  - split.
    + unfold mm_at. cbn. rewrite aget_amod_eq. cbn. by apply clear_links_dll.
    + intros u Hu. apply Hp. set_solver.
    + intros u Hu. apply (attrs_ok (vma_at st u)); [symmetry; apply Hat|]. apply Ho. set_solver.
    + eapply sorted_ext; [|by eapply sorted_remove]. intros u _. apply attrs_range, Hat.
    + unfold mm_at. cbn. rewrite aget_amod_eq. cbn. fold (mm_at st mm). rewrite Hc.
      rewrite !length_app in *. simpl in *. unfold walk_bound, VMA_POOL_SIZE in Hlen. rewrite u32_small; lia.
  - intros k Hk. unfold mm_at. cbn. by rewrite aget_amod_ne by done.
  - unfold mm_at. cbn. by rewrite aget_amod_eq.
Qed.

Lemma vma_remove_wf st F G M mm l1 v l2 :
  vma_wf st F G M → M !! mm = Some (l1 ++ v :: l2) →
  let st' := (vma_remove mm v st).2 in
  (vma_remove mm v st).1 = 0 ∧ vma_wf st' F G (<[mm := l1 ++ l2]> M) ∧
  detached F (<[mm := l1 ++ l2]> M) v ∧
  (∀ u, attrs (vma_at st' u) = attrs (vma_at st u)) ∧
  total_vm (mm_at st' mm) =
    u32 (total_vm (mm_at st mm) - (vm_end (vma_at st v) - vm_start (vma_at st v))).
Proof.
  intros Hwf Hmm st'. pose proof (vw_areas _ _ _ _ Hwf _ _ Hmm) as Hm.
  destruct (vma_remove_areas st mm l1 v l2 Hm) as (E1 & Hm' & Hwo & Efree & Hat & Ht).
  split_and!; [done| | |done|done].
  - eapply wf_replace_same_free; [done|done| |done|done|done|]; [by left|].
    intros u. rewrite !elem_of_app, elem_of_cons. tauto.
  - split; [apply (ma_pool _ _ _ Hm); set_solver|]. split; [eapply vw_used; [done|done|set_solver]|].
    intros m k. destruct (decide (mm = m)) as [<-|Hne].
    + rewrite lookup_insert_eq. intros [= <-]. destruct (ma_dll _ _ _ Hm) as (_ & Hnd & _).
      apply NoDup_app in Hnd as (_ & H1 & [H2 _]%NoDup_cons). set_solver.
    + rewrite lookup_insert_ne by done. intros Hk Hv. apply Hne.
      eapply (vw_apart _ _ _ _ Hwf mm m _ _ v); [done|done|set_solver|done].
Qed.

(** ** The pool of areas *)

(** An operation that writes one area outside every list. *)
Lemma wf_detached st st' F F' G M v :
  vma_wf st F G M → 0 ≤ v < VMA_POOL_SIZE → (∀ m l, M !! m = Some l → v ∉ l) →
  (∀ u, u ≠ v → vma_at st' u = vma_at st u) → mm_pool st' = mm_pool st →
  mm_free_list st' = mm_free_list st → vma_initialized st' = vma_initialized st →
  chain vm_next (vma_pool st') (vma_free_list st') F' → NoDup F' → (∀ u, u ∈ F' → u = v ∨ u ∈ F) →
  vma_wf st' F' G M.
Proof.
  intros [Hin Hf Hfn Hfp Hmf Hmn Hmu Ha Hu Hap] Hv Hvl Hat Emm Emf Ein Hc HnF' HF'.
  split; try done.
  - by rewrite Ein.
  - intros u [->|?]%HF'; [done|by apply Hfp].
  - by rewrite Emm, Emf.
  - intros m l Hml. eapply mm_areas_ext; [by apply Ha|by unfold mm_at; rewrite Emm..|].
    intros u Hul. apply Hat. intros ->. by apply (Hvl m l).
  - intros m l u Hml Hul [->|?]%HF'; [by apply (Hvl m l)|by apply (Hu m l u)].
Qed.

Lemma vma_alloc_wf st F G M :
  vma_wf st F G M →
  match F with
  | [] => vma_alloc st = (None, st)
  | v :: F' => ∃ st', vma_alloc st = (Some v, st') ∧ vma_wf st' F' G M ∧ detached F' M v ∧
      (∀ u, u ≠ v → vma_at st' u = vma_at st u) ∧ mm_pool st' = mm_pool st ∧
      vma_at st' v = mk_vma 0 0 0 0 0 (-1) 0 1 None None
  end.
Proof.
  intros Hwf. unfold vma_alloc. rewrite (vw_init _ _ _ _ Hwf). pose proof (vw_free _ _ _ _ Hwf) as Hc.
  destruct F as [|v F]; cbn [chain] in Hc; [by rewrite Hc|]. destruct Hc as [-> Hc].
  pose proof (vw_free_nodup _ _ _ _ Hwf) as [HvF HnF]%NoDup_cons.
  assert (0 ≤ v < VMA_POOL_SIZE) as Hv by (apply (vw_free_pool _ _ _ _ Hwf); set_solver).
  assert (∀ m l, M !! m = Some l → v ∉ l) as Hvl.
  { intros m l Hml Hvl. apply (vw_used _ _ _ _ Hwf m l v Hml Hvl). set_solver. }
  eexists. split; [done|]. set (st' := upd_vma _ _ _).
  assert (∀ u, u ≠ v → vma_at st' u = vma_at st u) as Hat.
  { intros u Hu. subst st'. by rewrite vma_at_upd, decide_False by done. }
  split_and!; [|by split; [|split]|done|done|by subst st'; rewrite vma_at_upd, decide_True].
  eapply (wf_detached st st' (v :: F)); try done; [|set_solver].
  eapply chain_ext; [|exact Hc]. intros u Hu. assert (u ≠ v) as Hne by set_solver.
  apply Hat in Hne. unfold vma_at in Hne. by rewrite Hne.
Qed.

Lemma vma_at_free st v u :
  vma_at (vma_free v st) u = if decide (v = u) then (vma_at st v)⟦vm_next := vma_free_list st⟧ else vma_at st u.
Proof. apply (vma_at_upd st v (fun a => a⟦vm_next := vma_free_list st⟧)). Qed.

Lemma vma_free_wf st F G M v :
  vma_wf st F G M → detached F M v → vma_wf (vma_free v st) (v :: F) G M.
Proof.
  intros Hwf (Hv & HvF & Hvl). eapply wf_detached; try done.
  - intros u Hu. by rewrite vma_at_free, decide_False by done.
  - eapply (chain_push _ (vma_pool st)); [apply Hwf|..].
    + unfold vma_free. cbn. by rewrite aget_amod_eq.
    + intros u Hu. unfold vma_free. cbn. rewrite aget_amod_ne; [done|]. by intros ->.
  - apply NoDup_cons. split; [done|apply Hwf].
  - intros u. rewrite elem_of_cons. tauto.
Qed.

Lemma upd_detached st F G M v f :
  vma_wf st F G M → detached F M v → vma_wf (upd_vma v f st) F G M.
Proof.
  intros Hwf (Hv & HvF & Hvl). eapply wf_detached; try done.
  - intros u Hu. by rewrite vma_at_upd, decide_False by done.
  - eapply chain_ext; [|apply Hwf]. intros u Hu. unfold upd_vma. cbn.
    rewrite aget_amod_ne; [done|]. by intros ->.
  - apply Hwf.
  - by right.
Qed.

Lemma truth_page x : truth (x &: 0xFFF) = negb (x mod 4096 =? 0).
Proof. unfold truth. change 0xFFF with (Z.ones 12). by rewrite Z.land_ones. Qed.

Lemma vma_create_wf st F G M s e fl :
  vma_wf st F G M → 0 ≤ s → e < 2 ^ 32 →
  vma_create s e fl st = (None, st) ∧ (e ≤ s ∨ s mod 4096 ≠ 0 ∨ e mod 4096 ≠ 0 ∨ F = []) ∨
  ∃ v F' st', F = v :: F' ∧ vma_create s e fl st = (Some v, st') ∧ vma_wf st' F' G M ∧ detached F' M v ∧
    (∀ u, u ≠ v → vma_at st' u = vma_at st u) ∧ mm_pool st' = mm_pool st ∧
    vma_at st' v = mk_vma s e fl 0 0 (-1) 0 1 None None ∧ area_ok (vma_at st' v).
Proof.
  intros Hwf Hs He. unfold vma_create. rewrite !truth_page.
  destruct (Z.leb_spec e s); [left; split; [done|]; auto|].
  destruct (Z.eqb_spec (s mod 4096) 0); [|left; split; [done|]; auto].
  destruct (Z.eqb_spec (e mod 4096) 0); [|left; split; [done|]; auto].
  cbn [orb negb]. pose proof (vma_alloc_wf _ _ _ _ Hwf) as Ha. destruct F as [|v F'].
  { rewrite Ha. left. split; [done|]. auto. }
  destruct Ha as (st1 & -> & Hwf1 & Hd & Hat & Emm & Ev). right. exists v, F'. eexists.
  split_and!; [done|done|by apply upd_detached|done| |done|..].
  - intros u Hu. rewrite vma_at_upd, decide_False by done. by apply Hat.
  - rewrite vma_at_upd, decide_True by done. by rewrite Ev.
  - rewrite vma_at_upd, decide_True by done. rewrite Ev. unfold area_ok. cbn. lia.
Qed.

(** Destroying an area with one reference returns it to the pool. *)
Lemma vma_destroy_wf st F G M v :
  vma_wf st F G M → detached F M v → vma_ref_count (vma_at st v) = 1 →
  vma_wf (vma_destroy v st) (v :: F) G M ∧
  (∀ u, u ≠ v → vma_at (vma_destroy v st) u = vma_at st u) ∧ mm_pool (vma_destroy v st) = mm_pool st.
Proof.
  intros Hwf Hd Href.
  assert (vma_destroy v st = vma_free v (upd_vma v (fun a => a⟦vma_ref_count ::= fun n => u32 (n - 1)⟧) st)) as ->.
  { unfold vma_destroy. rewrite vma_at_upd, decide_True by done. cbn [modify_field vma_ref_count]. by rewrite Href. }
  split_and!; [|intros u Hu|done].
  - apply vma_free_wf; [by apply upd_detached|done].
  - by rewrite vma_at_free, decide_False, vma_at_upd, decide_False by done.
Qed.

(** ** Merging *)

(** The protection and backing of an address. *)
Definition attr_at (st : vma_state) (l : list Z) (addr : Z) : option (Z * Z) :=
  (fun v => (vm_flags (vma_at st v), vm_fd (vma_at st v))) <$> List.find (contains st addr) l.

Section absorb_next.
Context (mm a b : Z) (st : vma_state) (l1 l2 : list Z).
Context (Hm : mm_areas st mm (l1 ++ a :: b :: l2)).
Let st' := absorb_next mm a b st.

Lemma absorb_distinct :
  a ≠ b ∧ (b ∉ l1 ++ a :: l2) ∧ (a ∉ l1 ++ l2) ∧ first_or l2 None ≠ Some b ∧ first_or l2 None ≠ Some a.
Proof.
  destruct (ma_dll _ _ _ Hm) as (_ & Hnd & _). apply NoDup_app in Hnd as (_ & H1 & Hnd).
  apply NoDup_cons in Hnd as [Ha [Hb _]%NoDup_cons].
  split_and!; [set_solver|set_solver|set_solver|..]; destruct l2; (done || intros [= ->]; set_solver).
Qed.

Lemma absorb_links :
  vm_prev (vma_at st b) = Some a ∧ vm_next (vma_at st b) = first_or l2 None.
Proof.
  pose proof (ma_dll _ _ _ Hm) as Hd.
  replace (l1 ++ a :: b :: l2) with ((l1 ++ [a]) ++ b :: l2) in Hd by (by rewrite <- app_assoc).
  apply dll_split in Hd as [Hp Hn]. split; [|done]. unfold vma_at. cbn in Hp. rewrite Hp.
  unfold last_or. by rewrite last_snoc.
Qed.

Lemma absorb_vma u :
  vma_at st' u =
    if decide (u = b) then (vma_at st b)⟦vm_next := vma_free_list st⟧
    else if decide (u = a) then (vma_at st a)⟦vm_end := vm_end (vma_at st b)⟧⟦vm_next := first_or l2 None⟧
    else if decide (first_or l2 None = Some u) then (vma_at st u)⟦vm_prev := Some a⟧
    else vma_at st u.
Proof.
  destruct absorb_distinct as (Hab & _ & _ & Hnb & Hna). destruct absorb_links as [_ Hn].
  subst st'. unfold absorb_next. rewrite vma_at_free, Hn.
  destruct (first_or l2 None) as [n|]; rewrite !vma_at_upd_mm, !vma_at_upd;
    repeat case_decide; simplify_eq; done.
Qed.

Lemma absorb_mm k :
  mm_at st' k =
    if decide (mm = k) then (mm_at st mm)⟦vma_count ::= fun n => u32 (n - 1)⟧ else mm_at st k.
Proof.
  subst st'. unfold absorb_next. destruct (vm_next (vma_at st b));
    exact (mm_at_upd _ mm (fun m => m⟦vma_count ::= fun n => u32 (n - 1)⟧) k).
Qed.

Lemma absorb_dll : dll (vma_pool st') (vmas (mm_at st' mm)) (l1 ++ a :: l2).
Proof.
  destruct absorb_distinct as (Hab & Hbl & Hal & Hnb & Hna). destruct absorb_links as [Hp Hn].
  pose proof (ma_dll _ _ _ Hm) as Hd.
  replace (l1 ++ a :: b :: l2) with ((l1 ++ [a]) ++ b :: l2) in Hd by (by rewrite <- app_assoc).
  pose proof (unlink_dll _ _ _ _ _ Hd) as Hd'. pose proof (unlink_head _ _ _ _ _ Hd) as Hh.
  rewrite <- app_assoc in Hd', Hh. cbn [app] in Hd', Hh.
  assert (vmas (mm_at st' mm) = (unlink (vma_pool st) (vmas (mm_at st mm)) b).2) as ->.
  { rewrite absorb_mm, decide_True by done. rewrite Hh.
    change (vmas (mm_at st mm) = first_or (l1 ++ a :: l2) None). destruct Hd as (-> & _). by destruct l1. }
  eapply dll_ext; [|exact Hd']. intros u Hu.
  rewrite unlink_next, unlink_prev.
  change (lk_next (vma_pool st').[u]) with (vm_next (vma_at st' u)).
  change (lk_prev (vma_pool st').[u]) with (vm_prev (vma_at st' u)).
  cbn [lk_next lk_prev vma_linked]. fold (vma_at st b) (vma_at st u). rewrite Hp, Hn, absorb_vma.
  rewrite decide_False by set_solver. destruct (decide (u = a)) as [->|Hne].
  - rewrite decide_True by done. split; [done|]. by rewrite decide_False.
  - rewrite (decide_False (P := Some a = Some u)) by congruence. by destruct (decide (first_or l2 None = Some u)).
Qed.

Lemma absorb_areas : vm_end (vma_at st a) = vm_start (vma_at st b) → mm_areas st' mm (l1 ++ a :: l2).
Proof.
  intros Hadj.
  destruct absorb_distinct as (Hab & Hbl & Hal & Hnb & Hna). destruct absorb_links as [Hp Hn].
  pose proof (mm_areas_length _ _ _ Hm) as Hlen. destruct Hm as [Hd Hpl Hok Hs Hc].
  assert (∀ u, u ∈ l1 ++ l2 → vm_start (vma_at st' u) = vm_start (vma_at st u) ∧
            vm_end (vma_at st' u) = vm_end (vma_at st u)) as Hrange.
  { intros u Hu. rewrite absorb_vma. rewrite decide_False by set_solver. rewrite decide_False by set_solver.
    by destruct (decide _). }
  assert (vm_start (vma_at st' a) = vm_start (vma_at st a) ∧ vm_end (vma_at st' a) = vm_end (vma_at st b)) as [Ha1 Ha2].
  { rewrite absorb_vma, decide_False, decide_True; done. }
  pose proof (Hok a ltac:(set_solver)) as Hoka. pose proof (Hok b ltac:(set_solver)) as Hokb.
  split.
  - by apply absorb_dll.
  - intros u Hu. apply Hpl. set_solver.
  - intros u [Hu|[->|Hu]%elem_of_cons]%elem_of_app.
    + destruct (Hrange u ltac:(set_solver)) as [E1 E2]. unfold area_ok. rewrite E1, E2. apply Hok. set_solver.
    + unfold area_ok in *. rewrite Ha1, Ha2. lia.
    + destruct (Hrange u ltac:(set_solver)) as [E1 E2]. unfold area_ok. rewrite E1, E2. apply Hok. set_solver.
  - apply sorted_insert.
    + apply (sorted_ext st); [done|]. apply sorted_remove in Hs. by apply sorted_remove in Hs.
    + intros u Hu. unfold below. destruct (Hrange u ltac:(set_solver)) as [_ ->]. rewrite Ha1.
      apply sorted_before in Hs as [Hs _]. by apply Hs.
    + intros u Hu. unfold below. destruct (Hrange u ltac:(set_solver)) as [-> _]. rewrite Ha2.
      replace (l1 ++ a :: b :: l2) with ((l1 ++ [a]) ++ b :: l2) in Hs by (by rewrite <- app_assoc).
      apply sorted_before in Hs as [_ Hs]. by apply Hs.
  - rewrite absorb_mm, decide_True by done. cbn [modify_field vma_count]. rewrite Hc.
    rewrite !length_app in *. cbn [length] in *. unfold walk_bound, VMA_POOL_SIZE in Hlen. rewrite u32_small; lia.
Qed.

Lemma absorb_writes : writes_only st st' mm (l1 ++ a :: b :: l2).
Proof.
  split.
  - intros u Hu. rewrite absorb_vma, !decide_False; [done| |set_solver..].
    destruct l2; [done|]. intros [= ->]. set_solver.
  - intros k Hk. by rewrite absorb_mm, decide_False by done.
  - subst st'. unfold absorb_next. by destruct (vm_next (vma_at st b)).
  - subst st'. unfold absorb_next. by destruct (vm_next (vma_at st b)).
Qed.

Lemma absorb_wf F G M :
  vma_wf st F G M → M !! mm = Some (l1 ++ a :: b :: l2) →
  vm_end (vma_at st a) = vm_start (vma_at st b) → vma_wf st' (b :: F) G (<[mm := l1 ++ a :: l2]> M).
Proof.
  intros Hwf Hmm Hadj. destruct absorb_distinct as (Hab & Hbl & Hal & Hnb & Hna).
  assert (∀ u, u ∈ l1 ++ a :: b :: l2 → u ∉ F) as HF by (intros u Hu; by eapply vw_used).
  eapply wf_replace; [done|done| |apply absorb_writes| | | |by apply absorb_areas|].
  - by left.
  - assert (vma_free_list st' = Some b) as ->.
    { subst st'. unfold absorb_next. by destruct (vm_next (vma_at st b)). }
    eapply (chain_push _ (vma_pool st)); [apply Hwf|..].
    + change (vm_next (vma_at st' b) = vma_free_list st). by rewrite absorb_vma, decide_True.
    + intros u Hu. change (vm_next (vma_at st' u) = vm_next (vma_at st u)).
      f_equal. apply (wo_vma _ _ _ _ absorb_writes). intros Hul. by eapply HF.
  - apply NoDup_cons. split; [apply HF; set_solver|apply Hwf].
  - intros u [->|?]%elem_of_cons; [right; set_solver|by left].
  - intros u Hu. split; [set_solver|]. intros [->|HuF]%elem_of_cons; [done|].
    apply (HF u); [set_solver|done].
Qed.

(** Addresses keep their protection and backing. *)
Lemma absorb_attr addr :
  mergeable st a b = true → attr_at st' (l1 ++ a :: l2) addr = attr_at st (l1 ++ a :: b :: l2) addr.
Proof.
  unfold mergeable. rewrite !andb_true_iff, !Z.eqb_eq. intros [[Hadj Hfl] Hfd].
  destruct absorb_distinct as (Hab & Hbl & Hal & Hnb & Hna).
  assert (∀ u, u ∈ l1 ++ l2 → contains st' addr u = contains st addr u ∧
            vm_flags (vma_at st' u) = vm_flags (vma_at st u) ∧ vm_fd (vma_at st' u) = vm_fd (vma_at st u)) as Hsame.
  { intros u Hu. unfold contains. rewrite absorb_vma, decide_False, decide_False by set_solver.
    by destruct (decide _). }
  assert (contains st' addr a = contains st addr a || contains st addr b) as Hc.
  { pose proof (ma_ok _ _ _ Hm a ltac:(set_solver)). pose proof (ma_ok _ _ _ Hm b ltac:(set_solver)).
    unfold area_ok, contains in *. rewrite absorb_vma, decide_False, decide_True by done. cbn. lia. }
  assert (vm_flags (vma_at st' a) = vm_flags (vma_at st a) ∧ vm_fd (vma_at st' a) = vm_fd (vma_at st a)) as [Ef Ed].
  { by rewrite absorb_vma, decide_False, decide_True by done. }
  unfold attr_at. rewrite !find_app.
  rewrite (find_ext_in (contains st' addr) (contains st addr) l1) by (intros; apply Hsame; set_solver).
  destruct (List.find (contains st addr) l1) as [u|] eqn:El; cbn.
  { apply find_some in El as [Hu%list_elem_of_In _]. destruct (Hsame u ltac:(set_solver)) as (_ & -> & ->). done. }
  rewrite Hc. destruct (contains st addr a); cbn; [by rewrite Ef, Ed|].
  destruct (contains st addr b); cbn; [by rewrite Ef, Ed, Hfl, Hfd|].
  rewrite (find_ext_in (contains st' addr) (contains st addr) l2) by (intros; apply Hsame; set_solver).
  destruct (List.find (contains st addr) l2) as [u|] eqn:El2; cbn; [|done].
  apply find_some in El2 as [Hu%list_elem_of_In _]. destruct (Hsame u ltac:(set_solver)) as (_ & -> & ->). done.
Qed.

End absorb_next.

Lemma list_next_split st mm l v w :
  mm_areas st mm l → v ∈ l → vm_next (vma_at st v) = Some w → ∃ l1 l2, l = l1 ++ v :: w :: l2.
Proof.
  intros Hm Hv Hw. apply list_elem_of_split in Hv as (l1 & l2 & ->).
  destruct (dll_split _ _ _ _ _ (ma_dll _ _ _ Hm)) as [_ Hn]. cbn in Hn. fold (vma_at st v) in Hn.
  rewrite Hw in Hn. destruct l2 as [|x l2]; simplify_eq/=. eauto.
Qed.

Lemma list_prev_split st mm l v p :
  mm_areas st mm l → v ∈ l → vm_prev (vma_at st v) = Some p → ∃ l1 l2, l = l1 ++ p :: v :: l2.
Proof.
  intros Hm Hv Hp. apply list_elem_of_split in Hv as (l1 & l2 & ->).
  destruct (dll_split _ _ _ _ _ (ma_dll _ _ _ Hm)) as [Hn _]. cbn in Hn. fold (vma_at st v) in Hn.
  rewrite Hp in Hn. unfold last_or in Hn. destruct (last l1) as [x|] eqn:El; simplify_eq.
  apply last_Some in El as [l1' ->]. exists l1', l2. by rewrite <- app_assoc.
Qed.

(** The second half of [vma_merge]. *)
Lemma merge_next st F G M mm l v :
  vma_wf st F G M → M !! mm = Some l → v ∈ l →
  ∃ n st' F' l',
    match vm_next (vma_at st v) with
    | Some w => if mergeable st v w then (1, absorb_next mm v w st) else (0, st)
    | None => (0, st)
    end = (n, st') ∧ 0 ≤ n ≤ 1 ∧ vma_wf st' F' G (<[mm := l']> M) ∧
    Z.of_nat (length l) = Z.of_nat (length l') + n ∧ Z.of_nat (length F') = Z.of_nat (length F) + n ∧
    (∀ addr, attr_at st' l' addr = attr_at st l addr).
Proof.
  intros Hwf Hmm Hv. pose proof (vw_areas _ _ _ _ Hwf _ _ Hmm) as Hm.
  destruct (vm_next (vma_at st v)) as [w|] eqn:Ew; [destruct (mergeable st v w) eqn:Em|].
  2, 3: exists 0, st, F, l; rewrite insert_id by done; split_and!; (done || lia).
  destruct (list_next_split _ _ _ _ _ Hm Hv Ew) as (l1 & l2 & ->).
  exists 1, (absorb_next mm v w st), (w :: F), (l1 ++ v :: l2).
  split_and!; [done|lia|lia| |rewrite !length_app; cbn; lia|cbn; lia|by intros; apply absorb_attr].
  apply absorb_wf; [done..|]. unfold mergeable in Em. lia.
Qed.

(** Its first half. *)
Lemma merge_prev st F G M mm l v :
  vma_wf st F G M → M !! mm = Some l → v ∈ l →
  ∃ n v' st' F' l',
    match vm_prev (vma_at st v) with
    | Some p => if mergeable st p v then (1, p, absorb_next mm p v st) else (0, v, st)
    | None => (0, v, st)
    end = (n, v', st') ∧ 0 ≤ n ≤ 1 ∧ vma_wf st' F' G (<[mm := l']> M) ∧ v' ∈ l' ∧
    Z.of_nat (length l) = Z.of_nat (length l') + n ∧ Z.of_nat (length F') = Z.of_nat (length F) + n ∧
    (∀ addr, attr_at st' l' addr = attr_at st l addr).
Proof.
  intros Hwf Hmm Hv. pose proof (vw_areas _ _ _ _ Hwf _ _ Hmm) as Hm.
  destruct (vm_prev (vma_at st v)) as [p|] eqn:Ep; [destruct (mergeable st p v) eqn:Em|].
  2, 3: exists 0, v, st, F, l; rewrite insert_id by done; split_and!; (done || lia).
  destruct (list_prev_split _ _ _ _ _ Hm Hv Ep) as (l1 & l2 & ->).
  exists 1, p, (absorb_next mm p v st), (v :: F), (l1 ++ p :: l2).
  split_and!; [done|lia|lia| |set_solver|rewrite !length_app; cbn; lia|cbn; lia|by intros; apply absorb_attr].
  apply absorb_wf; [done..|]. unfold mergeable in Em. lia.
Qed.


(** ** Lookup, as a property of the address space *)

Lemma contains_unique st mm l addr u v :
  mm_areas st mm l → u ∈ l → v ∈ l → contains st addr u = true → contains st addr v = true → u = v.
Proof.
  intros Hm Hu Hv Hcu%contains_spec Hcv%contains_spec. destruct (decide (u = v)) as [|Hne]; [done|].
  destruct (sorted_disjoint _ _ _ _ _ Hm Hu Hv Hne); unfold below in *; lia.
Qed.

(** [vma_find] always returns, with the one area that contains the address
    or with no area when the address is unmapped; [vma_find_nearest] returns
    the lowest area that ends above the address. *)
Theorem vma_lookup_spec st mm l addr :
  mm_areas st mm l →
  (∃ r, vma_find mm addr st = Some r ∧
    match r with
    | Some v => v ∈ l ∧ contains st addr v = true ∧ ∀ u, u ∈ l → contains st addr u = true → u = v
    | None => ∀ u, u ∈ l → contains st addr u = false
    end) ∧
  (∃ r, vma_find_nearest mm addr st = Some r ∧
    match r with
    | Some v => v ∈ l ∧ addr < vm_end (vma_at st v) ∧
        ∀ u, u ∈ l → addr < vm_end (vma_at st u) → vm_start (vma_at st v) ≤ vm_start (vma_at st u)
    | None => ∀ u, u ∈ l → vm_end (vma_at st u) ≤ addr
    end).
Proof.
  intros Hm. split; eexists; (split; [by apply vma_find_eq || by apply vma_find_nearest_eq|]).
  - destruct (List.find (contains st addr) l) as [v|] eqn:E.
    + apply find_some in E as [Hv%list_elem_of_In Hc]. split_and!; [done|done|].
      intros u Hu Hcu. by eapply contains_unique.
    + intros u Hu. eapply find_none in E; [done|by apply list_elem_of_In].
  - destruct (List.find _ l) as [v|] eqn:E.
    + destruct (find_split _ _ _ E) as (l1 & l2 & -> & Hb & Hbefore).
      apply Z.ltb_lt in Hb. split_and!; [set_solver|done|]. intros u Hu Hau.
      apply elem_of_app in Hu as [Hu|Hu]; [apply Hbefore in Hu; lia|].
      by apply (sorted_app_first st l1 v l2 u (ma_sorted _ _ _ Hm) (ma_ok _ _ _ Hm)).
    + intros u Hu. eapply find_none in E; [|by apply list_elem_of_In]. lia.
Qed.

(** ** Free regions *)

(** The free region is the first one at or above the search address that is
    large enough and lies below the kernel. *)
Definition free_region (st : vma_state) (l : list Z) (size r : Z) : Prop :=
  r + size ≤ KERNEL_BASE ∧
  ∀ v, v ∈ l → r + size ≤ vm_start (vma_at st v) ∨ vm_end (vma_at st v) ≤ r.

Lemma region_loop_spec fuel st size p l addr :
  dseg (vma_pool st) p l None → (length l ≤ fuel)%nat → StronglySorted (below st) l →
  (∀ v, v ∈ l → area_ok (vma_at st v)) → (∀ v, v ∈ l → vm_end (vma_at st v) ≤ KERNEL_BASE) →
  0 < size ≤ 0x3FFFF000 → 0 < addr ≤ KERNEL_BASE → addr mod 4096 = 0 →
  ∃ r, region_loop fuel st size addr (first_or l None) = Some r ∧
    (r = 0 ∧ (∀ s, addr ≤ s → ¬ free_region st l size s) ∨
     addr ≤ r ∧ r mod 4096 = 0 ∧ free_region st l size r).
Proof.
  unfold free_region, KERNEL_BASE. revert p fuel addr.
  induction l as [|x l IH]; intros p fuel addr Hs Hf Hsort Hok Huser Hsz Ha Hal; cbn [dseg first_or length] in *.
  { eexists. split; [by destruct fuel|]. rewrite u32_small by lia. unfold KERNEL_BASE. destruct (Z.leb_spec (addr + size) 0xC0000000).
    - right. split; [lia|]. split; [done|]. split; [done|]. set_solver.
    - left. split; [done|]. intros s Hs' [? _]. lia. }
  destruct Hs as (_ & Hnx & Hs). destruct fuel as [|fuel]; [lia|]. cbn [region_loop].
  change (lk_next (vma_pool st).[x]) with (vm_next (vma_at st x)) in Hnx. rewrite Hnx, u32_small by lia.
  pose proof (Hok x ltac:(set_solver)) as Hx. unfold area_ok in Hx. pose proof (Huser x ltac:(set_solver)) as Hux.
  destruct (Z.leb_spec (addr + size) (vm_start (vma_at st x))) as [Hle|Hgt].
  { exists addr. split; [done|]. right. split; [lia|]. split; [done|]. split; [lia|]. intros v Hv. left.
    pose proof (sorted_app_first st [] x l v Hsort Hok Hv). lia. }
  apply StronglySorted_inv in Hsort as [Hsort Hfa].
  set (addr' := if addr <? vm_end (vma_at st x) then vm_end (vma_at st x) else addr).
  assert (addr ≤ addr' ∧ vm_end (vma_at st x) ≤ addr') as [??] by (subst addr'; case_if; lia).
  destruct (IH (Some x) fuel addr' Hs ltac:(lia) Hsort ltac:(set_solver) ltac:(set_solver) Hsz) as (r & E & Hr).
  { subst addr'. case_if; lia. }
  { subst addr'. case_if; lia. }
  exists r. split; [done|]. destruct Hr as [[Hr1 Hr2]|(Hr1 & Hr2 & Hr3 & Hr4)]; [left|right].
  - split; [done|]. intros s Hs' [Hk Hfree]. destruct (decide (addr' ≤ s)) as [Hge|Hlt].
    + apply (Hr2 s Hge). split; [done|]. intros v Hv. apply Hfree. set_solver.
    + subst addr'. case_if; [|lia]. destruct (Hfree x ltac:(set_solver)); lia.
  - split; [lia|]. split; [done|]. split; [done|]. intros v [->|Hv]%elem_of_cons; [lia|by apply Hr4].
Qed.

Lemma find_free_region_spec st mm l size :
  mm_areas st mm l → (∀ v, v ∈ l → vm_end (vma_at st v) ≤ KERNEL_BASE) →
  0 < size ≤ 0x3FFFF000 → 0 < mmap_base (mm_at st mm) ≤ KERNEL_BASE → mmap_base (mm_at st mm) mod 4096 = 0 →
  ∃ r, find_free_region mm size st = Some r ∧
    (r = 0 ∧ (∀ s, mmap_base (mm_at st mm) ≤ s → ¬ free_region st l size s) ∨
     mmap_base (mm_at st mm) ≤ r ∧ r mod 4096 = 0 ∧ free_region st l size r).
Proof.
  intros Hm Hu Hsz Hb Hal. pose proof (mm_areas_length _ _ _ Hm). destruct Hm as [(Hh & _ & Hs) _ Hok Hsort _].
  unfold find_free_region. rewrite Hh. by eapply region_loop_spec.
Qed.

(** ** The pool of descriptors *)

Lemma mm_alloc_wf st F G M :
  vma_wf st F G M →
  match G with
  | [] => mm_alloc st = (None, st)
  | m :: G' => ∃ st', mm_alloc st = (Some m, st') ∧ vma_wf st' F G' (<[m := []]> M) ∧ M !! m = None ∧
      (∀ k, k ≠ m → mm_at st' k = mm_at st k) ∧ vma_pool st' = vma_pool st ∧
      mm_at st' m = mk_mm None 0 0 0 0 0 0 0 0 0 0 0x40000000 0 0 0 0 1
  end.
Proof.
  intros [Hin Hf Hfn Hfp Hmf Hmn Hmu Ha Hu Hap]. unfold mm_alloc. rewrite Hin.
  destruct G as [|m G]; cbn [chain] in Hmf; [by rewrite Hmf|]. destruct Hmf as [-> Hc].
  apply NoDup_cons in Hmn as [HmG HnG]. eexists. split; [done|]. set (st' := upd_mm _ _ _).
  assert (M !! m = None) as Hnone.
  { destruct (M !! m) as [l|] eqn:E; [|done]. apply Hmu in E. set_solver. }
  assert (∀ k, k ≠ m → mm_at st' k = mm_at st k) as Hk.
  { intros k Hk. subst st'. by rewrite mm_at_upd, decide_False by done. }
  assert (mm_at st' m = mk_mm None 0 0 0 0 0 0 0 0 0 0 0x40000000 0 0 0 0 1) as Em.
  { subst st'. by rewrite mm_at_upd, decide_True. }
  split_and!; [|done..]. split; try done.
  - eapply chain_ext; [|exact Hc]. intros k HkG. assert (k ≠ m) as Hne by set_solver. apply Hk in Hne.
    unfold mm_at in Hne. by rewrite Hne.
  - intros k l. destruct (decide (m = k)) as [<-|Hne]; [done|]. rewrite lookup_insert_ne by done.
    intros Hkl%Hmu. set_solver.
  - intros k l. destruct (decide (m = k)) as [<-|Hne]; rewrite ?lookup_insert_eq, ?lookup_insert_ne by done.
    + intros [= <-]. split; rewrite ?Em; [apply dll_nil|set_solver|set_solver|constructor|done].
    + intros Hkl. eapply mm_areas_ext; [by apply Ha|by rewrite Hk..|done].
  - intros k l v. destruct (decide (m = k)) as [<-|Hne]; rewrite ?lookup_insert_eq, ?lookup_insert_ne by done;
      [intros [= <-]; set_solver|by apply Hu].
  - intros k1 k2 l1 l2 v. destruct (decide (m = k1)) as [<-|], (decide (m = k2)) as [<-|];
      rewrite ?lookup_insert_eq, ?lookup_insert_ne by done; intros; simplify_eq; set_solver.
Qed.

(** A descriptor whose areas have all been returned goes back to its pool. *)
Lemma mm_free_struct_wf st F G M m :
  vma_wf st F G M → M !! m = None → m ∉ G → vma_wf (mm_free_struct m st) F (m :: G) M.
Proof.
  intros [Hin Hf Hfn Hfp Hmf Hmn Hmu Ha Hu Hap] Hm HmG.
  assert (∀ k, k ≠ m → mm_at (mm_free_struct m st) k = mm_at st k) as Hk.
  { intros k Hk. change (mm_at (upd_mm m (fun x => x⟦vmas := mm_free_list st⟧) st) k = mm_at st k).
    by rewrite mm_at_upd, decide_False by done. }
  split; try done.
  - eapply (chain_push _ (mm_pool st)); [done|..].
    + unfold mm_free_struct. cbn. by rewrite aget_amod_eq.
    + intros k HkG. assert (k ≠ m) as Hne by set_solver. apply Hk in Hne. unfold mm_at in Hne. by rewrite Hne.
  - by apply NoDup_cons.
  - intros k l Hkl [->|HkG]%elem_of_cons; [congruence|by eapply Hmu].
  - intros k l Hkl. assert (k ≠ m) by congruence. eapply mm_areas_ext; [by apply Ha|by rewrite Hk..|done].
Qed.

(** ** Start-up *)

Lemma link_areas n st j :
  0 ≤ j < n →
  vm_next (vma_at (iter_up (Z.to_nat n) 0 (fun i => upd_vma i (fun v => v⟦vm_next := Some (i + 1)⟧)) st) j) =
    Some (j + 1).
Proof.
  intros Hj. pose proof (iter_up_inv (fun i s => ∀ j, 0 ≤ j < i → vm_next (vma_at s j) = Some (j + 1))
    (fun i => upd_vma i (fun v => v⟦vm_next := Some (i + 1)⟧)) (Z.to_nat n) 0 st) as HP.
  apply HP; [lia| |lia]. intros k s Hk IH u Hu. rewrite vma_at_upd. case_decide; [by subst|]. apply IH. lia.
Qed.

Lemma link_descriptors n st :
  let st' := iter_up (Z.to_nat n) 0 (fun i => upd_mm i (fun m => m⟦vmas := Some (i + 1)⟧)) st in
  vma_pool st' = vma_pool st ∧ vma_free_list st' = vma_free_list st ∧
  ∀ j, 0 ≤ j < n → vmas (mm_at st' j) = Some (j + 1).
Proof.
  intros st'.
  pose proof (iter_up_inv (fun i s => vma_pool s = vma_pool st ∧ vma_free_list s = vma_free_list st ∧
      ∀ j, 0 ≤ j < i → vmas (mm_at s j) = Some (j + 1))
    (fun i => upd_mm i (fun m => m⟦vmas := Some (i + 1)⟧)) (Z.to_nat n) 0 st) as HP.
  destruct HP as (E1 & E2 & H3).
  - split_and!; [done|done|lia].
  - intros k s Hk (? & ? & IH). split_and!; [done|done|]. intros j Hj. rewrite mm_at_upd.
    case_decide; [by subst|]. apply IH. lia.
  - split_and!; [done|done|]. intros j Hj. apply H3. lia.
Qed.

(** Pools of any size, linked as [vma_allocator_init] links them. *)
Lemma linked_pools_wf n k st st1 st2 :
  0 < n ≤ VMA_POOL_SIZE → 0 < k →
  st1 = iter_up (Z.to_nat (n - 1)) 0 (fun i => upd_vma i (fun v => v⟦vm_next := Some (i + 1)⟧)) st →
  st2 = iter_up (Z.to_nat (k - 1)) 0 (fun i => upd_mm i (fun m => m⟦vmas := Some (i + 1)⟧))
          (upd_vma (n - 1) (fun v => v⟦vm_next := None⟧) st1)⟦vma_free_list := Some 0⟧ →
  vma_wf (upd_mm (k - 1) (fun m => m⟦vmas := None⟧) st2)⟦mm_free_list := Some 0⟧⟦vma_initialized := true⟧
    (seqZ 0 n) (seqZ 0 k) ∅.
Proof.
  intros Hn Hk E1 E2.
  assert (∀ j, 0 ≤ j < n - 1 → vm_next (vma_at st1 j) = Some (j + 1)) as H1.
  { intros j Hj. rewrite E1. by apply link_areas. }
  clear E1.
  set (st3 := (upd_vma (n - 1) (fun v => v⟦vm_next := None⟧) st1)⟦vma_free_list := Some 0⟧) in *.
  assert (vma_pool st2 = vma_pool st3 ∧ vma_free_list st2 = vma_free_list st3 ∧
    ∀ j, 0 ≤ j < k - 1 → vmas (mm_at st2 j) = Some (j + 1)) as (Ep & Ef & H2).
  { rewrite E2. apply link_descriptors. }
  clear E2. subst st3.
  split; try done; try apply NoDup_seqZ.
  - change (chain vm_next (vma_pool st2) (vma_free_list st2) (seqZ 0 n)). rewrite Ep, Ef.
    replace (seqZ 0 n) with (seqZ 0 (Z.of_nat (Z.to_nat n))) by (f_equal; lia).
    apply chain_seq; [|lia|]; [intros j Hj|]; cbn [modify_field vma_pool].
    + change (vm_next (vma_at (upd_vma (n - 1) (fun v => v⟦vm_next := None⟧) st1) j) = Some (j + 1)).
      rewrite vma_at_upd, decide_False by lia. apply H1. lia.
    + change (vm_next (vma_at (upd_vma (n - 1) (fun v => v⟦vm_next := None⟧) st1) (0 + Z.of_nat (Z.to_nat n) - 1)) = None).
      by rewrite vma_at_upd, decide_True by lia.
  - intros v Hv%elem_of_seqZ. lia.
  - replace (seqZ 0 k) with (seqZ 0 (Z.of_nat (Z.to_nat k))) by (f_equal; lia).
    apply chain_seq; [|lia|]; [intros j Hj|].
    + change (vmas (mm_at (upd_mm (k - 1) (fun m => m⟦vmas := None⟧) st2) j) = Some (j + 1)).
      rewrite mm_at_upd, decide_False by lia. apply H2. lia.
    + change (vmas (mm_at (upd_mm (k - 1) (fun m => m⟦vmas := None⟧) st2) (0 + Z.of_nat (Z.to_nat k) - 1)) = None).
      by rewrite mm_at_upd, decide_True by lia.
Qed.

Lemma vma_allocator_init_wf st :
  vma_initialized st = false →
  vma_wf (vma_allocator_init st) (seqZ 0 VMA_POOL_SIZE) (seqZ 0 MM_POOL_SIZE) ∅.
Proof.
  intros Hin. unfold vma_allocator_init. rewrite Hin.
  eapply linked_pools_wf; [split; reflexivity || discriminate|reflexivity|reflexivity|reflexivity].
Qed.

(** ** Concrete address spaces *)

(** Two adjacent readable areas and one far away, with one area and no
    descriptor left in the pools; area 4 is taken and not inserted. *)
Definition demo_area (s e : Z) (nx pv : ptr) : vma := mk_vma s e (VM_READ |: VM_LAZY) 0 0 (-1) 0 1 nx pv.
Definition demo : vma_state := mk_vma_state
  {[ 0 := demo_area 0x1000 0x3000 (Some 1) None; 1 := demo_area 0x3000 0x4000 (Some 2) (Some 0);
     2 := demo_area 0x40000000 0x40002000 None (Some 1); 4 := demo_area 0x6000 0x8000 None None ]}
  (Some 3) true
  {[ 0 := mk_mm (Some 0) 3 0 0 0 0 0 0 0 0 0 0x40000000 0x3000 0 0 0 1 ]} None.

Lemma demo_areas : mm_areas demo 0 [0; 1; 2].
Proof.
  split.
  - split_and!; [done|compute_done|]. by vm_compute.
  - intros v Hv. set_unfold in Hv. unfold VMA_POOL_SIZE. lia.
  - intros v Hv. set_unfold in Hv. destruct Hv as [->|[->|[->|[]]]]; by vm_compute.
  - repeat constructor; by vm_compute.
  - done.
Qed.

Lemma demo_wf : vma_wf demo [3] [] {[ 0 := [0; 1; 2] ]}.
Proof.
  split; try done.
  - compute_done.
  - intros v Hv. set_unfold in Hv. unfold VMA_POOL_SIZE. lia.
  - constructor.
  - intros m l. set_solver.
  - intros m l [<- <-]%lookup_singleton_Some. apply demo_areas.
  - intros m l v [<- <-]%lookup_singleton_Some. set_solver.
  - by intros m m' l l' v [<- <-]%lookup_singleton_Some [<- <-]%lookup_singleton_Some.
Qed.

Lemma demo_detached : detached [3] {[ 0 := [0; 1; 2] ]} 4.
Proof.
  split; [done|]. split; [set_solver|]. intros m l [<- <-]%lookup_singleton_Some. set_solver.
Qed.

Lemma vma_insert_witness :
  ∃ l1 l2 st', [0; 1; 2] = l1 ++ l2 ∧ vma_insert 0 4 demo = Some (0, st') ∧
    vma_wf st' [3] [] (<[0 := l1 ++ 4 :: l2]> {[ 0 := [0; 1; 2] ]}) ∧ total_vm (mm_at st' 0) = 0x5000.
Proof.
  destruct (vma_insert_spec demo [3] [] {[ 0 := [0; 1; 2] ]} 0 [0; 1; 2] 4 demo_wf
    (lookup_singleton_eq _ _) demo_detached ltac:(by vm_compute))
    as [[_ E]|(l1 & l2 & st' & E1 & E2 & E3 & _ & _ & E4)]; [by vm_compute in E|].
  exists l1, l2, st'. split_and!; [done|done|done|]. rewrite E4. by vm_compute.
Defined.


Lemma vma_lookup_witness :
  mm_areas demo 0 [0; 1; 2] ∧ (∃ r, vma_find 0 0x3800 demo = Some r ∧ r = Some 1) ∧
  (∃ r, vma_find_nearest 0 0x8000 demo = Some r ∧ r = Some 2).
Proof.
  split; [apply demo_areas|]. destruct (vma_lookup_spec demo 0 [0; 1; 2] 0x3800 demo_areas) as [(r & E & _) _].
  destruct (vma_lookup_spec demo 0 [0; 1; 2] 0x8000 demo_areas) as [_ (r' & E' & _)].
  split; [exists r|exists r']; (split; [done|]); [vm_compute in E|vm_compute in E']; congruence.
Defined.

(** The size of the first area of an address space is never counted, so that
    removing it makes [total_vm] wrap below zero. *)
Lemma first_area_uncounted :
  let st := mk_vma_state {[ 0 := demo_area 0x1000 0x3000 None None ]} None true
              {[ 0 := mk_mm None 0 0 0 0 0 0 0 0 0 0 0x40000000 0 0 0 0 1 ]} None in
  ∃ st', vma_insert 0 0 st = Some (0, st') ∧ total_vm (mm_at st' 0) = 0 ∧
    total_vm (mm_at (vma_remove 0 0 st').2 0) = 2 ^ 32 - 0x2000.
Proof. eexists. split_and!; [done|by vm_compute|by vm_compute]. Qed.

(** Areas of one file are merged by their ranges alone: the second page of the
    merged area, formerly page 7 of the file, becomes page 1. *)
Lemma merge_ignores_offset :
  let a s e off nx pv := mk_vma s e (VM_READ |: VM_FILE) 5 off 3 0 1 nx pv in
  let st := mk_vma_state {[ 0 := a 0x1000 0x2000 0 (Some 1) None; 1 := a 0x2000 0x3000 0x7000 None (Some 0) ]}
              None true {[ 0 := mk_mm (Some 0) 2 0 0 0 0 0 0 0 0 0 0x40000000 0x1000 0 0 0 1 ]} None in
  ∃ st', vma_merge 0 0 st = (1, st') ∧
    vm_end (vma_at st' 0) = 0x3000 ∧ vm_file_offset (vma_at st' 0) = 0.
Proof. eexists. split_and!; [done|by vm_compute|by vm_compute]. Qed.
