(* ===== verification/PageCache.v ===== *)
(** * The page cache of memory-mapped files (kernel/mm/page_cache.c)

    Cached pages are found through a hash table of 256 collision chains, and
    kept in a doubly-linked list from the most to the least recently used;
    unused entries form a free list through the hash link.  Evicted pages go
    back to the page-frame allocator, which the file sees through its
    interface.

    [cache_wf c F L] says that the three structures agree: [L] are the cached
    entries in order of use, [F] the unused ones, every chain holds exactly the
    entries of [L] that hash to it, and no page of a file is cached twice.  The
    theorems relate every operation to [L]. *)

From S2P Require Import Prelude PageAlloc Dll.

Definition VMM_PAGE_CACHE_POOL_SIZE : Z := 512.
Definition VMM_PAGE_CACHE_HASH_SIZE : Z := 256.

Record vmm_page_cache_entry := mk_pce {
  inode : Z;
  offset : Z;
  phys_addr : Z;
  pce_flags : Z;
  ref_count : Z;
  access_time : Z;
  dirty : bool;
  pce_locked : bool;
  uptodate : bool;
  hash_next : ptr;
  lru_next : ptr;
  lru_prev : ptr;
}.
#[export] Instance eta_pce : Eta vmm_page_cache_entry := fun e =>
  mk_pce (inode e) (offset e) (phys_addr e) (pce_flags e) (ref_count e) (access_time e) (dirty e)
    (pce_locked e) (uptodate e) (hash_next e) (lru_next e) (lru_prev e).
#[export] Instance zeroed_pce : Zeroed vmm_page_cache_entry :=
  mk_pce 0 0 0 0 0 0 false false false None None None.
#[export] Instance pce_linked : Linked vmm_page_cache_entry := {
  lk_next := lru_next;
  lk_prev := lru_prev;
  lk_set_next p e := e⟦lru_next := p⟧;
  lk_set_prev p e := e⟦lru_prev := p⟧;
}.
#[export] Instance pce_linked_laws : LinkedLaws vmm_page_cache_entry.
Proof. by split. Qed.

Record vmm_page_cache_stats := mk_pcs {
  hits : Z;
  misses : Z;
  evictions : Z;
  writebacks : Z;
  total_pages : Z;
}.
#[export] Instance eta_pcs : Eta vmm_page_cache_stats := fun s =>
  mk_pcs (hits s) (misses s) (evictions s) (writebacks s) (total_pages s).

Record page_cache := mk_pc {
  pc_pool : gmap Z vmm_page_cache_entry;
  pc_free_list : ptr;
  pc_hash : gmap Z ptr;
  lru_head : ptr;
  lru_tail : ptr;
  cache_stats : vmm_page_cache_stats;
  cache_clock : Z;
  pc_initialized : bool;
}.
#[export] Instance eta_pc : Eta page_cache := fun c =>
  mk_pc (pc_pool c) (pc_free_list c) (pc_hash c) (lru_head c) (lru_tail c) (cache_stats c)
    (cache_clock c) (pc_initialized c).

Definition page_cache_boot : page_cache := mk_pc ∅ None ∅ None None (mk_pcs 0 0 0 0 0) 0 false.

Definition pce_at (c : page_cache) (e : Z) : vmm_page_cache_entry := (pc_pool c).[e].
Definition upd_pce (e : Z) (f : vmm_page_cache_entry → vmm_page_cache_entry) (c : page_cache) : page_cache :=
  c⟦pc_pool ::= fun p => amod p e f⟧.
Definition upd_stats (f : vmm_page_cache_stats → vmm_page_cache_stats) (c : page_cache) : page_cache :=
  c⟦cache_stats ::= f⟧.

Definition page_cache_hash_fn (ino off : Z) : Z :=
  let hash := (ino ^: u32 (off <<: 4)) ^: (off >>: 3) in
  hash &: (VMM_PAGE_CACHE_HASH_SIZE - 1).

(** ** Recency list *)

(** [entry->access_time = ++cache_clock;] *)
Definition stamp (e : Z) (c : page_cache) : page_cache :=
  let c := c⟦cache_clock ::= fun n => u32 (n + 1)⟧ in
  upd_pce e (fun x => x⟦access_time := cache_clock c⟧) c.

(** The insertion at the head shared by [lru_touch] and [lru_add]. *)
Definition lru_push (e : Z) (c : page_cache) : page_cache :=
  let '(pool, hd) := push_front (pc_pool c) (lru_head c) e in
  let c := c⟦pc_pool := pool⟧⟦lru_head := hd⟧ in
  if is_null (lru_tail c) then c⟦lru_tail := Some e⟧ else c.

Definition lru_touch (e : Z) (c : page_cache) : page_cache :=
  if ptr_eqb (Some e) (lru_head c) then c
  else
    let c := stamp e c in
    let pv := lru_prev (pce_at c e) in
    let c := c⟦pc_pool := (unlink (pc_pool c) (lru_head c) e).1⟧ in
    let c := if ptr_eqb (Some e) (lru_tail c) then c⟦lru_tail := pv⟧ else c in
    lru_push e c.

Definition lru_add (e : Z) (c : page_cache) : page_cache := lru_push e (stamp e c).

Definition lru_remove (e : Z) (c : page_cache) : page_cache :=
  let nx := lru_next (pce_at c e) in
  let pv := lru_prev (pce_at c e) in
  let '(pool, hd) := unlink (pc_pool c) (lru_head c) e in
  let c := c⟦pc_pool := pool⟧⟦lru_head := hd⟧ in
  let c := if is_null nx then c⟦lru_tail := pv⟧ else c in
  c⟦pc_pool ::= fun p => clear_links p e⟧.

(** ** Entries *)

Definition cache_entry_free (e : Z) (c : page_cache) : page_cache :=
  let c := upd_pce e (fun x => x⟦hash_next := pc_free_list c⟧) c in
  c⟦pc_free_list := Some e⟧.

Definition vmm_page_cache_init (c : page_cache) : page_cache :=
  if pc_initialized c then c
  else
    let c := iter_up (Z.to_nat (VMM_PAGE_CACHE_POOL_SIZE - 1)) 0 (fun i =>
               upd_pce i (fun x => x⟦hash_next := Some (i + 1)⟧)) c in
    let c := upd_pce (VMM_PAGE_CACHE_POOL_SIZE - 1) (fun x => x⟦hash_next := None⟧) c in
    let c := c⟦pc_free_list := Some 0⟧ in
    let c := iter_up (Z.to_nat VMM_PAGE_CACHE_HASH_SIZE) 0 (fun i c =>
               c⟦pc_hash ::= fun h => aset h i None⟧) c in
    c⟦lru_head := None⟧⟦lru_tail := None⟧⟦cache_stats := mk_pcs 0 0 0 0 0⟧⟦pc_initialized := true⟧.

(** Loops over the entries; [None] when a chain is longer than the pool. *)
Definition cache_bound : nat := Z.to_nat VMM_PAGE_CACHE_POOL_SIZE.

Fixpoint hash_find (fuel : nat) (c : page_cache) (ino off : Z) (entry : ptr) : option ptr :=
  match entry with
  | None => Some None
  | Some e =>
      if (inode (pce_at c e) =? ino) && (offset (pce_at c e) =? off) then Some (Some e)
      else match fuel with
           | O => None
           | S fuel' => hash_find fuel' c ino off (hash_next (pce_at c e))
           end
  end.

Definition vmm_page_cache_lookup (ino off : Z) (c : page_cache) : option (ptr * page_cache) :=
  let c := if pc_initialized c then c else vmm_page_cache_init c in
  r ← hash_find cache_bound c ino off (pc_hash c).[page_cache_hash_fn ino off];
  Some match r with
  | Some e => (Some e, lru_touch e (upd_stats (fun s => s⟦hits ::= fun n => u32 (n + 1)⟧) c))
  | None => (None, upd_stats (fun s => s⟦misses ::= fun n => u32 (n + 1)⟧) c)
  end.

(** The slot [pp] points to: the head of bucket [h], or the link of an
    entry. *)
Definition slot_get (c : page_cache) (h : Z) (pp : ptr) : ptr :=
  match pp with None => (pc_hash c).[h] | Some p => hash_next (pce_at c p) end.
Definition slot_set (h : Z) (pp v : ptr) (c : page_cache) : page_cache :=
  match pp with
  | None => c⟦pc_hash ::= fun t => aset t h v⟧
  | Some p => upd_pce p (fun x => x⟦hash_next := v⟧) c
  end.

(** [while ( *pp) { ... pp = &( *pp)->hash_next; }] *)
Fixpoint unchain (fuel : nat) (h : Z) (pp : ptr) (entry : Z) (c : page_cache) : option page_cache :=
  match slot_get c h pp with
  | None => Some c
  | Some x =>
      if x =? entry then Some (slot_set h pp (hash_next (pce_at c entry)) c)
      else match fuel with
           | O => None
           | S fuel' => unchain fuel' h (Some x) entry c
           end
  end.

(** [while (victim && skip(victim)) victim = victim->lru_prev;] *)
Fixpoint find_victim (fuel : nat) (c : page_cache) (skip : vmm_page_cache_entry → bool) (victim : ptr) : option ptr :=
  match victim with
  | None => Some None
  | Some v =>
      if skip (pce_at c v) then
        match fuel with
        | O => None
        | S fuel' => find_victim fuel' c skip (lru_prev (pce_at c v))
        end
      else Some (Some v)
  end.

Definition evict_skip (x : vmm_page_cache_entry) : bool := pce_locked x || (1 <? ref_count x).
Definition shrink_skip (x : vmm_page_cache_entry) : bool := pce_locked x || (1 <? ref_count x) || dirty x.

Section operations.
Context {S : Type} `{PageAllocator S}.

Definition vmm_page_cache_remove (e : Z) (c : page_cache) (a : S) : option (page_cache * S) :=
  let c := if dirty (pce_at c e) then upd_stats (fun s => s⟦writebacks ::= fun n => u32 (n + 1)⟧) c else c in
  let hash := page_cache_hash_fn (inode (pce_at c e)) (offset (pce_at c e)) in
  c ← unchain cache_bound hash None e c;
  let c := lru_remove e c in
  a ← (if (ref_count (pce_at c e) <=? 1) && truth (phys_addr (pce_at c e))
       then pa_free (phys_addr (pce_at c e)) a else Some a);
  let c := upd_stats (fun s => s⟦total_pages ::= fun n => u32 (n - 1)⟧) c in
  Some (cache_entry_free e c, a).

(** [while (evicted < num_pages && lru_tail)] *)
Fixpoint evict_loop (fuel : nat) (num evicted : Z) (c : page_cache) (a : S) : option (page_cache * S) :=
  if (evicted <? num) && negb (is_null (lru_tail c)) then
    victim ← find_victim cache_bound c evict_skip (lru_tail c);
    match victim with
    | None => Some (c, a)
    | Some v =>
        '(c, a) ← vmm_page_cache_remove v c a;
        let c := upd_stats (fun s => s⟦evictions ::= fun n => u32 (n + 1)⟧) c in
        match fuel with
        | O => None
        | Datatypes.S fuel' => evict_loop fuel' num (evicted + 1) c a
        end
    end
  else Some (c, a).

Definition vmm_page_cache_evict (num_pages : Z) (c : page_cache) (a : S) : option (page_cache * S) :=
  if pc_initialized c then evict_loop cache_bound num_pages 0 c a else Some (c, a).

Definition take_entry (e : Z) (c : page_cache) : page_cache :=
  let c := c⟦pc_free_list := hash_next (pce_at c e)⟧ in
  upd_pce e (fun _ => mk_pce 0 0 0 0 0 0 false false false None None None) c.

(** The entry becomes the first of its hash chain. *)
Definition link_entry (h e : Z) (c : page_cache) : page_cache :=
  let c := upd_pce e (fun x => x⟦hash_next := (pc_hash c).[h]⟧) c in
  c⟦pc_hash ::= fun t => aset t h (Some e)⟧.

Definition cache_entry_alloc (c : page_cache) (a : S) : option (ptr * page_cache * S) :=
  '(c, a) ← (if is_null (pc_free_list c) then vmm_page_cache_evict 4 c a else Some (c, a));
  match pc_free_list c with
  | None => Some (None, c, a)
  | Some e => Some (Some e, take_entry e c, a)
  end.

Definition vmm_page_cache_insert (ino off phys : Z) (c : page_cache) (a : S) :
    option (ptr * page_cache * S) :=
  let c := if pc_initialized c then c else vmm_page_cache_init c in
  '(existing, c) ← vmm_page_cache_lookup ino off c;
  match existing with
  | Some e => Some (Some e, c, a)
  | None =>
      '(entry, c, a) ← cache_entry_alloc c a;
      match entry with
      | None => Some (None, c, a)
      | Some e =>
          let c := upd_pce e (fun x => x⟦inode := ino⟧⟦offset := off⟧⟦phys_addr := phys⟧
                                        ⟦ref_count := 1⟧⟦uptodate := true⟧) c in
          let hash := page_cache_hash_fn ino off in
          let c := lru_add e (link_entry hash e c) in
          Some (Some e, upd_stats (fun s => s⟦total_pages ::= fun n => u32 (n + 1)⟧) c, a)
      end
  end.

Definition vmm_page_cache_mark_dirty (e : Z) (c : page_cache) : page_cache :=
  lru_touch e (upd_pce e (fun x => x⟦dirty := true⟧) c).

(** The chain walk of [vmm_page_cache_sync] and [vmm_page_cache_sync_all]:
    clean the entries that satisfy [sel]. *)
Fixpoint sync_chain (fuel : nat) (sel : vmm_page_cache_entry → bool) (entry : ptr) (c : page_cache) : option page_cache :=
  match entry with
  | None => Some c
  | Some e =>
      let c := if sel (pce_at c e) && dirty (pce_at c e)
               then upd_stats (fun s => s⟦writebacks ::= fun n => u32 (n + 1)⟧)
                      (upd_pce e (fun x => x⟦dirty := false⟧) c)
               else c in
      match fuel with
      | O => None
      | Datatypes.S fuel' => sync_chain fuel' sel (hash_next (pce_at c e)) c
      end
  end.

Definition sync_buckets (sel : vmm_page_cache_entry → bool) (c : page_cache) : option page_cache :=
  for_up (Z.to_nat VMM_PAGE_CACHE_HASH_SIZE) 0 (fun i c => sync_chain cache_bound sel (pc_hash c).[i] c) c.

Definition vmm_page_cache_sync (ino : Z) (c : page_cache) : option page_cache :=
  if pc_initialized c then sync_buckets (fun x => inode x =? ino) c else Some c.

Definition vmm_page_cache_sync_all (c : page_cache) : option page_cache :=
  if pc_initialized c then sync_buckets (fun _ => true) c else Some c.

Fixpoint invalidate_chain (fuel : nat) (ino : Z) (entry : ptr) (c : page_cache) (a : S) : option (page_cache * S) :=
  match entry with
  | None => Some (c, a)
  | Some e =>
      let next := hash_next (pce_at c e) in
      '(c, a) ← (if inode (pce_at c e) =? ino then vmm_page_cache_remove e c a else Some (c, a));
      match fuel with
      | O => None
      | Datatypes.S fuel' => invalidate_chain fuel' ino next c a
      end
  end.

Definition vmm_page_cache_invalidate (ino : Z) (c : page_cache) (a : S) : option (page_cache * S) :=
  if pc_initialized c then
    for_up (Z.to_nat VMM_PAGE_CACHE_HASH_SIZE) 0
      (fun i '(c, a) => invalidate_chain cache_bound ino (pc_hash c).[i] c a) (c, a)
  else Some (c, a).

(** [while (freed < target_free && cache_stats.total_pages > 0)] *)
Fixpoint shrink_loop (fuel : nat) (target freed : Z) (c : page_cache) (a : S) : option (Z * page_cache * S) :=
  if (freed <? target) && (0 <? total_pages (cache_stats c)) then
    victim ← find_victim cache_bound c shrink_skip (lru_tail c);
    match victim with
    | None => Some (freed, c, a)
    | Some v =>
        '(c, a) ← vmm_page_cache_remove v c a;
        match fuel with
        | O => None
        | Datatypes.S fuel' => shrink_loop fuel' target (freed + 1) c a
        end
    end
  else Some (freed, c, a).

Definition vmm_page_cache_shrink (target_free : Z) (c : page_cache) (a : S) : option (Z * page_cache * S) :=
  shrink_loop cache_bound target_free 0 c a.

Definition vmm_page_cache_get_stats (c : page_cache) : vmm_page_cache_stats := cache_stats c.

End operations.

(** ** The invariant *)

Definition key (c : page_cache) (e : Z) : Z * Z := (inode (pce_at c e), offset (pce_at c e)).
Definition key_hash (k : Z * Z) : Z := page_cache_hash_fn k.1 k.2.

(** [L] from the most to the least recently used. *)
Record cache_wf (c : page_cache) (F L : list Z) : Prop := {
  cw_init : pc_initialized c = true;
  cw_free : chain hash_next (pc_pool c) (pc_free_list c) F;
  cw_lru : dll (pc_pool c) (lru_head c) L;
  cw_tail : lru_tail c = last L;
  cw_bucket : ∀ h, ∃ B, chain hash_next (pc_pool c) (pc_hash c).[h] B ∧ NoDup B ∧
    ∀ e, e ∈ B ↔ e ∈ L ∧ key_hash (key c e) = h;
  cw_nodup : NoDup (F ++ L);
  cw_pool : ∀ e, e ∈ F ++ L → 0 ≤ e < VMM_PAGE_CACHE_POOL_SIZE;
  cw_key : ∀ e e', e ∈ L → e' ∈ L → key c e = key c e' → e = e';
  cw_total : total_pages (cache_stats c) = Z.of_nat (length L);
}.

Lemma pce_at_upd c e f u : pce_at (upd_pce e f c) u = if decide (e = u) then f (pce_at c e) else pce_at c u.
Proof. apply aget_amod. Qed.

(** Everything of an entry but its place in the recency list. *)
Definition core (x : vmm_page_cache_entry) : vmm_page_cache_entry :=
  x⟦lru_next := None⟧⟦lru_prev := None⟧⟦access_time := 0⟧.

Record lru_only (c c' : page_cache) : Prop := {
  lo_core : ∀ u, core (pce_at c' u) = core (pce_at c u);
  lo_hash : pc_hash c' = pc_hash c;
  lo_free : pc_free_list c' = pc_free_list c;
  lo_init : pc_initialized c' = pc_initialized c;
  lo_stats : cache_stats c' = cache_stats c;
}.

Lemma entry_core_fields x y :
  core x = core y → inode x = inode y ∧ offset x = offset y ∧ phys_addr x = phys_addr y ∧
    ref_count x = ref_count y ∧ dirty x = dirty y ∧ pce_locked x = pce_locked y ∧ uptodate x = uptodate y ∧
    hash_next x = hash_next y.
Proof. by intros [=]. Qed.

Lemma core_key c c' u : core (pce_at c' u) = core (pce_at c u) → key c' u = key c u.
Proof. intros (E1 & E2 & _)%entry_core_fields. unfold key. by rewrite E1, E2. Qed.

Lemma lru_only_refl c : lru_only c c.
Proof. by split. Qed.

Lemma lru_only_trans c1 c2 c3 : lru_only c1 c2 → lru_only c2 c3 → lru_only c1 c3.
Proof. intros [A1 A2 A3 A4 A5] [B1 B2 B3 B4 B5]. split; try congruence. Qed.

Lemma wf_length c F L : cache_wf c F L → (length F + length L ≤ cache_bound)%nat.
Proof.
  intros Hwf. rewrite <- length_app.
  assert (F ++ L ⊆+ seqZ 0 VMM_PAGE_CACHE_POOL_SIZE) as Hsub.
  { apply NoDup_submseteq; [apply Hwf|]. intros e He. apply elem_of_seqZ. apply (cw_pool _ _ _ Hwf) in He. lia. }
  apply submseteq_length in Hsub. rewrite length_seqZ in Hsub. done.
Qed.

(** Reordering the recency list. *)
Lemma wf_reorder c c' F L L' :
  cache_wf c F L → lru_only c c' → dll (pc_pool c') (lru_head c') L' → lru_tail c' = last L' → L ≡ₚ L' →
  cache_wf c' F L'.
Proof.
  intros [Hi Hf Hl Ht Hb Hn Hp Hk Htot] [Lc Lh Lf Li Ls] Hd Ht' Hperm.
  assert (∀ u, hash_next (pc_pool c').[u] = hash_next (pc_pool c).[u]) as Hnx.
  { intros u. apply (entry_core_fields _ _ (Lc u)). }
  split; try done.
  - congruence.
  - rewrite Lf. eapply chain_ext; [|done]. auto.
  - intros h. destruct (Hb h) as (B & HB & HBn & HBe). exists B. split_and!; [|done|].
    + rewrite Lh. eapply chain_ext; [|done]. auto.
    + intros e. rewrite HBe, Hperm, (core_key _ _ _ (Lc e)). done.
  - by rewrite <- Hperm.
  - intros e. rewrite <- Hperm. apply Hp.
  - intros e e'. rewrite <- !Hperm, !(core_key _ _ _ (Lc _)). apply Hk.
  - rewrite Ls, Htot. by rewrite Hperm.
Qed.

(** ** The recency list *)

Lemma stamp_only e c : lru_only c (stamp e c).
Proof.
  split; try done. intros u. unfold stamp. rewrite pce_at_upd. by case_decide; subst.
Qed.

Lemma stamp_links e c u :
  lru_next (pce_at (stamp e c) u) = lru_next (pce_at c u) ∧ lru_prev (pce_at (stamp e c) u) = lru_prev (pce_at c u).
Proof. unfold stamp. rewrite pce_at_upd. by case_decide; subst. Qed.

Lemma stamp_dll e c L : dll (pc_pool c) (lru_head c) L → dll (pc_pool (stamp e c)) (lru_head (stamp e c)) L.
Proof. apply dll_ext. intros u _. apply stamp_links. Qed.

Lemma lru_push_spec e c L :
  dll (pc_pool c) (lru_head c) L → lru_tail c = last L → e ∉ L →
  lru_only c (lru_push e c) ∧ dll (pc_pool (lru_push e c)) (lru_head (lru_push e c)) (e :: L) ∧
  lru_tail (lru_push e c) = last (e :: L).
Proof.
  intros Hd Ht He. pose proof (push_front_dll _ _ _ _ Hd He) as Hd'.
  pose proof (push_front_frame core (fun _ _ => eq_refl) (fun _ _ => eq_refl) (pc_pool c) (lru_head c) e) as Hfr.
  assert ((push_front (pc_pool c) (lru_head c) e).2 = Some e) as Eh by done.
  unfold lru_push. destruct (push_front (pc_pool c) (lru_head c) e) as [pool hd]. cbn [fst snd] in *. subst hd.
  change (lru_tail c⟦pc_pool := pool⟧⟦lru_head := Some e⟧) with (lru_tail c). rewrite Ht.
  destruct (last L) as [t|] eqn:El; cbn [is_null].
  - split; [by split|]. split; [done|]. destruct L; [done|]. by rewrite last_cons_cons, El.
  - apply last_None in El as ->. split; [by split|]. by split.
Qed.

Lemma lru_add_spec e c L :
  dll (pc_pool c) (lru_head c) L → lru_tail c = last L → e ∉ L →
  lru_only c (lru_add e c) ∧ dll (pc_pool (lru_add e c)) (lru_head (lru_add e c)) (e :: L) ∧
  lru_tail (lru_add e c) = last (e :: L).
Proof.
  intros Hd Ht He. destruct (lru_push_spec e (stamp e c) L) as (H1 & H2 & H3); [by apply stamp_dll|done|done|].
  split_and!; [|done|done]. eapply lru_only_trans; [apply stamp_only|done].
Qed.

Lemma unlink_only e c hd :
  lru_only c c⟦pc_pool := (unlink (pc_pool c) hd e).1⟧.
Proof. split; try done. intros u. by apply (unlink_frame core). Qed.

Lemma lru_touch_spec e c l1 l2 :
  dll (pc_pool c) (lru_head c) (l1 ++ e :: l2) → lru_tail c = last (l1 ++ e :: l2) →
  lru_only c (lru_touch e c) ∧ dll (pc_pool (lru_touch e c)) (lru_head (lru_touch e c)) (e :: l1 ++ l2) ∧
  lru_tail (lru_touch e c) = last (e :: l1 ++ l2).
Proof.
  intros Hd Ht. pose proof Hd as (Hh & Hnd & _). unfold lru_touch, ptr_eqb.
  destruct l1 as [|h l1].
  { rewrite bool_decide_true by (by rewrite Hh). by split; [apply lru_only_refl|]. }
  rewrite bool_decide_false.
  2: { rewrite Hh. intros [= ->]. apply NoDup_cons in Hnd as [Hn _]. set_solver. }
  set (c1 := stamp e c). assert (dll (pc_pool c1) (lru_head c1) ((h :: l1) ++ e :: l2)) as Hd1 by (by apply stamp_dll).
  pose proof (unlink_dll _ _ _ _ _ Hd1) as Hd2. pose proof (unlink_head _ _ _ _ _ Hd1) as Hh2.
  assert (e ∉ (h :: l1) ++ l2) as He.
  { apply NoDup_app in Hnd as (_ & H1 & [H2 _]%NoDup_cons). set_solver. }
  assert (lru_prev (pce_at c1 e) = last (h :: l1)) as Hpv.
  { apply dll_split in Hd1 as [Hp _]. etrans; [exact Hp|]. unfold last_or. by destruct (last (h :: l1)) eqn:E; [|apply last_None in E]. }
  set (c2 := c1⟦pc_pool := (unlink (pc_pool c1) (lru_head c1) e).1⟧).
  assert (lru_head c2 = (unlink (pc_pool c1) (lru_head c1) e).2) as Eh.
  { rewrite Hh2. change (lru_head c = first_or ((h :: l1) ++ l2) None). by rewrite Hh. }
  assert (lru_only c c2) as Hlo.
  { eapply lru_only_trans; [apply (stamp_only e)|apply unlink_only]. }
  rewrite <- Eh in Hd2. change (dll (pc_pool c2) (lru_head c2) ((h :: l1) ++ l2)) in Hd2. rewrite Hpv.
  assert (lru_tail c2 = last ((h :: l1) ++ e :: l2)) as Ht2 by done.
  clearbody c2. clear c1 Hd1 Hh2 Hpv Eh.
  set (c3 := if bool_decide (Some e = lru_tail c2) then c2⟦lru_tail := last (h :: l1)⟧ else c2).
  assert (lru_only c c3 ∧ dll (pc_pool c3) (lru_head c3) ((h :: l1) ++ l2) ∧ lru_tail c3 = last ((h :: l1) ++ l2))
    as (Hlo3 & Hd3 & Ht3).
  { subst c3. rewrite Ht2. rewrite last_app_cons. destruct l2 as [|x l2].
    - rewrite bool_decide_true by done. rewrite app_nil_r in *. split_and!; [|done|done].
      eapply lru_only_trans; [exact Hlo|by split].
    - rewrite last_cons_cons. rewrite bool_decide_false.
      + split_and!; [done|done|]. by rewrite Ht2, last_app_cons, last_app_cons, last_cons_cons.
      + intros E. symmetry in E. apply last_Some_elem_of in E. set_solver. }
  destruct (lru_push_spec e c3 _ Hd3 Ht3 He) as (H1 & H2 & H3). split_and!; [|done|done].
  by eapply lru_only_trans.
Qed.

(** ** Lookup *)

Definition has_key (c : page_cache) (k : Z * Z) (e : Z) : bool :=
  (inode (pce_at c e) =? k.1) && (offset (pce_at c e) =? k.2).

Lemma has_key_spec c k e : has_key c k e = true ↔ key c e = k.
Proof. unfold has_key, key. destruct k. rewrite andb_true_iff, !Z.eqb_eq. cbn. naive_solver. Qed.

Lemma hash_find_eq fuel c ino off p B :
  chain hash_next (pc_pool c) p B → (length B ≤ fuel)%nat →
  hash_find fuel c ino off p = Some (List.find (has_key c (ino, off)) B).
Proof.
  revert fuel p. induction B as [|e B IH]; intros fuel p Hc Hf; cbn [chain length] in *.
  { subst. by destruct fuel. }
  destruct Hc as [-> Hc]. destruct fuel as [|fuel]; [lia|]. cbn [hash_find List.find].
  unfold has_key at 1. cbn [fst snd]. destruct (_ && _); [done|]. apply IH; [done|lia].
Qed.

Lemma bucket_length c F L B : cache_wf c F L → NoDup B → (∀ e, e ∈ B → e ∈ L) → (length B ≤ cache_bound)%nat.
Proof.
  intros Hwf HB Hsub. pose proof (wf_length _ _ _ Hwf). apply NoDup_submseteq in Hsub; [|done].
  apply submseteq_length in Hsub. lia.
Qed.

Lemma wf_stats c F L f :
  cache_wf c F L → (∀ s, total_pages (f s) = total_pages s) → cache_wf (upd_stats f c) F L.
Proof. intros [Hi Hf Hl Ht Hb Hn Hp Hk Htot] Hs. split; try done. cbn. by rewrite Hs. Qed.

Lemma touch_wf c F l1 e l2 :
  cache_wf c F (l1 ++ e :: l2) → cache_wf (lru_touch e c) F (e :: l1 ++ l2) ∧ lru_only c (lru_touch e c).
Proof.
  intros Hwf. destruct (lru_touch_spec e c l1 l2 (cw_lru _ _ _ Hwf) (cw_tail _ _ _ Hwf)) as (H1 & H2 & H3).
  split; [|done]. eapply wf_reorder; [done..|]. by rewrite Permutation_middle.
Qed.

Lemma lookup_wf c F L ino off :
  cache_wf c F L →
  (∃ e l1 l2 c', L = l1 ++ e :: l2 ∧ key c e = (ino, off) ∧ vmm_page_cache_lookup ino off c = Some (Some e, c') ∧
    cache_wf c' F (e :: l1 ++ l2) ∧ (∀ u, core (pce_at c' u) = core (pce_at c u))) ∨
  (∃ c', (∀ e, e ∈ L → key c e ≠ (ino, off)) ∧ vmm_page_cache_lookup ino off c = Some (None, c') ∧
    cache_wf c' F L ∧ pc_pool c' = pc_pool c).
Proof.
  intros Hwf. unfold vmm_page_cache_lookup. rewrite (cw_init _ _ _ Hwf).
  destruct (cw_bucket _ _ _ Hwf (page_cache_hash_fn ino off)) as (B & HB & HBn & HBe).
  rewrite (hash_find_eq _ _ _ _ _ _ HB) by (eapply bucket_length; [done|done|]; intros; by apply HBe).
  cbn [mbind option_bind]. destruct (List.find _ B) as [e|] eqn:E.
  - left. apply find_some in E as [He%list_elem_of_In Hk%has_key_spec]. apply HBe in He as [He _].
    apply list_elem_of_split in He as (l1 & l2 & ->).
    destruct (touch_wf (upd_stats (fun s => s⟦hits ::= fun n => u32 (n + 1)⟧) c) F l1 e l2) as [Hwf' Hlo];
      [by apply wf_stats|].
    exists e, l1, l2. eexists. split_and!; [done|done|done|done|]. intros u. apply Hlo.
  - right. eexists. split_and!; [|done|by apply wf_stats|done].
    intros e He Hk. assert (e ∈ B) as HeB.
    { apply HBe. split; [done|]. by rewrite Hk. }
    eapply find_none in E; [|by apply list_elem_of_In]. apply has_key_spec in Hk. congruence.
Qed.

(** ** Removal *)

(** Everything of an entry but its links. *)
Definition data (x : vmm_page_cache_entry) : vmm_page_cache_entry := (core x)⟦hash_next := None⟧.

Lemma core_data x y : core x = core y → data x = data y.
Proof. unfold data. by intros ->. Qed.

Lemma data_fields x y :
  data x = data y → inode x = inode y ∧ offset x = offset y ∧ phys_addr x = phys_addr y ∧
    ref_count x = ref_count y ∧ dirty x = dirty y ∧ pce_locked x = pce_locked y ∧ uptodate x = uptodate y.
Proof. by intros [=]. Qed.

Lemma data_key c c' u : data (pce_at c' u) = data (pce_at c u) → key c' u = key c u.
Proof. intros (E1 & E2 & _)%data_fields. unfold key. by rewrite E1, E2. Qed.

Lemma unchain_eq fuel h pp e c l1 l2 :
  chain hash_next (pc_pool c) (slot_get c h pp) (l1 ++ e :: l2) → e ∉ l1 → (length l1 ≤ fuel)%nat →
  unchain fuel h pp e c = Some (slot_set h (last_or pp l1) (hash_next (pce_at c e)) c).
Proof.
  revert fuel pp. induction l1 as [|x l1 IH]; intros fuel pp; cbn [app chain length].
  - intros [E _] _ _. destruct fuel; cbn [unchain]; rewrite E, Z.eqb_refl; done.
  - intros [E Hc] Hx Hf. destruct fuel as [|fuel]; [lia|]. cbn [unchain]. rewrite E.
    destruct (Z.eqb_spec x e); [set_solver|]. rewrite last_or_cons. apply IH; [done|set_solver|lia].
Qed.

Lemma slot_set_data h pp v c u : data (pce_at (slot_set h pp v c) u) = data (pce_at c u).
Proof. destruct pp; [|done]. cbn. rewrite pce_at_upd. by case_decide; subst. Qed.

Lemma slot_set_links h pp v c u :
  lru_next (pce_at (slot_set h pp v c) u) = lru_next (pce_at c u) ∧
  lru_prev (pce_at (slot_set h pp v c) u) = lru_prev (pce_at c u).
Proof. destruct pp; [|done]. cbn. rewrite pce_at_upd. by case_decide; subst. Qed.

Lemma slot_set_next h pp v c u :
  hash_next (pce_at (slot_set h pp v c) u) = if decide (pp = Some u) then v else hash_next (pce_at c u).
Proof.
  destruct pp as [p|]; cbn [slot_set].
  - rewrite pce_at_upd. repeat case_decide; simplify_eq; done.
  - by rewrite decide_False.
Qed.

Lemma slot_set_hash h pp v c k :
  (pc_hash (slot_set h pp v c)).[k] = if decide (pp = None ∧ h = k) then v else (pc_hash c).[k].
Proof.
  destruct pp as [p|]; cbn.
  - by rewrite decide_False by naive_solver.
  - rewrite aget_aset. by repeat case_decide; naive_solver.
Qed.

(** The state in which [e] is in no chain and in no recency list. *)
Record cache_out (c : page_cache) (F L : list Z) (e : Z) : Prop := {
  co_init : pc_initialized c = true;
  co_free : chain hash_next (pc_pool c) (pc_free_list c) F;
  co_lru : dll (pc_pool c) (lru_head c) L;
  co_tail : lru_tail c = last L;
  co_bucket : ∀ h, ∃ B, chain hash_next (pc_pool c) (pc_hash c).[h] B ∧ NoDup B ∧
    ∀ u, u ∈ B ↔ u ∈ L ∧ key_hash (key c u) = h;
  co_nodup : NoDup (e :: F ++ L);
  co_pool : ∀ u, u ∈ e :: F ++ L → 0 ≤ u < VMM_PAGE_CACHE_POOL_SIZE;
  co_key : ∀ u u', u ∈ L → u' ∈ L → key c u = key c u' → u = u';
}.

(** After the hash removal, the recency list still holds [e]. *)
Lemma unchain_bucket c F l1 e l2 :
  cache_wf c F (l1 ++ e :: l2) →
  ∃ c', unchain cache_bound (key_hash (key c e)) None e c = Some c' ∧
    (∀ u, data (pce_at c' u) = data (pce_at c u)) ∧ cache_stats c' = cache_stats c ∧
    pc_initialized c' = true ∧ lru_head c' = lru_head c ∧ lru_tail c' = lru_tail c ∧
    (∀ u, lru_next (pce_at c' u) = lru_next (pce_at c u) ∧ lru_prev (pce_at c' u) = lru_prev (pce_at c u)) ∧
    chain hash_next (pc_pool c') (pc_free_list c') F ∧
    (∀ h, ∃ B, chain hash_next (pc_pool c') (pc_hash c').[h] B ∧ NoDup B ∧
      ∀ u, u ∈ B ↔ u ∈ l1 ++ l2 ∧ key_hash (key c u) = h).
Proof.
  intros Hwf. set (L := l1 ++ e :: l2). set (h := key_hash (key c e)).
  pose proof (cw_nodup _ _ _ Hwf) as (HnF & HFL & HnL)%NoDup_app.
  assert (e ∉ l1 ++ l2) as He.
  { subst L. apply NoDup_app in HnL as (_ & H1 & [H2 _]%NoDup_cons). set_solver. }
  destruct (cw_bucket _ _ _ Hwf h) as (B & HB & HBn & HBe).
  assert (e ∈ B) as HeB by (apply HBe; split; [subst L; set_solver|done]).
  apply list_elem_of_split in HeB as (b1 & b2 & ->).
  pose proof HBn as (Hb1 & Hb12 & [Hb2 Hb3]%NoDup_cons)%NoDup_app.
  assert (e ∉ b1) as Heb1 by (intros ?; eapply Hb12; [done|set_solver]).
  eexists. split.
  { apply (unchain_eq _ h None e c b1 b2); [done|done|].
    pose proof (bucket_length c F L (b1 ++ e :: b2) Hwf HBn ltac:(intros; by apply HBe)) as Hlen.
    rewrite length_app in Hlen. lia. }
  set (pp := last_or None b1). set (c' := slot_set h pp _ c).
  assert (∀ u, last b1 = Some u → u ∈ L ∧ key_hash (key c u) = h) as Hlast.
  { intros u Hu%last_Some_elem_of. apply HBe. set_solver. }
  assert (∀ u, pp = Some u ↔ last b1 = Some u) as Hpp.
  { intros u. subst pp. unfold last_or. by destruct (last b1). }
  split_and!; try by (subst c' pp; destruct (last_or None b1)).
  - intros u. apply slot_set_data.
  - subst c' pp. destruct (last_or None b1); apply Hwf.
  - intros u. apply slot_set_links.
  - assert (pc_free_list c' = pc_free_list c) as -> by (subst c' pp; by destruct (last_or None b1)).
    eapply chain_ext; [|apply Hwf]. intros u Hu. change (hash_next (pce_at c' u) = hash_next (pce_at c u)).
    subst c'. rewrite slot_set_next, decide_False; [done|]. rewrite Hpp. intros E. apply Hlast in E as [E _].
    by eapply HFL.
  - intros k. destruct (decide (k = h)) as [->|Hne].
    + exists (b1 ++ b2). split_and!.
      * assert ((pc_hash c').[h] = match b1 with [] => hash_next (pc_pool c).[e] | _ => (pc_hash c).[h] end) as ->.
        { subst c' pp. rewrite slot_set_hash. destruct b1 as [|x b1]; [by rewrite decide_True|].
          rewrite decide_False; [done|]. rewrite last_or_cons. unfold last_or. destruct (last b1); naive_solver. }
        eapply chain_remove; [done|done|]. intros u Hu.
        change (hash_next (pce_at c' u) = if decide (last b1 = Some u) then hash_next (pce_at c e) else hash_next (pce_at c u)).
        subst c'. rewrite slot_set_next. apply decide_ext, Hpp.
      * apply NoDup_app. split_and!; [done|set_solver|done].
      * intros u. specialize (HBe u). subst L. rewrite !elem_of_app, !elem_of_cons in *.
        assert (u = e → (u ∉ b1) ∧ (u ∉ b2) ∧ (u ∉ l1) ∧ (u ∉ l2)) as Hu by (intros ->; set_solver).
        clear -HBe Hu. destruct (decide (u = e)); naive_solver.
    + destruct (cw_bucket _ _ _ Hwf k) as (B' & HB' & HBn' & HBe'). exists B'. split_and!; [|done|].
      * assert ((pc_hash c').[k] = (pc_hash c).[k]) as ->.
        { subst c'. rewrite slot_set_hash, decide_False; [done|]. intros [_ ?]. congruence. }
        eapply chain_ext; [|done]. intros u Hu. change (hash_next (pce_at c' u) = hash_next (pce_at c u)).
        subst c'. rewrite slot_set_next, decide_False; [done|]. rewrite Hpp. intros E. apply Hlast in E as [_ E].
        apply HBe' in Hu as [_ Hu]. congruence.
      * intros u. rewrite HBe'. subst L. rewrite !elem_of_app, elem_of_cons. split; [|naive_solver].
        intros [[?|[->|?]] E]; [naive_solver| |naive_solver]. by subst.
Qed.

Lemma lru_remove_spec e c l1 l2 :
  dll (pc_pool c) (lru_head c) (l1 ++ e :: l2) → lru_tail c = last (l1 ++ e :: l2) →
  lru_only c (lru_remove e c) ∧ dll (pc_pool (lru_remove e c)) (lru_head (lru_remove e c)) (l1 ++ l2) ∧
  lru_tail (lru_remove e c) = last (l1 ++ l2).
Proof.
  intros Hd Ht. pose proof (unlink_dll _ _ _ _ _ Hd) as Hd'.
  destruct (dll_split _ _ _ _ _ Hd) as [Hp Hn].
  change (lru_prev (pce_at c e) = last_or None l1) in Hp. change (lru_next (pce_at c e) = first_or l2 None) in Hn.
  assert (e ∉ l1 ++ l2) as He.
  { destruct Hd as (_ & (_ & H1 & [H2 _]%NoDup_cons)%NoDup_app & _). set_solver. }
  pose proof (unlink_frame core (fun _ _ => eq_refl) (fun _ _ => eq_refl) (pc_pool c) (lru_head c) e) as Hfr.
  unfold lru_remove. rewrite Hp, Hn.
  destruct (unlink (pc_pool c) (lru_head c) e) as [pool hd]. cbn [fst snd] in *.
  assert (∀ u, core (clear_links pool e).[u] = core (pce_at c u)) as Hfr'.
  { intros u. rewrite (clear_links_frame core); [apply Hfr|done|done]. }
  assert (dll (clear_links pool e) hd (l1 ++ l2)) as Hd2 by (by apply clear_links_dll).
  destruct l2 as [|x l2]; cbn [first_or is_null].
  - rewrite app_nil_r in *. split; [by split|]. split; [done|].
    change (last_or None l1 = last l1). unfold last_or. by destruct (last l1).
  - split; [by split|]. split; [done|]. change (lru_tail c = last (l1 ++ x :: l2)).
    by rewrite Ht, !last_app_cons, last_cons_cons.
Qed.

(** Returning an entry that is in no list. *)
Lemma out_free c F L e :
  cache_out c F L e → total_pages (cache_stats c) = Z.of_nat (length L) →
  cache_wf (cache_entry_free e c) (e :: F) L.
Proof.
  intros [Hi Hf Hl Ht Hb Hn Hp Hk] Htot. pose proof Hn as [He [_ [HFL _]]%NoDup_app]%NoDup_cons.
  assert (∀ u, u ≠ e → pce_at (cache_entry_free e c) u = pce_at c u) as Hat.
  { intros u Hu. change (pce_at (upd_pce e (fun x => x⟦hash_next := pc_free_list c⟧) c) u = pce_at c u).
    by rewrite pce_at_upd, decide_False by done. }
  assert (∀ u, u ∈ F ++ L → (pc_pool (cache_entry_free e c)).[u] = (pc_pool c).[u]) as Hat'.
  { intros u Hu. apply Hat. set_solver. }
  split; try done.
  - eapply (chain_push _ (pc_pool c)); [done|..].
    + change (hash_next (pce_at (upd_pce e (fun x => x⟦hash_next := pc_free_list c⟧) c) e) = pc_free_list c).
      by rewrite pce_at_upd, decide_True.
    + intros u Hu. by rewrite Hat' by set_solver.
  - eapply dll_ext; [|done]. intros u Hu. by rewrite Hat' by set_solver.
  - intros h. destruct (Hb h) as (B & HB & HBn & HBe). exists B. split_and!; [|done|].
    + eapply chain_ext; [|done]. intros u Hu%HBe. rewrite Hat'; [done|]. set_solver.
    + intros u. rewrite HBe. unfold key. split; intros [Hu E]; (split; [done|]); rewrite Hat in * by set_solver; done.
  - intros u u' Hu Hu'. unfold key. rewrite !Hat by set_solver. by apply Hk.
Qed.

(** ** Insertion *)

Lemma out_upd c F L e f : cache_out c F L e → cache_out (upd_pce e f c) F L e.
Proof.
  intros [Hi Hf Hl Ht Hb Hn Hp Hk]. pose proof Hn as [He _]%NoDup_cons.
  assert (∀ u, u ∈ F ++ L → (pc_pool (upd_pce e f c)).[u] = (pc_pool c).[u]) as Hat.
  { intros u Hu. apply aget_amod_ne. by intros ->. }
  assert (∀ u, u ∈ L → key (upd_pce e f c) u = key c u) as Hkey.
  { intros u Hu. unfold key, pce_at. by rewrite Hat by set_solver. }
  split; try done.
  - eapply chain_ext; [|done]. intros u Hu. by rewrite Hat by set_solver.
  - eapply dll_ext; [|done]. intros u Hu. by rewrite Hat by set_solver.
  - intros h. destruct (Hb h) as (B & HB & HBn & HBe). exists B. split_and!; [|done|].
    + eapply chain_ext; [|done]. intros u Hu%HBe. rewrite Hat by set_solver. done.
    + intros u. rewrite HBe. split; intros [Hu E]; (split; [done|]); rewrite Hkey in * by done; done.
  - intros u u' Hu Hu'. rewrite !Hkey by done. by apply Hk.
Qed.

Lemma take_out c e F L : cache_wf c (e :: F) L → cache_out (take_entry e c) F L e.
Proof.
  intros [Hi Hf Hl Ht Hb Hn Hp Hk Htot]. unfold take_entry. cbn [chain] in Hf. destruct Hf as [_ Hf].
  apply out_upd. by split.
Qed.

Lemma link_bucket c F L e h :
  cache_out c F L e → h = key_hash (key c e) →
  ∀ k, ∃ B, chain hash_next (pc_pool (link_entry h e c)) (pc_hash (link_entry h e c)).[k] B ∧ NoDup B ∧
    ∀ u, u ∈ B ↔ u ∈ e :: L ∧ key_hash (key c u) = k.
Proof.
  intros Hout Hh k. pose proof (co_nodup _ _ _ _ Hout) as [He _]%NoDup_cons.
  destruct (co_bucket _ _ _ _ Hout k) as (B & HB & HBn & HBe).
  assert (e ∉ B) as HeB by (rewrite HBe; set_solver).
  assert (∀ u, u ∈ B → hash_next (pc_pool (link_entry h e c)).[u] = hash_next (pc_pool c).[u]) as Hnx.
  { intros u Hu. unfold link_entry. cbn. rewrite aget_amod_ne; [done|]. by intros ->. }
  destruct (decide (k = h)) as [->|Hne].
  - exists (e :: B). split_and!.
    + assert ((pc_hash (link_entry h e c)).[h] = Some e) as -> by (unfold link_entry; cbn; by rewrite aget_aset_eq).
      eapply (chain_push _ (pc_pool c)); [done| |done]. unfold link_entry. cbn. by rewrite aget_amod_eq.
    + by apply NoDup_cons.
    + intros u. rewrite !elem_of_cons, HBe. naive_solver.
  - exists B. split_and!; [|done|].
    + assert ((pc_hash (link_entry h e c)).[k] = (pc_hash c).[k]) as ->.
      { unfold link_entry. cbn. by rewrite aget_aset_ne by congruence. }
      by eapply chain_ext.
    + intros u. rewrite elem_of_cons, HBe. split; [naive_solver|]. intros [[->|?] E]; [congruence|done].
Qed.

Lemma link_entry_data h e c u : data (pce_at (link_entry h e c) u) = data (pce_at c u).
Proof.
  change (data (pce_at (upd_pce e (fun x => x⟦hash_next := (pc_hash c).[h]⟧) c) u) = data (pce_at c u)).
  rewrite pce_at_upd. by case_decide; subst.
Qed.

Lemma out_link c F L e h :
  cache_out c F L e → total_pages (cache_stats c) = Z.of_nat (length L) → h = key_hash (key c e) →
  (∀ u, u ∈ L → key c u ≠ key c e) →
  let c' := upd_stats (fun s => s⟦total_pages ::= fun n => u32 (n + 1)⟧) (lru_add e (link_entry h e c)) in
  cache_wf c' F (e :: L) ∧ (∀ u, data (pce_at c' u) = data (pce_at c u)).
Proof.
  intros Hout Htot Hh Hkey c'. pose proof (link_bucket c F L e h Hout Hh) as Hb. destruct Hout as [Hi Hf Hl Ht _ Hn Hp Hk].
  pose proof Hn as [He Hn']%NoDup_cons. set (c1 := link_entry h e c) in *.
  assert (∀ u, u ≠ e → pce_at c1 u = pce_at c u) as Hat.
  { intros u Hu. unfold c1, link_entry, pce_at. cbn. by rewrite aget_amod_ne by congruence. }
  assert (dll (pc_pool c1) (lru_head c1) L) as Hl1.
  { eapply dll_ext; [|exact Hl]. intros u Hu. assert (u ≠ e) as Hne by set_solver. apply Hat in Hne.
    unfold pce_at in Hne. by rewrite Hne. }
  destruct (lru_add_spec e c1 L Hl1 Ht ltac:(set_solver)) as ([Lc Lh Lf Li Ls] & Hd & Htl).
  assert (∀ u, data (pce_at c' u) = data (pce_at c u)) as Hdata.
  { intros u. etrans; [apply (core_data _ _ (Lc u))|apply link_entry_data]. }
  assert (∀ u, hash_next (pc_pool (lru_add e c1)).[u] = hash_next (pc_pool c1).[u]) as Hnx.
  { intros u. apply (entry_core_fields _ _ (Lc u)). }
  assert (∀ u, key c' u = key c u) as Hk' by (intros u; by apply data_key).
  split; [|done]. subst c'. set (c2 := lru_add e c1) in *. clearbody c2. split; try done.
  - change (pc_initialized c2 = true). by rewrite Li.
  - change (chain hash_next (pc_pool c2) (pc_free_list c2) F). rewrite Lf.
    eapply chain_ext; [|exact Hf]. intros u Hu. rewrite Hnx. assert (u ≠ e) as Hne by set_solver. apply Hat in Hne.
    unfold pce_at in Hne. by rewrite Hne.
  - intros k. destruct (Hb k) as (B & HB & HBn & HBe). exists B. split_and!; [|done|intros u; by rewrite HBe, Hk'].
    change (chain hash_next (pc_pool c2) (pc_hash c2).[k] B). rewrite Lh.
    eapply chain_ext; [|done]. auto.
  - by rewrite <- Permutation_middle.
  - intros u Hu. apply Hp. set_solver.
  - intros u u'. rewrite !Hk', !elem_of_cons. intros [->|Hu] [->|Hu'] E; [done| | |by apply Hk].
    + by destruct (Hkey u' Hu').
    + by destruct (Hkey u Hu).
  - change (u32 (total_pages (cache_stats c2) + 1) = Z.of_nat (length (e :: L))). rewrite Ls.
    change (cache_stats c1) with (cache_stats c). rewrite Htot. cbn [length].
    assert (length L ≤ cache_bound)%nat as Hlen.
    { assert (L ⊆+ seqZ 0 VMM_PAGE_CACHE_POOL_SIZE) as Hsub.
      { apply NoDup_submseteq; [by apply NoDup_app in Hn' as (_ & _ & ?)|]. intros u Hu. apply elem_of_seqZ.
        specialize (Hp u ltac:(set_solver)). lia. }
      apply submseteq_length in Hsub. rewrite length_seqZ in Hsub. done. }
    unfold cache_bound, VMM_PAGE_CACHE_POOL_SIZE in Hlen. rewrite u32_small; lia.
Qed.

Section theory.
Context {S : Type} `{PageAllocatorLaws S}.

(** The page an entry gives back when it is removed. *)
Definition released (x : vmm_page_cache_entry) : gset Z :=
  if (ref_count x <=? 1) && truth (phys_addr x) then {[phys_addr x / PAGE_SIZE]} else ∅.

Lemma remove_wf c F l1 e l2 (a : S) U :
  cache_wf c F (l1 ++ e :: l2) → pa_rep a U → 0 ≤ phys_addr (pce_at c e) < TOTAL_PAGES * PAGE_SIZE →
  ∃ c' a', vmm_page_cache_remove e c a = Some (c', a') ∧ cache_wf c' (e :: F) (l1 ++ l2) ∧
    (∀ u, data (pce_at c' u) = data (pce_at c u)) ∧ pa_rep a' (U ∖ released (pce_at c e)).
Proof.
  intros Hwf HU Hphys. unfold vmm_page_cache_remove.
  set (c0 := if dirty (pce_at c e) then _ else c).
  assert (cache_wf c0 F (l1 ++ e :: l2) ∧ ∀ u, pce_at c0 u = pce_at c u) as [Hwf0 Hat0].
  { subst c0. destruct (dirty (pce_at c e)); [split; [by apply wf_stats|done]|done]. }
  clearbody c0. rewrite <- Hat0 in Hphys.
  destruct (unchain_bucket c0 F l1 e l2 Hwf0) as (c1 & E1 & Hd1 & Hs1 & Hi1 & Hh1 & Ht1 & Hl1 & Hf1 & Hb1).
  unfold key_hash, key in E1. cbn [fst snd] in E1. rewrite E1. cbn [mbind option_bind].
  destruct (lru_remove_spec e c1 l1 l2) as ([Lc Lh Lf Li Ls] & Hdll & Htl).
  { rewrite Hh1. eapply dll_ext; [|apply Hwf0]. intros u _. apply Hl1. }
  { rewrite Ht1. apply Hwf0. }
  set (c2 := lru_remove e c1) in *.
  assert (∀ u, data (pce_at c2 u) = data (pce_at c u)) as Hd2.
  { intros u. rewrite (core_data _ _ (Lc u)), Hd1. by rewrite Hat0. }
  assert (∀ u, key c2 u = key c0 u) as Hk2.
  { intros u. apply data_key. by rewrite Hd2, Hat0. }
  destruct (data_fields _ _ (Hd2 e)) as (_ & _ & Ep & Er & _).
  assert (∃ a', (if (ref_count (pce_at c2 e) <=? 1) && truth (phys_addr (pce_at c2 e))
      then pa_free (phys_addr (pce_at c2 e)) a else Some a) = Some a' ∧ pa_rep a' (U ∖ released (pce_at c e)))
    as (a' & -> & Ha').
  { unfold released. rewrite Ep, Er. destruct (_ && _).
    - apply pa_free_spec; [done|]. by rewrite <- Hat0.
    - exists a. by rewrite difference_empty_L. }
  cbn [mbind option_bind]. eexists _, a'. split_and!; [done| | |done].
  2: { intros u. change (data (pce_at (upd_pce e (fun x => x⟦hash_next := pc_free_list c2⟧) c2) u) = data (pce_at c u)).
       rewrite pce_at_upd. case_decide; [subst; apply Hd2|apply Hd2]. }
  assert (∀ u, hash_next (pc_pool c2).[u] = hash_next (pc_pool c1).[u]) as Hnx2 by (intros u; apply (entry_core_fields _ _ (Lc u))).
  pose proof (cw_nodup _ _ _ Hwf0) as Hnd. rewrite <- Permutation_middle, <- Permutation_middle in Hnd.
  apply out_free.
  - split; try done.
    + cbn. congruence.
    + cbn. rewrite Lf. eapply chain_ext; [|done]. intros u _. apply Hnx2.
    + intros h. destruct (Hb1 h) as (B & HB & HBn & HBe). exists B. split_and!; [|done|].
      * cbn. rewrite Lh. eapply chain_ext; [|done]. intros u _. apply Hnx2.
      * intros u. rewrite HBe.
        change (key (upd_stats _ c2) u) with (key c2 u). by rewrite Hk2.
    + intros u Hu. apply (cw_pool _ _ _ Hwf0). clear -Hu. set_solver.
    + intros u u' Hu Hu' Hk. apply (cw_key _ _ _ Hwf0); [by apply elem_of_mid..|]. by rewrite <- !Hk2.
  - cbn. rewrite Ls, Hs1, (cw_total _ _ _ Hwf0). pose proof (wf_length _ _ _ Hwf0).
    rewrite !length_app in *. cbn [length] in *. unfold cache_bound, VMM_PAGE_CACHE_POOL_SIZE in *. rewrite u32_small; lia.
Qed.

(** ** Ownership of the cached pages *)

(** Every cached entry owns a frame in use, and no two own the same. *)
Record cache_ok (c : page_cache) (a : S) (F L : list Z) (U : gset Z) : Prop := {
  ck_wf : cache_wf c F L;
  ck_rep : pa_rep a U;
  ck_page : ∀ e, e ∈ L → ∃ f, phys_addr (pce_at c e) = f * PAGE_SIZE ∧ 0 < f ∧ f ∈ U;
  ck_inj : ∀ e e', e ∈ L → e' ∈ L → phys_addr (pce_at c e) = phys_addr (pce_at c e') → e = e';
}.

Lemma page_range (a : S) U f : pa_rep a U → f ∈ U → 0 ≤ f * PAGE_SIZE < TOTAL_PAGES * PAGE_SIZE.
Proof. intros Ha Hf. pose proof (pa_rep_range _ _ _ Ha Hf). unfold PAGE_SIZE. lia. Qed.

Lemma page_div f : f * PAGE_SIZE / PAGE_SIZE = f.
Proof. by apply Z.div_mul. Qed.

(** The entries' data are kept and the list only reordered. *)
Lemma ok_same c c' (a : S) F L L' U :
  cache_ok c a F L U → cache_wf c' F L' → (∀ u, data (pce_at c' u) = data (pce_at c u)) → L ≡ₚ L' →
  cache_ok c' a F L' U.
Proof.
  intros [Hwf Ha Hp Hi] Hwf' Hd Hperm. split; [done|done|..].
  - intros e He. destruct (data_fields _ _ (Hd e)) as (_ & _ & -> & _). apply Hp. by rewrite Hperm.
  - intros e e' He He'. destruct (data_fields _ _ (Hd e)) as (_ & _ & -> & _).
    destruct (data_fields _ _ (Hd e')) as (_ & _ & -> & _). apply Hi; by rewrite Hperm.
Qed.

Lemma remove_ok c (a : S) F l1 e l2 U :
  cache_ok c a F (l1 ++ e :: l2) U →
  ∃ c' a', vmm_page_cache_remove e c a = Some (c', a') ∧
    cache_ok c' a' (e :: F) (l1 ++ l2) (U ∖ released (pce_at c e)) ∧
    (∀ u, data (pce_at c' u) = data (pce_at c u)).
Proof.
  intros [Hwf Ha Hp Hi]. destruct (Hp e ltac:(set_solver)) as (f & Ef & Hf & HfU).
  destruct (remove_wf c F l1 e l2 a U Hwf Ha) as (c' & a' & E & Hwf' & Hd & Ha').
  { rewrite Ef. by apply (page_range a U). }
  assert (e ∉ l1 ++ l2) as He.
  { pose proof (cw_nodup _ _ _ Hwf') as (_ & HFL & _)%NoDup_app. apply HFL. set_solver. }
  exists c', a'. split_and!; [done| |done]. split; [done|done|..].
  - intros u Hu. destruct (data_fields _ _ (Hd u)) as (_ & _ & -> & _).
    destruct (Hp u ltac:(set_solver)) as (g & Eg & Hg & HgU). exists g. split_and!; [done|done|].
    apply elem_of_difference. split; [done|]. unfold released. rewrite Ef, page_div. destruct (_ && _); [|set_solver].
    intros ->%elem_of_singleton. assert (u = e) as -> by (apply Hi; [set_solver|set_solver|congruence]). done.
  - intros u u' Hu Hu'. destruct (data_fields _ _ (Hd u)) as (_ & _ & -> & _).
    destruct (data_fields _ _ (Hd u')) as (_ & _ & -> & _). apply Hi; set_solver.
Qed.

(** ** Eviction *)

Lemma find_victim_eq fuel c skip l l' :
  dll (pc_pool c) (lru_head c) (l ++ l') → (length l ≤ fuel)%nat →
  find_victim fuel c skip (last l) = Some (List.find (fun e => negb (skip (pce_at c e))) (reverse l)).
Proof.
  revert fuel l'. induction l as [|v l IH] using rev_ind; intros fuel l' Hd Hf.
  { by destruct fuel. }
  rewrite last_snoc, reverse_snoc. rewrite length_app in Hf. cbn [length] in Hf.
  rewrite <- app_assoc in Hd. destruct fuel as [|fuel]; [lia|]. cbn [find_victim List.find].
  destruct (skip (pce_at c v)); cbn [negb]; [|done].
  destruct (dll_split _ _ _ _ _ Hd) as [Hp _]. change (lru_prev (pce_at c v) = last_or None l) in Hp. rewrite Hp.
  assert (last_or None l = last l) as -> by (unfold last_or; by destruct (last l)).
  apply (IH fuel ([v] ++ l')); [done|lia].
Qed.

(** What remains of a list, from the least recently used, after evicting [n]
    entries that may be evicted. *)
Fixpoint evict_from (skip : Z → bool) (n : nat) (l : list Z) : list Z :=
  match l with
  | [] => []
  | e :: l' =>
      if skip e then e :: evict_from skip n l'
      else match n with O => l | Datatypes.S n' => evict_from skip n' l' end
  end.
Definition evict_list (skip : Z → bool) (n : nat) (L : list Z) : list Z :=
  reverse (evict_from skip n (reverse L)).

Lemma evict_from_skip skip n l1 l2 :
  (∀ e, e ∈ l1 → skip e = true) → evict_from skip n (l1 ++ l2) = l1 ++ evict_from skip n l2.
Proof.
  induction l1 as [|x l1 IH]; intros Hs; cbn [app evict_from]; [done|].
  rewrite Hs by set_solver. f_equal. apply IH. set_solver.
Qed.

Lemma evict_from_ext skip skip' n l :
  (∀ e, e ∈ l → skip e = skip' e) → evict_from skip n l = evict_from skip' n l.
Proof.
  revert n. induction l as [|x l IH]; intros n Hs; cbn [evict_from]; [done|]. rewrite Hs by set_solver.
  destruct (skip' x); [f_equal; apply IH; set_solver|]. destruct n; [done|]. apply IH. set_solver.
Qed.

(** One round of the eviction loops. *)
Lemma victim_step c (a : S) F L U skip :
  cache_ok c a F L U →
  (find_victim cache_bound c skip (lru_tail c) = Some None ∧ ∀ e, e ∈ L → skip (pce_at c e) = true) ∨
  (∃ v l1 l2 c' a', L = l1 ++ v :: l2 ∧ find_victim cache_bound c skip (lru_tail c) = Some (Some v) ∧
    skip (pce_at c v) = false ∧ (∀ e, e ∈ l2 → skip (pce_at c e) = true) ∧
    vmm_page_cache_remove v c a = Some (c', a') ∧
    cache_ok c' a' (v :: F) (l1 ++ l2) (U ∖ released (pce_at c v)) ∧
    (∀ u, data (pce_at c' u) = data (pce_at c u))).
Proof.
  intros Hok. pose proof (ck_wf _ _ _ _ _ Hok) as Hwf. pose proof (wf_length _ _ _ Hwf) as Hlen.
  pose proof (find_victim_eq cache_bound c skip L []) as E. rewrite app_nil_r in E.
  specialize (E (cw_lru _ _ _ Hwf) ltac:(lia)). rewrite (cw_tail _ _ _ Hwf), E.
  destruct (List.find _ (reverse L)) as [v|] eqn:Ef.
  - right. destruct (find_split _ _ _ Ef) as (r1 & r2 & El & Hv & Hr1).
    apply (f_equal reverse) in El. rewrite reverse_involutive, reverse_app, reverse_cons, <- app_assoc in El.
    cbn [app] in El. subst L. destruct (remove_ok c a F (reverse r2) v (reverse r1) U Hok) as (c' & a' & Er & Hok' & Hd).
    exists v, (reverse r2), (reverse r1), c', a'. split_and!; try done.
    + by apply negb_true_iff in Hv.
    + intros e He. rewrite elem_of_reverse in He. apply Hr1 in He. by apply negb_false_iff in He.
  - left. split; [done|]. intros e He. eapply find_none in Ef; [|by apply list_elem_of_In, elem_of_reverse].
    by apply negb_false_iff in Ef.
Qed.


Lemma evict_from_0 skip l : evict_from skip 0 l = l.
Proof. induction l as [|x l IH]; cbn [evict_from]; [done|]. by destruct (skip x); [rewrite IH|]. Qed.

Lemma evict_list_0 skip L : evict_list skip 0 L = L.
Proof. unfold evict_list. by rewrite evict_from_0, reverse_involutive. Qed.

Lemma evict_list_nil skip n : evict_list skip n [] = [].
Proof. done. Qed.

Lemma evict_list_all skip n L : (∀ e, e ∈ L → skip e = true) → evict_list skip n L = L.
Proof.
  intros Hs. unfold evict_list. rewrite <- (app_nil_r (reverse L)), evict_from_skip.
  - cbn. by rewrite app_nil_r, reverse_involutive.
  - intros e. rewrite elem_of_reverse. apply Hs.
Qed.

Lemma evict_list_step skip n l1 v l2 :
  (∀ e, e ∈ l2 → skip e = true) → skip v = false →
  evict_list skip (Datatypes.S n) (l1 ++ v :: l2) = evict_list skip n (l1 ++ l2).
Proof.
  intros Hs Hv. unfold evict_list. f_equal. rewrite !reverse_app, reverse_cons, <- app_assoc. cbn [app].
  rewrite !evict_from_skip by (intros e; rewrite elem_of_reverse; apply Hs). f_equal.
  cbn [evict_from]. by rewrite Hv.
Qed.

Lemma evict_list_ext skip skip' n L :
  (∀ e, e ∈ L → skip e = skip' e) → evict_list skip n L = evict_list skip' n L.
Proof. intros Hs. unfold evict_list. f_equal. apply evict_from_ext. intros e. rewrite elem_of_reverse. apply Hs. Qed.

(** The pages of the entries [V]. *)
Definition released_all (c : page_cache) (V : list Z) : gset Z := ⋃ ((fun v => released (pce_at c v)) <$> V).

Lemma released_data x y : data x = data y → released x = released y.
Proof. intros (_ & _ & E1 & E2 & _)%data_fields. unfold released. by rewrite E1, E2. Qed.

(** The state after the entries [V] have been evicted. *)
Record evicted (c : page_cache) (F L : list Z) (U : gset Z) (n : nat) (skip : vmm_page_cache_entry → bool)
    (V : list Z) (c' : page_cache) (a' : S) : Prop := {
  ev_ok : cache_ok c' a' (V ++ F) (evict_list (fun e => skip (pce_at c e)) n L) (U ∖ released_all c V);
  ev_perm : L ≡ₚ V ++ evict_list (fun e => skip (pce_at c e)) n L;
  ev_data : ∀ u, data (pce_at c' u) = data (pce_at c u);
}.

Lemma evicted_none c (a : S) F L U n skip :
  cache_ok c a F L U → evict_list (fun e => skip (pce_at c e)) n L = L → evicted c F L U n skip [] c a.
Proof.
  intros Hok E. split; [|by rewrite E|done]. rewrite E. unfold released_all. cbn.
  by rewrite difference_empty_L.
Qed.

Lemma evicted_step c c1 c' (a' : S) F l1 v l2 U n skip V :
  (∀ x y, data x = data y → skip x = skip y) →
  skip (pce_at c v) = false → (∀ e, e ∈ l2 → skip (pce_at c e) = true) →
  (∀ u, data (pce_at c1 u) = data (pce_at c u)) →
  evicted c1 (v :: F) (l1 ++ l2) (U ∖ released (pce_at c v)) n skip V c' a' →
  evicted c F (l1 ++ v :: l2) U (Datatypes.S n) skip (V ++ [v]) c' a'.
Proof.
  intros Hext Hv Hl2 Hd [Hok Hp Hd'].
  assert (evict_list (fun e => skip (pce_at c1 e)) n (l1 ++ l2) =
          evict_list (fun e => skip (pce_at c e)) (Datatypes.S n) (l1 ++ v :: l2)) as E.
  { rewrite evict_list_step by done. apply evict_list_ext. intros e _. by apply Hext. }
  assert (released_all c (V ++ [v]) = released (pce_at c v) ∪ released_all c1 V) as Er.
  { unfold released_all. rewrite fmap_app, union_list_app_L. cbn. rewrite union_empty_r_L, union_comm_L. f_equal.
    f_equal. apply list_fmap_ext. intros _ u _. symmetry. by apply released_data. }
  split.
  - rewrite <- E, Er, <- app_assoc. cbn [app]. by rewrite <- difference_difference_l_L.
  - rewrite <- E, <- app_assoc, <- Permutation_middle. cbn [app]. rewrite <- Permutation_middle. by constructor.
  - intros u. by rewrite Hd', Hd.
Qed.

(** An entry that may not be evicted: locked, or referenced by more than the
    cache itself. *)
Definition busy (x : vmm_page_cache_entry) : bool := pce_locked x || (1 <? ref_count x).

Lemma evict_skip_busy : evict_skip = busy.
Proof. reflexivity. Qed.

Lemma skip_ext : (∀ x y, data x = data y → evict_skip x = evict_skip y) ∧ (∀ x y, data x = data y → shrink_skip x = shrink_skip y).
Proof.
  split; intros x y (_ & _ & _ & E1 & E2 & E3 & _)%data_fields; unfold evict_skip, shrink_skip; by rewrite E1, E3, ?E2.
Qed.

Lemma ok_stats c (a : S) F L U f :
  cache_ok c a F L U → (∀ s, total_pages (f s) = total_pages s) → cache_ok (upd_stats f c) a F L U.
Proof. intros [Hwf Ha Hp Hi] Hf. split; try done. by apply wf_stats. Qed.

Lemma evict_loop_ok fuel num k c (a : S) F L U :
  cache_ok c a F L U → (length L ≤ fuel)%nat →
  ∃ V c' a', evict_loop fuel num k c a = Some (c', a') ∧ evicted c F L U (Z.to_nat (num - k)) evict_skip V c' a'.
Proof.
  revert k c a F L U. induction fuel as [|fuel IH]; intros k c a F L U Hok Hf;
    pose proof (cw_tail _ _ _ (ck_wf _ _ _ _ _ Hok)) as Ht.
  { destruct L; [|cbn in Hf; lia]. exists [], c, a. cbn [evict_loop]. rewrite Ht.
    cbn. rewrite andb_false_r. split; [done|]. by apply evicted_none. }
  cbn [evict_loop]. destruct (Z.ltb_spec k num) as [Hlt|Hge].
  2: { exists [], c, a. split; [done|]. apply evicted_none; [done|].
       replace (Z.to_nat (num - k)) with 0%nat by lia. apply evict_list_0. }
  destruct (lru_tail c) as [t|] eqn:Etl; cbn [is_null negb andb].
  2: { symmetry in Ht. apply last_None in Ht as ->. exists [], c, a. split; [done|]. by apply evicted_none. }
  rewrite <- Etl. destruct (victim_step c a F L U evict_skip Hok)
    as [[-> Hall]|(v & l1 & l2 & c1 & a1 & -> & -> & Hv & Hl2 & Er & Hok1 & Hd1)]; cbn [mbind option_bind].
  { exists [], c, a. split; [done|]. apply evicted_none; [done|]. by apply evict_list_all. }
  rewrite Er. cbn [mbind option_bind].
  destruct (IH (k + 1) (upd_stats (fun s => s⟦evictions ::= fun n => u32 (n + 1)⟧) c1) a1 (v :: F) (l1 ++ l2)
    (U ∖ released (pce_at c v))) as (V & c' & a' & E & Hev).
  { by apply ok_stats. }
  { rewrite length_app in *. cbn [length] in *. lia. }
  exists (V ++ [v]), c', a'. split; [done|].
  replace (Z.to_nat (num - k)) with (Datatypes.S (Z.to_nat (num - (k + 1)))) by lia.
  eapply evicted_step; [apply skip_ext|done|done| |exact Hev]. done.
Qed.


Lemma evict_ok num c (a : S) F L U :
  cache_ok c a F L U →
  ∃ V c' a', vmm_page_cache_evict num c a = Some (c', a') ∧ evicted c F L U (Z.to_nat num) evict_skip V c' a'.
Proof.
  intros Hok. unfold vmm_page_cache_evict. rewrite (cw_init _ _ _ (ck_wf _ _ _ _ _ Hok)).
  pose proof (wf_length _ _ _ (ck_wf _ _ _ _ _ Hok)).
  destruct (evict_loop_ok cache_bound num 0 c a F L U Hok ltac:(lia)) as (V & c' & a' & E & Hev).
  rewrite Z.sub_0_r in Hev. eauto.
Qed.

(** C13: [vmm_page_cache_evict] terminates and evicts, from the least recently
    used end, the first [num_pages] entries that are neither locked nor
    referenced elsewhere (all of them when there are fewer); the other entries
    keep their order and contents, the evicted entries become free and exactly
    their pages go back to the page allocator. *)
Theorem page_cache_evict_spec num c (a : S) F L U :
  cache_ok c a F L U →
  ∃ V c' a', vmm_page_cache_evict num c a = Some (c', a') ∧ evicted c F L U (Z.to_nat num) busy V c' a'.
Proof. rewrite <-evict_skip_busy. apply evict_ok. Qed.

Lemma shrink_loop_ok fuel target k c (a : S) F L U :
  cache_ok c a F L U → (length L ≤ fuel)%nat →
  ∃ V c' a', shrink_loop fuel target k c a = Some (k + Z.of_nat (length V), c', a') ∧
    evicted c F L U (Z.to_nat (target - k)) shrink_skip V c' a'.
Proof.
  revert k c a F L U. induction fuel as [|fuel IH]; intros k c a F L U Hok Hf;
    pose proof (cw_total _ _ _ (ck_wf _ _ _ _ _ Hok)) as Ht; cbn [shrink_loop]; rewrite Ht.
  { destruct L; [|cbn in Hf; lia]. exists [], c, a. cbn. rewrite andb_false_r, Z.add_0_r.
    split; [done|]. by apply evicted_none. }
  destruct (Z.ltb_spec k target) as [Hlt|Hge]; cbn [andb].
  2: { exists [], c, a. cbn. rewrite Z.add_0_r. split; [done|]. apply evicted_none; [done|].
       replace (Z.to_nat (target - k)) with 0%nat by lia. apply evict_list_0. }
  destruct (Z.ltb_spec 0 (Z.of_nat (length L))) as [Hpos|Hz].
  2: { destruct L; [|cbn in Hz; lia]. exists [], c, a. cbn. rewrite Z.add_0_r. split; [done|]. by apply evicted_none. }
  destruct (victim_step c a F L U shrink_skip Hok)
    as [[-> Hall]|(v & l1 & l2 & c1 & a1 & -> & -> & Hv & Hl2 & Er & Hok1 & Hd1)]; cbn [mbind option_bind].
  { exists [], c, a. cbn. rewrite Z.add_0_r. split; [done|]. apply evicted_none; [done|]. by apply evict_list_all. }
  rewrite Er. cbn [mbind option_bind].
  destruct (IH (k + 1) c1 a1 (v :: F) (l1 ++ l2) (U ∖ released (pce_at c v)) Hok1) as (V & c' & a' & E & Hev).
  { rewrite length_app in *. cbn [length] in *. lia. }
  exists (V ++ [v]), c', a'. rewrite E, length_app. cbn [length]. split; [do 3 f_equal; lia|].
  replace (Z.to_nat (target - k)) with (Datatypes.S (Z.to_nat (target - (k + 1)))) by lia.
  eapply evicted_step; [apply skip_ext|done|done|done|exact Hev].
Qed.

Lemma shrink_ok target c (a : S) F L U :
  cache_ok c a F L U →
  ∃ V c' a', vmm_page_cache_shrink target c a = Some (Z.of_nat (length V), c', a') ∧
    evicted c F L U (Z.to_nat target) shrink_skip V c' a'.
Proof.
  intros Hok. pose proof (wf_length _ _ _ (ck_wf _ _ _ _ _ Hok)).
  destruct (shrink_loop_ok cache_bound target 0 c a F L U Hok ltac:(lia)) as (V & c' & a' & E & Hev).
  rewrite Z.sub_0_r in Hev. eauto.
Qed.


(** A page that is not cached is not released by evictions. *)
Lemma released_not_cached c (a : S) F L U V f :
  cache_ok c a F L U → (∀ v, v ∈ V → v ∈ L) → (∀ e, e ∈ L → phys_addr (pce_at c e) ≠ f * PAGE_SIZE) →
  f ∉ released_all c V.
Proof.
  intros Hok HV Hf Hin. apply elem_of_union_list in Hin as (X & (v & -> & Hv)%list_elem_of_fmap & HX).
  destruct (ck_page _ _ _ _ _ Hok v (HV v Hv)) as (g & Eg & _). unfold released in HX. rewrite Eg, page_div in HX.
  destruct (_ && _); [|set_solver]. apply elem_of_singleton in HX as ->. by apply (Hf v (HV v Hv)).
Qed.

(** The state in which [cache_entry_alloc] looks for a free entry. *)
Lemma entry_alloc_ok c (a : S) F L U :
  cache_ok c a F L U →
  ∃ V c1 a1, evicted c F L U (if F is [] then 4 else 0) evict_skip V c1 a1 ∧
    cache_entry_alloc c a =
      Some match V ++ F with [] => (None, c1, a1) | e :: _ => (Some e, take_entry e c1, a1) end.
Proof.
  intros Hok. unfold cache_entry_alloc. pose proof (cw_free _ _ _ (ck_wf _ _ _ _ _ Hok)) as Hf.
  destruct F as [|e F]; cbn [chain] in Hf.
  - rewrite Hf. cbn [is_null]. destruct (evict_ok 4 c a [] L U Hok) as (V & c1 & a1 & -> & Hev).
    exists V, c1, a1. split; [done|]. cbn [mbind option_bind].
    pose proof (cw_free _ _ _ (ck_wf _ _ _ _ _ (ev_ok _ _ _ _ _ _ _ _ _ Hev))) as Hf1.
    destruct (V ++ []) as [|v F1]; cbn [chain] in Hf1; [by rewrite Hf1|]. by destruct Hf1 as [-> _].
  - destruct Hf as [Hf _]. rewrite Hf. cbn [is_null mbind option_bind]. exists [], c, a. rewrite Hf.
    split; [|done]. apply evicted_none; [done|]. apply evict_list_0.
Qed.

(** The new entry. *)
Definition new_entry (ino off phys : Z) : vmm_page_cache_entry :=
  mk_pce ino off phys 0 1 0 false false true None None None.

Lemma fill_entry_ok c (a : S) e F L U ino off f :
  cache_ok c a (e :: F) L U → 0 < f → f ∈ U → (∀ u, u ∈ L → phys_addr (pce_at c u) ≠ f * PAGE_SIZE) →
  (∀ u, u ∈ L → key c u ≠ (ino, off)) →
  let c1 := upd_pce e (fun x => x⟦inode := ino⟧⟦offset := off⟧⟦phys_addr := f * PAGE_SIZE⟧
                                 ⟦ref_count := 1⟧⟦uptodate := true⟧) (take_entry e c) in
  let c' := upd_stats (fun s => s⟦total_pages ::= fun n => u32 (n + 1)⟧)
              (lru_add e (link_entry (page_cache_hash_fn ino off) e c1)) in
  cache_ok c' a F (e :: L) U ∧ data (pce_at c' e) = new_entry ino off (f * PAGE_SIZE) ∧
  (∀ u, u ≠ e → data (pce_at c' u) = data (pce_at c u)).
Proof.
  intros [Hwf Ha Hp Hi] Hf HfU Hphys Hkey c1 c'.
  assert (cache_out c1 F L e) as Hout by (by apply out_upd, take_out).
  assert (pce_at c1 e = new_entry ino off (f * PAGE_SIZE)) as E1.
  { unfold c1, take_entry. by rewrite pce_at_upd, decide_True, pce_at_upd, decide_True. }
  assert (∀ u, u ≠ e → pce_at c1 u = pce_at c u) as E2.
  { intros u Hu. unfold c1, take_entry. by rewrite pce_at_upd, decide_False, pce_at_upd, decide_False by done. }
  assert (e ∉ L) as He.
  { pose proof (co_nodup _ _ _ _ Hout) as [He _]%NoDup_cons. set_solver. }
  destruct (out_link c1 F L e (page_cache_hash_fn ino off) Hout) as [Hwf' Hd].
  { apply (cw_total _ _ _ Hwf). }
  { unfold key. by rewrite E1. }
  { intros u Hu. unfold key. rewrite E1, E2 by set_solver. by apply (Hkey u). }
  fold c' in Hwf', Hd. clearbody c'.
  assert (∀ u, u ∈ L → phys_addr (pce_at c' u) = phys_addr (pce_at c u)) as Ep.
  { intros u Hu. destruct (data_fields _ _ (Hd u)) as (_ & _ & -> & _). by rewrite E2 by set_solver. }
  assert (phys_addr (pce_at c' e) = f * PAGE_SIZE) as Epe.
  { destruct (data_fields _ _ (Hd e)) as (_ & _ & -> & _). by rewrite E1. }
  split_and!; [|etrans; [apply Hd|by rewrite E1]|intros u Hu; etrans; [apply Hd|by rewrite E2]].
  split; [done|done|..].
  - intros u [->|Hu]%elem_of_cons; [rewrite Epe; eauto|]. rewrite Ep by done. by apply Hp.
  - intros u u' [->|Hu]%elem_of_cons [->|Hu']%elem_of_cons; [done|..]; rewrite ?Epe, ?Ep by done.
    + intros E. by destruct (Hphys u' Hu').
    + intros E. by destruct (Hphys u Hu).
    + by apply Hi.
Qed.

Lemma insert_ok c (a : S) F L U ino off f :
  cache_ok c a F L U → 0 < f → f ∈ U → (∀ e, e ∈ L → phys_addr (pce_at c e) ≠ f * PAGE_SIZE) →
  (∃ e l1 l2 c', L = l1 ++ e :: l2 ∧ key c e = (ino, off) ∧
    vmm_page_cache_insert ino off (f * PAGE_SIZE) c a = Some (Some e, c', a) ∧ cache_ok c' a F (e :: l1 ++ l2) U) ∨
  ((∀ e, e ∈ L → key c e ≠ (ino, off)) ∧
   ∃ V c' a', let L' := evict_list (fun e => evict_skip (pce_at c e)) (if F is [] then 4 else 0) L in
     let U' := U ∖ released_all c V in
     L ≡ₚ V ++ L' ∧
     match V ++ F with
     | [] => vmm_page_cache_insert ino off (f * PAGE_SIZE) c a = Some (None, c', a') ∧ cache_ok c' a' [] L' U'
     | e :: F' => vmm_page_cache_insert ino off (f * PAGE_SIZE) c a = Some (Some e, c', a') ∧
         cache_ok c' a' F' (e :: L') U' ∧ data (pce_at c' e) = new_entry ino off (f * PAGE_SIZE) ∧
         (∀ u, u ∈ L' → data (pce_at c' u) = data (pce_at c u))
     end).
Proof.
  intros Hok Hf HfU Hphys. unfold vmm_page_cache_insert. rewrite (cw_init _ _ _ (ck_wf _ _ _ _ _ Hok)).
  destruct (lookup_wf c F L ino off (ck_wf _ _ _ _ _ Hok))
    as [(e & l1 & l2 & c1 & -> & Hk & -> & Hwf1 & Hc1)|(c1 & Hmiss & -> & Hwf1 & Ep)]; cbn [mbind option_bind].
  { left. exists e, l1, l2, c1. split_and!; [done|done|done|]. eapply ok_same; [done|done| |].
    - intros u. by apply core_data.
    - by rewrite Permutation_middle. }
  right. split; [done|].
  assert (∀ u, pce_at c1 u = pce_at c u) as Eat by (intros u; unfold pce_at; by rewrite Ep).
  assert (cache_ok c1 a F L U) as Hok1 by (eapply ok_same; [done|done| |done]; intros u; by rewrite Eat).
  destruct (entry_alloc_ok c1 a F L U Hok1) as (V & c2 & a2 & [Hok2 Hperm Hd2] & ->). cbn [mbind option_bind].
  assert (evict_list (λ e, evict_skip (pce_at c1 e)) (if F is [] then 4 else 0)%nat L =
          evict_list (λ e, evict_skip (pce_at c e)) (if F is [] then 4 else 0)%nat L) as El.
  { apply evict_list_ext. intros u _. by rewrite Eat. }
  assert (released_all c1 V = released_all c V) as Er.
  { unfold released_all. f_equal. apply list_fmap_ext. intros _ u _. by rewrite Eat. }
  rewrite El, Er in *. set (L' := evict_list _ _ L) in *.
  assert (∀ u, u ∈ V ++ L' → u ∈ L) as HVL by (intros u; by rewrite Hperm).
  assert (∀ u, data (pce_at c2 u) = data (pce_at c u)) as Hd by (intros u; by rewrite Hd2, Eat).
  exists V. destruct (V ++ F) as [|e F'] eqn:EVF; [eauto 6|].
  destruct (fill_entry_ok c2 a2 e F' L' (U ∖ released_all c V) ino off f Hok2 Hf) as (Hok3 & He & Hoth).
  - apply elem_of_difference. split; [done|]. eapply released_not_cached; [done| |done]. set_solver.
  - intros u Hu. destruct (data_fields _ _ (Hd u)) as (_ & _ & -> & _). apply Hphys. set_solver.
  - intros u Hu. rewrite (data_key c c2 u) by apply Hd. apply Hmiss. set_solver.
  - eexists _, a2. split; [done|]. split; [reflexivity|]. split_and!; [exact Hok3|exact He|].
    intros u Hu. rewrite Hoth; [apply Hd|]. intros ->.
    pose proof (cw_nodup _ _ _ (ck_wf _ _ _ _ _ Hok3)) as (_ & _ & [? _]%NoDup_cons)%NoDup_app. done.
Qed.


(** A page inserted in the cache is found by the next lookup, which returns
    the entry that holds the page. *)
Theorem page_cache_insert_lookup c (a : S) F L U ino off f e c' a' :
  cache_ok c a F L U → 0 < f → f ∈ U → (∀ u, u ∈ L → phys_addr (pce_at c u) ≠ f * PAGE_SIZE) →
  (∀ u, u ∈ L → key c u ≠ (ino, off)) →
  vmm_page_cache_insert ino off (f * PAGE_SIZE) c a = Some (Some e, c', a') →
  ∃ c'', vmm_page_cache_lookup ino off c' = Some (Some e, c'') ∧ phys_addr (pce_at c'' e) = f * PAGE_SIZE.
Proof.
  intros Hok Hf HfU Hphys Hmiss Hins.
  destruct (insert_ok c a F L U ino off f Hok Hf HfU Hphys)
    as [(u & l1 & l2 & _ & -> & Hk & _)|(_ & V & c1 & a1 & _ & Hm)].
  { exfalso. apply (Hmiss u); [set_solver|done]. }
  destruct (V ++ F) as [|v F']; [destruct Hm as [E _]; congruence|].
  destruct Hm as (E & [Hwf _ _ _] & He & _). rewrite Hins in E. injection E as -> <- <-.
  set (L' := evict_list _ _ L) in *.
  destruct (data_fields _ (new_entry ino off (f * PAGE_SIZE)) He) as (E1 & E2 & E3 & _).
  assert (key c' v = (ino, off)) as Hkv by (unfold key; by rewrite E1, E2).
  destruct (lookup_wf c' F' (v :: L') ino off Hwf) as [(u & l1 & l2 & c'' & El & Hk & E & _ & Hc)|(_ & Hno & _)].
  - assert (u = v) as -> by (apply (cw_key _ _ _ Hwf); [rewrite El; set_solver|set_solver|congruence]).
    exists c''. split; [done|]. by destruct (entry_core_fields _ _ (Hc v)) as (_ & _ & -> & _).
  - exfalso. apply (Hno v); [set_solver|done].
Qed.

End theory.

(** ** Start-up *)

Lemma link_free n c j :
  0 ≤ j < n →
  hash_next (pce_at (iter_up (Z.to_nat n) 0 (fun i => upd_pce i (fun x => x⟦hash_next := Some (i + 1)⟧)) c) j) =
    Some (j + 1).
Proof.
  intros Hj. pose proof (iter_up_inv (fun i c => ∀ j, 0 ≤ j < i → hash_next (pce_at c j) = Some (j + 1))
    (fun i => upd_pce i (fun x => x⟦hash_next := Some (i + 1)⟧)) (Z.to_nat n) 0 c) as HP.
  apply HP; [lia| |lia]. intros k s Hk IH u Hu. rewrite pce_at_upd. case_decide; [by subst|]. apply IH. lia.
Qed.

Lemma clear_hash n c :
  (∀ h, ¬ (0 ≤ h < n) → (pc_hash c).[h] = None) →
  let c' := iter_up (Z.to_nat n) 0 (fun i c => c⟦pc_hash ::= fun h => aset h i None⟧) c in
  pc_pool c' = pc_pool c ∧ pc_free_list c' = pc_free_list c ∧ ∀ h, (pc_hash c').[h] = None.
Proof.
  intros Hout c'.
  pose proof (iter_up_inv (fun i d => pc_pool d = pc_pool c ∧ pc_free_list d = pc_free_list c ∧
      ∀ h, ¬ (i ≤ h < n) → (pc_hash d).[h] = None)
    (fun i c => c⟦pc_hash ::= fun h => aset h i None⟧) (Z.to_nat n) 0 c) as HP.
  destruct HP as (E1 & E2 & E3).
  - split_and!; [done|done|]. intros h Hh. apply Hout. lia.
  - intros k d Hk (D1 & D2 & D3). split_and!; [done|done|]. intros h Hh. cbn. rewrite aget_aset.
    case_decide; [done|]. apply D3. lia.
  - split_and!; [done|done|]. intros h. apply E3. lia.
Qed.

(** A cache of any size, cleared as [vmm_page_cache_init] clears it. *)
Lemma linked_cache_wf n k c c1 c2 :
  0 < n ≤ VMM_PAGE_CACHE_POOL_SIZE → pc_hash c = ∅ →
  c1 = iter_up (Z.to_nat (n - 1)) 0 (fun i => upd_pce i (fun x => x⟦hash_next := Some (i + 1)⟧)) c →
  c2 = iter_up (Z.to_nat k) 0 (fun i c => c⟦pc_hash ::= fun h => aset h i None⟧)
         (upd_pce (n - 1) (fun x => x⟦hash_next := None⟧) c1)⟦pc_free_list := Some 0⟧ →
  cache_wf c2⟦lru_head := None⟧⟦lru_tail := None⟧⟦cache_stats := mk_pcs 0 0 0 0 0⟧⟦pc_initialized := true⟧
    (seqZ 0 n) [].
Proof.
  intros Hn Hh E1 E2.
  assert (∀ j, 0 ≤ j < n - 1 → hash_next (pce_at c1 j) = Some (j + 1)) as H1.
  { intros j Hj. rewrite E1. by apply link_free. }
  assert (pc_hash c1 = ∅) as Hh1.
  { rewrite E1. apply (iter_up_inv (fun _ d => pc_hash d = ∅)); [done|]. by intros i d _ Hd. }
  clear E1. set (c3 := (upd_pce (n - 1) (fun x => x⟦hash_next := None⟧) c1)⟦pc_free_list := Some 0⟧) in *.
  assert (pc_pool c2 = pc_pool c3 ∧ pc_free_list c2 = pc_free_list c3 ∧ ∀ h, (pc_hash c2).[h] = None) as (Ep & Ef & Hb).
  { rewrite E2. apply clear_hash. intros h _. change ((pc_hash c1).[h] = None). by rewrite Hh1. }
  clear E2. subst c3. split; try done.
  - change (chain hash_next (pc_pool c2) (pc_free_list c2) (seqZ 0 n)). rewrite Ep, Ef.
    replace (seqZ 0 n) with (seqZ 0 (Z.of_nat (Z.to_nat n))) by (f_equal; lia).
    apply chain_seq; [|lia|]; [intros j Hj|].
    + change (hash_next (pce_at (upd_pce (n - 1) (fun x => x⟦hash_next := None⟧) c1) j) = Some (j + 1)).
      rewrite pce_at_upd, decide_False by lia. apply H1. lia.
    + change (hash_next (pce_at (upd_pce (n - 1) (fun x => x⟦hash_next := None⟧) c1) (0 + Z.of_nat (Z.to_nat n) - 1)) = None).
      by rewrite pce_at_upd, decide_True by lia.
  - apply dll_nil.
  - intros h. exists []. split_and!; [apply Hb|constructor|]. set_solver.
  - rewrite app_nil_r. apply NoDup_seqZ.
  - intros e. rewrite app_nil_r, elem_of_seqZ. lia.
  - set_solver.
Qed.

Lemma page_cache_init_wf :
  cache_wf (vmm_page_cache_init page_cache_boot) (seqZ 0 VMM_PAGE_CACHE_POOL_SIZE) [].
Proof.
  unfold vmm_page_cache_init. cbn [pc_initialized page_cache_boot].
  eapply linked_cache_wf; [split; reflexivity || discriminate| |reflexivity|reflexivity]. reflexivity.
Qed.

(** ** A concrete cache *)

(** Two pages of file 1; the least recently used one is still mapped
    elsewhere.  Entry 2 is free. *)
Definition demo_cache : page_cache := mk_pc
  {[ 0 := mk_pce 1 0 (5 * PAGE_SIZE) 0 1 2 false false true None (Some 1) None;
     1 := mk_pce 1 1 (6 * PAGE_SIZE) 0 2 1 false false true None None (Some 0) ]}
  (Some 2) {[ 1 := Some 0; 17 := Some 1 ]} (Some 0) (Some 1) (mk_pcs 0 0 0 0 2) 2 true.

Lemma demo_cache_wf : cache_wf demo_cache [2] [0; 1].
Proof.
  split; try done.
  - split_and!; [done|compute_done|by vm_compute].
  - intros h. destruct (decide (h = 1)) as [->|H1]; [|destruct (decide (h = 17)) as [->|H17]].
    + exists [0]. split_and!; [by vm_compute|compute_done|]. intros e. set_unfold.
      split; [intros [->|[]]; by vm_compute; auto|]. intros [[->|[->|[]]] E]; [by left|by vm_compute in E].
    + exists [1]. split_and!; [by vm_compute|compute_done|]. intros e. set_unfold.
      split; [intros [->|[]]; by vm_compute; auto|]. intros [[->|[->|[]]] E]; [by vm_compute in E|by left].
    + exists []. split_and!; [|constructor|].
      * unfold demo_cache, aget. cbn [pc_hash chain]. by rewrite lookup_insert_ne, lookup_singleton_ne by done.
      * intros e. set_unfold. split; [done|]. intros [[->|[->|[]]] E]; vm_compute in E; congruence.
  - compute_done.
  - intros e He. unfold VMM_PAGE_CACHE_POOL_SIZE. set_unfold in He. lia.
  - intros e e' He He'. set_unfold in He. set_unfold in He'.
    destruct He as [->|[->|[]]], He' as [->|[->|[]]]; by vm_compute.
Qed.

Lemma demo_cache_ok : cache_ok demo_cache three_free [2] [0; 1] three_free_used.
Proof.
  split; [apply demo_cache_wf|apply three_free_rep|..].
  - intros e He. set_unfold in He. destruct He as [->|[->|[]]]; [exists 5|exists 6];
      (split; [by vm_compute|]; split; [done|]); apply (proj2 (proj2 three_free_rep));
      unfold TOTAL_PAGES, three_free; rewrite !elem_of_cons, elem_of_nil; lia.
  - intros e e' He He'. set_unfold in He. set_unfold in He'.
    destruct He as [->|[->|[]]], He' as [->|[->|[]]]; by vm_compute.
Qed.

Lemma page_cache_evict_witness :
  ∃ V c' a', vmm_page_cache_evict 4 demo_cache three_free = Some (c', a') ∧
    evicted demo_cache [2] [0; 1] three_free_used 4 busy V c' a' ∧ lru_tail c' = Some 1 ∧ a' = [5; 600; 601; 602].
Proof.
  destruct (page_cache_evict_spec 4 demo_cache three_free [2] [0; 1] three_free_used demo_cache_ok)
    as (V & c' & a' & E & Hev). exists V, c', a'. split_and!; [done|done|..].
  - assert ((fun r => lru_tail r.1) <$> vmm_page_cache_evict 4 demo_cache three_free = Some (Some 1)) as E1 by done.
    rewrite E in E1. by injection E1.
  - assert (snd <$> vmm_page_cache_evict 4 demo_cache three_free = Some [5; 600; 601; 602]) as E1 by done.
    rewrite E in E1. by injection E1.
Defined.

Lemma demo_page_used : 7 ∈ three_free_used.
Proof.
  apply (proj2 (proj2 three_free_rep)). unfold TOTAL_PAGES, three_free. rewrite !elem_of_cons, elem_of_nil. lia.
Qed.

Lemma demo_not_cached e : e ∈ [0; 1] → phys_addr (pce_at demo_cache e) ≠ 7 * PAGE_SIZE.
Proof. intros He. set_unfold in He. destruct He as [->|[->|[]]]; by vm_compute. Qed.

Lemma demo_missing e : e ∈ [0; 1] → key demo_cache e ≠ (3, 9).
Proof. intros He. set_unfold in He. destruct He as [->|[->|[]]]; by vm_compute. Qed.


Lemma page_cache_insert_lookup_witness :
  ∃ e c' a', vmm_page_cache_insert 3 9 (7 * PAGE_SIZE) demo_cache three_free = Some (Some e, c', a') ∧
    ∃ c'', vmm_page_cache_lookup 3 9 c' = Some (Some e, c'') ∧ phys_addr (pce_at c'' e) = 7 * PAGE_SIZE.
Proof.
  eexists _, _, _. split; [vm_compute; reflexivity|].
  eapply (page_cache_insert_lookup demo_cache three_free [2] [0; 1] three_free_used 3 9 7); [apply demo_cache_ok|done|
    apply demo_page_used|apply demo_not_cached|apply demo_missing|vm_compute; reflexivity].
Defined.
