(* ===== verification/Swap.v ===== *)
(** * The swap manager (kernel/mm/swap.c)

    Up to four swap areas, each with a bitmap of its slots and a count of the
    free ones; area 0 is a 1 MiB store in kernel memory.  A page that is
    swapped out leaves its slot number in the page-table entry.

    Pages are copied byte by byte between physical memory and the store, both
    at page-aligned addresses; the model copies the 1024 words of the page, the
    granularity of [Vmm]'s memory.  Real disk I/O is a stub in the source.

    [swap_wf sw] says that every area's count agrees with its bitmap.  The
    theorems give the effect of slot allocation and release on the set of slots
    in use, the round trip of a page through the store, and what becomes of
    slots outside area 0. *)

From S2P Require Import Prelude Bitmap PageAlloc Dll Pmm Vmm PageCache.

Definition MAX_SWAP_AREAS : Z := 4.
Definition EMBEDDED_SWAP_PAGES : Z := 4096.
Definition SWAP_STORAGE_SIZE : Z := 256 * PAGE_SIZE.
Definition SWAP_MAX_PAGES : Z := 16 * 1024.
Definition PTE_SWAPPED : Z := 0x200.
Definition PTE_SWAP_SLOT_SHIFT : Z := 12.
(** [(uint32_t)-1] *)
Definition NO_SLOT : Z := 0xFFFFFFFF.

Record swap_area := mk_area {
  start_block : Z;
  sa_total_pages : Z;
  sa_free_pages : Z;
  sa_bitmap : list Z;
  sa_device : Z;
  sa_flags : Z;
}.
#[export] Instance eta_area : Eta swap_area := fun a =>
  mk_area (start_block a) (sa_total_pages a) (sa_free_pages a) (sa_bitmap a) (sa_device a) (sa_flags a).
#[export] Instance zeroed_area : Zeroed swap_area := mk_area 0 0 0 [] 0 0.

Record swap_state := mk_swap {
  swap_areas : gmap Z swap_area;
  num_swap_areas : Z;
  pages_swapped_out : Z;
  pages_swapped_in : Z;
  swap_initialized : bool;
  swap_storage : gmap Z Z;
}.
#[export] Instance eta_swap : Eta swap_state := fun s =>
  mk_swap (swap_areas s) (num_swap_areas s) (pages_swapped_out s) (pages_swapped_in s)
    (swap_initialized s) (swap_storage s).

Definition swap_boot : swap_state := mk_swap ∅ 0 0 0 false ∅.

Definition area_at (sw : swap_state) (i : Z) : swap_area := (swap_areas sw).[i].
Definition upd_area (i : Z) (f : swap_area → swap_area) (sw : swap_state) : swap_state :=
  sw⟦swap_areas ::= fun m => amod m i f⟧.

(** ** Slots *)

(** [bitmap_find_free]: [-1] when every bit is set. *)
Definition bitmap_find_free (bitmap : list Z) (max_bits : Z) : Z :=
  default (-1) (bm_find_free 32 bitmap (Z.to_nat max_bits)).

(** [for (int i = 0; i < num_swap_areas; i++)] *)
Fixpoint alloc_slot_loop (n : nat) (i : Z) (sw : swap_state) : Z * swap_state :=
  match n with
  | O => (NO_SLOT, sw)
  | S n' =>
      let sa := area_at sw i in
      if sa_free_pages sa =? 0 then alloc_slot_loop n' (i + 1) sw
      else
        let slot := bitmap_find_free (sa_bitmap sa) (sa_total_pages sa) in
        if 0 <=? slot then
          ((i <<: 24) |: slot,
           upd_area i (fun a => a⟦sa_bitmap ::= fun b => bm_set 32 b slot⟧
                                 ⟦sa_free_pages ::= fun x => u32 (x - 1)⟧) sw)
        else alloc_slot_loop n' (i + 1) sw
  end.

Definition swap_alloc_slot (sw : swap_state) : Z * swap_state :=
  if swap_initialized sw then alloc_slot_loop (Z.to_nat (num_swap_areas sw)) 0 sw else (NO_SLOT, sw).

Definition area_idx (slot : Z) : Z := (slot >>: 24) &: 0xFF.
Definition page_slot (slot : Z) : Z := slot &: 0x00FFFFFF.

Definition swap_free_slot (slot : Z) (sw : swap_state) : swap_state :=
  if slot =? NO_SLOT then sw
  else if num_swap_areas sw <=? area_idx slot then sw
  else if sa_total_pages (area_at sw (area_idx slot)) <=? page_slot slot then sw
  else upd_area (area_idx slot) (fun a => a⟦sa_bitmap ::= fun b => bm_clear 32 b (page_slot slot)⟧
                                           ⟦sa_free_pages ::= fun x => u32 (x + 1)⟧) sw.

Section operations.
Context {S : Type} `{PageAllocator S}.

(** ** Page transfer *)

(** [dst[i] = src[i]] from physical memory to the store. *)
Definition store_page (offset phys : Z) (vm : vmm_state S) (sw : swap_state) : swap_state :=
  sw⟦swap_storage ::= fun m =>
    iter_up (Z.to_nat 1024) 0 (fun i m => aset m (offset + 4 * i) (entry vm phys i)) m⟧.

Definition swap_write_page (slot phys : Z) (vm : vmm_state S) (sw : swap_state) : Z * swap_state :=
  if num_swap_areas sw <=? area_idx slot then (-1, sw)
  else if sa_device (area_at sw (area_idx slot)) =? -1 then
    let offset := u32 (page_slot slot * PAGE_SIZE) in
    if u32 (offset + PAGE_SIZE) <=? SWAP_STORAGE_SIZE then (0, store_page offset phys vm sw) else (-1, sw)
  else (0, sw).

Definition swap_read_page (slot phys : Z) (vm : vmm_state S) (sw : swap_state) : Z * vmm_state S :=
  if num_swap_areas sw <=? area_idx slot then (-1, vm)
  else if sa_device (area_at sw (area_idx slot)) =? -1 then
    let offset := u32 (page_slot slot * PAGE_SIZE) in
    if u32 (offset + PAGE_SIZE) <=? SWAP_STORAGE_SIZE
    then (0, fill_entries 1024 phys (fun i => (swap_storage sw).[offset + 4 * i]) vm) else (-1, vm)
  else (0, vm).

(** ** Swapping *)

Definition clear_area (i : Z) (sw : swap_state) : swap_state := upd_area i (fun _ => mk_area 0 0 0 [] 0 0) sw.

Definition swap_init (sw : swap_state) : swap_state :=
  if swap_initialized sw then sw
  else
    let sw := iter_up (Z.to_nat MAX_SWAP_AREAS) 0 clear_area sw in
    let sw := sw⟦num_swap_areas := 0⟧ in
    let embedded_swap_bitmap := replicate (Z.to_nat (EMBEDDED_SWAP_PAGES / 32)) 0 in
    let sw := upd_area 0 (fun _ => mk_area 0 (SWAP_STORAGE_SIZE / PAGE_SIZE) (SWAP_STORAGE_SIZE / PAGE_SIZE)
                                     embedded_swap_bitmap (-1) 0) sw in
    sw⟦num_swap_areas := 1⟧⟦swap_initialized := true⟧.

(** [pte] is the physical address of the entry, or a null pointer.  The entry
    is a word of the memory the paging structures live in. *)
Definition swap_out_page (virt_addr : Z) (pte : ptr) (vm : vmm_state S) (sw : swap_state) :
    option (Z * vmm_state S * swap_state) :=
  if negb (swap_initialized sw) then Some (-1, vm, sw)
  else
    match pte with
    | None => Some (-1, vm, sw)
    | Some p =>
        if negb (truth (entry vm p 0 &: PAGE_PRESENT)) then Some (-1, vm, sw)
        else
          let phys := andn32 (entry vm p 0) 0xFFF in
          let '(slot, sw) := swap_alloc_slot sw in
          if slot =? NO_SLOT then Some (-1, vm, sw)
          else
            let '(r, sw) := swap_write_page slot phys vm sw in
            if r <? 0 then Some (-1, vm, swap_free_slot slot sw)
            else
              let vm := set_entry p 0 (u32 (slot <<: PTE_SWAP_SLOT_SHIFT) |: PTE_SWAPPED) vm in
              a ← pa_free phys (pmm vm);
              Some (0, vm⟦pmm := a⟧, sw⟦pages_swapped_out ::= fun n => u32 (n + 1)⟧)
    end.

Definition swap_in_page (virt_addr pte : Z) (vm : vmm_state S) (sw : swap_state) :
    option (Z * vmm_state S * swap_state) :=
  if negb (swap_initialized sw) then Some (-1, vm, sw)
  else if negb (truth (pte &: PTE_SWAPPED)) then Some (-1, vm, sw)
  else
    let slot := pte >>: PTE_SWAP_SLOT_SHIFT in
    let '(phys, a) := pa_alloc (pmm vm) in
    let vm := vm⟦pmm := a⟧ in
    if phys =? 0 then Some (-1, vm, sw)
    else
      let '(r, vm) := swap_read_page slot phys vm sw in
      if r <? 0 then a ← pa_free phys (pmm vm); Some (-1, vm⟦pmm := a⟧, sw)
      else
        let sw := swap_free_slot slot sw in
        let vm := vmm_map_page (andn32 virt_addr 0xFFF) phys ((PAGE_PRESENT |: PAGE_WRITE) |: PAGE_USER) vm in
        Some (0, vm, sw⟦pages_swapped_in ::= fun n => u32 (n + 1)⟧).

(** [bitmap_ok]: whether [kmalloc] returned the memory of the bitmap. *)
Definition swap_add_area (device start size : Z) (bitmap_ok : bool) (sw : swap_state) : Z * swap_state :=
  if MAX_SWAP_AREAS <=? num_swap_areas sw then (-1, sw)
  else
    let pages := size / PAGE_SIZE in
    let pages := if SWAP_MAX_PAGES <? pages then SWAP_MAX_PAGES else pages in
    let bitmap_size := (pages + 31) / 32 in
    if negb bitmap_ok then (-1, sw)
    else
      let idx := num_swap_areas sw in
      let sw := sw⟦num_swap_areas := idx + 1⟧ in
      (0, upd_area idx (fun _ => mk_area start pages pages (replicate (Z.to_nat bitmap_size) 0) device 0) sw).

(** The totals over the areas. *)
Definition swap_get_stats (sw : swap_state) : Z * Z :=
  iter_up (Z.to_nat (num_swap_areas sw)) 0 (fun i '(t, f) =>
    (u32 (t + sa_total_pages (area_at sw i)), u32 (f + sa_free_pages (area_at sw i)))) (0, 0).

Definition swap_is_low (sw : swap_state) : bool :=
  let '(total, free) := swap_get_stats sw in
  (0 <? total) && (u32 (free * 100) / total <? 10).

Definition swap_try_reclaim (target_pages : Z) (c : page_cache) (a : S) : option (Z * page_cache * S) :=
  vmm_page_cache_shrink target_pages c a.

End operations.

(** ** The invariant *)

Record area_wf (a : swap_area) : Prop := {
  aw_total : 0 ≤ sa_total_pages a ≤ SWAP_MAX_PAGES;
  aw_bitmap : bm_wf 32 (sa_bitmap a) (Z.to_nat (sa_total_pages a));
  aw_free : sa_free_pages a = sa_total_pages a - bm_count 32 (sa_bitmap a) (Z.to_nat (sa_total_pages a));
}.

Record swap_wf (sw : swap_state) : Prop := {
  sw_init : swap_initialized sw = true;
  sw_num : 1 ≤ num_swap_areas sw ≤ MAX_SWAP_AREAS;
  sw_area : ∀ i, 0 ≤ i < num_swap_areas sw → area_wf (area_at sw i);
}.

Definition slot_valid (sw : swap_state) (i j : Z) : Prop :=
  0 ≤ i < num_swap_areas sw ∧ 0 ≤ j < sa_total_pages (area_at sw i).
Definition slot_used (sw : swap_state) (i j : Z) : bool := bm_test 32 (sa_bitmap (area_at sw i)) j.
(** The number that stands for slot [j] of area [i]. *)
Definition slot_code (i j : Z) : Z := (i <<: 24) |: j.

Lemma area_at_upd sw i f k :
  area_at (upd_area i f sw) k = if decide (i = k) then f (area_at sw i) else area_at sw k.
Proof. apply aget_amod. Qed.

(** ** Slot numbers *)

Lemma slot_code_idx i j : 0 ≤ i < 256 → 0 ≤ j < 2 ^ 24 → area_idx (slot_code i j) = i.
Proof.
  intros Hi Hj. unfold area_idx, slot_code. rewrite Z.shiftr_lor, Z.shiftr_shiftl_l by done.
  rewrite Z.sub_diag, Z.shiftl_0_r, (Z.shiftr_div_pow2 j), Z.div_small, Z.lor_0_r by done.
  change 0xFF with (Z.ones 8). rewrite Z.land_ones by done. by apply Z.mod_small.
Qed.

Lemma slot_code_page i j : 0 ≤ i → 0 ≤ j < 2 ^ 24 → page_slot (slot_code i j) = j.
Proof.
  intros Hi Hj. unfold page_slot, slot_code. change 0x00FFFFFF with (Z.ones 24).
  rewrite Z.land_lor_distr_l, !Z.land_ones by done.
  rewrite Z.shiftl_mul_pow2, Z.mod_mul, Z.mod_small by done. by rewrite Z.lor_0_l.
Qed.

Lemma slot_code_range i j : 0 ≤ i < 4 → 0 ≤ j < 2 ^ 24 → 0 ≤ slot_code i j < 2 ^ 26.
Proof.
  intros Hi Hj. apply lor_range; [done| |lia]. rewrite Z.shiftl_mul_pow2 by done. lia.
Qed.

Lemma slot_code_valid i j : 0 ≤ i < 4 → 0 ≤ j < 2 ^ 24 → slot_code i j ≠ NO_SLOT.
Proof. intros Hi Hj. pose proof (slot_code_range i j Hi Hj). unfold NO_SLOT. lia. Qed.

Lemma valid_range sw i j : swap_wf sw → slot_valid sw i j → 0 ≤ i < 4 ∧ 0 ≤ j < SWAP_MAX_PAGES.
Proof.
  intros Hwf [Hi Hj]. pose proof (sw_num _ Hwf). destruct (sw_area _ Hwf i Hi) as [Ht _ _].
  unfold MAX_SWAP_AREAS in *. lia.
Qed.

(** ** Changing one bit of one area *)

Lemma area_update sw i j f b :
  swap_wf sw → slot_valid sw i j →
  (∀ a, sa_total_pages (f a) = sa_total_pages a ∧ sa_device (f a) = sa_device a) →
  area_wf (f (area_at sw i)) →
  (∀ k, 0 ≤ k → bm_test 32 (sa_bitmap (f (area_at sw i))) k = if decide (j = k) then b else slot_used sw i k) →
  let sw' := upd_area i f sw in
  swap_wf sw' ∧ (∀ i' j', 0 ≤ j' → slot_used sw' i' j' = if decide (i = i' ∧ j = j') then b else slot_used sw i' j') ∧
  (∀ i' j', slot_valid sw' i' j' ↔ slot_valid sw i' j').
Proof.
  intros Hwf [Hi Hj] Hf Ha Hb sw'. split_and!.
  - split; [apply Hwf|apply Hwf|]. intros k Hk. subst sw'. rewrite area_at_upd.
    case_decide; [by subst|]. by apply Hwf.
  - intros i' j' Hj'. unfold slot_used. subst sw'. rewrite area_at_upd. destruct (decide (i = i')) as [<-|Hne].
    + rewrite Hb by done. repeat case_decide; naive_solver.
    + rewrite decide_False by naive_solver. done.
  - intros i' j'. unfold slot_valid. subst sw'. rewrite area_at_upd. case_decide; [|done]. subst.
    by destruct (Hf (area_at sw i')) as [-> _].
Qed.

Lemma set_slot sw i j :
  swap_wf sw → slot_valid sw i j → slot_used sw i j = false →
  let sw' := upd_area i (fun a => a⟦sa_bitmap ::= fun b => bm_set 32 b j⟧⟦sa_free_pages ::= fun x => u32 (x - 1)⟧) sw in
  swap_wf sw' ∧
  (∀ i' j', 0 ≤ j' → slot_used sw' i' j' = if decide (i = i' ∧ j = j') then true else slot_used sw i' j') ∧
  (∀ i' j', slot_valid sw' i' j' ↔ slot_valid sw i' j').
Proof.
  intros Hwf Hv Hu. pose proof Hv as [Hi Hj]. destruct (sw_area _ Hwf i Hi) as [Ht Hbm Hfree].
  assert (0 ≤ j < Z.of_nat (Z.to_nat (sa_total_pages (area_at sw i)))) as Hj' by lia.
  pose proof (bm_count_set 32 ltac:(done) _ _ j Hbm Hj') as Hcnt. unfold slot_used in Hu. rewrite Hu in Hcnt.
  pose proof (count_up_bounds (Z.to_nat (sa_total_pages (area_at sw i))) (bm_test 32 (bm_set 32 (sa_bitmap (area_at sw i)) j))) as Hb.
  unfold bm_count in *. unfold SWAP_MAX_PAGES in Ht.
  apply (area_update sw i j _ true); [done|done|done|..].
  - split; cbn; [done|by apply bm_set_wf|]. unfold bm_count. rewrite Hcnt, Hfree, u32_small; lia.
  - intros k Hk. cbn. unfold slot_used. eapply bm_test_set; [done|exact Hbm|done|done].
Qed.

Lemma clear_slot sw i j :
  swap_wf sw → slot_valid sw i j → slot_used sw i j = true →
  let sw' := upd_area i (fun a => a⟦sa_bitmap ::= fun b => bm_clear 32 b j⟧⟦sa_free_pages ::= fun x => u32 (x + 1)⟧) sw in
  swap_wf sw' ∧
  (∀ i' j', 0 ≤ j' → slot_used sw' i' j' = if decide (i = i' ∧ j = j') then false else slot_used sw i' j') ∧
  (∀ i' j', slot_valid sw' i' j' ↔ slot_valid sw i' j').
Proof.
  intros Hwf Hv Hu. pose proof Hv as [Hi Hj]. destruct (sw_area _ Hwf i Hi) as [Ht Hbm Hfree].
  assert (0 ≤ j < Z.of_nat (Z.to_nat (sa_total_pages (area_at sw i)))) as Hj' by lia.
  pose proof (bm_count_clear 32 ltac:(done) _ _ j Hbm Hj') as Hcnt. unfold slot_used in Hu. rewrite Hu in Hcnt.
  pose proof (count_up_bounds (Z.to_nat (sa_total_pages (area_at sw i))) (bm_test 32 (bm_clear 32 (sa_bitmap (area_at sw i)) j))) as Hb.
  unfold bm_count in *. unfold SWAP_MAX_PAGES in Ht.
  apply (area_update sw i j _ false); [done|done|done|..].
  - split; cbn; [done|by apply bm_clear_wf|]. unfold bm_count. rewrite Hcnt, Hfree, u32_small; lia.
  - intros k Hk. cbn. unfold slot_used. eapply bm_test_clear; [done|exact Hbm|done|done].
Qed.

(** ** Allocation and release *)

Lemma area_search sw i :
  swap_wf sw → 0 ≤ i < num_swap_areas sw →
  let sa := area_at sw i in
  (sa_free_pages sa = 0 ∧ ∀ j, slot_valid sw i j → slot_used sw i j = true) ∨
  (sa_free_pages sa ≠ 0 ∧ ∃ j, bitmap_find_free (sa_bitmap sa) (sa_total_pages sa) = j ∧ slot_valid sw i j ∧
    slot_used sw i j = false ∧ ∀ k, 0 ≤ k < j → slot_used sw i k = true).
Proof.
  intros Hwf Hi sa. destruct (sw_area _ Hwf i Hi) as [Ht Hbm Hfree]. fold sa in Ht, Hbm, Hfree.
  unfold bm_count in Hfree. destruct (decide (sa_free_pages sa = 0)) as [Hz|Hnz].
  - left. split; [done|]. intros j [_ Hj]. unfold slot_used. fold sa.
    eapply (proj1 (count_up_full (Z.to_nat (sa_total_pages sa)) _)); [lia|]. fold sa in Hj. lia.
  - right. split; [done|]. unfold bitmap_find_free.
    destruct (bm_find_free 32 (sa_bitmap sa) (Z.to_nat (sa_total_pages sa))) as [j|] eqn:E.
    + apply bm_find_free_Some in E as (Hj & Hc & Hmin). exists j. split_and!; [done| |done|done].
      split; [done|]. fold sa. lia.
    + exfalso. rewrite bm_find_free_None in E. apply Hnz.
      apply (count_up_full (Z.to_nat (sa_total_pages sa)) (bm_test 32 (sa_bitmap sa))) in E. lia.
Qed.

Lemma alloc_slot_loop_spec n i sw :
  swap_wf sw → 0 ≤ i → i + Z.of_nat n = num_swap_areas sw →
  (∀ i' j, 0 ≤ i' < i → slot_valid sw i' j → slot_used sw i' j = true) →
  (alloc_slot_loop n i sw = (NO_SLOT, sw) ∧ ∀ i' j, slot_valid sw i' j → slot_used sw i' j = true) ∨
  (∃ k j, slot_valid sw k j ∧ slot_used sw k j = false ∧
    (∀ i' j', slot_valid sw i' j' → i' < k ∨ i' = k ∧ j' < j → slot_used sw i' j' = true) ∧
    alloc_slot_loop n i sw = (slot_code k j,
      upd_area k (fun a => a⟦sa_bitmap ::= fun b => bm_set 32 b j⟧⟦sa_free_pages ::= fun x => u32 (x - 1)⟧) sw)).
Proof.
  intros Hwf. revert i. induction n as [|n IH]; intros i Hi Hn Hbefore; cbn [alloc_slot_loop].
  { left. split; [done|]. intros i' j Hv. apply Hbefore; [|done]. destruct Hv. lia. }
  destruct (area_search sw i Hwf ltac:(lia)) as [[-> Hall]|(Hnz & j & -> & Hv & Hc & Hmin)].
  - cbn. apply IH; [lia|lia|]. intros i' j Hi' Hv. destruct (decide (i' = i)) as [->|]; [by apply Hall|].
    apply Hbefore; [lia|done].
  - apply Z.eqb_neq in Hnz. rewrite Hnz. destruct (Z.leb_spec 0 j); [|destruct Hv; lia].
    right. exists i, j. split_and!; [done|done| |done]. intros i' j' Hv' [Hlt|[-> Hlt]].
    + apply Hbefore; [destruct Hv'; lia|done].
    + apply Hmin. destruct Hv'. lia.
Qed.

Lemma alloc_slot_ok sw :
  swap_wf sw →
  (swap_alloc_slot sw = (NO_SLOT, sw) ∧ ∀ i j, slot_valid sw i j → slot_used sw i j = true) ∨
  (∃ i j sw', swap_alloc_slot sw = (slot_code i j, sw') ∧ slot_code i j ≠ NO_SLOT ∧
    area_idx (slot_code i j) = i ∧ page_slot (slot_code i j) = j ∧
    slot_valid sw i j ∧ slot_used sw i j = false ∧
    (∀ i' j', slot_valid sw i' j' → i' < i ∨ i' = i ∧ j' < j → slot_used sw i' j' = true) ∧
    swap_wf sw' ∧
    (∀ i' j', 0 ≤ j' → slot_used sw' i' j' = if decide (i = i' ∧ j = j') then true else slot_used sw i' j')).
Proof.
  intros Hwf. unfold swap_alloc_slot. rewrite (sw_init _ Hwf). pose proof (sw_num _ Hwf) as Hnum.
  destruct (alloc_slot_loop_spec (Z.to_nat (num_swap_areas sw)) 0 sw Hwf) as [?|(i & j & Hv & Hu & Hmin & ->)];
    [lia|lia|lia|by left|].
  right. destruct (valid_range _ _ _ Hwf Hv) as [Hi Hj]. unfold SWAP_MAX_PAGES in Hj.
  destruct (set_slot sw i j Hwf Hv Hu) as (Hwf' & Hused & _). exists i, j. eexists.
  split; [done|]. split_and!; try done.
  - apply slot_code_valid; lia.
  - apply slot_code_idx; lia.
  - apply slot_code_page; lia.
Qed.

(** C15: [swap_alloc_slot] returns the first slot that is not in use, in area
    and then slot order, marks that slot and no other, and keeps every area's
    count of free slots equal to the number of clear bits; it fails, changing
    nothing, exactly when every slot of every area is in use. *)
Theorem swap_alloc_slot_spec sw :
  swap_wf sw →
  (swap_alloc_slot sw = (NO_SLOT, sw) ∧ ∀ i j, slot_valid sw i j → slot_used sw i j = true) ∨
  (∃ i j sw', swap_alloc_slot sw = (slot_code i j, sw') ∧ slot_code i j ≠ NO_SLOT ∧
    area_idx (slot_code i j) = i ∧ page_slot (slot_code i j) = j ∧
    slot_valid sw i j ∧ slot_used sw i j = false ∧
    (∀ i' j', slot_valid sw i' j' → i' < i ∨ i' = i ∧ j' < j → slot_used sw i' j' = true) ∧
    swap_wf sw' ∧
    (∀ i' j', 0 ≤ j' → slot_used sw' i' j' = if decide (i = i' ∧ j = j') then true else slot_used sw i' j')).
Proof. apply alloc_slot_ok. Qed.

Lemma free_slot_eq sw i j :
  swap_wf sw → slot_valid sw i j →
  swap_free_slot (slot_code i j) sw =
    upd_area i (fun a => a⟦sa_bitmap ::= fun b => bm_clear 32 b j⟧⟦sa_free_pages ::= fun x => u32 (x + 1)⟧) sw.
Proof.
  intros Hwf Hv. destruct (valid_range _ _ _ Hwf Hv) as [Hi Hj]. unfold SWAP_MAX_PAGES in Hj.
  unfold swap_free_slot. rewrite slot_code_idx, slot_code_page by lia.
  pose proof (slot_code_valid i j ltac:(lia) ltac:(lia)) as E%Z.eqb_neq. rewrite E. destruct Hv as [Hvi Hvj].
  destruct (Z.leb_spec (num_swap_areas sw) i); [lia|]. destruct (Z.leb_spec (sa_total_pages (area_at sw i)) j); [lia|done].
Qed.

(** [swap_free_slot] releases exactly the slot it is given and raises its
    area's count of free slots by one; an invalid slot number changes
    nothing. *)
Theorem swap_free_slot_spec sw i j :
  swap_wf sw → slot_valid sw i j → slot_used sw i j = true →
  let sw' := swap_free_slot (slot_code i j) sw in
  swap_wf sw' ∧
  (∀ i' j', 0 ≤ j' → slot_used sw' i' j' = if decide (i = i' ∧ j = j') then false else slot_used sw i' j') ∧
  sa_free_pages (area_at sw' i) = sa_free_pages (area_at sw i) + 1 ∧
  (∀ slot, slot = NO_SLOT ∨ ¬ slot_valid sw (area_idx slot) (page_slot slot) → 0 ≤ slot → swap_free_slot slot sw = sw).
Proof.
  intros Hwf Hv Hu sw'. destruct (valid_range _ _ _ Hwf Hv) as [Hi Hj]. unfold SWAP_MAX_PAGES in Hj.
  destruct (clear_slot sw i j Hwf Hv Hu) as (Hwf' & Hused & _).
  subst sw'. rewrite (free_slot_eq sw i j Hwf Hv).
  split_and!; [done|done|..].
  - rewrite area_at_upd, decide_True by done. cbn. destruct Hv as [Hvi Hvj].
    destruct (sw_area _ Hwf i Hvi) as [Ht _ Hf]. unfold SWAP_MAX_PAGES in Ht.
    pose proof (count_up_bounds (Z.to_nat (sa_total_pages (area_at sw i))) (bm_test 32 (sa_bitmap (area_at sw i)))).
    unfold bm_count in Hf. apply u32_small. lia.
  - intros slot Hs Hslot. unfold swap_free_slot. destruct Hs as [->|Hinv]; [done|]. case_if; [done|].
    assert (0 ≤ area_idx slot ∧ 0 ≤ page_slot slot) as [H1 H2] by (unfold area_idx, page_slot; split; apply Z.land_nonneg; lia).
    destruct (Z.leb_spec (num_swap_areas sw) (area_idx slot)); [done|].
    destruct (Z.leb_spec (sa_total_pages (area_at sw (area_idx slot))) (page_slot slot)); [done|].
    exfalso. apply Hinv. by split.
Qed.

(** ** A page through the store *)

Lemma store_page_at {S} (vm : vmm_state S) sw s phys s' j :
  0 ≤ j < 1024 →
  (swap_storage (store_page (s * PAGE_SIZE) phys vm sw)).[s' * PAGE_SIZE + 4 * j] =
    if decide (s' = s) then entry vm phys j else (swap_storage sw).[s' * PAGE_SIZE + 4 * j].
Proof.
  intros Hj. unfold store_page. cbn [modify_field swap_storage].
  pose proof (iter_up_inv (fun k m => ∀ s' j, 0 ≤ j < 1024 → m.[s' * PAGE_SIZE + 4 * j] =
      if decide (s' = s ∧ j < k) then entry vm phys j else (swap_storage sw).[s' * PAGE_SIZE + 4 * j])
    (fun i m => aset m (s * PAGE_SIZE + 4 * i) (entry vm phys i)) (Z.to_nat 1024) 0 (swap_storage sw)) as Hloop.
  set (m := iter_up _ _ _ _) in *. clearbody m. rewrite Hloop; [| | |done].
  - repeat case_decide; try done; lia.
  - intros t k Hk. rewrite decide_False by lia. done.
  - clear -Hj. intros k m Hk IH t i Hi. rewrite aget_aset. unfold PAGE_SIZE in *. rewrite IH by done.
    repeat case_decide; try done; try lia. f_equal. lia.
Qed.

Section roundtrip.
Context {S : Type} `{PageAllocatorLaws S}.
Implicit Types (vm : vmm_state S) (sw : swap_state).

Definition swap_pte (j : Z) : Z := u32 (j <<: PTE_SWAP_SLOT_SHIFT) |: PTE_SWAPPED.

Lemma swap_pte_spec j : 0 ≤ j < 2 ^ 20 →
  truth (swap_pte j &: PAGE_PRESENT) = false ∧ truth (swap_pte j &: PTE_SWAPPED) = true ∧
  swap_pte j >>: PTE_SWAP_SLOT_SHIFT = j.
Proof.
  intros Hj. unfold swap_pte, PTE_SWAP_SLOT_SHIFT, PTE_SWAPPED, PAGE_PRESENT. rewrite Z.shiftl_mul_pow2 by done.
  rewrite u32_small by lia. change (2 ^ 12) with 4096. split_and!.
  - rewrite truth_land_1, lor_page by done. by rewrite Z.odd_add, Z.odd_mul, andb_false_r.
  - change 0x200 with (1 <<: 9). rewrite truth_land_bit by done. rewrite Z.lor_spec, testbit_1_shift, orb_true_r by done.
    done.
  - rewrite lor_page by done. rewrite Z.shiftr_div_pow2 by done. change (2 ^ 12) with 4096.
    rewrite Z.div_add_l by done. change (0x200 / 4096) with 0. lia.
Qed.

(** Area 0 is the store in kernel memory. *)
Definition embedded (sw : swap_state) : Prop :=
  sa_device (area_at sw 0) = -1 ∧ sa_total_pages (area_at sw 0) = SWAP_STORAGE_SIZE / PAGE_SIZE.

Lemma write_page_eq vm sw j phys :
  swap_wf sw → embedded sw → 0 ≤ j < 256 → swap_write_page j phys vm sw = (0, store_page (j * PAGE_SIZE) phys vm sw).
Proof.
  intros Hwf [Hdev Htot] Hj. pose proof (sw_num _ Hwf) as Hn. unfold swap_write_page.
  assert (area_idx j = 0 ∧ page_slot j = j) as [-> ->].
  { split; [apply (slot_code_idx 0 j); lia|apply (slot_code_page 0 j); lia]. }
  destruct (Z.leb_spec (num_swap_areas sw) 0); [lia|]. rewrite Hdev. cbn [Z.eqb Pos.eqb].
  rewrite (u32_small (j * PAGE_SIZE)) by (unfold PAGE_SIZE; lia). unfold SWAP_STORAGE_SIZE.
  rewrite u32_small by (unfold PAGE_SIZE; lia). destruct (Z.leb_spec (j * PAGE_SIZE + PAGE_SIZE) (256 * PAGE_SIZE)); [done|].
  unfold PAGE_SIZE in *. lia.
Qed.

Lemma read_page_eq vm sw j phys :
  swap_wf sw → embedded sw → 0 ≤ j < 256 →
  swap_read_page j phys vm sw = (0, fill_entries 1024 phys (fun i => (swap_storage sw).[j * PAGE_SIZE + 4 * i]) vm).
Proof.
  intros Hwf [Hdev Htot] Hj. pose proof (sw_num _ Hwf) as Hn. unfold swap_read_page.
  assert (area_idx j = 0 ∧ page_slot j = j) as [-> ->].
  { split; [apply (slot_code_idx 0 j); lia|apply (slot_code_page 0 j); lia]. }
  destruct (Z.leb_spec (num_swap_areas sw) 0); [lia|]. rewrite Hdev. cbn [Z.eqb Pos.eqb].
  rewrite (u32_small (j * PAGE_SIZE)) by (unfold PAGE_SIZE; lia). unfold SWAP_STORAGE_SIZE.
  rewrite u32_small by (unfold PAGE_SIZE; lia). destruct (Z.leb_spec (j * PAGE_SIZE + PAGE_SIZE) (256 * PAGE_SIZE)); [done|].
  unfold PAGE_SIZE in *. lia.
Qed.

(** Where the entry of a virtual address lies. *)
Definition pte_addr (vm : vmm_state S) (v : Z) : Z := table_of vm (dir_index v) + 4 * table_index v.

Lemma embedded_upd sw i f :
  (∀ a, sa_total_pages (f a) = sa_total_pages a ∧ sa_device (f a) = sa_device a) → embedded sw → embedded (upd_area i f sw).
Proof.
  intros Hf [H1 H2]. unfold embedded. rewrite area_at_upd. case_decide; [|done]. subst.
  by destruct (Hf (area_at sw 0)) as [-> ->].
Qed.

Lemma alloc_embedded sw k :
  swap_wf sw → embedded sw → slot_valid sw 0 k → slot_used sw 0 k = false →
  ∃ j sw', swap_alloc_slot sw = (j, sw') ∧ 0 ≤ j < 256 ∧ slot_valid sw 0 j ∧ slot_used sw 0 j = false ∧
    swap_wf sw' ∧ embedded sw' ∧
    (∀ i' j', 0 ≤ j' → slot_used sw' i' j' = if decide (0 = i' ∧ j = j') then true else slot_used sw i' j') ∧
    (∀ i' j', slot_valid sw' i' j' ↔ slot_valid sw i' j').
Proof.
  intros Hwf Hemb Hv Hu. unfold swap_alloc_slot. rewrite (sw_init _ Hwf). pose proof (sw_num _ Hwf) as Hnum.
  destruct (alloc_slot_loop_spec (Z.to_nat (num_swap_areas sw)) 0 sw Hwf) as [[_ Hall]|(i & j & Hv' & Hu' & Hmin & ->)];
    [lia|lia|lia|rewrite Hall in Hu; done|].
  assert (i = 0) as ->.
  { destruct (decide (i = 0)) as [|Hne]; [done|]. pose proof Hv' as [Hi _]. rewrite (Hmin 0 k Hv) in Hu; [done|lia]. }
  destruct (set_slot sw 0 j Hwf Hv' Hu') as (Hwf' & Hused & Hval). pose proof Hv' as [Hi Hj]. pose proof Hemb as [Hd Ht].
  rewrite Ht in Hj. change (SWAP_STORAGE_SIZE / PAGE_SIZE) with 256 in Hj.
  exists j. eexists. split; [reflexivity|]. split; [lia|]. do 3 (split; [done|]).
  split; [by apply embedded_upd|done].
Qed.

Lemma swap_out_ok vm U sw v f k :
  vmm_wf vm U → vaddr v → present vm (dir_index v) = true →
  truth (pte vm v &: PAGE_PRESENT) = true → andn32 (pte vm v) 0xFFF = f * PAGE_SIZE →
  data_frame vm U f → f ≠ 0 →
  swap_wf sw → embedded sw → slot_valid sw 0 k → slot_used sw 0 k = false →
  ∃ j vm' sw', swap_out_page v (Some (pte_addr vm v)) vm sw = Some (0, vm', sw') ∧ 0 ≤ j < 256 ∧
    slot_used sw 0 j = false ∧ swap_wf sw' ∧ embedded sw' ∧ slot_valid sw' 0 j ∧
    (∀ i' j', 0 ≤ j' → slot_used sw' i' j' = if decide (0 = i' ∧ j = j') then true else slot_used sw i' j') ∧
    (∀ i, 0 ≤ i < 1024 → (swap_storage sw').[j * PAGE_SIZE + 4 * i] = entry vm (f * PAGE_SIZE) i) ∧
    vmm_wf vm' (U ∖ {[f]}) ∧ present vm' (dir_index v) = true ∧
    (∀ w, vaddr w → pte vm' w = if decide (w / PAGE_SIZE = v / PAGE_SIZE) then swap_pte j else pte vm w).
Proof.
  intros Hwf Hv Hp Hpres Hphys Hdf Hf0 Hsw Hemb Hval Hfree.
  destruct (alloc_embedded sw k Hsw Hemb Hval Hfree) as (j & sw1 & Ea & Hj & Hvj & Huj & Hsw1 & Hemb1 & Hused & Hval1).
  assert (entry vm (pte_addr vm v) 0 = pte vm v) as Ee.
  { unfold pte_addr. rewrite entry_addr. unfold pte. by rewrite Hp. }
  unfold swap_out_page. rewrite (sw_init _ Hsw). cbn [negb]. rewrite Ee, Hpres, Hphys, Ea. cbn [negb].
  destruct (Z.eqb_spec j NO_SLOT); [unfold NO_SLOT in *; lia|].
  rewrite write_page_eq by done. cbn [Z.ltb Z.compare]. fold (swap_pte j).
  set (vm1 := set_entry (pte_addr vm v) 0 (swap_pte j) vm).
  assert (vm1 = set_entry (table_of vm (dir_index v)) (table_index v) (swap_pte j) vm) as E1 by apply set_entry_addr.
  destruct (store_pte vm U v (swap_pte j) Hwf Hv Hp) as [Hwf1 Hpte1].
  destruct (store_pte_frame vm U v (swap_pte j) Hwf Hv Hp) as (Hpr1 & Hpf1 & _).
  rewrite <- E1 in Hwf1, Hpte1, Hpr1, Hpf1.
  assert (pmm vm1 = pmm vm) as Epm by done. clearbody vm1.
  destruct (pa_free_spec (pmm vm1) U (f * PAGE_SIZE)) as (a & -> & Ha).
  { rewrite Epm. apply Hwf. }
  { apply (page_range (pmm vm) U); [apply Hwf|apply Hdf]. }
  rewrite page_div in Ha. cbn [mbind option_bind].
  exists j. eexists _, _. split; [reflexivity|]. split; [lia|]. split; [done|]. split; [destruct Hsw1; split; done|].
  split; [done|]. split; [by apply Hval1|]. split; [done|]. split_and!; [..|done].
  - intros i Hi. cbn [modify_field swap_storage]. etrans; [apply (store_page_at vm sw1 j (f * PAGE_SIZE) j i Hi)|].
    by rewrite decide_True.
  - apply release_frame; [done| |done|done]. split; [apply Hdf|]. rewrite Hpf1. apply Hdf.
  - by rewrite <- Hp; apply Hpr1, dir_index_range.
Qed.

Lemma swap_in_ok vm U sw v j :
  vmm_wf vm U → vaddr v → present vm (dir_index v) = true → ¬ all_used U →
  swap_wf sw → embedded sw → slot_valid sw 0 j → slot_used sw 0 j = true → 0 ≤ j < 256 →
  ∃ g vm' sw', swap_in_page v (swap_pte j) vm sw = Some (0, vm', sw') ∧ (g ∉ U) ∧
    vmm_wf vm' ({[g]} ∪ U) ∧
    (∀ w, vaddr w → pte vm' w = if decide (w / PAGE_SIZE = v / PAGE_SIZE)
       then g * PAGE_SIZE |: PAGE_PRESENT |: ((PAGE_PRESENT |: PAGE_WRITE) |: PAGE_USER) else pte vm w) ∧
    (∀ i, 0 ≤ i < 1024 → entry vm' (g * PAGE_SIZE) i = (swap_storage sw).[j * PAGE_SIZE + 4 * i]) ∧
    (∀ f i, data_frame vm U f → 0 ≤ i < 1024 → entry vm' (f * PAGE_SIZE) i = entry vm (f * PAGE_SIZE) i) ∧
    (∀ f, data_frame vm U f → data_frame vm' ({[g]} ∪ U) f) ∧
    swap_wf sw' ∧
    (∀ i' j', 0 ≤ j' → slot_used sw' i' j' = if decide (0 = i' ∧ j = j') then false else slot_used sw i' j').
Proof.
  intros Hwf Hv Hp Hfree Hsw Hemb Hval Hused Hj.
  destruct (swap_pte_spec j ltac:(lia)) as (_ & Hsp & Hslot).
  unfold swap_in_page. rewrite (sw_init _ Hsw), Hsp, Hslot. cbn [negb].
  destruct (pa_alloc_spec _ _ (wf_pmm _ _ Hwf) (wf_zero _ _ Hwf)) as [[_ ?]|(g & a & -> & Hg & HgU & Ha)]; [done|].
  destruct (Z.eqb_spec (g * PAGE_SIZE) 0); [unfold PAGE_SIZE in *; lia|].
  rewrite read_page_eq by done. cbn [Z.ltb Z.compare].
  destruct (install_ok vm U v g a (fun i => (swap_storage sw).[j * PAGE_SIZE + 4 * i])
    ((PAGE_PRESENT |: PAGE_WRITE) |: PAGE_USER) Hwf Hv HgU Ha (or_introl Hp)) as (U' & _ & HU' & Hwf3 & Hpte3 & He3 & Hd3 & Hdf3).
  specialize (HU' Hp). subst U'.
  assert (j = slot_code 0 j) as Ecode by done. rewrite Ecode, (free_slot_eq sw 0 j Hsw Hval).
  destruct (clear_slot sw 0 j Hsw Hval Hused) as (Hsw' & Hused' & _).
  exists g. eexists _, _. split; [reflexivity|]. split_and!; [done..|destruct Hsw'; split; done|done].
Qed.


End roundtrip.

(** ** Start-up and new areas *)

Lemma count_up_false n f : (∀ i, 0 ≤ i < Z.of_nat n → f i = false) → count_up n f = 0.
Proof.
  intros Hf. induction n as [|n IH]; simpl; [done|]. rewrite Hf by lia. rewrite IH; [done|]. intros. apply Hf. lia.
Qed.

Lemma fresh_area_wf start pages words device flags :
  0 ≤ pages ≤ SWAP_MAX_PAGES → pages ≤ 32 * Z.of_nat words →
  area_wf (mk_area start pages pages (replicate words 0) device flags).
Proof.
  intros Hp Hw. split; cbn; [done|apply bm_zeros_wf; lia|]. unfold bm_count.
  rewrite count_up_false; [lia|]. intros. apply bm_test_zeros; done.
Qed.

Lemma swap_init_wf sw : swap_initialized sw = false → swap_wf (swap_init sw) ∧ embedded (swap_init sw).
Proof.
  intros Hi. unfold swap_init. rewrite Hi. set (sw1 := iter_up _ _ _ sw). clearbody sw1.
  set (a := mk_area 0 _ _ _ _ _). set (sw2 := upd_area 0 (fun _ => a) sw1⟦num_swap_areas := 0⟧).
  assert (area_at sw2 0 = a) as E by (subst sw2; by rewrite area_at_upd, decide_True).
  split; [split; [done|done|]|].
  - intros i Hi'. assert (i = 0) as -> by (cbn in Hi'; lia). change (area_wf (area_at sw2 0)). rewrite E.
    apply fresh_area_wf; vm_compute; intuition discriminate.
  - unfold embedded. change (sa_device (area_at sw2 0) = -1 ∧ sa_total_pages (area_at sw2 0) = SWAP_STORAGE_SIZE / PAGE_SIZE).
    by rewrite E.
Qed.

Lemma swap_add_area_wf sw device start size :
  swap_wf sw → num_swap_areas sw < MAX_SWAP_AREAS → 0 ≤ size →
  (swap_add_area device start size true sw).1 = 0 ∧ swap_wf (swap_add_area device start size true sw).2.
Proof.
  intros Hwf Hn Hs. pose proof (sw_num _ Hwf) as Hnum. unfold swap_add_area.
  destruct (Z.leb_spec MAX_SWAP_AREAS (num_swap_areas sw)); [lia|]. cbn [negb fst snd].
  set (pages := if SWAP_MAX_PAGES <? size / PAGE_SIZE then SWAP_MAX_PAGES else size / PAGE_SIZE).
  assert (0 ≤ pages ≤ SWAP_MAX_PAGES) as Hp.
  { assert (0 ≤ size / PAGE_SIZE) by (by apply Z.div_pos). subst pages. case_if; unfold SWAP_MAX_PAGES in *; lia. }
  split; [done|]. split; [apply Hwf|cbn; lia|]. intros i Hi. cbn in Hi. rewrite area_at_upd. case_decide.
  - apply fresh_area_wf; [done|]. pose proof (Z.div_mod (pages + 31) 32 ltac:(done)).
    pose proof (Z.mod_pos_bound (pages + 31) 32 ltac:(done)). lia.
  - apply (sw_area _ Hwf). lia.
Qed.

(** ** Concrete runs *)

Definition swap_ready : swap_state := swap_init swap_boot.

Lemma swap_ready_wf : swap_wf swap_ready ∧ embedded swap_ready.
Proof. by apply swap_init_wf. Qed.

Lemma swap_alloc_slot_witness :
  swap_wf swap_ready ∧ ∃ sw', swap_alloc_slot swap_ready = (slot_code 0 0, sw') ∧ slot_used sw' 0 0 = true.
Proof.
  split; [apply swap_ready_wf|].
  destruct (swap_alloc_slot_spec swap_ready (proj1 swap_ready_wf))
    as [[E _]|(i & j & sw' & E & _ & _ & _ & Hv & _ & _ & _ & Hu)]; [by vm_compute in E|].
  assert ((swap_alloc_slot swap_ready).1 = 0) as E0 by (by vm_compute). rewrite E in E0. cbn [fst] in E0.
  destruct (valid_range _ _ _ (proj1 swap_ready_wf) Hv) as [Hi Hj]. unfold SWAP_MAX_PAGES in Hj.
  pose proof (slot_code_idx i j ltac:(lia) ltac:(lia)) as E1. pose proof (slot_code_page i j ltac:(lia) ltac:(lia)) as E2.
  rewrite E0 in E1, E2. vm_compute in E1, E2. subst. exists sw'. split; [done|]. rewrite Hu by lia. done.
Defined.

(** The state with slot 0 taken. *)
Definition swap_one : swap_state := (swap_alloc_slot swap_ready).2.

Lemma swap_one_wf : swap_wf swap_one ∧ slot_valid swap_one 0 0 ∧ slot_used swap_one 0 0 = true.
Proof.
  assert (slot_valid swap_ready 0 0) as Hv by (by vm_compute).
  destruct (set_slot swap_ready 0 0 (proj1 swap_ready_wf) Hv ltac:(by vm_compute)) as (Hwf & Hu & Hval).
  assert (swap_one = upd_area 0 (fun a => a⟦sa_bitmap ::= fun b => bm_set 32 b 0⟧
    ⟦sa_free_pages ::= fun x => u32 (x - 1)⟧) swap_ready) as -> by (by vm_compute).
  split; [done|]. split; [by apply Hval|]. by rewrite Hu.
Qed.

Lemma swap_free_slot_witness :
  swap_wf swap_one ∧ slot_used (swap_free_slot (slot_code 0 0) swap_one) 0 0 = false.
Proof.
  destruct swap_one_wf as (Hwf & Hv & Hu). split; [done|].
  destruct (swap_free_slot_spec swap_one 0 0 Hwf Hv Hu) as (_ & Hused & _). by rewrite Hused.
Defined.

(** A page of the identity-mapped first 4 MiB. *)
Lemma boot_data_frame : data_frame (vmm_init vmm_boot) low_frames 5.
Proof.
  split; [apply elem_of_low_frames; unfold LOW_PAGES; vm_compute; intuition discriminate|].
  destruct (vmm_init_steps vmm_boot) as (_ & _ & Hd & _). intros [E|(i & Hi & Hp & Ht)]; [by vm_compute in E|].
  unfold present, table_of in Hp, Ht. rewrite Hd in Hp, Ht by done. case_decide; [by vm_compute in Ht|by vm_compute in Hp].
Qed.

Lemma swap_ready_slot : slot_valid swap_ready 0 0 ∧ slot_used swap_ready 0 0 = false.
Proof. by vm_compute. Qed.

Lemma boot_present : present (vmm_init vmm_boot) (dir_index 0x5000) = true.
Proof.
  change (dir_index 0x5000) with 0. destruct (vmm_init_steps vmm_boot) as (_ & _ & Hd & _). unfold present.
  rewrite (Hd 0) by (split; reflexivity || discriminate). reflexivity.
Qed.


(** ** Limits of the encoding

    A page-table entry keeps 20 bits of the slot number, so the index of the
    swap area is lost: a page swapped to area 1, 2 or 3 is looked for in
    area 0. *)

Theorem swap_pte_drops_area i j : 0 ≤ i < 4 → 0 ≤ j < 2 ^ 20 →
  swap_pte (slot_code i j) >>: PTE_SWAP_SLOT_SHIFT = slot_code 0 j.
Proof.
  intros Hi Hj. assert (swap_pte (slot_code i j) = swap_pte j) as ->; [|by apply swap_pte_spec].
  unfold swap_pte. f_equal. unfold slot_code, PTE_SWAP_SLOT_SHIFT, u32.
  rewrite Z.shiftl_lor, Z.shiftl_shiftl by done. rewrite <- !Z.land_ones by done.
  rewrite Z.land_lor_distr_l, !Z.land_ones by done. rewrite (Z.shiftl_mul_pow2 i) by done.
  change (2 ^ (24 + 12)) with (2 ^ 4 * 2 ^ 32). rewrite Z.mul_assoc, Z.mod_mul by done. by rewrite Z.lor_0_l.
Qed.

(** Releasing a slot twice is not noticed: the area then counts more free
    slots than it has. *)
Lemma swap_double_free :
  let sw := swap_free_slot 0 (swap_free_slot 0 swap_one) in
  sa_free_pages (area_at sw 0) = 257 ∧ sa_total_pages (area_at sw 0) = 256.
Proof. by vm_compute. Qed.
