(* ===== verification/Demand.v ===== *)
(** * Demand paging (kernel/mm/demand.c)

    The page-fault handler joins the other parts of memory management: it looks
    the address up in the areas of the current process ([Vma]), takes frames
    from the allocator, fills them with zeros, a copy, cached file data
    ([PageCache]) or swapped data ([Swap]), and maps them ([Vmm]).  [machine]
    is the state of these components together.

    A [None] result stands for a run that writes outside an allocator's tables
    or walks a list longer than its pool; the theorems show when that does not
    happen. *)

From Stdlib Require Import Sorted.
From S2P Require Import Prelude PageAlloc Dll Pmm Vmm Vma PageCache Swap.

Definition PAGE_COW : Z := 0x200.
Definition PF_PRESENT : Z := 0x01.
Definition PF_WRITE : Z := 0x02.
Definition PF_USER : Z := 0x04.

Inductive pf_result := PF_HANDLED | PF_SIGBUS | PF_SIGSEGV | PF_OOM | PF_SWAP_ERROR.

Record pf_stats := mk_pf {
  total_faults : Z;
  minor_faults : Z;
  major_faults : Z;
  cow_faults : Z;
  segfaults : Z;
}.
#[export] Instance eta_pf : Eta pf_stats := fun s =>
  mk_pf (total_faults s) (minor_faults s) (major_faults s) (cow_faults s) (segfaults s).

Record machine (S : Type) := mk_machine {
  vm : vmm_state S;
  vas : vma_state;
  pc : page_cache;
  sw : swap_state;
  stats : pf_stats;
  current_mm : ptr;
}.
Arguments mk_machine {S}.
Arguments vm {S}.
Arguments vas {S}.
Arguments pc {S}.
Arguments sw {S}.
Arguments stats {S}.
Arguments current_mm {S}.
#[export] Instance eta_machine {S} : Eta (machine S) := fun m =>
  mk_machine (vm m) (vas m) (pc m) (sw m) (stats m) (current_mm m).

Section operations.
Context {S : Type} `{PageAllocator S}.
Implicit Types m : machine S.

Definition count (f : pf_stats → pf_stats) (m : machine S) : machine S := m⟦stats ::= f⟧.

(** [if (current_mm) current_mm->rss++;] *)
Definition inc_rss (m : machine S) : machine S :=
  match current_mm m with
  | Some k => m⟦vas ::= upd_mm k (fun x => x⟦rss ::= fun n => u32 (n + 1)⟧)⟧
  | None => m
  end.

(** [pmm_alloc_page()] *)
Definition take_page (m : machine S) : Z * machine S :=
  let '(phys, a) := pa_alloc (pmm (vm m)) in
  (phys, m⟦vm ::= fun v => v⟦pmm := a⟧⟧).
Definition give_page (phys : Z) (m : machine S) : option (machine S) :=
  a ← pa_free phys (pmm (vm m));
  Some m⟦vm ::= fun v => v⟦pmm := a⟧⟧.

(** [for (int i = 0; i < 1024; i++) page[i] = 0;] *)
Definition zero_page (phys : Z) (m : machine S) : machine S :=
  m⟦vm ::= fill_entries 1024 phys (fun _ => 0)⟧.
(** [for (int i = 0; i < 1024; i++) dst[i] = src[i];] The source and the
    destination are distinct frames. *)
Definition copy_page (src dst : Z) (m : machine S) : machine S :=
  m⟦vm ::= fun v => fill_entries 1024 dst (fun i => entry v src i) v⟧.
Definition map_page (v phys flags : Z) (m : machine S) : machine S := m⟦vm ::= vmm_map_page v phys flags⟧.

(** The address of the page-table entry, if its table exists. *)
Definition get_pte (virt_addr : Z) (m : machine S) : ptr :=
  let dir_idx := virt_addr >>: 22 in
  let table_idx := (virt_addr >>: 12) &: 0x3FF in
  if negb (truth (entry (vm m) kernel_directory dir_idx &: PAGE_PRESENT)) then None
  else Some (andn32 (entry (vm m) kernel_directory dir_idx) 0xFFF + 4 * table_idx).

Definition alloc_and_map_page (virt_addr flags : Z) (m : machine S) : Z * machine S :=
  let '(phys, m) := take_page m in
  if phys =? 0 then (-1, m)
  else
    let m := zero_page phys m in
    let page_flags := PAGE_PRESENT |: PAGE_USER in
    let page_flags := if truth (flags &: VM_WRITE) then page_flags |: PAGE_WRITE else page_flags in
    let m := map_page (andn32 virt_addr 0xFFF) phys page_flags m in
    (0, inc_rss m).

Definition demand_page_anon (v fault_addr : Z) (m : machine S) : Z * machine S :=
  let page_addr := andn32 fault_addr 0xFFF in
  let '(r, m) := alloc_and_map_page page_addr (vm_flags (vma_at (vas m) v)) m in
  if r <? 0 then (-1, m) else (0, count (fun s => s⟦minor_faults ::= fun n => u32 (n + 1)⟧) m).

(** The flags of a cached page that is mapped. *)
Definition cached_flags (vm_flags : Z) : Z :=
  let page_flags := PAGE_PRESENT |: PAGE_USER in
  if truth (vm_flags &: VM_SHARED) then
    if truth (vm_flags &: VM_WRITE) then page_flags |: PAGE_WRITE else page_flags
  else if truth (vm_flags &: VM_WRITE) then page_flags |: PAGE_COW else page_flags.

(** The flags of a page read from the file. *)
Definition file_flags (vm_flags : Z) : Z :=
  let page_flags := PAGE_PRESENT |: PAGE_USER in
  if truth (vm_flags &: VM_SHARED) && truth (vm_flags &: VM_WRITE) then page_flags |: PAGE_WRITE
  else if truth (vm_flags &: VM_WRITE) then page_flags |: PAGE_COW
  else page_flags.

(** The part of [demand_page_file] that reads a page missing from the cache;
    the read itself is a stub that clears the page. *)
Definition read_file_page (ino file_page page_addr flags : Z) (m : machine S) : option (Z * machine S) :=
  let '(phys, m) := take_page m in
  if phys =? 0 then Some (-1, m)
  else
    let m := zero_page phys m in
    '(entry, c, a) ← vmm_page_cache_insert ino file_page phys (pc m) (pmm (vm m));
    let m := m⟦pc := c⟧⟦vm ::= fun v => v⟦pmm := a⟧⟧ in
    let m := match entry with
             | Some e => m⟦pc ::= upd_pce e (fun x => x⟦uptodate := true⟧)⟧
             | None => m
             end in
    let m := map_page page_addr phys (file_flags flags) m in
    let m := inc_rss m in
    Some (0, count (fun s => s⟦major_faults ::= fun n => u32 (n + 1)⟧) m).

Definition demand_page_file (v fault_addr : Z) (m : machine S) : option (Z * machine S) :=
  let a := vma_at (vas m) v in
  let page_addr := andn32 fault_addr 0xFFF in
  let vma_offset := u32 (page_addr - vm_start a) in
  let file_offset := u32 (vm_file_offset a + vma_offset) in
  let file_page := file_offset / PAGE_SIZE in
  '(cached, c) ← vmm_page_cache_lookup (vm_file_inode a) file_page (pc m);
  let m := m⟦pc := c⟧ in
  match cached with
  | Some e =>
      let m := map_page page_addr (phys_addr (pce_at (pc m) e)) (cached_flags (vm_flags a)) m in
      let m := m⟦pc ::= upd_pce e (fun x => x⟦ref_count ::= fun n => u32 (n + 1)⟧)⟧ in
      Some (0, count (fun s => s⟦minor_faults ::= fun n => u32 (n + 1)⟧) m)
  | None => read_file_page (vm_file_inode a) file_page page_addr (vm_flags a) m
  end.

Definition handle_cow_fault (fault_addr pte : Z) (m : machine S) : Z * machine S :=
  let page_addr := andn32 fault_addr 0xFFF in
  let old_phys := andn32 pte 0xFFF in
  let '(new_phys, m) := take_page m in
  if new_phys =? 0 then (-1, m)
  else
    let m := copy_page old_phys new_phys m in
    let m := map_page page_addr new_phys ((PAGE_PRESENT |: PAGE_WRITE) |: PAGE_USER) m in
    let m := inc_rss m in
    (0, count (fun s => s⟦cow_faults ::= fun n => u32 (n + 1)⟧) m).

Definition handle_stack_growth (mm v fault_addr : Z) (m : machine S) : Z * machine S :=
  let page_addr := andn32 fault_addr 0xFFF in
  let start := vm_start (vma_at (vas m) v) in
  if (fault_addr <? start) && (u32 (start - PAGE_SIZE) <=? fault_addr) then
    let m := m⟦vas ::= upd_vma v (fun a => a⟦vm_start ::= fun s => u32 (s - PAGE_SIZE)⟧)⟧ in
    let m := m⟦vas ::= fun st => upd_mm mm (fun x => x⟦stack_start := vm_start (vma_at st v)⟧) st⟧ in
    alloc_and_map_page page_addr (vm_flags (vma_at (vas m) v)) m
  else (-1, m).

Definition handle_swap_in (fault_addr pte : Z) (m : machine S) : option (Z * machine S) :=
  let page_addr := andn32 fault_addr 0xFFF in
  let swap_slot := pte >>: PTE_SWAP_SLOT_SHIFT in
  let '(phys, m) := take_page m in
  '(phys, m) ←
    (if phys =? 0 then
       '(c, a) ← vmm_page_cache_evict 4 (pc m) (pmm (vm m));
       Some (take_page m⟦pc := c⟧⟦vm ::= fun v => v⟦pmm := a⟧⟧)
     else Some (phys, m));
  if phys =? 0 then Some (-1, m)
  else
    '(r, v, s) ← swap_in_page page_addr pte (vm m) (sw m);
    let m := m⟦vm := v⟧⟦sw := s⟧ in
    if r <? 0 then m ← give_page phys m; Some (-1, m)
    else
      let m := m⟦sw ::= swap_free_slot swap_slot⟧ in
      let m := map_page page_addr phys ((PAGE_PRESENT |: PAGE_WRITE) |: PAGE_USER) m in
      let m := inc_rss m in
      Some (0, count (fun s => s⟦major_faults ::= fun n => u32 (n + 1)⟧) m).

(** [pf_stats.segfaults++; return PF_SIGSEGV;] *)
Definition segv (m : machine S) : option (pf_result * machine S) :=
  Some (PF_SIGSEGV, count (fun s => s⟦segfaults ::= fun n => u32 (n + 1)⟧) m).

(** The part of [handle_page_fault] for an address without an area. *)
Definition fault_outside (mm fault_addr : Z) (m : machine S) : option (pf_result * machine S) :=
  near ← vma_find_nearest mm fault_addr (vas m);
  match near with
  | Some v =>
      if truth (vm_flags (vma_at (vas m) v) &: VM_STACK) then
        let '(r, m) := handle_stack_growth mm v fault_addr m in
        if r =? 0 then Some (PF_HANDLED, m) else segv m
      else segv m
  | None => segv m
  end.

(** The part for an address of the area [v]. *)
Definition fault_inside (v fault_addr error_code : Z) (m : machine S) : option (pf_result * machine S) :=
  let flags := vm_flags (vma_at (vas m) v) in
  if truth (error_code &: PF_WRITE) && negb (truth (flags &: VM_WRITE)) then segv m
  else if truth (error_code &: PF_USER) && negb (truth (flags &: ((VM_READ |: VM_WRITE) |: VM_EXEC))) then segv m
  else
    '(result, m) ←
      (if truth (flags &: VM_ANONYMOUS) then Some (demand_page_anon v fault_addr m)
       else if truth (flags &: VM_FILE) then demand_page_file v fault_addr m
       else Some (demand_page_anon v fault_addr m));
    Some (if result <? 0 then PF_OOM else PF_HANDLED, m).

Definition handle_page_fault (fault_addr error_code : Z) (m : machine S) : option (pf_result * machine S) :=
  let m := count (fun s => s⟦total_faults ::= fun n => u32 (n + 1)⟧) m in
  let pte_ptr := get_pte fault_addr m in
  let pte := match pte_ptr with Some p => entry (vm m) p 0 | None => 0 end in
  if negb (is_null pte_ptr) && truth (pte &: PTE_SWAPPED) && negb (truth (pte &: PAGE_PRESENT)) then
    '(r, m) ← handle_swap_in fault_addr pte m;
    Some (if r =? 0 then PF_HANDLED else PF_SWAP_ERROR, m)
  else if truth (error_code &: PF_PRESENT) && truth (error_code &: PF_WRITE) && truth (pte &: PAGE_COW) then
    let '(r, m) := handle_cow_fault fault_addr pte m in
    Some (if r =? 0 then PF_HANDLED else PF_OOM, m)
  else
    match current_mm m with
    | None => if negb (truth (error_code &: PF_USER)) then Some (PF_SIGSEGV, m) else segv m
    | Some mm =>
        found ← vma_find mm fault_addr (vas m);
        match found with
        | None => fault_outside mm fault_addr m
        | Some v => fault_inside v fault_addr error_code m
        end
    end.

(** [true] when the handler returns to the faulting instruction; in every
    other case the source halts the processor. *)
Definition page_fault_isr (fault_addr err_code : Z) (m : machine S) : option (bool * machine S) :=
  '(result, m) ← handle_page_fault fault_addr err_code m;
  Some (match result with PF_HANDLED => true | _ => false end, m).

Definition demand_paging_init (m : machine S) : machine S :=
  m⟦pc ::= vmm_page_cache_init⟧⟦sw ::= swap_init⟧.

Definition demand_paging_stats (m : machine S) : Z * Z * Z * Z * Z :=
  (total_faults (stats m), minor_faults (stats m), major_faults (stats m), cow_faults (stats m), segfaults (stats m)).

End operations.

Section theory.
Context {S : Type} `{PageAllocatorLaws S}.
Implicit Types m : machine S.

(** ** Frames *)

(** Memory suffices for the page and for its table, should one be needed. *)
Definition room (st : vmm_state S) (U : gset Z) (v : Z) : Prop :=
  present st (dir_index v) = true ∨ ∀ g, ¬ all_used ({[g]} ∪ U).

Lemma take_page_spec m U :
  vmm_wf (vm m) U →
  (take_page m = (0, m) ∧ all_used U) ∨
  (∃ g a, take_page m = (g * PAGE_SIZE, m⟦vm ::= fun v => v⟦pmm := a⟧⟧) ∧ g * PAGE_SIZE ≠ 0 ∧ 0 < g < TOTAL_PAGES ∧
    (g ∉ U) ∧ pa_rep a ({[g]} ∪ U)).
Proof.
  intros Hwf. unfold take_page.
  destruct (pa_alloc_spec _ _ (wf_pmm _ _ Hwf) (wf_zero _ _ Hwf)) as [[-> Hall]|(g & a & -> & Hg & HgU & Ha)].
  - left. split; [|done]. f_equal. by destruct m as [[]].
  - right. exists g, a. split_and!; [done|unfold PAGE_SIZE; lia|lia|lia|done|done].
Qed.

Lemma inc_rss_vm m : vm (inc_rss m) = vm m ∧ pc (inc_rss m) = pc m ∧ sw (inc_rss m) = sw m ∧
  current_mm (inc_rss m) = current_mm m ∧ vma_pool (vas (inc_rss m)) = vma_pool (vas m).
Proof. unfold inc_rss. destruct (current_mm m) eqn:E; by split_and!. Qed.

(** A page [v] now shows the fresh frame [g] with contents [h]. *)
Record installed (m : machine S) (U : gset Z) (v g flags : Z) (h : Z → Z) (m' : machine S) : Prop := {
  in_fresh : g ∉ U;
  in_wf : ∃ U', {[g]} ∪ U ⊆ U' ∧ vmm_wf (vm m') U';
  in_pte : ∀ w, vaddr w → pte (vm m') w = if decide (w / PAGE_SIZE = v / PAGE_SIZE)
             then g * PAGE_SIZE |: PAGE_PRESENT |: flags else pte (vm m) w;
  in_page : ∀ j, 0 ≤ j < 1024 → entry (vm m') (g * PAGE_SIZE) j = h j;
  in_data : ∀ f j, data_frame (vm m) U f → 0 ≤ j < 1024 →
    entry (vm m') (f * PAGE_SIZE) j = entry (vm m) (f * PAGE_SIZE) j;
  in_cache : pc m' = pc m;
  in_swap : sw m' = sw m;
  in_areas : vma_pool (vas m') = vma_pool (vas m);
}.

Lemma installed_intro m U v g a flags h m' :
  vmm_wf (vm m) U → vaddr v → g ∉ U → pa_rep a ({[g]} ∪ U) → room (vm m) U v →
  vm m' = vmm_map_page (andn32 v 0xFFF) (g * PAGE_SIZE) flags (fill_entries 1024 (g * PAGE_SIZE) h (vm m)⟦pmm := a⟧) →
  pc m' = pc m → sw m' = sw m → vma_pool (vas m') = vma_pool (vas m) →
  installed m U v g flags h m'.
Proof.
  intros Hwf Hv HgU Ha Hroom Evm Epc Esw Evas.
  destruct (install_ok (vm m) U v g a h flags Hwf Hv HgU Ha) as (U' & HU & _ & Hwf' & Hpte & Hpage & Hdata & _).
  { destruct Hroom as [?|Hr]; [by left|right; apply Hr]. }
  rewrite <- Evm in *. split; try done. eauto.
Qed.

Lemma andn32_idem v : vaddr v → andn32 (andn32 v 0xFFF) 0xFFF = andn32 v 0xFFF.
Proof.
  intros Hv. destruct (page_base v Hv) as (E & Hv' & _). unfold vaddr in *.
  rewrite !andn32_page by (done || rewrite <- andn32_page; done). by rewrite Z.div_mul.
Qed.

(** The flags of a demand-zero page. *)
Definition anon_flags (flags : Z) : Z :=
  if truth (flags &: VM_WRITE) then (PAGE_PRESENT |: PAGE_USER) |: PAGE_WRITE else PAGE_PRESENT |: PAGE_USER.

Lemma alloc_and_map_ok m U v flags :
  vmm_wf (vm m) U → vaddr v → room (vm m) U v →
  (all_used U ∧ alloc_and_map_page v flags m = (-1, m)) ∨
  (∃ g m', alloc_and_map_page v flags m = (0, m') ∧ installed m U v g (anon_flags flags) (fun _ => 0) m' ∧
    current_mm m' = current_mm m ∧
    ∀ k, current_mm m = Some k → rss (mm_at (vas m') k) = u32 (rss (mm_at (vas m) k) + 1)).
Proof.
  intros Hwf Hv Hroom. unfold alloc_and_map_page.
  destruct (take_page_spec m U Hwf) as [[-> Hall]|(g & a & -> & Hg0 & Hg & HgU & Ha)]; [by left|].
  apply Z.eqb_neq in Hg0. rewrite Hg0. right. exists g. eexists. split; [reflexivity|].
  set (m1 := map_page _ _ _ _). destruct (inc_rss_vm m1) as (E1 & E2 & E3 & E4 & E5). split_and!.
  - eapply (installed_intro m U v g a); [done..| |by rewrite E2|by rewrite E3|by rewrite E5]. by rewrite E1.
  - by rewrite E4.
  - intros k Hk. unfold inc_rss. assert (current_mm m1 = Some k) as -> by done.
    change (rss (mm_at (upd_mm k (fun x => x⟦rss ::= fun n => u32 (n + 1)⟧) (vas m)) k) = u32 (rss (mm_at (vas m) k) + 1)).
    by rewrite mm_at_upd, decide_True.
Qed.

Lemma installed_page m U v v' g flags h m' :
  vaddr v → v' / PAGE_SIZE = v / PAGE_SIZE → installed m U v' g flags h m' → installed m U v g flags h m'.
Proof. intros Hv E [? ? Hpte ? ? ? ? ?]. split; try done. intros w Hw. by rewrite Hpte, E. Qed.

Lemma installed_count m U v g flags h m' f :
  installed m U v g flags h m' → installed m U v g flags h (count f m').
Proof. intros [? ? ? ? ? ? ? ?]. by split. Qed.

Lemma alloc_and_map_stats v flags m : stats (alloc_and_map_page v flags m).2 = stats m.
Proof.
  unfold alloc_and_map_page, take_page. destruct (pa_alloc (pmm (vm m))) as [p a]. case_if; [done|].
  unfold inc_rss. by destruct (current_mm _).
Qed.

Lemma demand_anon_ok m U x fault :
  vmm_wf (vm m) U → vaddr fault → room (vm m) U fault →
  (all_used U ∧ demand_page_anon x fault m = (-1, m)) ∨
  (∃ g m', demand_page_anon x fault m = (0, m') ∧
    installed m U fault g (anon_flags (vm_flags (vma_at (vas m) x))) (fun _ => 0) m' ∧
    (∀ k, current_mm m = Some k → rss (mm_at (vas m') k) = u32 (rss (mm_at (vas m) k) + 1)) ∧
    minor_faults (stats m') = u32 (minor_faults (stats m) + 1)).
Proof.
  intros Hwf Hv Hroom. unfold demand_page_anon. destruct (page_base fault Hv) as (Epg & Hvb & Edir).
  pose proof (alloc_and_map_stats (andn32 fault 0xFFF) (vm_flags (vma_at (vas m) x)) m) as Hst.
  destruct (alloc_and_map_ok m U (andn32 fault 0xFFF) (vm_flags (vma_at (vas m) x)) Hwf Hvb)
    as [[Hall ->]|(g & m' & E & Hin & _ & Hrss)]; [unfold room; by rewrite Edir|by left|].
  right. rewrite E in Hst |- *. exists g. eexists. split; [reflexivity|]. split_and!.
  - apply installed_count. by eapply installed_page.
  - done.
  - cbn in *. by rewrite Hst.
Qed.

(** A fault on an anonymous area either fails because memory is exhausted,
    changing nothing, or maps the page of the fault, and no other page, to a
    frame that was free, now filled with zeros, readable from user mode and
    writable exactly when the area is; no other page of memory changes. *)
Theorem demand_page_anon_spec m U x fault :
  vmm_wf (vm m) U → vaddr fault → room (vm m) U fault →
  (all_used U ∧ demand_page_anon x fault m = (-1, m)) ∨
  (∃ g m', demand_page_anon x fault m = (0, m') ∧
    installed m U fault g (anon_flags (vm_flags (vma_at (vas m) x))) (fun _ => 0) m' ∧
    (∀ k, current_mm m = Some k → rss (mm_at (vas m') k) = u32 (rss (mm_at (vas m) k) + 1)) ∧
    minor_faults (stats m') = u32 (minor_faults (stats m) + 1)).
Proof. apply demand_anon_ok. Qed.

(** ** Copy on write *)

(** C17: a write to a copy-on-write page either fails because memory is
    exhausted, changing nothing, or gives the faulting process a writable copy
    with the same contents in a frame that was free, leaving the shared frame
    and all other pages unchanged. *)
Theorem handle_cow_fault_spec m U fault e f :
  vmm_wf (vm m) U → vaddr fault → room (vm m) U fault →
  andn32 e 0xFFF = f * PAGE_SIZE → data_frame (vm m) U f →
  (all_used U ∧ handle_cow_fault fault e m = (-1, m)) ∨
  (∃ g m', handle_cow_fault fault e m = (0, m') ∧
    installed m U fault g ((PAGE_PRESENT |: PAGE_WRITE) |: PAGE_USER) (entry (vm m) (f * PAGE_SIZE)) m' ∧
    (∀ j, 0 ≤ j < 1024 → entry (vm m') (f * PAGE_SIZE) j = entry (vm m) (f * PAGE_SIZE) j) ∧
    cow_faults (stats m') = u32 (cow_faults (stats m) + 1)).
Proof.
  intros Hwf Hv Hroom Ef Hdf. unfold handle_cow_fault.
  destruct (take_page_spec m U Hwf) as [[-> Hall]|(g & a & -> & Hg0 & Hg & HgU & Ha)]; [by left|].
  apply Z.eqb_neq in Hg0. rewrite Hg0, Ef. right. exists g. eexists. split; [reflexivity|].
  set (m1 := map_page _ _ _ _). destruct (inc_rss_vm m1) as (E1 & E2 & E3 & E4 & E5).
  assert (installed m U fault g ((PAGE_PRESENT |: PAGE_WRITE) |: PAGE_USER) (entry (vm m) (f * PAGE_SIZE)) (inc_rss m1)) as Hin.
  { eapply (installed_intro m U fault g a); [done..| |by rewrite E2|by rewrite E3|by rewrite E5]. by rewrite E1. }
  split_and!; [by apply installed_count| |].
  - intros j Hj. by apply (in_data _ _ _ _ _ _ _ Hin).
  - unfold inc_rss. by destruct (current_mm m1).
Qed.

(** ** The fault handler *)

(** The entry the handler reads is the one the hardware walk found. *)
Lemma get_pte_value m v :
  match get_pte v m with Some p => entry (vm m) p 0 | None => 0 end = pte (vm m) v.
Proof.
  unfold get_pte, pte, present, table_of, dir_index, table_index.
  destruct (truth (entry (vm m) kernel_directory (v >>: 22) &: PAGE_PRESENT)); cbn [negb]; [|done]. apply entry_addr.
Qed.

(** On an address that was never mapped, the handler goes by the areas of the
    process. *)
Lemma page_fault_unmapped m mm fault err :
  pte (vm m) fault = 0 → current_mm m = Some mm →
  handle_page_fault fault err m =
    let m := count (fun s => s⟦total_faults ::= fun n => u32 (n + 1)⟧) m in
    found ← vma_find mm fault (vas m);
    match found with None => fault_outside mm fault m | Some v => fault_inside v fault err m end.
Proof.
  intros Hpte Hmm. unfold handle_page_fault.
  set (m1 := count _ m). pose proof (get_pte_value m1 fault) as E. change (pte (vm m1) fault) with (pte (vm m) fault) in E.
  rewrite E, Hpte. cbn [truth Z.land Z.eqb negb]. rewrite !andb_false_r.
  assert (current_mm m1 = Some mm) as -> by done. done.
Qed.

(** Accesses that the areas do not allow. *)
Definition denied (m : machine S) (l : list Z) (fault err : Z) : Prop :=
  (∃ v, v ∈ l ∧ contains (vas m) fault v = true ∧
    (truth (err &: PF_WRITE) = true ∧ truth (vm_flags (vma_at (vas m) v) &: VM_WRITE) = false ∨
     truth (err &: PF_USER) = true ∧ truth (vm_flags (vma_at (vas m) v) &: ((VM_READ |: VM_WRITE) |: VM_EXEC)) = false)) ∨
  ((∀ v, v ∈ l → contains (vas m) fault v = false) ∧
   (∀ v, v ∈ l → truth (vm_flags (vma_at (vas m) v) &: VM_STACK) = true → fault < vm_start (vma_at (vas m) v) →
      fault < u32 (vm_start (vma_at (vas m) v) - PAGE_SIZE))).

Lemma find_contains m mm l fault v :
  mm_areas (vas m) mm l → v ∈ l → contains (vas m) fault v = true → vma_find mm fault (vas m) = Some (Some v).
Proof.
  intros Hm Hv Hc. rewrite (vma_find_eq _ _ l) by done. destruct (List.find _ l) as [u|] eqn:E.
  - apply find_some in E as [Hu%list_elem_of_In Hcu]. do 2 f_equal. by eapply contains_unique.
  - eapply find_none in E; [|by apply list_elem_of_In]. congruence.
Qed.

Lemma find_outside m mm l fault :
  mm_areas (vas m) mm l → (∀ v, v ∈ l → contains (vas m) fault v = false) → vma_find mm fault (vas m) = Some None.
Proof.
  intros Hm Hc. rewrite (vma_find_eq _ _ l) by done. destruct (List.find _ l) as [u|] eqn:E; [|done].
  apply find_some in E as [Hu%list_elem_of_In Hcu]. rewrite Hc in Hcu by done. done.
Qed.


(** C19: the first access to a page of an anonymous area that the area allows
    is handled: the page shows zeros in a fresh frame and the faulting
    instruction can be restarted, unless memory is exhausted. *)
Theorem page_fault_anonymous m U mm l v fault err :
  vmm_wf (vm m) U → vaddr fault → room (vm m) U fault →
  current_mm m = Some mm → mm_areas (vas m) mm l → pte (vm m) fault = 0 →
  v ∈ l → contains (vas m) fault v = true →
  let flags := vm_flags (vma_at (vas m) v) in
  truth (flags &: VM_ANONYMOUS) = true →
  (truth (err &: PF_WRITE) = true → truth (flags &: VM_WRITE) = true) →
  (truth (err &: PF_USER) = true → truth (flags &: ((VM_READ |: VM_WRITE) |: VM_EXEC)) = true) →
  (∃ m', handle_page_fault fault err m = Some (PF_OOM, m') ∧ all_used U ∧ vm m' = vm m) ∨
  (∃ g m', handle_page_fault fault err m = Some (PF_HANDLED, m') ∧
    installed m U fault g (anon_flags flags) (fun _ => 0) m' ∧ vmm_get_physical fault (vm m') = g * PAGE_SIZE).
Proof.
  intros Hwf Hvf Hroom Hcur Hm Hpte Hv Hc flags Hanon Hw Hu. rewrite (page_fault_unmapped m mm) by done. cbv zeta.
  set (m1 := count _ m). assert (vas m1 = vas m) as Ev by done. rewrite Ev.
  rewrite (find_contains m mm l fault v) by done. cbn [mbind option_bind]. unfold fault_inside. rewrite Ev. fold flags.
  assert (truth (err &: PF_WRITE) && negb (truth (flags &: VM_WRITE)) = false) as ->.
  { destruct (truth (err &: PF_WRITE)); [by rewrite Hw|done]. }
  assert (truth (err &: PF_USER) && negb (truth (flags &: ((VM_READ |: VM_WRITE) |: VM_EXEC))) = false) as ->.
  { destruct (truth (err &: PF_USER)); [by rewrite Hu|done]. }
  rewrite Hanon. cbn [mbind option_bind].
  destruct (demand_anon_ok m1 U v fault Hwf Hvf Hroom) as [[Hall ->]|(g & m' & -> & Hin & _)]; [left; by eexists|right].
  exists g, m'. split; [done|]. assert (installed m U fault g (anon_flags flags) (fun _ => 0) m') as Hin'.
  { destruct Hin. by split. }
  split; [done|]. destruct Hin' as [_ (U' & HU' & Hwf') Hp _ _ _ _ _].
  rewrite vmm_get_physical_pte, Hp, decide_True by done.
  assert (g ∈ U') as Hg by set_solver. pose proof (pa_rep_range _ _ _ (wf_pmm _ _ Hwf') Hg) as Hgr. unfold TOTAL_PAGES in Hgr.
  unfold PAGE_SIZE. destruct (pte_word g (anon_flags flags)) as [-> ->]; [lia| |done].
  unfold anon_flags. by case_if.
Qed.

(** ** Stack growth *)

(** A fault in the page below a stack area, outside every area, extends the
    area by that page; the areas stay disjoint and in order. *)
Lemma grow_areas st mm l v fault (g : mm_struct → mm_struct) :
  mm_areas st mm l → v ∈ l → (∀ u, u ∈ l → contains st fault u = false) →
  0 ≤ fault < vm_start (vma_at st v) → u32 (vm_start (vma_at st v) - PAGE_SIZE) ≤ fault →
  (∀ k, vmas (g k) = vmas k ∧ vma_count (g k) = vma_count k) →
  let st' := upd_mm mm g (upd_vma v (fun a => a⟦vm_start ::= fun s => u32 (s - PAGE_SIZE)⟧) st) in
  mm_areas st' mm l ∧ contains st' fault v = true.
Proof.
  intros Hm Hv Hout Hf Hlow Hg st'. pose proof (ma_ok _ _ _ Hm v Hv) as Hok. pose proof (Hout v Hv) as Hcv.
  unfold area_ok, contains in Hok, Hcv. set (s := vm_start (vma_at st v)) in *.
  assert (PAGE_SIZE ≤ s) as Hs by (unfold PAGE_SIZE; destruct (decide (s = 0)); [lia|]; pose proof (Z.div_mod s 4096 ltac:(done)); lia).
  assert (PAGE_SIZE = 4096) as HPS by done. rewrite u32_small in Hlow by lia.
  assert (vma_at st' v = (vma_at st v)⟦vm_start := s - 4096⟧) as Ev.
  { subst st'. rewrite vma_at_upd_mm, vma_at_upd, decide_True by done. destruct (vma_at st v) eqn:E. unfold modify_field.
    cbn. f_equal. subst s. try rewrite E. cbn in *. apply u32_small. lia. }
  assert (∀ u, u ≠ v → vma_at st' u = vma_at st u) as Eu.
  { intros u Hu. subst st'. by rewrite vma_at_upd_mm, vma_at_upd, decide_False by congruence. }
  assert (∀ u, u ∈ l → u ≠ v → below st u v → vm_end (vma_at st u) ≤ s - 4096) as Hbelow.
  { intros u Hu Hne Hb. unfold below in Hb. fold s in Hb. specialize (Hout u Hu). unfold contains in Hout.
    pose proof (ma_ok _ _ _ Hm u Hu) as Hou. unfold area_ok in Hou.
    pose proof (Z.div_mod s 4096 ltac:(done)). pose proof (Z.div_mod (vm_end (vma_at st u)) 4096 ltac:(done)).
    assert (vm_end (vma_at st u) / 4096 ≤ s / 4096 - 1 ∨ vm_end (vma_at st u) / 4096 = s / 4096) as [|E] by lia; [lia|].
    pose proof (Z.div_mod (vm_start (vma_at st u)) 4096 ltac:(done)). lia. }
  split; [|unfold contains; rewrite Ev; cbn; lia].
  split.
  - assert (vmas (mm_at st' mm) = vmas (mm_at st mm)) as ->.
    { subst st'. rewrite mm_at_upd, decide_True by done. apply Hg. }
    eapply dll_ext; [|apply Hm]. intros u _. change (vm_next (vma_at st' u) = vm_next (vma_at st u) ∧ vm_prev (vma_at st' u) = vm_prev (vma_at st u)).
    destruct (decide (u = v)) as [->|Hne]; [by rewrite Ev|by rewrite Eu].
  - apply Hm.
  - intros u Hu. destruct (decide (u = v)) as [->|Hne]; [|rewrite Eu by done; by apply Hm].
    rewrite Ev. unfold area_ok. cbn. split; [lia|]. split; [lia|]. split; [|apply Hok].
    replace (s - 4096) with (s + (-1) * 4096) by lia. rewrite Z.mod_add by done. apply Hok.
  - apply list_elem_of_split in Hv as (l1 & l2 & ->). destruct (sorted_before _ _ _ _ (ma_sorted _ _ _ Hm)) as [H1 H2].
    assert (v ∉ l1 ++ l2) as Hnv.
    { destruct (ma_dll _ _ _ Hm) as (_ & (_ & Hd & [Hd2 _]%NoDup_cons)%NoDup_app & _). set_solver. }
    apply sorted_insert.
    + apply (sorted_ext st); [|by eapply sorted_remove, Hm]. intros u Hu. rewrite Eu; [done|]. by intros ->.
    + intros u Hu. unfold below. rewrite Ev, Eu by set_solver. cbn. apply Hbelow; [set_solver|set_solver|by apply H1].
    + intros u Hu. unfold below. rewrite Ev, Eu by set_solver. cbn. by apply H2.
  - subst st'. rewrite mm_at_upd, decide_True by done. destruct (Hg (mm_at (upd_vma v (λ a, a⟦vm_start ::= λ s, u32 (s - PAGE_SIZE)⟧) st) mm)) as [_ ->].
    apply Hm.
Qed.

(** ** Swapping in

    [handle_swap_in] takes a frame, lets [swap_in_page] take a second one, read
    the page into it and map it, and then maps the first, which was never
    written, over it: the process sees what the free frame held before, and the
    frame with the page is lost. *)

Lemma pte_present (st : vmm_state S) v : pte st v ≠ 0 → present st (dir_index v) = true.
Proof. unfold pte. by destruct (present st (dir_index v)). Qed.

Theorem swap_in_loses_page m U j fault :
  vmm_wf (vm m) U → vaddr fault → present (vm m) (dir_index fault) = true → (∀ g, ¬ all_used ({[g]} ∪ U)) →
  swap_wf (sw m) → embedded (sw m) → slot_valid (sw m) 0 j → slot_used (sw m) 0 j = true → 0 ≤ j < 256 →
  ∃ g m', handle_swap_in fault (swap_pte j) m = Some (0, m') ∧ (g ∉ U) ∧
    vmm_get_physical fault (vm m') = g * PAGE_SIZE ∧
    (∀ i, 0 ≤ i < 1024 → entry (vm m') (g * PAGE_SIZE) i = entry (vm m) (g * PAGE_SIZE) i).
Proof.
  intros Hwf Hv Hp Hroom Hsw Hemb Hval Hused Hj. unfold handle_swap_in.
  destruct (take_page_spec m U Hwf) as [[_ Hall]|(g & a & -> & Hg0 & Hg & HgU & Ha)].
  { exfalso. apply (Hroom 0). intros p Hpr. apply elem_of_union_r. by apply Hall. }
  apply Z.eqb_neq in Hg0. rewrite Hg0. cbn [mbind option_bind]. rewrite Hg0.
  destruct (take_frame (vm m) U g a Hwf HgU Ha) as [Hwf1 Hdf1].
  destruct (page_base fault Hv) as (Epg & Hvb & Edir).
  set (m1 := m⟦vm ::= fun v => v⟦pmm := a⟧⟧). change ((vm m)⟦pmm := a⟧) with (vm m1) in *.
  assert (present (vm m1) (dir_index (andn32 fault 0xFFF)) = true) as Hp1 by (by rewrite Edir).
  destruct (swap_in_ok (vm m1) ({[g]} ∪ U) (sw m1) (andn32 fault 0xFFF) j Hwf1 Hvb Hp1)
    as (g2 & vm2 & sw2 & -> & _ & Hwf2 & Hpte2 & _ & Hd2 & Hdf2 & _); try done.
  cbn [mbind option_bind Z.ltb Z.compare].
  assert (present vm2 (dir_index (andn32 fault 0xFFF)) = true) as Hp2.
  { apply pte_present. rewrite Hpte2, decide_True by done. intros E. apply Z.lor_eq_0_iff in E as [_ E]. done. }
  destruct (map_page_ok vm2 _ (andn32 fault 0xFFF) g ((PAGE_PRESENT |: PAGE_WRITE) |: PAGE_USER) Hwf2 Hvb (or_introl Hp2))
    as (_ & Hpte3 & _ & Hd3).
  exists g. eexists. split; [reflexivity|]. set (m3 := map_page _ _ _ _). destruct (inc_rss_vm m3) as (E1 & _).
  change (vm (count (λ s, s⟦major_faults ::= λ n, u32 (n + 1)⟧) (inc_rss m3))) with (vm (inc_rss m3)). rewrite E1.
  change (vm m3) with (vmm_map_page (andn32 fault 0xFFF) (g * PAGE_SIZE) ((PAGE_PRESENT |: PAGE_WRITE) |: PAGE_USER) vm2).
  split_and!; [done|..].
  - rewrite vmm_get_physical_pte, Hpte3, decide_True by (done || by rewrite Epg). unfold PAGE_SIZE, TOTAL_PAGES in *.
    destruct (pte_word g ((PAGE_PRESENT |: PAGE_WRITE) |: PAGE_USER)) as [-> ->]; [lia|done|done].
  - intros i Hi. unfold PAGE_SIZE. rewrite Hd3; [|by apply Hdf2|done]. by apply Hd2.
Qed.

End theory.

(** ** A concrete machine *)

(** Three free frames; the process has an anonymous writable area, a read-only
    area and a stack. *)
Definition demo_vas : vma_state := mk_vma_state
  {[ 0 := mk_vma 0x40000000 0x40004000 ((VM_READ |: VM_WRITE) |: VM_ANONYMOUS) 0 0 (-1) 0 1 (Some 1) None;
     1 := mk_vma 0x50000000 0x50001000 VM_READ 0 0 (-1) 0 1 (Some 2) (Some 0);
     2 := mk_vma 0xBFFF0000 0xC0000000 (((VM_READ |: VM_WRITE) |: VM_ANONYMOUS) |: VM_STACK) 0 0 (-1) 0 1 None (Some 1) ]}
  (Some 3) true {[ 0 := mk_mm (Some 0) 3 0 0 0 0 0 0 0 0xBFFF0000 0xC0000000 0x40000000 0x11000 0 0 0 1 ]} None.

Definition demo_vm : vmm_state (list Z) := vmm_init (mk_vmm ∅ 0x9C000 three_free).
Definition demo_machine : machine (list Z) :=
  mk_machine demo_vm demo_vas page_cache_boot swap_ready (mk_pf 0 0 0 0 0) (Some 0).

Lemma demo_vas_areas : mm_areas demo_vas 0 [0; 1; 2].
Proof.
  split.
  - split_and!; [done|compute_done|]. by vm_compute.
  - intros v Hv. set_unfold in Hv. unfold VMA_POOL_SIZE. lia.
  - intros v Hv. set_unfold in Hv. destruct Hv as [->|[->|[->|[]]]]; by vm_compute.
  - repeat constructor; by vm_compute.
  - done.
Qed.

Lemma three_free_other f : f ≠ 600 → f ≠ 601 → f ≠ 602 → 0 ≤ f < TOTAL_PAGES → f ∈ three_free_used.
Proof.
  intros. apply (proj2 (proj2 three_free_rep)). split; [done|]. unfold three_free. rewrite !elem_of_cons, elem_of_nil. lia.
Qed.

Lemma demo_vm_wf : vmm_wf demo_vm three_free_used.
Proof.
  unfold demo_vm. apply vmm_init_wf; [apply three_free_rep|apply three_free_zero|..]; apply three_free_other;
    vm_compute; intuition discriminate.
Qed.

Lemma demo_room v : room demo_vm three_free_used v.
Proof.
  right. intros g Hall. assert (∀ p, p ∈ [600; 601; 602] → p = g) as Hg.
  { intros p Hp. destruct (decide (p = g)) as [|Hne]; [done|exfalso].
    assert (0 ≤ p < TOTAL_PAGES) as Hr by (apply (proj1 (proj2 three_free_rep)); exact Hp).
    specialize (Hall p Hr). apply elem_of_union in Hall as [?%elem_of_singleton|Hin]; [done|].
    apply (proj2 (proj2 three_free_rep)) in Hin as [_ Hin]. done. }
  pose proof (Hg 600 ltac:(set_solver)). pose proof (Hg 601 ltac:(set_solver)). lia.
Qed.

Lemma demo_not_exhausted : ¬ all_used three_free_used.
Proof.
  intros Hall. specialize (Hall 600 ltac:(unfold TOTAL_PAGES; lia)).
  apply (proj2 (proj2 three_free_rep)) in Hall as [_ Hn]. apply Hn. unfold three_free. set_solver.
Qed.

Lemma demo_pte v : vaddr v → 0x400000 ≤ v → pte demo_vm v = 0.
Proof. intros Hv Hlo. unfold demo_vm. rewrite vmm_init_pte by done. destruct (Z.ltb_spec v 0x400000); [lia|done]. Qed.

Lemma demand_page_anon_witness :
  ∃ g m', demand_page_anon 0 0x40001234 demo_machine = (0, m') ∧
    installed demo_machine three_free_used 0x40001234 g ((PAGE_PRESENT |: PAGE_USER) |: PAGE_WRITE) (fun _ => 0) m'.
Proof.
  destruct (demand_page_anon_spec demo_machine three_free_used 0 0x40001234 demo_vm_wf ltac:(by vm_compute) (demo_room _))
    as [[Hall _]|(g & m' & E & Hin & _)]; [by destruct (demo_not_exhausted Hall)|].
  exists g, m'. by split.
Defined.

Lemma demo_data_frame : data_frame demo_vm three_free_used 5.
Proof.
  split; [apply three_free_other; vm_compute; intuition discriminate|].
  destruct (vmm_init_steps (mk_vmm ∅ 0x9C000 three_free)) as (_ & _ & Hd & _). intros [E|(i & Hi & Hp & Ht)]; [by vm_compute in E|].
  unfold present, table_of, demo_vm in Hp, Ht. rewrite Hd in Hp, Ht by done. case_decide; [by vm_compute in Ht|by vm_compute in Hp].
Qed.

Lemma handle_cow_fault_witness :
  ∃ g m', handle_cow_fault 0x5010 (5 * PAGE_SIZE + 0x205) demo_machine = (0, m') ∧
    installed demo_machine three_free_used 0x5010 g ((PAGE_PRESENT |: PAGE_WRITE) |: PAGE_USER)
      (entry demo_vm (5 * PAGE_SIZE)) m'.
Proof.
  destruct (handle_cow_fault_spec demo_machine three_free_used 0x5010 (5 * PAGE_SIZE + 0x205) 5 demo_vm_wf
    ltac:(by vm_compute) (demo_room _) ltac:(by vm_compute) demo_data_frame)
    as [[Hall _]|(g & m' & E & Hin & _)]; [by destruct (demo_not_exhausted Hall)|].
  exists g, m'. by split.
Defined.

(** A write to the read-only area. *)
Lemma demo_denied : denied demo_machine [0; 1; 2] 0x50000010 (PF_WRITE |: PF_USER).
Proof. left. exists 1. split; [set_solver|]. split; [by vm_compute|]. left. by vm_compute. Qed.


Lemma page_fault_anonymous_witness :
  ∃ g m', handle_page_fault 0x40001234 (PF_WRITE |: PF_USER) demo_machine = Some (PF_HANDLED, m') ∧
    vmm_get_physical 0x40001234 (vm m') = g * PAGE_SIZE ∧ entry (vm m') (g * PAGE_SIZE) 5 = 0.
Proof.
  destruct (page_fault_anonymous demo_machine three_free_used 0 [0; 1; 2] 0 0x40001234 (PF_WRITE |: PF_USER) demo_vm_wf
    ltac:(by vm_compute) (demo_room _) eq_refl demo_vas_areas (demo_pte 0x40001234 ltac:(by vm_compute) ltac:(by vm_compute))
    ltac:(set_solver) ltac:(by vm_compute) ltac:(by vm_compute) ltac:(by vm_compute) ltac:(by vm_compute))
    as [(m' & _ & Hall & _)|(g & m' & E & Hin & Hp)]; [by destruct (demo_not_exhausted Hall)|].
  exists g, m'. split; [exact E|]. split; [exact Hp|].
  apply (in_page _ _ _ _ _ _ _ Hin 5). split; [discriminate|reflexivity].
Defined.
