(* ===== verification/Mmap.v ===== *)
(** * Address spaces and their system calls (kernel/mm/vma.c)

    The second half of vma.c: creation, destruction and copying of address
    spaces, and the system calls mmap, munmap, mprotect, msync and brk.  They
    change the areas of the current process ([Vma]) and the mappings behind
    them ([Vmm]), so they run on the [machine] of [Demand].

    Page loops are [for (a = lo; a < hi; a += PAGE_SIZE)] on 32-bit addresses;
    [None] is a loop that wraps around and so never ends. *)

From Stdlib Require Import Sorted.
From S2P Require Import Prelude PageAlloc Dll Vmm Vma PageCache Swap Demand.

Definition PROT_READ : Z := 0x1.
Definition PROT_WRITE : Z := 0x2.
Definition PROT_EXEC : Z := 0x4.
Definition MAP_SHARED : Z := 0x01.
Definition MAP_PRIVATE : Z := 0x02.
Definition MAP_FIXED : Z := 0x10.
Definition MAP_ANONYMOUS : Z := 0x20.
Definition MAP_LOCKED : Z := 0x200.
Definition MAP_STACK : Z := 0x400.
Definition MAP_FAILED : Z := 0xFFFFFFFF.

(** [(x + PAGE_SIZE - 1) & ~(PAGE_SIZE - 1)] and [x & ~(PAGE_SIZE - 1)] *)
Definition page_up (x : Z) : Z := andn32 (u32 (x + PAGE_SIZE - 1)) (PAGE_SIZE - 1).
Definition page_down (x : Z) : Z := andn32 x (PAGE_SIZE - 1).

Fixpoint page_loop {A} (fuel : nat) (a hi : Z) (body : Z → A → option A) (s : A) : option A :=
  if a <? hi then
    match fuel with
    | O => None
    | S fuel' => s ← body a s; page_loop fuel' (u32 (a + PAGE_SIZE)) hi body s
    end
  else Some s.

Definition for_pages {A} (lo hi : Z) (body : Z → A → option A) (s : A) : option A :=
  page_loop (Z.to_nat ((hi - lo) / PAGE_SIZE + 1)) lo hi body s.

Section operations.
Context {S : Type} `{PageAllocator S}.

(** ** Address spaces *)

(** [for (int i = 768; i < 1024; i++) pd[i] = kernel_pd[i];] *)
Definition share_kernel (pd : Z) (v : vmm_state S) : vmm_state S :=
  iter_up (Z.to_nat 256) 768 (fun i v => set_entry pd i (entry v kernel_directory i) v) v.

Definition mm_create (m : machine S) : ptr * machine S :=
  let '(mm, st) := mm_alloc (vas m) in
  let m := m⟦vas := st⟧ in
  match mm with
  | None => (None, m)
  | Some k =>
      let '(phys, m) := take_page m in
      let m := m⟦vas ::= upd_mm k (fun x => x⟦page_directory := phys⟧)⟧ in
      if phys =? 0 then (None, m⟦vas ::= mm_free_struct k⟧)
      else
        let m := zero_page phys m in
        (Some k, m⟦vm ::= share_kernel phys⟧)
  end.

(** The body of the page loop of [mm_destroy]. *)
Definition drop_page (a : Z) (m : machine S) : option (machine S) :=
  let phys := vmm_virt_to_phys a (vm m) in
  if truth phys then give_page phys m⟦vm ::= vmm_unmap_page a⟧ else Some m.

(** [while (vma)] of [mm_destroy]. *)
Fixpoint destroy_areas (fuel : nat) (v : ptr) (m : machine S) : option (machine S) :=
  match v with
  | None => Some m
  | Some x =>
      let next := vm_next (vma_at (vas m) x) in
      m ← for_pages (vm_start (vma_at (vas m) x)) (vm_end (vma_at (vas m) x)) drop_page m;
      let m := m⟦vas ::= vma_destroy x⟧ in
      match fuel with
      | O => None
      | Datatypes.S fuel' => destroy_areas fuel' next m
      end
  end.

Definition mm_destroy (k : Z) (m : machine S) : option (machine S) :=
  m ← destroy_areas walk_bound (vmas (mm_at (vas m) k)) m;
  m ← (if truth (page_directory (mm_at (vas m) k)) then give_page (page_directory (mm_at (vas m) k)) m
       else Some m);
  Some m⟦vas ::= mm_free_struct k⟧.

(** [dst->code_start = src->code_start; ...] *)
Definition copy_regions (src dst : mm_struct) : mm_struct :=
  dst⟦code_start := code_start src⟧⟦code_end := code_end src⟧⟦data_start := data_start src⟧
     ⟦data_end := data_end src⟧⟦heap_start := heap_start src⟧⟦heap_end := heap_end src⟧
     ⟦stack_start := stack_start src⟧⟦stack_end := stack_end src⟧⟦mmap_base := mmap_base src⟧.

(** [while (src_vma)] of [mm_clone]. *)
Fixpoint clone_areas (fuel : nat) (dst : Z) (v : ptr) (m : machine S) : option (ptr * machine S) :=
  match v with
  | None => Some (Some dst, m)
  | Some x =>
      let a := vma_at (vas m) x in
      let '(d, st) := vma_create (vm_start a) (vm_end a) (vm_flags a) (vas m) in
      let m := m⟦vas := st⟧ in
      match d with
      | None => m ← mm_destroy dst m; Some (None, m)
      | Some y =>
          let a := vma_at (vas m) x in
          let m := m⟦vas ::= upd_vma y (fun b => b⟦vm_file_inode := vm_file_inode a⟧
                               ⟦vm_file_offset := vm_file_offset a⟧⟦vm_fd := vm_fd a⟧)⟧ in
          '(_, st) ← vma_insert dst y (vas m);
          let m := m⟦vas := st⟧ in
          let a := vma_at (vas m) x in
          m ← (if truth (vm_flags a &: VM_PRIVATE) && truth (vm_flags a &: VM_WRITE)
               then for_pages (vm_start a) (vm_end a) (fun addr m => Some m⟦vm ::= fun v => (vmm_mark_cow addr v).2⟧) m
               else Some m);
          match fuel with
          | O => None
          | Datatypes.S fuel' => clone_areas fuel' dst (vm_next (vma_at (vas m) x)) m
          end
      end
  end.

Definition mm_clone (src : Z) (m : machine S) : option (ptr * machine S) :=
  let '(d, m) := mm_create m in
  match d with
  | None => Some (None, m)
  | Some dst =>
      let m := m⟦vas ::= fun st => upd_mm dst (copy_regions (mm_at st src)) st⟧ in
      clone_areas walk_bound dst (vmas (mm_at (vas m) src)) m
  end.

Definition mm_release (k : Z) (m : machine S) : option (machine S) :=
  let m := m⟦vas ::= upd_mm k (fun x => x⟦mm_ref_count ::= fun n => u32 (n - 1)⟧)⟧ in
  if mm_ref_count (mm_at (vas m) k) =? 0 then mm_destroy k m else Some m.

(** ** System calls *)

Definition prot_flags (prot flags : Z) : Z :=
  let flags := if truth (prot &: PROT_READ) then flags |: VM_READ else flags in
  let flags := if truth (prot &: PROT_WRITE) then flags |: VM_WRITE else flags in
  if truth (prot &: PROT_EXEC) then flags |: VM_EXEC else flags.

Definition mmap_flags (prot flags : Z) : Z :=
  let f := prot_flags prot VM_LAZY in
  let f := if truth (flags &: MAP_SHARED) then f |: VM_SHARED else f in
  let f := if truth (flags &: MAP_PRIVATE) then f |: VM_PRIVATE else f in
  let f := if truth (flags &: MAP_ANONYMOUS) then f |: VM_ANONYMOUS else f in
  let f := if truth (flags &: MAP_LOCKED) then f |: VM_LOCKED else f in
  let f := if truth (flags &: MAP_STACK) then f |: (VM_STACK |: VM_GROWSDOWN) else f in
  if truth (flags &: MAP_ANONYMOUS) then f else f |: VM_FILE.

(** The address of a mapping, if there is one. *)
Definition mmap_addr (mm addr length flags : Z) (st : vma_state) : option (option Z) :=
  if truth (flags &: MAP_FIXED) then
    let map_addr := page_down addr in
    Some (if (map_addr <? 0x1000) || (KERNEL_BASE <=? map_addr) then None else Some map_addr)
  else
    map_addr ← find_free_region mm length st;
    Some (if map_addr =? 0 then None else Some map_addr).

(** The part of [sys_mmap] after the arguments are checked. *)
Definition create_mapping (mm map_addr length vflags flags fd offset : Z) (m : machine S) : option (Z * machine S) :=
  let '(v, st) := vma_create map_addr (u32 (map_addr + length)) vflags (vas m) in
  let m := m⟦vas := st⟧ in
  match v with
  | None => Some (MAP_FAILED, m)
  | Some x =>
      let m := m⟦vas ::= upd_vma x (fun a => a⟦vm_fd := fd⟧⟦vm_file_offset := offset⟧)⟧ in
      '(r, st) ← vma_insert mm x (vas m);
      let m := m⟦vas := st⟧ in
      if r <? 0 then Some (MAP_FAILED, m⟦vas ::= vma_destroy x⟧)
      else
        m ← (if truth (flags &: MAP_LOCKED) then
               for_pages map_addr (u32 (map_addr + length))
                 (fun a m => '(_, m) ← handle_page_fault a PF_WRITE m; Some m) m
             else Some m);
        Some (map_addr, m)
  end.

Definition sys_mmap (addr length prot flags fd offset : Z) (m : machine S) : option (Z * machine S) :=
  match current_mm m with
  | None => Some (MAP_FAILED, m)
  | Some mm =>
      let length := page_up length in
      if length =? 0 then Some (MAP_FAILED, m)
      else
        place ← mmap_addr mm addr length flags (vas m);
        match place with
        | None => Some (MAP_FAILED, m)
        | Some map_addr =>
            if negb (truth (flags &: MAP_ANONYMOUS)) && (fd <? 0) then Some (MAP_FAILED, m)
            else create_mapping mm map_addr length (mmap_flags prot flags) flags fd offset m
        end
  end.

(** The body of the page loop of [sys_munmap]. *)
Definition unmap_page (mm a : Z) (m : machine S) : option (machine S) :=
  let phys := vmm_virt_to_phys a (vm m) in
  if truth phys then
    m ← give_page phys m⟦vm ::= vmm_unmap_page a⟧;
    Some m⟦vas ::= upd_mm mm (fun x => x⟦rss ::= fun n => u32 (n - 1)⟧)⟧
  else Some m.

(** [while (vma)] of [sys_munmap]. *)
Fixpoint munmap_loop (fuel : nat) (mm start fin : Z) (v : ptr) (m : machine S) : option (machine S) :=
  match v with
  | None => Some m
  | Some x =>
      let a := vma_at (vas m) x in
      let next := vm_next a in
      m ← (if (vm_end a <=? start) || (fin <=? vm_start a) then Some m
           else if (start <=? vm_start a) && (vm_end a <=? fin) then
             m ← for_pages (vm_start a) (vm_end a) (unmap_page mm) m;
             Some m⟦vas ::= fun st => vma_destroy x (vma_remove mm x st).2⟧
           else Some m);
      match fuel with
      | O => None
      | Datatypes.S fuel' => munmap_loop fuel' mm start fin next m
      end
  end.

Definition sys_munmap (addr length : Z) (m : machine S) : option (Z * machine S) :=
  match current_mm m with
  | None => Some (-1, m)
  | Some mm =>
      let start := page_down addr in
      let length := page_up length in
      let fin := u32 (start + length) in
      m ← munmap_loop walk_bound mm start fin (vmas (mm_at (vas m) mm)) m;
      Some (0, m)
  end.

(** The TLB flush has no effect on the modelled state. *)
Definition sys_mprotect (addr length prot : Z) (m : machine S) : option (Z * machine S) :=
  match current_mm m with
  | None => Some (-1, m)
  | Some mm =>
      let start := page_down addr in
      let length := page_up length in
      found ← vma_find mm start (vas m);
      match found with
      | None => Some (-1, m)
      | Some v =>
          let a := vma_at (vas m) v in
          if (start <? vm_start a) || (vm_end a <? u32 (start + length)) then Some (-1, m)
          else
            let new_flags := prot_flags prot (andn32 (vm_flags a) ((VM_READ |: VM_WRITE) |: VM_EXEC)) in
            let m := m⟦vas ::= upd_vma v (fun a => a⟦vm_flags := new_flags⟧)⟧ in
            let page_flags := PAGE_PRESENT |: PAGE_USER in
            let page_flags := if truth (prot &: PROT_WRITE) then page_flags |: PAGE_WRITE else page_flags in
            m ← for_pages start (u32 (start + length))
                  (fun a m => Some m⟦vm ::= fun v => (vmm_set_page_flags a page_flags v).2⟧) m;
            Some (0, m)
      end
  end.

Definition sys_msync (addr length flags : Z) (m : machine S) : option (Z * machine S) :=
  match current_mm m with
  | None => Some (-1, m)
  | Some mm =>
      let start := page_down addr in
      found ← vma_find mm start (vas m);
      match found with
      | None => Some (-1, m)
      | Some v =>
          if negb (truth (vm_flags (vma_at (vas m) v) &: VM_FILE)) then Some (-1, m)
          else c ← vmm_page_cache_sync (vm_file_inode (vma_at (vas m) v)) (pc m);
               Some (0, m⟦pc := c⟧)
      end
  end.

(** The growth of the heap; [false] when no area is available. *)
Definition grow_heap (mm new_brk : Z) (m : machine S) : option (bool * machine S) :=
  let k := mm_at (vas m) mm in
  found ← vma_find mm (heap_start k) (vas m);
  match found with
  | Some v => Some (true, m⟦vas ::= upd_vma v (fun a => a⟦vm_end := new_brk⟧)⟧)
  | None =>
      let '(v, st) := vma_create (heap_end k) new_brk (((VM_READ |: VM_WRITE) |: VM_ANONYMOUS) |: VM_LAZY) (vas m) in
      match v with
      | None => Some (false, m⟦vas := st⟧)
      | Some x => '(_, st) ← vma_insert mm x st; Some (true, m⟦vas := st⟧)
      end
  end.

Definition sys_brk (addr : Z) (m : machine S) : option (Z * machine S) :=
  match current_mm m with
  | None => Some (MAP_FAILED, m)
  | Some mm =>
      let k := mm_at (vas m) mm in
      if addr =? 0 then Some (heap_end k, m)
      else
        let new_brk := page_up addr in
        if new_brk <? heap_start k then Some (MAP_FAILED, m)
        else if u32 (stack_start k - 0x100000) <? new_brk then Some (MAP_FAILED, m)
        else
          '(ok, m) ← (if heap_end k <? new_brk then grow_heap mm new_brk m else Some (true, m));
          if negb ok then Some (MAP_FAILED, m)
          else Some (new_brk, m⟦vas ::= upd_mm mm (fun x => x⟦heap_end := new_brk⟧)⟧)
  end.

End operations.

Lemma page_down_eq x : vaddr x → page_down x = x / 4096 * 4096.
Proof. apply andn32_page. Qed.

Lemma page_up_eq x : 0 ≤ x ≤ 0xFFFFF000 → page_up x = (x + 4095) / 4096 * 4096.
Proof.
  intros Hx. unfold page_up. replace (x + PAGE_SIZE - 1) with (x + 4095) by (unfold PAGE_SIZE; lia).
  rewrite u32_small by lia. apply andn32_page. lia.
Qed.

Lemma page_aligned x : x / 4096 * 4096 ≤ x < x / 4096 * 4096 + 4096 ∧ (x / 4096 * 4096) mod 4096 = 0.
Proof. pose proof (Z.div_mod x 4096 ltac:(done)). pose proof (Z.mod_pos_bound x 4096 ltac:(done)). split; [lia|by rewrite Z.mod_mul]. Qed.

(** The areas of a process and its search address lie below the kernel. *)
Record user_space (st : vma_state) (mm : Z) (l : list Z) : Prop := {
  us_areas : ∀ v, v ∈ l → vm_end (vma_at st v) ≤ KERNEL_BASE;
  us_base : 0 < mmap_base (mm_at st mm) ≤ KERNEL_BASE;
  us_aligned : mmap_base (mm_at st mm) mod 4096 = 0;
}.

Definition disjoint_range (st : vma_state) (r size u : Z) : Prop :=
  r + size ≤ vm_start (vma_at st u) ∨ vm_end (vma_at st u) ≤ r.

Section mmap_theory.
Context {S : Type} `{PageAllocatorLaws S}.
Implicit Types m : machine S.

Definition new_area (r size vflags fd off : Z) : vma := mk_vma r (r + size) vflags 0 off fd 0 1 None None.

(** What a successful mapping does to the areas of [mm]. *)
Record mapped (st : vma_state) F G M (mm : Z) (l : list Z) (r size vflags fd off : Z) (st' : vma_state) : Prop := {
  mp_wf : ∃ v F' l1 l2, F = v :: F' ∧ l = l1 ++ l2 ∧ vma_wf st' F' G (<[mm := l1 ++ v :: l2]> M) ∧
    attrs (vma_at st' v) = new_area r size vflags fd off;
  mp_old : ∀ u, u ∈ l → attrs (vma_at st' u) = attrs (vma_at st u) ∧ disjoint_range st r size u;
}.

Lemma create_mapping_ok m F G M mm l r size vflags flags fd off :
  vma_wf (vas m) F G M → M !! mm = Some l → truth (flags &: MAP_LOCKED) = false →
  0 ≤ r → 0 < size → r + size < 2 ^ 32 → r mod 4096 = 0 → size mod 4096 = 0 →
  (∃ st', create_mapping mm r size vflags flags fd off m = Some (MAP_FAILED, m⟦vas := st'⟧) ∧
     vma_wf st' F G M ∧ (∀ u, u ∈ l → vma_at st' u = vma_at (vas m) u) ∧
     (F = [] ∨ ∃ u, u ∈ l ∧ ¬ disjoint_range (vas m) r size u)) ∨
  (∃ st', create_mapping mm r size vflags flags fd off m = Some (r, m⟦vas := st'⟧) ∧
     mapped (vas m) F G M mm l r size vflags fd off st').
Proof.
  intros Hwf Hmm Hlock Hr Hsz Hend Hral Hsal. unfold create_mapping. rewrite u32_small by lia.
  destruct (vma_create_wf (vas m) F G M r (r + size) vflags Hwf Hr Hend)
    as [[-> Hc]|(v & F' & st1 & -> & -> & Hwf1 & Hdet & Hother & Hpool & Ev & Hok)].
  { left. exists (vas m). split; [done|]. split; [done|]. split; [done|]. left.
    destruct Hc as [?|[?|[Hm|?]]]; [lia|done| |done]. rewrite Z.add_mod, Hral, Hsal in Hm by done. done. }
  set (f := fun a : vma => a⟦vm_fd := fd⟧⟦vm_file_offset := off⟧). set (st2 := upd_vma v f st1).
  change (vma_insert mm v _) with (vma_insert mm v st2).
  assert (vma_wf st2 F' G M) as Hwf2 by (by apply upd_detached).
  assert (vma_at st2 v = new_area r size vflags fd off) as Ev2.
  { subst st2. rewrite vma_at_upd, decide_True, Ev by done. done. }
  assert (∀ u, u ∈ l → vma_at st2 u = vma_at (vas m) u) as Eu.
  { intros u Hu. assert (u ≠ v) by (intros ->; by apply (proj2 (proj2 Hdet) mm l)).
    subst st2. by rewrite vma_at_upd, decide_False, Hother by done. }
  assert (area_ok (vma_at st2 v)) as Hok2.
  { rewrite Ev2. rewrite Ev in Hok. exact Hok. }
  destruct (vma_insert_ok st2 F' G M mm l v Hwf2 Hmm Hdet Hok2)
    as [[(u & Hu & Hov) ->]|(l1 & l2 & st3 & El & -> & Hwf3 & Hat & Hno & _)].
  - left. destruct (vma_destroy_wf st2 F' G M v Hwf2 Hdet ltac:(by rewrite Ev2)) as (Hwf4 & Hsame & _).
    exists (vma_destroy v st2). split; [done|]. split; [done|]. split.
    + intros w Hw. rewrite Hsame, Eu by (done || intros ->; by apply (proj2 (proj2 Hdet) mm l)). done.
    + right. exists u. split; [done|]. unfold overlap, disjoint_range in *. rewrite Ev2, Eu in Hov by done. cbn in Hov. lia.
  - right. cbn [mbind option_bind]. rewrite Hlock. cbn [mbind option_bind]. exists st3. split; [done|]. split.
    + exists v, F', l1, l2. split; [done|]. split; [done|]. split; [done|]. by rewrite Hat, Ev2.
    + intros u Hu. rewrite Hat, Eu by done. split; [done|]. specialize (Hno u Hu).
      unfold overlap, disjoint_range in *. rewrite Ev2, Eu in Hno by done. cbn in Hno. lia.
Qed.

(** The rest of [sys_mmap] once the place is known. *)
Lemma map_at_ok m F G M mm l r size vflags flags fd off :
  vma_wf (vas m) F G M → M !! mm = Some l → truth (flags &: MAP_LOCKED) = false →
  0 ≤ r → 0 < size → r + size < 2 ^ 32 → r mod 4096 = 0 → size mod 4096 = 0 →
  let res := if negb (truth (flags &: MAP_ANONYMOUS)) && (fd <? 0) then Some (MAP_FAILED, m)
             else create_mapping mm r size vflags flags fd off m in
  (∃ st', res = Some (MAP_FAILED, m⟦vas := st'⟧) ∧ vma_wf st' F G M ∧
     (∀ u, u ∈ l → vma_at st' u = vma_at (vas m) u) ∧
     (F = [] ∨ truth (flags &: MAP_ANONYMOUS) = false ∧ fd < 0 ∨ ∃ u, u ∈ l ∧ ¬ disjoint_range (vas m) r size u)) ∨
  (∃ st', res = Some (r, m⟦vas := st'⟧) ∧ mapped (vas m) F G M mm l r size vflags fd off st').
Proof.
  intros Hwf Hmm Hlock Hr Hsz Hend Hral Hsal res. subst res.
  destruct (negb (truth (flags &: MAP_ANONYMOUS)) && (fd <? 0)) eqn:Efd.
  - left. exists (vas m). split; [by destruct m|]. do 2 (split; [done|]). right. left.
    destruct (truth (flags &: MAP_ANONYMOUS)); [done|]. split; [done|]. cbn in Efd. lia.
  - destruct (create_mapping_ok m F G M mm l r size vflags flags fd off)
      as [(st' & E & ? & ? & Hwhy)|?]; try done; [left|by right].
    exists st'. do 3 (split; [done|]). tauto.
Qed.

Lemma page_up_size len : 0 ≤ len ≤ 0x3FFFF000 →
  page_up len mod 4096 = 0 ∧ len ≤ page_up len ≤ 0x3FFFF000.
Proof.
  intros Hlen. rewrite page_up_eq by lia. pose proof (page_aligned (len + 4095)) as [Hr Hal]. split; [done|].
  pose proof (Z.div_le_mono (len + 4095) (0x3FFFF000 + 4095) 4096 ltac:(done) ltac:(lia)). lia.
Qed.

(** The flags of an area for a protection and mapping flags, bit by bit. *)
Definition area_flags (prot flags : Z) : Z :=
  foldr Z.lor VM_LAZY
    (map snd (List.filter fst
      [ (truth (prot &: PROT_READ), VM_READ); (truth (prot &: PROT_WRITE), VM_WRITE); (truth (prot &: PROT_EXEC), VM_EXEC);
        (truth (flags &: MAP_SHARED), VM_SHARED); (truth (flags &: MAP_PRIVATE), VM_PRIVATE);
        (truth (flags &: MAP_ANONYMOUS), VM_ANONYMOUS); (negb (truth (flags &: MAP_ANONYMOUS)), VM_FILE);
        (truth (flags &: MAP_STACK), VM_STACK); (truth (flags &: MAP_STACK), VM_GROWSDOWN) ])).

Lemma mmap_flags_eq prot flags : truth (flags &: MAP_LOCKED) = false → mmap_flags prot flags = area_flags prot flags.
Proof.
  intros Hl. unfold mmap_flags, area_flags, prot_flags. rewrite Hl.
  destruct (truth (prot &: PROT_READ)), (truth (prot &: PROT_WRITE)), (truth (prot &: PROT_EXEC)),
    (truth (flags &: MAP_SHARED)), (truth (flags &: MAP_PRIVATE)), (truth (flags &: MAP_ANONYMOUS)),
    (truth (flags &: MAP_STACK)); reflexivity.
Qed.

Lemma sys_mmap_ok m F G M mm l addr len prot flags fd off :
  vma_wf (vas m) F G M → current_mm m = Some mm → M !! mm = Some l → user_space (vas m) mm l →
  vaddr addr → 0 ≤ len ≤ 0x3FFFF000 → truth (flags &: MAP_LOCKED) = false →
  let size := page_up len in
  let fixed := truth (flags &: MAP_FIXED) in
  (∃ st', sys_mmap addr len prot flags fd off m = Some (MAP_FAILED, m⟦vas := st'⟧) ∧
     vma_wf st' F G M ∧ (∀ u, u ∈ l → vma_at st' u = vma_at (vas m) u) ∧
     (len = 0 ∨ F = [] ∨ truth (flags &: MAP_ANONYMOUS) = false ∧ fd < 0 ∨
      if fixed then addr < 0x1000 ∨ KERNEL_BASE ≤ addr ∨ ∃ u, u ∈ l ∧ ¬ disjoint_range (vas m) (page_down addr) size u
      else ∀ s, mmap_base (mm_at (vas m) mm) ≤ s → ¬ free_region (vas m) l size s)) ∨
  (∃ r st', sys_mmap addr len prot flags fd off m = Some (r, m⟦vas := st'⟧) ∧
     mapped (vas m) F G M mm l r size (mmap_flags prot flags) fd off st' ∧
     if fixed then r = page_down addr
     else mmap_base (mm_at (vas m) mm) ≤ r ∧ r mod PAGE_SIZE = 0 ∧ r + size ≤ KERNEL_BASE).
Proof.
  intros Hwf Hcur Hmm [Hus Hub Hual] Hva Hlen Hlock size fixed. pose proof (vw_areas _ _ _ _ Hwf _ _ Hmm) as Hm.
  destruct (page_up_size len Hlen) as [Hsal Hsr]. fold size in Hsal, Hsr.
  assert (m = m⟦vas := vas m⟧) as Em by (by destruct m).
  unfold sys_mmap. rewrite Hcur. fold size. destruct (Z.eqb_spec size 0) as [E0|Hs0].
  { left. exists (vas m). rewrite <- Em. do 3 (split; [done|]). left. lia. }
  unfold mmap_addr. fold fixed. destruct fixed.
  - cbn [mbind option_bind]. pose proof (page_aligned addr) as [Had Hal]. rewrite <- page_down_eq in Had, Hal by done.
    unfold vaddr in Hva.
    destruct ((page_down addr <? 0x1000) || (KERNEL_BASE <=? page_down addr)) eqn:Erange.
    { left. exists (vas m). rewrite <- Em. do 3 (split; [done|]). do 3 right.
      clear -Had Hal Erange. unfold PAGE_SIZE, KERNEL_BASE in *.
      apply orb_true_iff in Erange as [E%Z.ltb_lt|E%Z.leb_le]; [left|right; left; lia].
      pose proof (Z.div_mod (page_down addr) 4096 ltac:(done)). lia. }
    destruct (map_at_ok m F G M mm l (page_down addr) size (mmap_flags prot flags) flags fd off)
      as [(st' & E & ? & ? & Hwhy)|(st' & E & ?)]; try done; try (unfold KERNEL_BASE in *; lia).
    + left. exists st'. do 3 (split; [done|]). tauto.
    + right. by exists (page_down addr), st'.
  - destruct (find_free_region_spec (vas m) mm l size Hm Hus ltac:(lia) Hub Hual) as (r & -> & Hr). cbn [mbind option_bind].
    destruct Hr as [[-> Hnone]|(Hbase & Hral & Hk & Hfree)].
    { left. exists (vas m). rewrite <- Em. do 3 (split; [done|]). by do 3 right. }
    destruct (Z.eqb_spec r 0); [lia|].
    destruct (map_at_ok m F G M mm l r size (mmap_flags prot flags) flags fd off)
      as [(st' & E & ? & ? & Hwhy)|(st' & E & ?)]; try done; try (unfold KERNEL_BASE in *; lia).
    + left. exists st'. do 3 (split; [done|]). destruct Hwhy as [|[|(u & Hu & Hd)]]; [tauto|tauto|].
      destruct Hd. by apply Hfree.
    + right. by exists r, st'.
Qed.

(** C20: [sys_mmap] (without [MAP_LOCKED]) fails, leaving the areas as they
    were, or adds exactly one area: page aligned, of the rounded length, with
    the requested protection and backing, disjoint from all others.  Without
    [MAP_FIXED] it lies in user space above the search address, and the call
    fails for want of space only when no free region is large enough; with
    [MAP_FIXED] it is at the page of the address. *)
Theorem sys_mmap_spec m F G M mm l addr len prot flags fd off :
  vma_wf (vas m) F G M → current_mm m = Some mm → M !! mm = Some l → user_space (vas m) mm l →
  vaddr addr → 0 ≤ len ≤ 0x3FFFF000 → truth (flags &: MAP_LOCKED) = false →
  let size := (len + 4095) / 4096 * 4096 in
  let page := addr / 4096 * 4096 in
  let fixed := truth (flags &: MAP_FIXED) in
  (∃ st', sys_mmap addr len prot flags fd off m = Some (MAP_FAILED, m⟦vas := st'⟧) ∧
     vma_wf st' F G M ∧ (∀ u, u ∈ l → vma_at st' u = vma_at (vas m) u) ∧
     (len = 0 ∨ F = [] ∨ truth (flags &: MAP_ANONYMOUS) = false ∧ fd < 0 ∨
      if fixed then addr < 0x1000 ∨ KERNEL_BASE ≤ addr ∨ ∃ u, u ∈ l ∧ ¬ disjoint_range (vas m) page size u
      else ∀ s, mmap_base (mm_at (vas m) mm) ≤ s → ¬ free_region (vas m) l size s)) ∨
  (∃ r st', sys_mmap addr len prot flags fd off m = Some (r, m⟦vas := st'⟧) ∧
     mapped (vas m) F G M mm l r size (area_flags prot flags) fd off st' ∧
     if fixed then r = page
     else mmap_base (mm_at (vas m) mm) ≤ r ∧ r mod PAGE_SIZE = 0 ∧ r + size ≤ KERNEL_BASE).
Proof.
  intros Hwf Hcur Hmm Hus Hva Hlen Hlock size page fixed.
  unfold size, page. rewrite <-(page_down_eq addr Hva), <-(page_up_eq len ltac:(lia)), <-mmap_flags_eq by done. by apply sys_mmap_ok.
Qed.

End mmap_theory.

(** ** Page loops *)

(** A loop over aligned addresses visits every page of the range once and
    ends; [P a s] holds when the pages below [a] are done. *)
Lemma for_pages_inv {A} (P : Z → A → Prop) lo hi body s :
  0 ≤ lo ≤ hi → hi < 2 ^ 32 → lo mod 4096 = 0 → hi mod 4096 = 0 → P lo s →
  (∀ a s, lo ≤ a < hi → a mod 4096 = 0 → P a s → ∃ s', body a s = Some s' ∧ P (a + 4096) s') →
  ∃ s', for_pages lo hi body s = Some s' ∧ P hi s'.
Proof.
  intros Hlo Hhi Hl Hh HP Hstep. unfold for_pages.
  assert (∃ n : nat, hi = lo + 4096 * Z.of_nat n) as [n Hn].
  { exists (Z.to_nat ((hi - lo) / 4096)). pose proof (Z.div_mod (hi - lo) 4096 ltac:(done)) as E.
    rewrite Zminus_mod, Hl, Hh in E. rewrite Z2Nat.id by (apply Z.div_pos; lia). change (0 - 0) with 0 in E. rewrite Z.mod_0_l in E by done. lia. }
  assert (Z.to_nat ((hi - lo) / PAGE_SIZE + 1) = Datatypes.S n) as ->.
  { replace (hi - lo) with (Z.of_nat n * PAGE_SIZE) by (unfold PAGE_SIZE; lia). rewrite Z.div_mul by done. lia. }
  assert (∀ k fuel a s, (k ≤ fuel)%nat → hi = a + 4096 * Z.of_nat k → lo ≤ a → a mod 4096 = 0 → P a s →
    ∃ s', page_loop fuel a hi body s = Some s' ∧ P hi s') as Hgen; [|apply (Hgen n); (done || lia)].
  clear Hn HP s. induction k as [|k IH]; intros fuel a s Hf Ha Hla Hal HP.
  { replace a with hi in * by lia. exists s. split; [|done]. destruct fuel; cbn [page_loop]; by rewrite Z.ltb_irrefl. }
  destruct fuel as [|fuel]; [lia|]. cbn [page_loop]. destruct (Z.ltb_spec a hi); [|lia].
  destruct (Hstep a s ltac:(lia) Hal HP) as (s' & -> & HP'). cbn [mbind option_bind].
  rewrite u32_small by (unfold PAGE_SIZE; lia). unfold PAGE_SIZE. apply IH; [lia..| |done].
  rewrite Z.add_mod, Hal by done. done.
Qed.

(** ** Unmapping a range *)

Section unmapping.
Context {S : Type} `{PageAllocatorLaws S}.
Implicit Types st : vmm_state S.

(** The pages of [P] are mapped, if at all, to frames of their own that hold
    data. *)
Record owned st (U : gset Z) (P : Z → Prop) : Prop := {
  own_data a : P a → vaddr a → vmm_get_physical a st ≠ 0 →
    ∃ f, vmm_get_physical a st = f * PAGE_SIZE ∧ f ≠ 0 ∧ data_frame st U f;
  own_inj a b : P a → P b → vaddr a → vaddr b → vmm_get_physical a st ≠ 0 →
    vmm_get_physical a st = vmm_get_physical b st → a / PAGE_SIZE = b / PAGE_SIZE;
}.

(** A set of addresses that consists of whole pages. *)
Definition whole_pages (R : Z → bool) : Prop := ∀ a b, a / PAGE_SIZE = b / PAGE_SIZE → R a = R b.
Definition page_of (a w : Z) : bool := w / PAGE_SIZE =? a / PAGE_SIZE.
Definition in_range (lo hi w : Z) : bool := (lo <=? w) && (w <? hi).

(** [st'] is [st] with the pages of [R] unmapped and their frames released. *)
Record unmapped st (U : gset Z) (R : Z → bool) st' (U' : gset Z) : Prop := {
  um_wf : vmm_wf st' U';
  um_pte w : vaddr w → pte st' w = if R w && truth (vmm_get_physical w st) then 0 else pte st w;
  um_paging f : paging_frame st' f ↔ paging_frame st f;
  um_used f : f ∈ U' ↔ f ∈ U ∧ ∀ a, vaddr a → R a = true → vmm_get_physical a st ≠ 0 →
                                 vmm_get_physical a st ≠ f * PAGE_SIZE;
}.

Lemma unmapped_phys st U R st' U' w : unmapped st U R st' U' → vaddr w →
  vmm_get_physical w st' = if R w then 0 else vmm_get_physical w st.
Proof.
  intros Hu Hw. rewrite (vmm_get_physical_pte w st'), (um_pte _ _ _ _ _ Hu w Hw).
  destruct (R w); cbn [andb]; [|symmetry; apply vmm_get_physical_pte].
  destruct (truth (vmm_get_physical w st)) eqn:E; [done|]. rewrite vmm_get_physical_pte in E.
  destruct (truth (pte st w &: PAGE_PRESENT)); [|done]. unfold truth in E. by apply negb_false_iff, Z.eqb_eq in E.
Qed.

Lemma truth_nz x : truth x = true ↔ x ≠ 0.
Proof. unfold truth. rewrite negb_true_iff. apply Z.eqb_neq. Qed.

Lemma unmapped_ext st U R R' st' U' : (∀ w, vaddr w → R w = R' w) → unmapped st U R st' U' → unmapped st U R' st' U'.
Proof.
  intros HR [H1 H2 H3 H4]. split; [done| |done|].
  - intros w Hw. by rewrite H2, HR.
  - intros f. rewrite H4. split; intros [? Ha]; (split; [done|]); intros a Hv Hr; apply Ha; [done|by rewrite HR|done|by rewrite <- HR].
Qed.

Lemma unmapped_none st U R : vmm_wf st U → (∀ a, vaddr a → R a = true → vmm_get_physical a st = 0) → unmapped st U R st U.
Proof.
  intros Hwf Hno. split; [done| |done|].
  - intros w Hw. destruct (R w) eqn:E; [|done]. by rewrite (Hno w Hw E).
  - intros f. split; [|by intros [? _]]. intros Hf. split; [done|]. intros a Hv Hr Hn. by destruct (Hn (Hno a Hv Hr)).
Qed.

Lemma unmapped_trans st U R1 st1 U1 R2 st2 U2 :
  unmapped st U R1 st1 U1 → unmapped st1 U1 R2 st2 U2 → unmapped st U (fun w => R1 w || R2 w) st2 U2.
Proof.
  intros Hu1 Hu2. split; [apply Hu2| | |].
  - intros w Hw. rewrite (um_pte _ _ _ _ _ Hu2 w Hw), (unmapped_phys _ _ _ _ _ w Hu1 Hw), (um_pte _ _ _ _ _ Hu1 w Hw).
    destruct (R1 w), (R2 w); done.
  - intros f. rewrite (um_paging _ _ _ _ _ Hu2). apply (um_paging _ _ _ _ _ Hu1).
  - intros f. rewrite (um_used _ _ _ _ _ Hu2), (um_used _ _ _ _ _ Hu1). split.
    + intros [[Hf H1] H2]. split; [done|]. intros a Hv Hr Hn. destruct (R1 a) eqn:E; [by apply H1|].
      specialize (H2 a Hv Hr). rewrite (unmapped_phys _ _ _ _ _ a Hu1 Hv), E in H2. by apply H2.
    + intros [Hf Ha]. split; [split; [done|]|].
      * intros a Hv Hr. apply Ha; [done|by rewrite Hr].
      * intros a Hv Hr. rewrite (unmapped_phys _ _ _ _ _ a Hu1 Hv). destruct (R1 a) eqn:E; [done|].
        apply Ha; [done|by rewrite E].
Qed.

Lemma unmapped_owned st U P R st' U' :
  owned st U P → (∀ a, R a = true → P a) → whole_pages R → unmapped st U R st' U' → owned st' U' P.
Proof.
  intros [Hd Hi] HRP Hwp Hu. split.
  - intros a Ha Hv. rewrite (unmapped_phys _ _ _ _ _ a Hu Hv). destruct (R a) eqn:E; [done|]. intros Hn.
    destruct (Hd a Ha Hv Hn) as (f & Ef & Hf0 & HfU & Hpf). exists f. split; [done|]. split; [done|]. split.
    + apply (um_used _ _ _ _ _ Hu). split; [done|]. intros b Hvb Hb Hnb Eb.
      rewrite <- Eb in Ef. specialize (Hi a b Ha (HRP b Hb) Hv Hvb Hn Ef). specialize (Hwp a b Hi). congruence.
    + by rewrite (um_paging _ _ _ _ _ Hu).
  - intros a b Ha Hb Hv Hvb. rewrite !(unmapped_phys _ _ _ _ _ _ Hu) by done.
    destruct (R a), (R b); try done. apply Hi; done.
Qed.

Lemma unmap_table st U a : vmm_wf st U → vaddr a →
  vmm_wf (vmm_unmap_page a st) U ∧ pmm (vmm_unmap_page a st) = pmm st ∧
  (∀ w, vaddr w → pte (vmm_unmap_page a st) w = if decide (w / 4096 = a / 4096) then 0 else pte st w) ∧
  (∀ f, paging_frame (vmm_unmap_page a st) f ↔ paging_frame st f).
Proof.
  intros Hwf Ha. unfold vmm_unmap_page. destruct (truth _) eqn:Hp.
  - destruct (store_pte st U a 0 Hwf Ha Hp) as [H1 H2]. destruct (store_pte_frame st U a 0 Hwf Ha Hp) as (_ & H3 & _).
    by split_and!.
  - split_and!; [done..| |done]. intros w Hw. case_decide as E; [|done]. apply indices_page in E as [E _].
    unfold pte, present. by rewrite E, Hp.
Qed.

Lemma phys_page st a b : a / PAGE_SIZE = b / PAGE_SIZE → vmm_get_physical a st = vmm_get_physical b st.
Proof.
  intros E. apply indices_page in E as [E1 E2]. unfold vmm_get_physical. by rewrite E1, E2.
Qed.

(** One turn of the loop on a mapped page. *)
Lemma unmap_one st U P a :
  vmm_wf st U → owned st U P → P a → vaddr a → vmm_get_physical a st ≠ 0 →
  ∃ s' U', pa_free (vmm_get_physical a st) (pmm (vmm_unmap_page a st)) = Some s' ∧
    unmapped st U (page_of a) (vmm_unmap_page a st)⟦pmm := s'⟧ U'.
Proof.
  intros Hwf Hown HPa Ha Hn. destruct (own_data _ _ _ Hown a HPa Ha Hn) as (f & Ef & Hf0 & HfU & Hpf).
  destruct (unmap_table st U a Hwf Ha) as (Hwf1 & Epmm & Hpte & Hpg).
  pose proof (pa_rep_range _ _ f (wf_pmm _ _ Hwf) HfU) as Hfr.
  destruct (pa_free_spec (pmm st) U (f * PAGE_SIZE) (wf_pmm _ _ Hwf)) as (s' & Es & Hrep).
  { unfold PAGE_SIZE in *. lia. }
  rewrite Z.div_mul in Hrep by done. exists s', (U ∖ {[f]}). rewrite Epmm, Ef. split; [done|]. split.
  - apply release_frame; [done| |done|done]. split; [done|]. by rewrite Hpg.
  - intros w Hw. change (pte (vmm_unmap_page a st)⟦pmm := s'⟧ w) with (pte (vmm_unmap_page a st) w).
    rewrite Hpte by done. unfold page_of. change PAGE_SIZE with 4096. case_decide as E.
    + rewrite (proj2 (Z.eqb_eq _ _) E). cbn [andb]. rewrite (phys_page st w a E). by rewrite (proj2 (truth_nz _) Hn).
    + by rewrite (proj2 (Z.eqb_neq _ _) E).
  - intros g. apply Hpg.
  - intros g. rewrite elem_of_difference, elem_of_singleton. split.
    + intros [Hg Hne]. split; [done|]. intros b Hvb Hb%Z.eqb_eq _ Eb. rewrite (phys_page st b a Hb), Ef in Eb.
      unfold PAGE_SIZE in Eb. lia.
    + intros [Hg Hall]. split; [done|]. intros ->. apply (Hall a Ha); [|done|done]. by apply Z.eqb_eq.
Qed.

Lemma page_of_whole a : whole_pages (page_of a).
Proof. intros b c E. unfold page_of. by rewrite E. Qed.

Lemma in_range_whole lo hi : lo mod 4096 = 0 → hi mod 4096 = 0 → whole_pages (in_range lo hi).
Proof.
  unfold whole_pages, in_range, PAGE_SIZE. intros Hl Hh a b E.
  pose proof (Z.div_mod lo 4096 ltac:(done)). pose proof (Z.div_mod hi 4096 ltac:(done)).
  pose proof (Z.div_mod a 4096 ltac:(done)). pose proof (Z.div_mod b 4096 ltac:(done)).
  pose proof (Z.mod_pos_bound a 4096 ltac:(done)). pose proof (Z.mod_pos_bound b 4096 ltac:(done)).
  destruct (Z.leb_spec lo a), (Z.leb_spec lo b), (Z.ltb_spec a hi), (Z.ltb_spec b hi); cbn; try done; lia.
Qed.

Lemma in_range_step lo a w : lo ≤ a → a mod 4096 = 0 →
  in_range lo a w || page_of a w = in_range lo (a + 4096) w.
Proof.
  unfold in_range, page_of, PAGE_SIZE. intros Hla Ha.
  pose proof (Z.div_mod a 4096 ltac:(done)). pose proof (Z.div_mod w 4096 ltac:(done)).
  pose proof (Z.mod_pos_bound w 4096 ltac:(done)).
  destruct (Z.leb_spec lo w), (Z.ltb_spec w a), (Z.ltb_spec w (a + 4096)), (Z.eqb_spec (w / 4096) (a / 4096)); cbn; try done; lia.
Qed.

End unmapping.

(** ** Removing areas *)

Section munmap_theory.
Context {S : Type} `{PageAllocatorLaws S}.
Implicit Types m : machine S.

(** [st'] differs from [st] at most in the resident set size of [mm]. *)
Record rss_only (mm : Z) (st st' : vma_state) : Prop := {
  ro_pool : vma_pool st' = vma_pool st;
  ro_free : vma_free_list st' = vma_free_list st;
  ro_init : vma_initialized st' = vma_initialized st;
  ro_mmfree : mm_free_list st' = mm_free_list st;
  ro_other k : k ≠ mm → mm_at st' k = mm_at st k;
  ro_mm : ∃ n, mm_at st' mm = (mm_at st mm)⟦rss := n⟧;
}.

Lemma rss_only_refl mm st : rss_only mm st st.
Proof. split; try done. exists (rss (mm_at st mm)). by destruct (mm_at st mm). Qed.

Lemma rss_only_upd mm st st' f : rss_only mm st st' → rss_only mm st (upd_mm mm (fun x => x⟦rss ::= f⟧) st').
Proof.
  intros [H1 H2 H3 H4 H5 [n H6]]. split; try done.
  - intros k Hk. by rewrite mm_at_upd, decide_False, H5 by congruence.
  - exists (f n). rewrite mm_at_upd, decide_True, H6 by done. done.
Qed.

Lemma rss_only_wf mm st st' F G M l : rss_only mm st st' → vma_wf st F G M → M !! mm = Some l → vma_wf st' F G M.
Proof.
  intros [H1 H2 H3 H4 H5 [n H6]] Hwf Hmm. rewrite <- (insert_id M mm l) by done.
  apply (wf_replace_same_free st st' F G M mm l l l); try done.
  - by left.
  - split; try done. intros u _. unfold vma_at. by rewrite H1.
  - eapply mm_areas_ext; [by apply (vw_areas _ _ _ _ Hwf)|by rewrite H6|by rewrite H6|].
    intros u _. unfold vma_at. by rewrite H1.
Qed.

(** The rest of the machine. *)
Definition same_rest m m' : Prop := pc m' = pc m ∧ sw m' = sw m ∧ stats m' = stats m ∧ current_mm m' = current_mm m.

(** The pages of one area. *)
Lemma unmap_pages m U P mm lo hi :
  vmm_wf (vm m) U → owned (vm m) U P → (∀ a, in_range lo hi a = true → P a) →
  0 ≤ lo ≤ hi → hi < 2 ^ 32 → lo mod 4096 = 0 → hi mod 4096 = 0 →
  ∃ m' U', for_pages lo hi (unmap_page mm) m = Some m' ∧ unmapped (vm m) U (in_range lo hi) (vm m') U' ∧
    rss_only mm (vas m) (vas m') ∧ same_rest m m'.
Proof.
  intros Hwf Hown HP Hlo Hhi Hl Hh.
  destruct (for_pages_inv (fun a m' => ∃ U', unmapped (vm m) U (in_range lo a) (vm m') U' ∧
    rss_only mm (vas m) (vas m') ∧ same_rest m m') lo hi (unmap_page mm) m) as (m' & E & U' & H1); try done.
  - exists U. split; [|split; [apply rss_only_refl|done]]. apply unmapped_none; [done|]. intros a _ Ha. unfold in_range in Ha. lia.
  - intros a m1 Ha Hal (U1 & Hu & Hr & Hs).
    assert (vaddr a) as Hva by (unfold vaddr; lia).
    assert (owned (vm m1) U1 P) as Hown1.
    { apply (unmapped_owned (vm m) U P (in_range lo a) (vm m1) U1); [done| |by apply in_range_whole|done]. intros b Hb. apply HP.
      unfold in_range in *. lia. }
    assert (P a) as HPa by (apply HP; unfold in_range; lia).
    unfold unmap_page, vmm_virt_to_phys. destruct (truth (vmm_get_physical a (vm m1))) eqn:Et.
    + apply truth_nz in Et. destruct (unmap_one (vm m1) U1 P a) as (s' & U2 & Es & Hu2); try done; [apply Hu|].
      unfold give_page. cbn [vm]. change (pmm (vm _)) with (pmm (vmm_unmap_page a (vm m1))). rewrite Es. cbn [mbind option_bind].
      eexists. split; [done|]. exists U2. split; [|split; [|done]].
      * eapply unmapped_ext; [intros w _; apply (in_range_step lo a w); [lia|done]|]. exact (unmapped_trans _ _ _ _ _ _ _ _ Hu Hu2).
      * by apply rss_only_upd.
    + exists m1. split; [done|]. exists U1. split; [|done].
      eapply unmapped_ext; [intros w _; apply (in_range_step lo a w); [lia|done]|]. eapply unmapped_trans; [done|].
      apply unmapped_none; [apply Hu|]. intros b Hvb Hb%Z.eqb_eq. rewrite (phys_page _ b a Hb).
      unfold truth in Et. by apply negb_false_iff, Z.eqb_eq in Et.
  - by exists m', U'.
Qed.

Lemma drop_area st F G M mm l1 v l2 :
  vma_wf st F G M → M !! mm = Some (l1 ++ v :: l2) → vma_ref_count (vma_at st v) = 1 →
  let st' := vma_destroy v (vma_remove mm v st).2 in
  vma_wf st' (v :: F) G (<[mm := l1 ++ l2]> M) ∧ (∀ u, u ≠ v → attrs (vma_at st' u) = attrs (vma_at st u)).
Proof.
  intros Hwf Hmm Href st'. destruct (vma_remove_wf st F G M mm l1 v l2 Hwf Hmm) as (_ & Hwf1 & Hdet & Hat & _).
  destruct (vma_destroy_wf (vma_remove mm v st).2 F G _ v Hwf1 Hdet) as (Hwf2 & Hother & _).
  { rewrite <- Href. change (vma_ref_count (attrs (vma_at (vma_remove mm v st).2 v)) = vma_ref_count (attrs (vma_at st v))).
    by rewrite Hat. }
  split; [done|]. intros u Hu. subst st'. by rewrite Hother, Hat by done.
Qed.

(** The area lies completely in the range. *)
Definition inside (st : vma_state) (start fin v : Z) : bool :=
  (start <=? vm_start (vma_at st v)) && (vm_end (vma_at st v) <=? fin).

(** The addresses of the areas of [l] inside the range. *)
Definition removed (st : vma_state) (start fin : Z) (l : list Z) (w : Z) : bool :=
  existsb (fun v => inside st start fin v && contains st w v) l.

Definition kept (st : vma_state) (start fin : Z) (l : list Z) : list Z :=
  List.filter (fun v => negb (inside st start fin v)) l.
Definition dropped (st : vma_state) (start fin : Z) (l : list Z) : list Z :=
  List.filter (inside st start fin) l.

Lemma attrs_inside st st' start fin u w : attrs (vma_at st' u) = attrs (vma_at st u) →
  inside st' start fin u = inside st start fin u ∧ contains st' w u = contains st w u ∧
  vma_ref_count (vma_at st' u) = vma_ref_count (vma_at st u).
Proof.
  intros E. destruct (attrs_range _ _ E) as [E1 E2]. unfold inside, contains. rewrite E1, E2. split; [done|]. split; [done|].
  change (vma_ref_count (attrs (vma_at st' u)) = vma_ref_count (attrs (vma_at st u))). by rewrite E.
Qed.

Lemma removed_ext st st' start fin l w :
  (∀ u, u ∈ l → attrs (vma_at st' u) = attrs (vma_at st u)) →
  removed st' start fin l w = removed st start fin l w ∧ kept st' start fin l = kept st start fin l ∧
  dropped st' start fin l = dropped st start fin l.
Proof.
  intros Hat. induction l as [|x l IH]; [done|]. destruct IH as (IH1 & IH2 & IH3); [intros u Hu; apply Hat; set_solver|].
  destruct (attrs_inside st st' start fin x w (Hat x ltac:(set_solver))) as (E1 & E2 & _).
  cbn. unfold kept, dropped, removed in *. rewrite E1, E2, IH1, IH2, IH3. done.
Qed.

(** What [sys_munmap] does: the areas inside the range leave the address space
    and the pool gets them back; their pages are unmapped and the frames
    released. *)
Record munmapped m F G M U (mm start fin : Z) (l1 l2 : list Z) m' : Prop := {
  mu_wf : ∃ F', F' ≡ₚ dropped (vas m) start fin l2 ++ F ∧
    vma_wf (vas m') F' G (<[mm := l1 ++ kept (vas m) start fin l2]> M);
  mu_pages : ∃ U', unmapped (vm m) U (removed (vas m) start fin l2) (vm m') U';
  mu_attrs u : u ∉ dropped (vas m) start fin l2 → attrs (vma_at (vas m') u) = attrs (vma_at (vas m) u);
  mu_rest : same_rest m m';
}.

(** One area of the loop. *)
Lemma munmap_step m F G M U P mm start fin l1 x l2 :
  vma_wf (vas m) F G M → M !! mm = Some (l1 ++ x :: l2) → vmm_wf (vm m) U → owned (vm m) U P →
  (∀ a, contains (vas m) a x = true → P a) → vma_ref_count (vma_at (vas m) x) = 1 → inside (vas m) start fin x = true →
  ∃ m1 U1, for_pages (vm_start (vma_at (vas m) x)) (vm_end (vma_at (vas m) x)) (unmap_page mm) m = Some m1 ∧
    let m2 := m1⟦vas ::= fun st => vma_destroy x (vma_remove mm x st).2⟧ in
    vma_wf (vas m2) (x :: F) G (<[mm := l1 ++ l2]> M) ∧
    (∀ u, u ≠ x → attrs (vma_at (vas m2) u) = attrs (vma_at (vas m) u)) ∧
    unmapped (vm m) U (fun w => contains (vas m) w x) (vm m2) U1 ∧ owned (vm m2) U1 P ∧ same_rest m m2.
Proof.
  intros Hwf Hmm Hvm Hown HP Href Hin.
  pose proof (ma_ok _ _ _ (vw_areas _ _ _ _ Hwf _ _ Hmm) x ltac:(set_solver)) as (Hr1 & Hr2 & Hr3 & Hr4).
  destruct (unmap_pages m U P mm (vm_start (vma_at (vas m) x)) (vm_end (vma_at (vas m) x))) as (m1 & U1 & E & Hu & Hro & Hrest);
    [done|done|done|lia|done|done|done|].
  exists m1, U1. split; [done|]. cbv zeta.
  destruct (drop_area (vas m1) F G M mm l1 x l2) as (Hwf2 & Hat).
  { by eapply rss_only_wf. } { done. } { unfold vma_at. by rewrite (ro_pool _ _ _ Hro). }
  split; [done|]. split.
  { intros u Hu'. cbn [vas modify_field]. rewrite Hat by done. unfold vma_at. by rewrite (ro_pool _ _ _ Hro). }
  split; [done|]. split; [|done].
  eapply unmapped_owned; [done|by apply HP|by apply in_range_whole|done].
Qed.

Lemma same_rest_trans m1 m2 m3 : same_rest m1 m2 → same_rest m2 m3 → same_rest m1 m3.
Proof. unfold same_rest. intuition congruence. Qed.

(** Putting an area and the rest of the list together. *)
Lemma munmapped_cons m F G M U mm start fin l1 x l2 m2 U2 m' :
  (x ∉ l2) → inside (vas m) start fin x = true →
  (∀ u, u ≠ x → attrs (vma_at (vas m2) u) = attrs (vma_at (vas m) u)) →
  unmapped (vm m) U (fun w => contains (vas m) w x) (vm m2) U2 → same_rest m m2 →
  munmapped m2 (x :: F) G (<[mm := l1 ++ l2]> M) U2 mm start fin l1 l2 m' →
  munmapped m F G M U mm start fin l1 (x :: l2) m'.
Proof.
  intros Hx Hin Hat Hu Hrest [(F' & HF & Hwf) (U' & Hu') Hat' Hrest'].
  assert (∀ u, u ∈ l2 → attrs (vma_at (vas m2) u) = attrs (vma_at (vas m) u)) as Hat2.
  { intros u Hu2. apply Hat. by intros ->. }
  destruct (removed_ext (vas m) (vas m2) start fin l2 0 Hat2) as (_ & Ek & Ed). rewrite Ek, Ed in *.
  split; [| | |by eapply same_rest_trans].
  - exists F'. unfold kept, dropped in *. cbn. rewrite Hin. cbn. split; [|by rewrite insert_insert_eq in Hwf].
    rewrite HF. by rewrite Permutation_middle.
  - exists U'. eapply unmapped_ext; [|by eapply unmapped_trans]. intros w _. cbn. rewrite Hin.
    destruct (removed_ext (vas m) (vas m2) start fin l2 w Hat2) as (-> & _). done.
  - intros u Hn. unfold dropped in Hn. cbn in Hn. rewrite Hin in Hn. apply not_elem_of_cons in Hn as [Hne Hn].
    rewrite Hat' by done. by apply Hat.
Qed.

Lemma munmapped_skip m F G M U mm start fin l1 x l2 m' :
  inside (vas m) start fin x = false →
  munmapped m F G M U mm start fin (l1 ++ [x]) l2 m' → munmapped m F G M U mm start fin l1 (x :: l2) m'.
Proof.
  intros Hin [(F' & HF & Hwf) (U' & Hu') Hat' Hrest']. rewrite <- app_assoc in Hwf.
  split; [| | |done]; unfold kept, dropped, removed in *; cbn; rewrite Hin; cbn; [by exists F'|by exists U'|done].
Qed.

Lemma munmap_loop_ok mm start fin G P l2 : ∀ fuel m F M U l1,
  (length l2 ≤ fuel)%nat → vma_wf (vas m) F G M → M !! mm = Some (l1 ++ l2) → vmm_wf (vm m) U → owned (vm m) U P →
  (∀ x a, x ∈ l2 → inside (vas m) start fin x = true → contains (vas m) a x = true → P a) →
  (∀ x, x ∈ l2 → vma_ref_count (vma_at (vas m) x) = 1) →
  ∃ m', munmap_loop fuel mm start fin (first_or l2 None) m = Some m' ∧
    munmapped m F G M U mm start fin l1 l2 m'.
Proof.
  induction l2 as [|x l2 IH]; intros fuel m F M U l1 Hf Hwf Hmm Hvm Hown HP Href.
  { exists m. split; [by destruct fuel|]. split; [|exists U|done|done].
    - exists F. split; [done|]. cbn. by rewrite insert_id.
    - by apply unmapped_none. }
  destruct fuel as [|fuel]; [cbn in Hf; lia|]. cbn [first_or munmap_loop length] in *.
  pose proof (vw_areas _ _ _ _ Hwf _ _ Hmm) as Hm. pose proof (ma_ok _ _ _ Hm x ltac:(set_solver)) as (Hr & _).
  destruct (dll_split _ _ _ _ _ (ma_dll _ _ _ Hm)) as (_ & Enext).
  assert (x ∉ l2) as Hx by (destruct (ma_dll _ _ _ Hm) as (_ & Hnd & _); apply NoDup_app in Hnd as (_ & _ & Hnd); apply NoDup_cons in Hnd as [? _]; done).
  change (lk_next _) with (vm_next (vma_at (vas m) x)) in Enext. rewrite Enext.
  destruct (inside (vas m) start fin x) eqn:Hin.
  - assert ((vm_end (vma_at (vas m) x) <=? start) || (fin <=? vm_start (vma_at (vas m) x)) = false) as ->.
    { unfold inside in Hin. lia. }
    unfold inside in Hin. rewrite Hin. fold (inside (vas m) start fin x) in Hin.
    destruct (munmap_step m F G M U P mm start fin l1 x l2) as (m1 & U1 & -> & Hwf2 & Hat & Hu & Hown2 & Hrest);
      try done; [intros a; apply HP; [set_solver|done]|apply Href; set_solver|].
    cbn [mbind option_bind].
    set (m2 := m1⟦vas ::= fun st => vma_destroy x (vma_remove mm x st).2⟧) in *.
    assert (∀ u w, u ∈ l2 → inside (vas m2) start fin u = inside (vas m) start fin u ∧
      contains (vas m2) w u = contains (vas m) w u ∧
      vma_ref_count (vma_at (vas m2) u) = vma_ref_count (vma_at (vas m) u)) as Hsame.
    { intros u w Hu2. apply attrs_inside, Hat. by intros ->. }
    destruct (IH fuel m2 (x :: F) (<[mm := l1 ++ l2]> M) U1 l1) as (m' & -> & Hm'); [lia|done|by rewrite lookup_insert_eq|apply Hu|done|..].
    + intros y a Hy. destruct (Hsame y a Hy) as (-> & -> & _). apply HP. set_solver.
    + intros y Hy. destruct (Hsame y 0 Hy) as (_ & _ & ->). apply Href. set_solver.
    + exists m'. split; [done|]. by eapply munmapped_cons.
  - assert (∀ r, (if (vm_end (vma_at (vas m) x) <=? start) || (fin <=? vm_start (vma_at (vas m) x)) then Some m
      else if (start <=? vm_start (vma_at (vas m) x)) && (vm_end (vma_at (vas m) x) <=? fin) then r else Some m) = Some m) as ->.
    { intros r. unfold inside in Hin. rewrite Hin. by destruct (_ || _). }
    cbn [mbind option_bind].
    destruct (IH fuel m F M U (l1 ++ [x])) as (m' & -> & Hm'); [lia|done|by rewrite <- app_assoc|done|done|..].
    + intros y a Hy. apply HP. set_solver.
    + intros y Hy. apply Href. set_solver.
    + exists m'. split; [done|]. by apply munmapped_skip.
Qed.

Lemma sys_munmap_ok m F G M U mm l addr len :
  let start := page_down addr in
  let fin := start + page_up len in
  vma_wf (vas m) F G M → vmm_wf (vm m) U → current_mm m = Some mm → M !! mm = Some l →
  0 ≤ start → fin < 2 ^ 32 → 0 ≤ page_up len →
  owned (vm m) U (fun a => removed (vas m) start fin l a = true) →
  (∀ x, x ∈ l → vma_ref_count (vma_at (vas m) x) = 1) →
  ∃ m', sys_munmap addr len m = Some (0, m') ∧ munmapped m F G M U mm start fin [] l m' ∧
    (∀ w, vaddr w → vmm_get_physical w (vm m') =
       if removed (vas m) start fin l w then 0 else vmm_get_physical w (vm m)).
Proof.
  intros start fin Hwf Hvm Hcur Hmm Hs Hfin Hlen Hown Href. unfold sys_munmap. rewrite Hcur. fold start.
  rewrite u32_small by lia. fold fin. pose proof (vw_areas _ _ _ _ Hwf _ _ Hmm) as Hm.
  destruct (ma_dll _ _ _ Hm) as (Hhd & _ & _). rewrite Hhd.
  destruct (munmap_loop_ok mm start fin G (fun a => removed (vas m) start fin l a = true) l walk_bound m F M U [])
    as (m' & -> & Hm'); try done.
  - by apply mm_areas_length in Hm.
  - intros x a Hx Hin Hc. apply existsb_exists. exists x. rewrite Hin, Hc. split; [by apply list_elem_of_In|done].
  - exists m'. split; [done|]. split; [done|]. intros w Hw. destruct (mu_pages _ _ _ _ _ _ _ _ _ _ _ Hm') as [U' Hu].
    by rewrite (unmapped_phys _ _ _ _ _ w Hu Hw).
Qed.

(** C21: [sys_munmap] of a range that does not wrap around always returns 0.
    It removes exactly the areas that lie completely in the range and gives them
    back to the pool; the pages of those areas, and no others, lose their
    translation, and exactly their frames become free. *)
Theorem sys_munmap_spec m F G M U mm l addr len :
  let start := addr / 4096 * 4096 in
  let fin := start + (len + 4095) / 4096 * 4096 in
  vma_wf (vas m) F G M → vmm_wf (vm m) U → current_mm m = Some mm → M !! mm = Some l →
  vaddr addr → 0 ≤ len ≤ 0xFFFFF000 → fin < 2 ^ 32 →
  owned (vm m) U (fun a => removed (vas m) start fin l a = true) →
  (∀ x, x ∈ l → vma_ref_count (vma_at (vas m) x) = 1) →
  ∃ m', sys_munmap addr len m = Some (0, m') ∧ munmapped m F G M U mm start fin [] l m' ∧
    (∀ w, vaddr w → vmm_get_physical w (vm m') =
       if removed (vas m) start fin l w then 0 else vmm_get_physical w (vm m)).
Proof.
  intros start fin Hwf Hvm Hcur Hmm Hva Hlen Hfin Hown Href. unfold fin, start in *.
  assert (0 ≤ addr / 4096 * 4096 ∧ 0 ≤ (len + 4095) / 4096 * 4096) as [H1 H2].
  { unfold vaddr in Hva. pose proof (Z.div_pos addr 4096 ltac:(lia) ltac:(done)).
    pose proof (Z.div_pos (len + 4095) 4096 ltac:(lia) ltac:(done)). lia. }
  rewrite <-(page_down_eq addr Hva) in *. rewrite <-(page_up_eq len Hlen) in *.
  by apply (sys_munmap_ok m F G M U mm l addr len).
Qed.

End munmap_theory.

(** ** Copying an address space *)

Section clone_theory.
Context {S : Type} `{PageAllocatorLaws S}.
Implicit Types m : machine S.

Lemma share_kernel_ok (st : vmm_state S) U g :
  vmm_wf st U → data_frame st U g →
  let st' := share_kernel (g * 4096) st in
  vmm_wf st' U ∧ pmm st' = pmm st ∧ (∀ w, vaddr w → pte st' w = pte st w) ∧
  (∀ j, 0 ≤ j < 1024 → entry st' (g * 4096) j =
     if 768 <=? j then entry st kernel_directory j else entry st (g * 4096) j).
Proof.
  intros Hwf [HgU Hg] st'.
  assert (g ≠ kernel_directory / PAGE_SIZE) as Hgk by (intros ->; apply Hg; by left).
  pose proof (iter_up_inv (fun k (s : vmm_state S) => pmm s = pmm st ∧ ∀ f j, 0 ≤ j < 1024 → entry s (f * 4096) j =
    if decide (f = g ∧ 768 ≤ j < k) then entry st kernel_directory j else entry st (f * 4096) j)
    (fun i v => set_entry (g * 4096) i (entry v kernel_directory i) v) (Z.to_nat 256) 768 st) as Hloop.
  change (768 + Z.of_nat (Z.to_nat 256)) with 1024 in Hloop. subst st'. unfold share_kernel.
  set (st' := iter_up _ _ _ st) in *. clearbody st'. destruct Hloop as (Hp & He).
  - split; [done|]. intros f j Hj. rewrite decide_False by lia. done.
  - intros k s Hk (Hp & He). split; [done|]. intros f j Hj.
    pose proof (He (kernel_directory / PAGE_SIZE) k ltac:(lia)) as Ek. rewrite <- kernel_directory_frame in Ek.
    rewrite decide_False in Ek by lia. rewrite entry_set_frame by lia. rewrite Ek, He by done.
    repeat case_decide; try done; try lia. f_equal. lia.
  - destruct (walk_ext st st' U Hwf) as (Hwf' & Hpte & _).
    + rewrite Hp. apply Hwf.
    + intros f j Hf Hj. rewrite He by done. rewrite decide_False; [done|]. intros [-> _]. done.
    + split; [done|]. split; [done|]. split; [done|]. intros j Hj. rewrite He by done.
      destruct (Z.leb_spec 768 j); [rewrite decide_True by lia|rewrite decide_False by lia]; done.
Qed.

(** What [mm_create] gives: an empty address space whose page directory shares
    the kernel's quarter and nothing else. *)
Lemma mm_create_ok m F k G M U :
  vma_wf (vas m) F (k :: G) M → vmm_wf (vm m) U → ¬ all_used U →
  ∃ g m', mm_create m = (Some k, m') ∧ (g ∉ U) ∧ same_rest m m' ∧
    vma_wf (vas m') F G (<[k := []]> M) ∧ M !! k = None ∧ vma_pool (vas m') = vma_pool (vas m) ∧
    (∀ i, i ≠ k → mm_at (vas m') i = mm_at (vas m) i) ∧ page_directory (mm_at (vas m') k) = g * PAGE_SIZE ∧
    vmm_wf (vm m') ({[g]} ∪ U) ∧ (∀ w, vaddr w → pte (vm m') w = pte (vm m) w) ∧
    (∀ j, 0 ≤ j < 1024 → entry (vm m') (g * PAGE_SIZE) j =
       if 768 <=? j then entry (vm m) kernel_directory j else 0).
Proof.
  intros Hwf Hvm Hfree. unfold mm_create.
  destruct (mm_alloc_wf (vas m) F (k :: G) M Hwf) as (st1 & -> & Hwf1 & HMk & Hmm & Hpool & Ek). cbv beta iota zeta.
  match goal with |- context [take_page ?x] => set (m1 := x) end.
  destruct (take_page_spec m1 U Hvm) as [[_ Hall]|(g & a & -> & Hg0 & Hg & HgU & Ha)]; [done|].
  apply Z.eqb_neq in Hg0. cbv beta iota zeta. rewrite Hg0.
  destruct (take_frame (vm m) U g a Hvm HgU Ha) as [Hvm1 Hdf1].
  destruct (fill_data _ _ g (fun _ => 0) Hvm1 Hdf1) as (Hvm2 & Hp2 & Hpte2 & Hpf2 & He2).
  change (g * PAGE_SIZE) with (g * 4096). set (v2 := fill_entries 1024 (g * 4096) _ _) in *.
  assert (data_frame v2 ({[g]} ∪ U) g) as Hdf2 by (split; [apply Hdf1|rewrite Hpf2; apply Hdf1]).
  destruct (share_kernel_ok v2 _ g Hvm2 Hdf2) as (Hvm3 & Hp3 & Hpte3 & He3).
  set (m2 := _⟦vm ::= share_kernel _⟧).
  assert (vm m2 = share_kernel (g * 4096) v2 ∧ vas m2 = upd_mm k (fun x => x⟦page_directory := g * 4096⟧) st1 ∧
    same_rest m m2) as (Evm & Evas & Hrest) by (split; [reflexivity|split; [reflexivity|by repeat split]]).
  clearbody m2. clearbody v2. exists g, m2. rewrite Evm, Evas. split; [done|]. split; [done|]. split; [done|].
  split; [|split; [done|split; [done|split; [|split; [|split; [done|split]]]]]].
  - rewrite <- (insert_insert_eq M k [] []). eapply (wf_replace_same_free st1 _ F G (<[k:=[]]> M) k [] [] []); try done.
    + by rewrite lookup_insert_eq.
    + set_solver.
    + split; try done. intros i Hi. rewrite mm_at_upd, decide_False by congruence. done.
    + eapply (mm_areas_ext st1); [apply (vw_areas _ _ _ _ Hwf1); by rewrite lookup_insert_eq|..]; [by rewrite mm_at_upd, decide_True..|done].
  - intros i Hi. rewrite mm_at_upd, decide_False by congruence. by apply Hmm.
  - by rewrite mm_at_upd, decide_True.
  - intros w Hw. by rewrite Hpte3, Hpte2.
  - intros j Hj. pose proof (He2 (kernel_directory / PAGE_SIZE) j Hj) as Ek'. rewrite <- kernel_directory_frame in Ek'.
    rewrite decide_False in Ek' by (intros E; apply (proj2 Hdf1); left; done).
    rewrite He3, Ek', He2, decide_True by done. done.
Qed.

(** The range, protection and backing of an area. *)
Definition area_of (a : vma) : Z * Z * Z * Z * Z * Z :=
  (vm_start a, vm_end a, vm_flags a, vm_file_inode a, vm_file_offset a, vm_fd a).
Definition areas_of (st : vma_state) (l : list Z) : list (Z * Z * Z * Z * Z * Z) := (fun v => area_of (vma_at st v)) <$> l.

Lemma attrs_area_of a b : attrs a = attrs b → area_of a = area_of b.
Proof. destruct a, b. intros E. by simplify_eq/=. Qed.

Lemma areas_of_ext st st' l : (∀ u, u ∈ l → attrs (vma_at st' u) = attrs (vma_at st u)) → areas_of st' l = areas_of st l.
Proof. intros Hat. apply list_fmap_ext. intros i u Hu%list_elem_of_lookup_2. by apply attrs_area_of, Hat. Qed.

(** The copy of an area goes to the end of the list of copies. *)
Lemma clone_insert st F G M k ld mm done_ x rest y :
  vma_wf st F G M → M !! k = Some ld → M !! mm = Some (done_ ++ x :: rest) → detached F M y → 
  areas_of st ld = areas_of st done_ → area_of (vma_at st y) = area_of (vma_at st x) →
  ∃ st', vma_insert k y st = Some (0, st') ∧ vma_wf st' F G (<[k := ld ++ [y]]> M) ∧
    (∀ u, attrs (vma_at st' u) = attrs (vma_at st u)).
Proof.
  intros Hwf Hk Hmm Hdet Ed Ey. pose proof (vw_areas _ _ _ _ Hwf _ _ Hmm) as Hm.
  assert (vm_start (vma_at st y) = vm_start (vma_at st x) ∧ vm_end (vma_at st y) = vm_end (vma_at st x)) as [Es Ee]
    by (unfold area_of in Ey; by simplify_eq).
  pose proof (ma_ok _ _ _ Hm x ltac:(set_solver)) as Hx.
  assert (area_ok (vma_at st y)) as Hy by (unfold area_ok in *; by rewrite Es, Ee).
  assert (∀ u, u ∈ ld → vm_end (vma_at st u) ≤ vm_start (vma_at st y)) as Hbelow.
  { intros u Hu. rewrite Es. apply (list_elem_of_fmap_2 (fun v => area_of (vma_at st v))) in Hu.
    change (area_of (vma_at st u) ∈ areas_of st ld) in Hu. rewrite Ed in Hu.
    apply list_elem_of_fmap_1 in Hu as (z & Ez & Hz).
    destruct (sorted_before _ _ _ _ (ma_sorted _ _ _ Hm)) as [Hb _]. specialize (Hb z Hz). unfold below in Hb.
    unfold area_of in Ez. simplify_eq. lia. }
  destruct (vma_insert_ok st F G M k ld y Hwf Hk Hdet Hy) as [[(u & Hu & [_ Ho]) _]|(l1 & l2 & st' & -> & E & Hwf' & Hat & _)].
  { specialize (Hbelow u Hu). unfold area_ok in Hy. lia. }
  exists st'. split; [done|]. split; [|done]. destruct l2 as [|u l2]; [by rewrite app_nil_r|exfalso].
  pose proof (vw_areas _ _ _ _ Hwf' k _ ltac:(apply lookup_insert_eq)) as Hm'.
  destruct (sorted_before _ _ _ _ (ma_sorted _ _ _ Hm')) as [_ Hb]. specialize (Hb u ltac:(set_solver)). unfold below in Hb.
  destruct (attrs_range _ _ (Hat y)) as [_ E1]. destruct (attrs_range _ _ (Hat u)) as [E2 _].
  specialize (Hbelow u ltac:(set_solver)). pose proof (ma_ok _ _ _ Hm' u ltac:(set_solver)) as Hou.
  destruct (attrs_range _ _ (Hat u)) as [_ E3]. unfold area_ok in *. lia.
Qed.

Lemma mark_pages m lo hi :
  0 ≤ lo ≤ hi → hi < 2 ^ 32 → lo mod 4096 = 0 → hi mod 4096 = 0 →
  for_pages lo hi (fun addr m => Some m⟦vm ::= fun v => (vmm_mark_cow addr v).2⟧) m = Some m.
Proof.
  intros. destruct (for_pages_inv (fun _ m' => m' = m) lo hi
    (fun addr m => Some m⟦vm ::= fun v => (vmm_mark_cow addr v).2⟧) m) as (m' & E & ->); try done.
  intros a m' _ _ ->. eexists. split; [done|]. by destruct m.
Qed.

(** One turn of the copying loop. *)
Lemma clone_step m F G M k ld mm done_ x rest y :
  vma_wf (vas m) (y :: F) G M → M !! k = Some ld → M !! mm = Some (done_ ++ x :: rest) → k ≠ mm →
  areas_of (vas m) ld = areas_of (vas m) done_ →
  ∃ st', (∀ fuel, clone_areas (Datatypes.S fuel) k (Some x) m = clone_areas fuel k (first_or rest None) m⟦vas := st'⟧) ∧
    vma_wf st' F G (<[k := ld ++ [y]]> M) ∧ (∀ u, u ≠ y → attrs (vma_at st' u) = attrs (vma_at (vas m) u)) ∧
    area_of (vma_at st' y) = area_of (vma_at (vas m) x).
Proof.
  intros Hwf Hk Hmm Hne Ed. pose proof (vw_areas _ _ _ _ Hwf _ _ Hmm) as Hm.
  pose proof (ma_ok _ _ _ Hm x ltac:(set_solver)) as (Hr1 & Hr2 & Hr3 & Hr4).
  set (a := vma_at (vas m) x) in *.
  destruct (vma_create_wf (vas m) (y :: F) G M (vm_start a) (vm_end a) (vm_flags a) Hwf ltac:(lia) Hr2)
    as [[_ Hc]|(y' & F' & st1 & EF & Ec & Hwf1 & Hdet & Hother & Hpool & Ey & _)].
  { destruct Hc as [?|[?|[?|?]]]; [lia|done|done|done]. }
  simplify_eq. set (y := y') in *.
  assert (∀ w i lst, M !! i = Some lst → w ∈ lst → w ≠ y) as Hfresh.
  { intros w i lst Hi Hw ->. by apply (proj2 (proj2 Hdet) i lst). }
  assert (x ≠ y) as Hxy by (eapply Hfresh; [done|set_solver]).
  set (f := fun b : vma => b⟦vm_file_inode := vm_file_inode a⟧⟦vm_file_offset := vm_file_offset a⟧⟦vm_fd := vm_fd a⟧).
  set (st2 := upd_vma y f st1).
  assert (∀ u, u ≠ y → vma_at st2 u = vma_at (vas m) u) as Eu.
  { intros u Hu. subst st2. by rewrite vma_at_upd, decide_False, Hother by done. }
  assert (area_of (vma_at st2 y) = area_of a) as Ey2.
  { subst st2. rewrite vma_at_upd, decide_True, Ey by done. done. }
  assert (∀ lst i, M !! i = Some lst → areas_of st2 lst = areas_of (vas m) lst) as Eareas.
  { intros lst i Hi. apply areas_of_ext. intros u Hu. by rewrite Eu by (by eapply Hfresh). }
  assert (areas_of st2 done_ = areas_of (vas m) done_) as Edone.
  { specialize (Eareas _ _ Hmm). unfold areas_of in Eareas. rewrite !fmap_app in Eareas. by apply app_inj_1 in Eareas as [? _]; [|rewrite !length_fmap]. }
  destruct (clone_insert st2 F' G M k ld mm done_ x rest y) as (st3 & Ei & Hwf3 & Hat); try done.
  { by apply upd_detached. } { by rewrite (Eareas ld k Hk), Edone. } { by rewrite Ey2, Eu. }
  assert (vm_next (vma_at st3 x) = first_or rest None) as Enext.
  { pose proof (vw_areas _ _ _ _ Hwf3 mm _ ltac:(by rewrite lookup_insert_ne)) as Hm3.
    by destruct (dll_split _ _ _ _ _ (ma_dll _ _ _ Hm3)). }
  assert (area_of (vma_at st3 x) = area_of a) as Ex3 by (by rewrite (attrs_area_of _ _ (Hat x)), Eu).
  exists st3. split; [|split; [done|split]].
  - intros fuel. cbn [clone_areas]. fold a. rewrite Ec. cbv beta iota zeta.
    match goal with |- context [vma_insert k y ?s] => change s with (upd_vma y (fun b => b⟦vm_file_inode := vm_file_inode (vma_at st1 x)⟧
      ⟦vm_file_offset := vm_file_offset (vma_at st1 x)⟧⟦vm_fd := vm_fd (vma_at st1 x)⟧) st1) end.
    rewrite (Hother x Hxy). fold a. fold f. fold st2. rewrite Ei. cbn [mbind option_bind].
    match goal with |- context [for_pages _ _ _ ?z] => change z with (m⟦vas := st3⟧) end.
    change (vas m⟦vas := st3⟧) with st3.
    assert (vm_start (vma_at st3 x) = vm_start a ∧ vm_end (vma_at st3 x) = vm_end a) as [-> ->] by (unfold area_of in Ex3; by simplify_eq).
    rewrite mark_pages by (done || lia). destruct (_ && _); cbn [mbind option_bind]; change (vas m⟦vas := st3⟧) with st3; by rewrite Enext.
  - intros u Hu. by rewrite Hat, Eu.
  - by rewrite (attrs_area_of _ _ (Hat y)).
Qed.

Lemma clone_areas_ok k mm G rest : ∀ fuel m F M ld done_,
  (length rest ≤ fuel)%nat → (length rest ≤ length F)%nat → vma_wf (vas m) F G M →
  M !! k = Some ld → M !! mm = Some (done_ ++ rest) → k ≠ mm → areas_of (vas m) ld = areas_of (vas m) done_ →
  ∃ st' ld', clone_areas fuel k (first_or rest None) m = Some (Some k, m⟦vas := st'⟧) ∧
    vma_wf st' (drop (length rest) F) G (<[k := ld']> M) ∧
    areas_of st' ld' = areas_of (vas m) (done_ ++ rest) ∧
    (∀ u, u ∉ take (length rest) F → attrs (vma_at st' u) = attrs (vma_at (vas m) u)).
Proof.
  induction rest as [|x rest IH]; intros fuel m F M ld done_ Hf HF Hwf Hk Hmm Hne Ed.
  { exists (vas m), ld. split; [destruct fuel; by destruct m|]. split; [by rewrite insert_id|]. by rewrite app_nil_r. }
  destruct fuel as [|fuel]; [cbn in Hf; lia|]. destruct F as [|y F]; [cbn in HF; lia|]. cbn [first_or length] in *.
  destruct (clone_step m F G M k ld mm done_ x rest y Hwf Hk Hmm Hne Ed) as (st1 & E & Hwf1 & Hat & Ey). rewrite E.
  assert (∀ w i lst, M !! i = Some lst → w ∈ lst → w ≠ y) as Hfresh.
  { intros w i lst Hi Hw ->. apply (vw_used _ _ _ _ Hwf i lst y Hi Hw). set_solver. }
  pose proof (fun u => Hfresh u mm (done_ ++ x :: rest) Hmm) as Hmine.
  assert (∀ lst, (∀ u, u ∈ lst → u ≠ y) → areas_of st1 lst = areas_of (vas m) lst) as Eareas.
  { intros lst Hl. apply areas_of_ext. intros u Hu. by apply Hat, Hl. }
  destruct (IH fuel m⟦vas := st1⟧ F (<[k := ld ++ [y]]> M) (ld ++ [y]) (done_ ++ [x])) as (st' & ld' & -> & Hwf' & El & Hat');
    [lia|lia|done|by rewrite lookup_insert_eq|by rewrite lookup_insert_ne, <- app_assoc by done|done| |].
  { change (areas_of st1 (ld ++ [y]) = areas_of st1 (done_ ++ [x])). unfold areas_of. rewrite !fmap_app.
    change (areas_of st1 ld ++ [area_of (vma_at st1 y)] = areas_of st1 done_ ++ [area_of (vma_at st1 x)]).
    rewrite (Eareas ld), (Eareas done_), Ed, Ey, (attrs_area_of _ _ (Hat x (Hmine x ltac:(by rewrite elem_of_app, elem_of_cons; right; left)))).
    - done.
    - intros u Hu. apply Hmine. by rewrite elem_of_app; left.
    - intros u Hu. by apply (Hfresh u k ld). }
  exists st', ld'. split; [done|]. split; [by rewrite insert_insert_eq in Hwf'|]. split.
  - change (vas m⟦vas := st1⟧) with st1 in El. rewrite El, <- app_assoc. apply Eareas. intros u Hu. by eapply Hfresh.
  - intros u Hu. change (vas m⟦vas := st1⟧) with st1 in Hat'. rewrite Hat' by set_solver. apply Hat. set_solver.
Qed.

(** When an area, a descriptor and a frame are left for the copy,
    [mm_clone] succeeds: the new address space has the same areas, in the same
    order and with the same ranges, protections and backings, and the parent's
    areas and translations are unchanged.  The new page directory shares only
    the kernel's entries. *)
Theorem mm_clone_spec m F k G M U mm l :
  vma_wf (vas m) F (k :: G) M → vmm_wf (vm m) U → M !! mm = Some l → (length l ≤ length F)%nat → ¬ all_used U →
  ∃ g l' m', mm_clone mm m = Some (Some k, m') ∧ M !! k = None ∧ (g ∉ U) ∧
    vma_wf (vas m') (drop (length l) F) G (<[k := l']> M) ∧ areas_of (vas m') l' = areas_of (vas m) l ∧
    (∀ u, u ∈ l → attrs (vma_at (vas m') u) = attrs (vma_at (vas m) u)) ∧
    vmm_wf (vm m') ({[g]} ∪ U) ∧ (∀ w, vaddr w → pte (vm m') w = pte (vm m) w) ∧
    (∀ j, 0 ≤ j < 1024 → entry (vm m') (g * PAGE_SIZE) j = if 768 <=? j then entry (vm m) kernel_directory j else 0).
Proof.
  intros Hwf Hvm Hmm HF Hfree.
  destruct (mm_create_ok m F k G M U Hwf Hvm Hfree) as (g & m1 & E & Hg & _ & Hwf1 & Hk & Hpool & Hother & _ & Hvm1 & Hpte & He).
  assert (k ≠ mm) as Hne by congruence.
  unfold mm_clone. rewrite E. cbv beta iota.
  set (f := copy_regions (mm_at (vas m1) mm)). set (st2 := upd_mm k f (vas m1)).
  match goal with |- context [clone_areas _ _ _ ?z] => change z with (m1⟦vas := st2⟧) end.
  assert (vma_wf st2 F G (<[k := []]> M)) as Hwf2.
  { rewrite <- (insert_insert_eq M k [] []). eapply (wf_replace_same_free (vas m1) _ F G (<[k:=[]]> M) k [] [] []); try done.
    - by rewrite lookup_insert_eq.
    - set_solver.
    - split; try done. intros i Hi. subst st2. rewrite mm_at_upd, decide_False by congruence. done.
    - eapply (mm_areas_ext (vas m1)); [apply (vw_areas _ _ _ _ Hwf1); by rewrite lookup_insert_eq|..];
        [subst st2; by rewrite mm_at_upd, decide_True..|done]. }
  pose proof (vw_areas _ _ _ _ Hwf2 mm l ltac:(by rewrite lookup_insert_ne)) as Hm2.
  change (vas m1⟦vas := st2⟧) with st2. rewrite (proj1 (ma_dll _ _ _ Hm2)).
  destruct (clone_areas_ok k mm G l walk_bound m1⟦vas := st2⟧ F (<[k := []]> M) [] []) as (st' & l' & -> & Hwf' & El & Hat);
    [by apply mm_areas_length in Hm2|done|done|by rewrite lookup_insert_eq|by rewrite lookup_insert_ne|done|done|].
  change (vas m1⟦vas := st2⟧) with st2 in El, Hat.
  assert (∀ u, vma_at st2 u = vma_at (vas m) u) as E2 by (intros u; unfold vma_at; by rewrite <- Hpool).
  exists g, l', (m1⟦vas := st'⟧). split; [done|]. split; [done|]. split; [done|].
  change (vas m1⟦vas := st2⟧⟦vas := st'⟧) with st'. change (vas m1⟦vas := st'⟧) with st'. change (vm m1⟦vas := st'⟧) with (vm m1).
  rewrite insert_insert_eq in Hwf'. split; [done|]. split; [|split; [|by split]].
  - rewrite El. apply areas_of_ext. intros u _. by rewrite E2.
  - intros u Hu. rewrite Hat, E2; [done|]. intros Hin%elem_of_take. destruct Hin as (i & Hi & _).
    apply (vw_used _ _ _ _ Hwf mm l u Hmm Hu). by eapply list_elem_of_lookup_2.
Qed.

End clone_theory.

(** ** A concrete machine *)

Definition mmap_vas : vma_state := mk_vma_state
  (<[3 := zero⟦vm_next := Some 4⟧]> (<[4 := zero⟦vm_next := Some 5⟧]> (<[5 := zero⟦vm_next := None⟧]> (vma_pool demo_vas))))
  (Some 3) true
  (<[1 := zero⟦vmas := None⟧]> (mm_pool demo_vas)) (Some 1).
Definition mmap_machine : machine (list Z) :=
  mk_machine demo_vm mmap_vas page_cache_boot swap_boot (mk_pf 0 0 0 0 0) (Some 0).

Lemma mmap_vas_areas : mm_areas mmap_vas 0 [0; 1; 2].
Proof.
  split.
  - split_and!; [done|compute_done|]. by vm_compute.
  - intros v Hv. set_unfold in Hv. unfold VMA_POOL_SIZE. lia.
  - intros v Hv. set_unfold in Hv. destruct Hv as [->|[->|[->|[]]]]; by vm_compute.
  - repeat constructor; by vm_compute.
  - done.
Qed.

Lemma mmap_vas_wf : vma_wf mmap_vas [3; 4; 5] [1] {[ 0 := [0; 1; 2] ]}.
Proof.
  assert (∀ m l, ({[ 0 := [0; 1; 2] ]} : gmap Z (list Z)) !! m = Some l → m = 0 ∧ l = [0; 1; 2]) as HM.
  { intros m l Hl. by apply lookup_singleton_Some in Hl as [<- <-]. }
  split; [done|by vm_compute|compute_done| |by vm_compute|compute_done|..].
  - intros v Hv. set_unfold in Hv. unfold VMA_POOL_SIZE. lia.
  - intros m l [-> ->]%HM. set_solver.
  - intros m l [-> ->]%HM. apply mmap_vas_areas.
  - intros m l v [-> ->]%HM. set_solver.
  - intros m m' l l' v [-> ->]%HM [-> ->]%HM. done.
Qed.

Lemma mmap_user_space : user_space mmap_vas 0 [0; 1; 2].
Proof.
  split; [|by vm_compute|by vm_compute]. intros v Hv. set_unfold in Hv. destruct Hv as [->|[->|[->|[]]]]; by vm_compute.
Qed.

(** A private anonymous mapping of two pages. *)
Lemma sys_mmap_witness :
  ∃ r st', sys_mmap 0 0x1800 (PROT_READ |: PROT_WRITE) (MAP_PRIVATE |: MAP_ANONYMOUS) (-1) 0 mmap_machine
             = Some (r, mmap_machine⟦vas := st'⟧) ∧
    mapped mmap_vas [3; 4; 5] [1] {[ 0 := [0; 1; 2] ]} 0 [0; 1; 2] r 0x2000
      ((((VM_LAZY |: VM_READ) |: VM_WRITE) |: VM_PRIVATE) |: VM_ANONYMOUS) (-1) 0 st'.
Proof.
  destruct (sys_mmap_spec mmap_machine [3; 4; 5] [1] {[ 0 := [0; 1; 2] ]} 0 [0; 1; 2] 0 0x1800 (PROT_READ |: PROT_WRITE)
    (MAP_PRIVATE |: MAP_ANONYMOUS) (-1) 0 mmap_vas_wf eq_refl (lookup_singleton_eq _ _) mmap_user_space
    ltac:(by vm_compute) ltac:(by vm_compute) ltac:(by vm_compute))
    as [(st' & _ & _ & _ & [?|[?|[[? _]|Hno]]])|(r & st' & E & Hm & _)];
    [discriminate|discriminate|discriminate| |exists r, st'; split; [exact E|exact Hm]].
  exfalso. apply (Hno 0x40004000); [by vm_compute|]. split; [by vm_compute|].
  intros v Hv. set_unfold in Hv. destruct Hv as [->|[->|[->|[]]]]; vm_compute; intuition discriminate.
Defined.

(** Unmapping the first area. *)
Lemma sys_munmap_witness :
  ∃ m', sys_munmap 0x40000000 0x4000 mmap_machine = Some (0, m') ∧
    ∃ F', F' ≡ₚ [0; 3; 4; 5] ∧ vma_wf (vas m') F' [1] (<[0 := [1; 2]]> {[ 0 := [0; 1; 2] ]}).
Proof.
  destruct (sys_munmap_spec mmap_machine [3; 4; 5] [1] {[ 0 := [0; 1; 2] ]} three_free_used 0 [0; 1; 2] 0x40000000 0x4000
    mmap_vas_wf demo_vm_wf eq_refl (lookup_singleton_eq _ _) ltac:(by vm_compute) ltac:(by vm_compute) ltac:(by vm_compute))
    as (m' & E & Hm & _).
  - assert (∀ a, removed (vas mmap_machine) (page_down 0x40000000) (page_down 0x40000000 + page_up 0x4000) [0; 1; 2] a = true →
      vaddr a → vmm_get_physical a demo_vm = 0) as Hno.
    { intros a Ha Hv. rewrite vmm_get_physical_pte, demo_pte; [done|done|].
      apply existsb_exists in Ha as (x & Hx%list_elem_of_In & [_ Hc]%andb_true_iff). apply contains_spec in Hc.
      assert (0x40000000 ≤ vm_start (vma_at (vas mmap_machine) x)) as Hs; [|lia].
      set_unfold in Hx. destruct Hx as [->|[->|[->|[]]]]; vm_compute; discriminate. }
    split; intros a; [intros Ha Hv Hn|intros b Ha _ Hv _ Hn]; by destruct (Hn (Hno a Ha Hv)).
  - intros x Hx. set_unfold in Hx. destruct Hx as [->|[->|[->|[]]]]; reflexivity.
  - exists m'. split; [exact E|]. apply (mu_wf _ _ _ _ _ _ _ _ _ _ _ Hm).
Defined.

Lemma mm_clone_witness :
  ∃ l' m', mm_clone 0 mmap_machine = Some (Some 1, m') ∧
    areas_of (vas m') l' = areas_of mmap_vas [0; 1; 2] ∧
    (∀ w, vaddr w → pte (vm m') w = pte demo_vm w).
Proof.
  destruct (mm_clone_spec mmap_machine [3; 4; 5] 1 [] {[ 0 := [0; 1; 2] ]} three_free_used 0 [0; 1; 2]
    mmap_vas_wf demo_vm_wf (lookup_singleton_eq _ _) (Nat.le_refl _) demo_not_exhausted)
    as (g & l' & m' & E & _ & _ & _ & Ea & _ & _ & Hp & _).
  exists l', m'. split; [exact E|]. split; [exact Ea|exact Hp].
Defined.

(** ** What the calls do not do *)

Section gaps.
Context {S : Type} `{PageAllocator S}.
Implicit Types m : machine S.

Lemma page_loop_keeps {A B} (f : A → B) body fuel : ∀ a hi s s',
  (∀ a s s', body a s = Some s' → f s' = f s) → page_loop fuel a hi body s = Some s' → f s' = f s.
Proof.
  induction fuel as [|fuel IH]; intros a hi s s' Hb; cbn [page_loop]; (destruct (a <? hi); [|by intros [= <-]]); [done|].
  intros (s1 & E1 & E2)%bind_Some. rewrite (IH _ _ _ _ Hb E2). by eapply Hb.
Qed.

(** [sys_mprotect] never changes a translation: the call that should rewrite
    the entries is a stub, so a page that is mapped keeps its old
    permissions. *)
Theorem mprotect_keeps_mappings addr len prot m r m' :
  sys_mprotect addr len prot m = Some (r, m') → vm m' = vm m.
Proof.
  unfold sys_mprotect. destruct (current_mm m); [|by intros [= _ <-]].
  intros (found & _ & E)%bind_Some. destruct found as [v|]; [|by inversion E]. cbv zeta in E.
  destruct (_ || _); [by inversion E|]. apply bind_Some in E as (m1 & E1 & [= _ <-]).
  eapply (page_loop_keeps vm) in E1; [by rewrite E1|]. intros a s s' E. by inversion E.
Qed.

(** [sys_brk] extends the heap without looking at the next area: here the heap
    grows over a mapping two pages above it. *)
Lemma brk_overlaps v c w s :
  let heap nx pv := mk_vma 0x10000000 0x10001000 0xA3 0 0 (-1) 0 1 nx pv in
  let other nx pv := mk_vma 0x10003000 0x10004000 0xA3 0 0 (-1) 0 1 nx pv in
  let st := mk_vma_state {[ 0 := heap (Some 1) None; 1 := other None (Some 0) ]} None true
    {[ 0 := mk_mm (Some 0) 2 0 0 0 0 0 0x10000000 0x10001000 0xBFFF0000 0xC0000000 0x40000000 0x1000 0 0 0 1 ]} None in
  ∃ m' : machine S, sys_brk 0x10008000 (mk_machine v st c w s (Some 0)) = Some (0x10008000, m') ∧
    vm_end (vma_at (vas m') 0) = 0x10008000 ∧ vm_start (vma_at (vas m') 1) = 0x10003000.
Proof. eexists. vm_compute. by split_and!. Qed.

(** [MAP_FIXED] checks only the first page: the new area reaches into the
    kernel's quarter of the address space. *)
Lemma mmap_fixed_into_kernel v c w s :
  let st := mk_vma_state {[ 5 := zero ]} (Some 5) true
    {[ 0 := mk_mm None 0 0 0 0 0 0 0 0 0 0 0x40000000 0 0 0 0 1 ]} None in
  ∃ m' : machine S,
    sys_mmap 0xBFFFF000 0x10000000 (PROT_READ |: PROT_WRITE) ((MAP_FIXED |: MAP_PRIVATE) |: MAP_ANONYMOUS) (-1) 0
      (mk_machine v st c w s (Some 0)) = Some (0xBFFFF000, m') ∧
    vm_end (vma_at (vas m') 5) = 0xCFFFF000 ∧ KERNEL_BASE < vm_end (vma_at (vas m') 5).
Proof. eexists. vm_compute. by split_and!. Qed.

End gaps.
