(* ===== verification/Slab.v ===== *)
(** * Slab allocator (kernel/mm/slab.c)

    A cache hands out objects of one size from slabs of one page taken from
    the buddy allocator.  A slab starts with a header of four words ([next],
    [free_list], [inuse], [total]); a free object's first word links it to the
    next free object.  [smem] is the memory of the slabs, by the address of an
    aligned word; pointers are addresses and [NULL] is 0.

    A constructor or destructor is code of the cache's owner: a function on
    the memory. *)

From S2P Require Import Prelude PageAlloc Dll Buddy.

Definition SLAB_SIZE : Z := PAGE_SIZE.
Definition SLAB_NAME_LEN : Z := 32.
Definition MAX_SLABS : Z := 64.
Definition SLAB_HEADER : Z := 16.

Definition memory := gmap Z Z.

Record kmem_cache := mk_cache {
  name : list Z;
  obj_size : Z;
  align : Z;
  cflags : Z;
  slabs_full : Z;
  slabs_partial : Z;
  slabs_free : Z;
  num_slabs : Z;
  num_objs : Z;
  num_active : Z;
  ctor : option (Z → memory → memory);
  dtor : option (Z → memory → memory);
}.
#[export] Instance eta_cache : Eta kmem_cache := fun c =>
  mk_cache (name c) (obj_size c) (align c) (cflags c) (slabs_full c) (slabs_partial c) (slabs_free c)
    (num_slabs c) (num_objs c) (num_active c) (ctor c) (dtor c).
#[export] Instance zeroed_cache : Zeroed kmem_cache := mk_cache [] 0 0 0 0 0 0 0 0 0 None None.

Record slab_state := mk_slab_state {
  all_caches : gmap Z kmem_cache;
  size_caches : gmap Z ptr;
  num_caches : Z;
  slab_initialized : bool;
  smem : memory;
  pages : buddy_state;
}.
#[export] Instance eta_slab_state : Eta slab_state := fun s =>
  mk_slab_state (all_caches s) (size_caches s) (num_caches s) (slab_initialized s) (smem s) (pages s).

Definition cache_at (st : slab_state) (c : Z) : kmem_cache := (all_caches st).[c].
Definition upd_cache (c : Z) (f : kmem_cache → kmem_cache) (st : slab_state) : slab_state :=
  st⟦all_caches ::= fun m => amod m c f⟧.

(** Words of memory, and the fields of a slab header. *)
Definition load (st : slab_state) (a : Z) : Z := (smem st).[a].
Definition store (a x : Z) (st : slab_state) : slab_state := st⟦smem ::= fun m => aset m a x⟧.
Definition slab_next (slab : Z) : Z := slab.
Definition slab_free_list (slab : Z) : Z := slab + 4.
Definition slab_inuse (slab : Z) : Z := slab + 8.
Definition slab_total (slab : Z) : Z := slab + 12.

(** ** Helpers *)

(** [str_copy]: at most [max_len - 1] characters. *)
Definition str_copy (src : list Z) (max_len : Z) : list Z := take (Z.to_nat (max_len - 1)) src.

Definition align_size (size al : Z) : Z :=
  let al := if al =? 0 then 4 else al in
  andn32 (u32 (size + al - 1)) (al - 1).

Definition alloc_slab (c : Z) (st : slab_state) : Z * slab_state :=
  let '(slab, b) := buddy_alloc 0 (pages st) in
  let st := st⟦pages := b⟧ in
  if slab =? 0 then (0, st)
  else
    let sz := obj_size (cache_at st c) in
    let st := store (slab_next slab) 0 st in
    let st := store (slab_inuse slab) 0 st in
    let available := SLAB_SIZE - SLAB_HEADER in
    let total := available / sz in
    let st := store (slab_total slab) total st in
    let obj_start := slab + SLAB_HEADER in
    let st := store (slab_free_list slab) obj_start st in
    let st := iter_up (Z.to_nat (u32 (total - 1))) 0
                (fun i => store (u32 (obj_start + i * sz)) (u32 (obj_start + (i + 1) * sz))) st in
    let st := store (u32 (obj_start + u32 (total - 1) * sz)) 0 st in
    (slab, upd_cache c (fun k => k⟦num_slabs ::= fun n => u32 (n + 1)⟧) st).

Definition free_slab (c slab : Z) (st : slab_state) : option slab_state :=
  if slab =? 0 then Some st
  else
    let k := cache_at st c in
    let st := match dtor k with
              | Some d => iter_up (Z.to_nat (load st (slab_total slab))) 0
                            (fun i st => st⟦smem ::= d (slab + SLAB_HEADER + i * obj_size k)⟧) st
              | None => st
              end in
    b ← buddy_free slab 0 (pages st);
    Some (upd_cache c (fun k => k⟦num_slabs ::= fun n => u32 (n - 1)⟧) st⟦pages := b⟧).

(** ** Caches *)

Definition kmem_cache_create (nm : list Z) (size al fl : Z) (ct dt : option (Z → memory → memory))
    (st : slab_state) : ptr * slab_state :=
  if (size =? 0) || (MAX_SLABS <=? num_caches st) then (None, st)
  else
    match find_up (Z.to_nat MAX_SLABS) 0 (fun i => match name (cache_at st i) with [] => true | _ => false end) with
    | None => (None, st)
    | Some c =>
        let k := mk_cache (str_copy nm SLAB_NAME_LEN) (align_size size al) (if al =? 0 then 4 else al) fl
                   0 0 0 0 0 0 ct dt in
        let st := upd_cache c (fun _ => k) st in
        (Some c, st⟦num_caches ::= fun n => n + 1⟧)
    end.

(** [while (cache->slabs_X)] of [kmem_cache_destroy]; a list of slabs is no
    longer than the pages there are. *)
Fixpoint free_slabs (fuel : nat) (c : Z) (get : kmem_cache → Z) (set : Z → kmem_cache → kmem_cache)
    (st : slab_state) : option slab_state :=
  let slab := get (cache_at st c) in
  if slab =? 0 then Some st
  else
    let next := load st (slab_next slab) in
    st ← free_slab c slab st;
    let st := upd_cache c (set next) st in
    match fuel with
    | O => None
    | S fuel' => free_slabs fuel' c get set st
    end.

Definition slab_bound : nat := Z.to_nat BUDDY_TOTAL_PAGES.

Definition kmem_cache_destroy (c : Z) (st : slab_state) : option slab_state :=
  st ← free_slabs slab_bound c slabs_full (fun x k => k⟦slabs_full := x⟧) st;
  st ← free_slabs slab_bound c slabs_partial (fun x k => k⟦slabs_partial := x⟧) st;
  st ← free_slabs slab_bound c slabs_free (fun x k => k⟦slabs_free := x⟧) st;
  let st := upd_cache c (fun k => k⟦name := []⟧) st in
  Some st⟦num_caches ::= fun n => n - 1⟧.

(** The slab to allocate from, at the head of the partial list. *)
Definition choose_slab (c : Z) (st : slab_state) : Z * slab_state :=
  let k := cache_at st c in
  if truth (slabs_partial k) then (slabs_partial k, st)
  else if truth (slabs_free k) then
    let slab := slabs_free k in
    let st := upd_cache c (fun k => k⟦slabs_free := load st (slab_next slab)⟧) st in
    let st := store (slab_next slab) (slabs_partial (cache_at st c)) st in
    (slab, upd_cache c (fun k => k⟦slabs_partial := slab⟧) st)
  else
    let '(slab, st) := alloc_slab c st in
    if slab =? 0 then (0, st)
    else
      let st := store (slab_next slab) (slabs_partial (cache_at st c)) st in
      (slab, upd_cache c (fun k => k⟦slabs_partial := slab⟧) st).

(** [while (prev && prev->next != slab) prev = prev->next;] *)
Fixpoint find_prev (fuel : nat) (slab prev : Z) (st : slab_state) : option Z :=
  if prev =? 0 then Some 0
  else if load st (slab_next prev) =? slab then Some prev
  else match fuel with
       | O => None
       | S fuel' => find_prev fuel' slab (load st (slab_next prev)) st
       end.

(** Move a slab from the partial to the full list. *)
Definition move_to_full (c slab : Z) (st : slab_state) : option slab_state :=
  st ← (if slabs_partial (cache_at st c) =? slab then
          Some (upd_cache c (fun k => k⟦slabs_partial := load st (slab_next slab)⟧) st)
        else
          prev ← find_prev slab_bound slab (slabs_partial (cache_at st c)) st;
          Some (if prev =? 0 then st else store (slab_next prev) (load st (slab_next slab)) st));
  let st := store (slab_next slab) (slabs_full (cache_at st c)) st in
  Some (upd_cache c (fun k => k⟦slabs_full := slab⟧) st).

(** The writes to the header of the slab an object is taken from. *)
Definition take_object (c s : Z) (st : slab_state) : slab_state :=
  let st := store (slab_free_list s) (load st (load st (slab_free_list s))) st in
  let st := store (slab_inuse s) (u32 (load st (slab_inuse s) + 1)) st in
  upd_cache c (fun k => k⟦num_active ::= fun n => u32 (n + 1)⟧) st.

Definition kmem_cache_alloc (c : Z) (st : slab_state) : option (Z * slab_state) :=
  let '(slab, st) := choose_slab c st in
  if slab =? 0 then Some (0, st)
  else
    let obj := load st (slab_free_list slab) in
    if obj =? 0 then Some (0, st)
    else
      let st := take_object c slab st in
      st ← (if load st (slab_inuse slab) =? load st (slab_total slab) then move_to_full c slab st else Some st);
      let st := match ctor (cache_at st c) with
                | Some f => st⟦smem ::= f obj⟧
                | None => st
                end in
      Some (obj, st).

Definition kmem_cache_free (c obj : Z) (st : slab_state) : slab_state :=
  if obj =? 0 then st
  else
    let st := match dtor (cache_at st c) with
              | Some f => st⟦smem ::= f obj⟧
              | None => st
              end in
    let slab := andn32 obj (SLAB_SIZE - 1) in
    let st := store obj (load st (slab_free_list slab)) st in
    let st := store (slab_free_list slab) obj st in
    let st := store (slab_inuse slab) (u32 (load st (slab_inuse slab) - 1)) st in
    upd_cache c (fun k => k⟦num_active ::= fun n => u32 (n - 1)⟧) st.

(** ** General-purpose allocation *)

Definition cache_sizes : list Z := [8; 16; 32; 64; 128; 256; 512; 1024; 2048; 4096].

(** The characters of "size-" and of the decimal number, as [slab_init] writes
    them. *)
Definition size_name (n : Z) : list Z :=
  let '(d3, r) := if 1000 <=? n then ([48 + n / 1000], n mod 1000) else ([], n) in
  let '(d2, r) := if (100 <=? r) || (1000 <=? n) then ([48 + r / 100], r mod 100) else ([], r) in
  let '(d1, r) := if (10 <=? r) || (100 <=? n) then ([48 + r / 10], r mod 10) else ([], r) in
  [115; 105; 122; 101; 45] ++ d3 ++ d2 ++ d1 ++ [48 + r].

Definition create_size_cache (i : Z) (st : slab_state) : slab_state :=
  let n := default 0 (cache_sizes !! Z.to_nat i) in
  let '(c, st) := kmem_cache_create (size_name n) n 0 0 None None st in
  st⟦size_caches ::= fun m => aset m i c⟧.

Definition slab_init (st : slab_state) : slab_state :=
  if slab_initialized st then st
  else
    let st := iter_up (Z.to_nat MAX_SLABS) 0 (fun i => upd_cache i (fun k => k⟦name := []⟧⟦obj_size := 0⟧)) st in
    let st := iter_up 10 0 create_size_cache st in
    st⟦slab_initialized := true⟧.

(** The first general cache whose objects are large enough. *)
Definition size_cache_for (size : Z) (st : slab_state) : option Z :=
  i ← find_up 10 0 (fun i => match (size_caches st).[i] with
                             | Some c => size <=? obj_size (cache_at st c)
                             | None => false
                             end);
  (size_caches st).[i].

Definition kmalloc (size : Z) (st : slab_state) : option (Z * slab_state) :=
  if negb (slab_initialized st) || (size =? 0) then Some (0, st)
  else
    match size_cache_for size st with
    | Some c => kmem_cache_alloc c st
    | None =>
        let '(a, b) := buddy_alloc (buddy_get_order size) (pages st) in
        Some (a, st⟦pages := b⟧)
    end.

(** [p[i] = 0] for every byte: whole words, then the low bytes of the last. *)
Definition clear_bytes (p size : Z) (st : slab_state) : slab_state :=
  let st := iter_up (Z.to_nat (size / 4)) 0 (fun i => store (p + 4 * i) 0) st in
  let rest := size mod 4 in
  if rest =? 0 then st
  else let a := p + 4 * (size / 4) in store a (load st a - load st a mod 2 ^ (8 * rest)) st.

Definition kzalloc (size : Z) (st : slab_state) : option (Z * slab_state) :=
  '(p, st) ← kmalloc size st;
  Some (p, if p =? 0 then st else clear_bytes p size st).

(** The body of [kfree] is empty. *)
Definition kfree (p : Z) (st : slab_state) : slab_state := st.

Definition slab_boot (b : buddy_state) : slab_state := mk_slab_state ∅ ∅ 0 false ∅ b.

(** ** Well-formed caches *)

Definition as_ptr (a : Z) : ptr := if a =? 0 then None else Some a.

(** The objects that fit in a slab. *)
Definition slab_capacity (sz : Z) : Z := (SLAB_SIZE - SLAB_HEADER) / sz.
Definition object (sz slab o : Z) : Prop :=
  ∃ k, 0 ≤ k < slab_capacity sz ∧ o = slab + SLAB_HEADER + k * sz.
Definition in_page (slab a : Z) : Prop := slab ≤ a < slab + SLAB_SIZE.
Definition slab_page (slab : Z) : Prop := ∃ i, 0 ≤ i < BUDDY_TOTAL_PAGES ∧ slab = page_to_addr i.

(** A slab whose free objects are [fl]. *)
Record slab_ok (st : slab_state) (sz slab : Z) (fl : list Z) : Prop := {
  so_page : slab_page slab;
  so_total : load st (slab_total slab) = slab_capacity sz;
  so_inuse : load st (slab_inuse slab) + Z.of_nat (length fl) = slab_capacity sz;
  so_inuse_nonneg : 0 ≤ load st (slab_inuse slab);
  so_chain : chain as_ptr (smem st) (as_ptr (load st (slab_free_list slab))) fl;
  so_nodup : NoDup fl;
  so_objects : ∀ o, o ∈ fl → object sz slab o;
}.

(** A constructor or destructor writes only to its object. *)
Definition local_fn (sz : Z) (f : option (Z → memory → memory)) : Prop :=
  ∀ g, f = Some g → ∀ o m a, a < o ∨ o + sz ≤ a → (g o m).[a] = m.[a].

Definition size_ok (sz : Z) : Prop := sz mod 4 = 0 ∧ 4 ≤ sz ≤ SLAB_SIZE - SLAB_HEADER.

(** Cache [c] has the partial slabs [Lp] and the full slabs [Lf]; [fl] gives the
    free objects of each, [al] the blocks the buddy allocator has given out. *)
Record cache_wf (st : slab_state) (c : Z) (Lp Lf : list Z) (fl : Z → list Z) (al : gmap Z Z) : Prop := {
  cw_buddy : buddy_inv (pages st) al;
  cw_size : size_ok (obj_size (cache_at st c));
  cw_partial : chain as_ptr (smem st) (as_ptr (slabs_partial (cache_at st c))) Lp;
  cw_full : chain as_ptr (smem st) (as_ptr (slabs_full (cache_at st c))) Lf;
  cw_free : slabs_free (cache_at st c) = 0;
  cw_nodup : NoDup (Lp ++ Lf);
  cw_owned : ∀ s i, s ∈ Lp ++ Lf → 0 ≤ i < BUDDY_TOTAL_PAGES → s = page_to_addr i → al !! i = Some 0;
  cw_slab : ∀ s, s ∈ Lp ++ Lf → slab_ok st (obj_size (cache_at st c)) s (fl s);
  cw_room : ∀ s, s ∈ Lp → fl s ≠ [];
  cw_ctor : local_fn (obj_size (cache_at st c)) (ctor (cache_at st c));
  cw_dtor : local_fn (obj_size (cache_at st c)) (dtor (cache_at st c));
}.

(** The objects in use. *)
Definition live (L : list Z) (fl : Z → list Z) (sz o : Z) : Prop := ∃ s, s ∈ L ∧ object sz s o ∧ o ∉ fl s.

(** ** Memory *)

Lemma load_store a x st b : load (store a x st) b = if decide (a = b) then x else load st b.
Proof. apply aget_aset. Qed.

Lemma cache_at_upd st c f k : cache_at (upd_cache c f st) k = if decide (c = k) then f (cache_at st c) else cache_at st k.
Proof. apply aget_amod. Qed.

Lemma page_addr s : slab_page s → ∃ p, s = p * 4096 ∧ 0 < p < 32768.
Proof.
  intros (i & Hi & ->). exists (1024 + i). rewrite page_to_addr_eq by done. unfold BUDDY_TOTAL_PAGES, PAGE_SIZE in *. lia.
Qed.

Lemma capacity_pos sz : size_ok sz → 1 ≤ slab_capacity sz ∧ slab_capacity sz * sz ≤ SLAB_SIZE - SLAB_HEADER.
Proof.
  unfold size_ok, slab_capacity, SLAB_SIZE, SLAB_HEADER, PAGE_SIZE. intros [_ Hs].
  pose proof (Z.div_mod (4096 - 16) sz ltac:(lia)). pose proof (Z.mod_pos_bound (4096 - 16) sz ltac:(lia)).
  split; [apply Z.div_le_lower_bound; lia|lia].
Qed.

(** An object lies in its page behind the header, aligned. *)
Lemma object_range sz s o : size_ok sz → object sz s o → s + 16 ≤ o ∧ o + sz ≤ s + 4096.
Proof.
  intros Hs (k & Hk & ->). destruct (capacity_pos sz Hs) as [_ Hc].
  unfold size_ok, SLAB_SIZE, SLAB_HEADER, PAGE_SIZE in *. nia.
Qed.

Lemma object_aligned sz s o : size_ok sz → slab_page s → object sz s o → o mod 4 = 0.
Proof.
  intros [Hs _] (p & -> & _)%page_addr (k & _ & ->). unfold SLAB_HEADER. apply Z.mod_divide in Hs as [q ->]; [|done].
  replace (p * 4096 + 16 + k * (q * 4)) with ((p * 1024 + 4 + k * q) * 4) by lia. by rewrite Z.mod_mul.
Qed.

(** Distinct objects of a slab do not overlap. *)
Lemma object_disjoint sz s o o' : size_ok sz → object sz s o → object sz s o' → o ≠ o' → o + sz ≤ o' ∨ o' + sz ≤ o.
Proof.
  intros [_ Hs] (k & _ & ->) (k' & _ & ->) Hne. assert (k + 1 ≤ k' ∨ k' + 1 ≤ k) as [Hk|Hk].
  { destruct (decide (k = k')) as [->|]; [done|lia]. }
  - left. pose proof (Z.mul_le_mono_nonneg_r (k + 1) k' sz ltac:(lia) Hk). lia.
  - right. pose proof (Z.mul_le_mono_nonneg_r (k' + 1) k sz ltac:(lia) Hk). lia.
Qed.

Lemma pages_apart s s' a : slab_page s → slab_page s' → in_page s a → in_page s' a → s = s'.
Proof. intros (p & -> & _)%page_addr (p' & -> & _)%page_addr. unfold in_page, SLAB_SIZE, PAGE_SIZE. lia. Qed.

Lemma object_in_page sz s o a : size_ok sz → object sz s o → o ≤ a < o + sz → in_page s a.
Proof. intros Hs Ho Ha. pose proof (object_range sz s o Hs Ho). unfold in_page, SLAB_SIZE, PAGE_SIZE. lia. Qed.

(** An object belongs to one slab, the one its address is rounded to. *)
Lemma object_slab sz s o : size_ok sz → slab_page s → object sz s o → andn32 o (SLAB_SIZE - 1) = s.
Proof.
  intros Hs Hp Ho. pose proof (object_range sz s o Hs Ho) as Hr. destruct (page_addr s Hp) as (p & -> & Hpr).
  destruct Hs as [_ [Hs _]]. change (SLAB_SIZE - 1) with 0xFFF. rewrite andn32_page by lia.
  replace (o / 4096) with p; [done|]. apply (Z.div_unique _ _ _ (o - p * 4096)); lia.
Qed.

(** A slab is unaffected by changes outside its page. *)
Lemma slab_ok_ext st st' sz s fl :
  size_ok sz → (∀ a, in_page s a → load st' a = load st a) → slab_ok st sz s fl → slab_ok st' sz s fl.
Proof.
  intros Hs Hm [Hp Ht Hi Hin Hc Hnd Ho].
  assert (∀ d, 0 ≤ d < 16 → load st' (s + d) = load st (s + d)) as Hh.
  { intros d Hd. apply Hm. unfold in_page, SLAB_SIZE, PAGE_SIZE. lia. }
  unfold slab_total, slab_inuse, slab_free_list in *. split; unfold slab_total, slab_inuse, slab_free_list; rewrite ?Hh by lia; try done.
  eapply chain_ext; [|done]. intros o Hof. f_equal. apply Hm. pose proof (object_range sz s o Hs (Ho o Hof)).
  unfold in_page, SLAB_SIZE, PAGE_SIZE. destruct Hs. lia.
Qed.

(** The lists and slabs of a cache survive a change that keeps the pages of its
    slabs and its list heads. *)
Lemma chain_slabs st st' hd L :
  (∀ s, s ∈ L → load st' s = load st s) → chain as_ptr (smem st) hd L → chain as_ptr (smem st') hd L.
Proof. intros Hm. apply chain_ext. intros s Hs. f_equal. by apply Hm. Qed.

Lemma slab_head s : slab_page s → in_page s s ∧ s ≠ 0.
Proof. intros (p & -> & Hp)%page_addr. unfold in_page, SLAB_SIZE, PAGE_SIZE. lia. Qed.

Lemma as_ptr_nz a : a ≠ 0 → as_ptr a = Some a.
Proof. unfold as_ptr. intros Ha%Z.eqb_neq. by rewrite Ha. Qed.

Lemma chain_head m a L : chain as_ptr m (as_ptr a) L → match L with [] => a = 0 | s :: _ => a = s ∧ a ≠ 0 end.
Proof. unfold as_ptr. destruct L as [|s L]; cbn; destruct (Z.eqb_spec a 0); [done|done|by intros [? _]|intros [[= ->] _]; done]. Qed.

(** ** A new slab *)

Lemma chain_stride (m : memory) sz n a :
  (0 < n)%nat → (∀ k, 0 ≤ k < Z.of_nat n → a + k * sz ≠ 0) →
  (∀ k, 0 ≤ k < Z.of_nat n - 1 → m.[a + k * sz] = a + (k + 1) * sz) → m.[a + (Z.of_nat n - 1) * sz] = 0 →
  chain as_ptr m (as_ptr a) ((fun k => a + k * sz) <$> seqZ 0 (Z.of_nat n)).
Proof.
  revert a. induction n as [|n IH]; intros a Hn Hnz Hlink Hlast; [lia|].
  rewrite seqZ_cons by lia. cbn [fmap list_fmap chain]. replace (Z.pred (Z.of_nat (S n))) with (Z.of_nat n) by lia.
  assert (a ≠ 0) as Ha by (specialize (Hnz 0 ltac:(lia)); lia).
  split; [rewrite as_ptr_nz by done; f_equal; lia|]. destruct n as [|n].
  - replace (a + (Z.of_nat 1 - 1) * sz) with (a + 0 * sz) in Hlast by lia. rewrite Hlast. done.
  - rewrite Hlink by lia. replace (a + (0 + 1) * sz) with (a + sz) by lia.
    assert ((fun k => a + k * sz) <$> seqZ (Z.succ 0) (Z.of_nat (S n)) = (fun k => a + sz + k * sz) <$> seqZ 0 (Z.of_nat (S n))) as ->.
    { rewrite <- (fmap_add_seqZ 1 0). rewrite <- list_fmap_compose. apply list_fmap_ext. intros ? x _. cbn. lia. }
    apply IH; [lia|..].
    + intros k Hk. specialize (Hnz (k + 1) ltac:(lia)). lia.
    + intros k Hk. replace (a + sz + k * sz) with (a + (k + 1) * sz) by lia. rewrite Hlink by lia. lia.
    + replace (a + sz + (Z.of_nat (S n) - 1) * sz) with (a + (Z.of_nat (S (S n)) - 1) * sz) by lia. done.
Qed.

Definition all_objects (sz slab : Z) : list Z := (fun k => slab + SLAB_HEADER + k * sz) <$> seqZ 0 (slab_capacity sz).

Lemma elem_all_objects sz s o : o ∈ all_objects sz s ↔ object sz s o.
Proof.
  unfold all_objects, object. rewrite list_elem_of_fmap. split.
  - intros (k & -> & Hk%elem_of_seqZ). exists k. split; [lia|done].
  - intros (k & Hk & ->). exists k. split; [done|]. apply elem_of_seqZ. lia.
Qed.

(** The link loop of [alloc_slab]. *)
Lemma link_objects st a sz n :
  0 ≤ n → 0 < sz → 0 ≤ a → a + (n + 1) * sz < 2 ^ 32 →
  let st' := iter_up (Z.to_nat n) 0 (fun i => store (u32 (a + i * sz)) (u32 (a + (i + 1) * sz))) st in
  pages st' = pages st ∧ all_caches st' = all_caches st ∧
  (∀ k, 0 ≤ k < n → load st' (a + k * sz) = a + (k + 1) * sz) ∧
  (∀ b, b < a ∨ a + n * sz ≤ b → load st' b = load st b).
Proof.
  intros Hn Hsz Ha Hmax st'.
  pose proof (iter_up_inv (fun j t => pages t = pages st ∧ all_caches t = all_caches st ∧
    (∀ k, 0 ≤ k < j → load t (a + k * sz) = a + (k + 1) * sz) ∧ (∀ b, b < a ∨ a + j * sz ≤ b → load t b = load st b))
    (fun i => store (u32 (a + i * sz)) (u32 (a + (i + 1) * sz))) (Z.to_nat n) 0 st) as Hloop.
  rewrite Z2Nat.id, Z.add_0_l in Hloop by done. apply Hloop.
  - split; [done|]. split; [done|]. split; [lia|done].
  - intros j t Hj (Hp & Hc & Hl & Ho). pose proof (Z.mul_le_mono_nonneg_r (j + 1) (n + 1) sz ltac:(lia) ltac:(lia)).
    rewrite !u32_small by nia. split; [done|]. split; [done|]. split.
    + intros k Hk. rewrite load_store. case_decide as E; [assert (k = j) as -> by nia; done|]. apply Hl.
      destruct (decide (k = j)) as [->|]; [done|lia].
    + intros b Hb. rewrite load_store, decide_False by nia. apply Ho. nia.
Qed.

(** Every page belongs to a block the buddy allocator has given out. *)
Definition no_page (al : gmap Z Z) : Prop := ∀ i, 0 ≤ i < BUDDY_TOTAL_PAGES → ∃ j o, al !! j = Some o ∧ in_block j o i.

(** The result of taking a new slab for cache [c]. *)
Record new_slab (st : slab_state) (c i : Z) (al : gmap Z Z) (st' : slab_state) : Prop := {
  ns_index : 0 ≤ i < BUDDY_TOTAL_PAGES;
  ns_fresh : al !! i = None;
  ns_buddy : buddy_inv (pages st') (<[i := 0]> al);
  ns_slab : slab_ok st' (obj_size (cache_at st c)) (page_to_addr i) (all_objects (obj_size (cache_at st c)) (page_to_addr i));
  ns_mem a : ¬ in_page (page_to_addr i) a → load st' a = load st a;
  ns_cache : ∃ n, cache_at st' c = (cache_at st c)⟦num_slabs := n⟧;
  ns_other k : k ≠ c → cache_at st' k = cache_at st k;
}.

Lemma header_words st s n f :
  let st' := store (slab_free_list s) f (store (slab_total s) n (store (slab_inuse s) 0 (store (slab_next s) 0 st))) in
  load st' (slab_total s) = n ∧ load st' (slab_inuse s) = 0 ∧ load st' (slab_free_list s) = f ∧
  ∀ a, a < s ∨ s + 16 ≤ a → load st' a = load st a.
Proof.
  unfold slab_free_list, slab_total, slab_inuse, slab_next. cbv zeta.
  split; [|split; [|split]]; intros; rewrite !load_store; repeat case_decide; lia || done.
Qed.

Lemma fresh_slab_ok st sz s :
  size_ok sz → slab_page s → load st (slab_total s) = slab_capacity sz → load st (slab_inuse s) = 0 →
  load st (slab_free_list s) = s + SLAB_HEADER →
  (∀ k, 0 ≤ k < slab_capacity sz - 1 → load st (s + SLAB_HEADER + k * sz) = s + SLAB_HEADER + (k + 1) * sz) →
  load st (s + SLAB_HEADER + (slab_capacity sz - 1) * sz) = 0 →
  slab_ok st sz s (all_objects sz s).
Proof.
  intros Hsz Hsp Ht Hi Hf Hlink Hlast. destruct (capacity_pos sz Hsz) as [Hcap _]. destruct (page_addr s Hsp) as (p & Es & Hp).
  destruct Hsz as [_ Hsz]. split; [done|done| |lia| | |].
  - rewrite Hi. unfold all_objects. rewrite length_fmap, length_seqZ. lia.
  - rewrite Hf. unfold all_objects. rewrite <- (Z2Nat.id (slab_capacity sz)) by lia. apply chain_stride.
    + lia.
    + intros k Hk. unfold SLAB_HEADER. nia.
    + intros k Hk. apply Hlink. lia.
    + rewrite Z2Nat.id by lia. exact Hlast.
  - unfold all_objects. apply NoDup_fmap_2_strong; [|apply NoDup_seqZ]. intros x y _ _ E. nia.
  - intros o. apply elem_all_objects.
Qed.

(** The writes of [alloc_slab]. *)
Lemma init_slab_ok st s sz st1 st2 :
  let n := slab_capacity sz in
  let last := s + SLAB_HEADER + (n - 1) * sz in
  size_ok sz → slab_page s →
  st1 = store (slab_free_list s) (s + SLAB_HEADER) (store (slab_total s) n (store (slab_inuse s) 0 (store (slab_next s) 0 st))) →
  st2 = store (u32 (s + SLAB_HEADER + u32 (n - 1) * sz)) 0 (iter_up (Z.to_nat (u32 (n - 1))) 0
          (fun i => store (u32 (s + SLAB_HEADER + i * sz)) (u32 (s + SLAB_HEADER + (i + 1) * sz))) st1) →
  slab_ok st2 sz s (all_objects sz s) ∧ (∀ a, ¬ in_page s a → load st2 a = load st a) ∧
  pages st2 = pages st ∧ all_caches st2 = all_caches st.
Proof.
  intros n last Hsz Hsp E1 E2. destruct (capacity_pos sz Hsz) as [Hc1 Hc2]. fold n in Hc1, Hc2.
  destruct (header_words st s n (s + SLAB_HEADER)) as (Ht & Hi & Hf & Hout). rewrite <- E1 in Ht, Hi, Hf, Hout.
  destruct (page_addr s Hsp) as (p & Es & Hp). pose proof Hsz as [_ Hszr]. unfold SLAB_SIZE, PAGE_SIZE in Hc2, Hszr.
  assert (n ≤ 1020) as Hn by (unfold SLAB_HEADER in *; nia). unfold SLAB_HEADER in *.
  rewrite (u32_small (n - 1)) in E2 by lia. rewrite (u32_small (s + 16 + (n - 1) * sz)) in E2 by nia. fold last in E2.
  destruct (link_objects st1 (s + 16) sz (n - 1)) as (Hpg & Hcs & Hl & Ho); [lia|lia|lia|nia|].
  set (st3 := iter_up _ _ _ st1) in *. clearbody st3.
  assert (∀ a, load st2 a = if decide (last = a) then 0 else load st3 a) as E3 by (intros a; subst st2; apply load_store).
  assert (∀ d, 0 ≤ d < 16 → load st2 (s + d) = load st1 (s + d)) as Elow.
  { intros d Hd. rewrite E3, decide_False by nia. apply Ho. lia. }
  split; [|split; [|split; subst st2 st1; [exact Hpg|exact Hcs]]].
  - apply fresh_slab_ok; unfold slab_total, slab_inuse, slab_free_list, SLAB_HEADER in *; rewrite ?Elow by lia; try done.
    + intros k Hk. rewrite E3, decide_False by (subst last; fold n in Hk; nia). by apply Hl.
    + rewrite E3, decide_True by done. done.
  - intros a Ha. unfold in_page, SLAB_SIZE, PAGE_SIZE in Ha. rewrite E3, decide_False by nia. rewrite Ho by nia. apply Hout. lia.
Qed.

Lemma alloc_slab_ok st c al :
  buddy_inv (pages st) al → size_ok (obj_size (cache_at st c)) →
  (alloc_slab c st = (0, st) ∧ no_page al) ∨
  (∃ i st', alloc_slab c st = (page_to_addr i, st') ∧ new_slab st c i al st').
Proof.
  intros Hb Hsz. unfold alloc_slab.
  destruct (buddy_alloc_step (pages st) al 0 Hb ltac:(by vm_compute)) as [(i & b & -> & Hok & Hi & _ & Hb')|[-> Hno]].
  2: { left. split; [by destruct st|]. intros i Hi. destruct (Hno i) as (j & o & p & Hj & Hp & Hip).
       - split; [by vm_compute|]. change (2 ^ 0) with 1. split; [lia|]. split; [lia|apply Z.mod_1_r].
       - exists j, o. split; [done|]. unfold in_block in Hip. change (2 ^ 0) with 1 in Hip. by replace i with p by lia. }
  right. pose proof (block_ok_range _ _ Hok) as Hir. exists i.
  assert (slab_page (page_to_addr i)) as Hsp by (by exists i).
  destruct (slab_head _ Hsp) as [_ Hs0]. apply Z.eqb_neq in Hs0. cbv beta iota zeta. rewrite Hs0.
  eexists. split; [reflexivity|]. set (st' := upd_cache c _ _).
  destruct (init_slab_ok st⟦pages := b⟧ (page_to_addr i) _ _ _ Hsz Hsp eq_refl eq_refl) as (Hslab & Hmem & Hpg & Hcs).
  match type of Hslab with slab_ok ?x _ _ _ => set (st2 := x) in * end.
  assert (st' = upd_cache c (fun k => k⟦num_slabs ::= fun n => u32 (n + 1)⟧) st2) as E by reflexivity.
  clearbody st'. clearbody st2. subst st'. split; [done|done| | | | |].
  - change (pages (upd_cache c _ st2)) with (pages st2). rewrite Hpg. done.
  - eapply (slab_ok_ext st2); done.
  - intros a Ha. by apply Hmem.
  - eexists. rewrite cache_at_upd, decide_True by done. unfold cache_at at 1. rewrite Hcs. done.
  - intros k Hk. rewrite cache_at_upd, decide_False by done. unfold cache_at. by rewrite Hcs.
Qed.

(** ** Allocation *)

(** [st'] differs from [st] only in cache [c] and in the pages of [L]. *)
Record cache_only (c : Z) (L : list Z) (st st' : slab_state) : Prop := {
  co_mem a : (∀ s, s ∈ L → ¬ in_page s a) → load st' a = load st a;
  co_other k : k ≠ c → cache_at st' k = cache_at st k;
  co_size : obj_size (cache_at st' c) = obj_size (cache_at st c);
}.

(** The words of the objects in use are kept. *)
Definition objects_kept (sz : Z) (L : list Z) (fl : Z → list Z) (st st' : slab_state) : Prop :=
  ∀ o a, live L fl sz o → o ≤ a < o + sz → load st' a = load st a.

Lemma cache_only_refl c L st : cache_only c L st st.
Proof. by split. Qed.

Lemma cache_only_trans c L st st1 st2 : cache_only c L st st1 → cache_only c L st1 st2 → cache_only c L st st2.
Proof.
  intros [H1 H2 H3] [H4 H5 H6]. split; [|intros k Hk; by rewrite H5, H2|congruence].
  intros a Ha. by rewrite H4, H1.
Qed.

Definition set_fl (fl : Z → list Z) (s : Z) (l : list Z) : Z → list Z := fun x => if decide (x = s) then l else fl x.
Lemma set_fl_eq fl s l : set_fl fl s l s = l.
Proof. unfold set_fl. by rewrite decide_True. Qed.
Lemma set_fl_ne fl s l x : x ≠ s → set_fl fl s l x = fl x.
Proof. unfold set_fl. intros. by rewrite decide_False. Qed.

Lemma wf_slab_page st c Lp Lf fl al s : cache_wf st c Lp Lf fl al → s ∈ Lp ++ Lf → slab_page s.
Proof. intros Hwf Hs. apply (cw_slab _ _ _ _ _ _ Hwf s Hs). Qed.

Lemma choose_new st c Lf fl al i st' :
  cache_wf st c [] Lf fl al → new_slab st c i al st' →
  let s := page_to_addr i in
  let sz := obj_size (cache_at st c) in
  let st1 := upd_cache c (fun k => k⟦slabs_partial := s⟧) (store (slab_next s) (slabs_partial (cache_at st' c)) st') in
  let fl1 := set_fl fl s (all_objects sz s) in
  cache_wf st1 c [s] Lf fl1 (<[i := 0]> al) ∧ cache_only c ([s] ++ Lf) st st1 ∧
  (∀ o, live ([s] ++ Lf) fl1 sz o ↔ live Lf fl sz o) ∧ objects_kept sz Lf fl st st1 ∧
  num_active (cache_at st1 c) = num_active (cache_at st c).
Proof.
  intros Hwf [Hi Hfresh Hb Hslab Hmem [n Hc] Hother] s sz st1 fl1.
  assert (slab_page s) as Hsp by (by exists i). destruct (slab_head s Hsp) as [Hsin Hs0].
  assert (∀ x, x ∈ Lf → x ≠ s) as Hne.
  { intros x Hx ->. pose proof (cw_owned _ _ _ _ _ _ Hwf s i Hx Hi eq_refl) as E. by rewrite Hfresh in E. }
  pose proof (chain_head _ _ _ (cw_partial _ _ _ _ _ _ Hwf)) as Hp0. cbn in Hp0.
  assert (cache_at st1 c = (cache_at st c)⟦num_slabs := n⟧⟦slabs_partial := s⟧) as Ec.
  { subst st1. rewrite cache_at_upd, decide_True by done. change (cache_at (store _ _ st') c) with (cache_at st' c). by rewrite Hc. }
  assert (∀ a, load st1 a = if decide (s = a) then 0 else load st' a) as El.
  { intros a. change (load st1 a) with (load (store (slab_next s) (slabs_partial (cache_at st' c)) st') a).
    rewrite load_store, Hc. unfold slab_next. change (slabs_partial _) with (slabs_partial (cache_at st c)). by rewrite Hp0. }
  assert (∀ a, ¬ in_page s a → load st1 a = load st a) as Hout.
  { intros a Ha. rewrite El, decide_False by (intros <-; done). by apply Hmem. }
  assert (∀ x a, x ∈ Lf → in_page x a → load st1 a = load st a) as Hkeep.
  { intros x a Hx Ha. apply Hout. intros Ha'. apply (Hne x Hx). eapply pages_apart; [|done..]. by eapply wf_slab_page. }
  assert (size_ok sz) as Hsz by apply (cw_size _ _ _ _ _ _ Hwf).
  split; [|split; [|split; [|split; [|by rewrite Ec]]]].
  - split; rewrite ?Ec; try done.
    + cbn [app chain]. split; [by apply as_ptr_nz|]. change ((smem st1).[s]) with (load st1 s). by rewrite El, decide_True.
    + eapply chain_slabs; [|apply Hwf]. intros x Hx. apply (Hkeep x); [done|]. apply slab_head. by eapply wf_slab_page.
    + apply Hwf.
    + cbn [app]. apply NoDup_cons. split; [intros Hx; by apply (Hne s)|apply (cw_nodup _ _ _ _ _ _ Hwf)].
    + intros x j Hx Hj Ex. cbn [app] in Hx. apply elem_of_cons in Hx as [->|Hx].
      * apply page_to_addr_inj in Ex as ->; [by rewrite lookup_insert_eq|done..].
      * rewrite lookup_insert_ne by (intros ->; by apply (Hne x Hx)). by apply (cw_owned _ _ _ _ _ _ Hwf x j).
    + intros x Hx. cbn [app] in Hx. apply elem_of_cons in Hx as [->|Hx].
      * subst fl1. rewrite set_fl_eq. destruct Hslab as [Q1 Q2 Q3 Q4 Q5 Q6 Q7].
        assert (∀ a, a ≠ s → load st1 a = load st' a) as Hs' by (intros a Ha; by rewrite El, decide_False by done).
        split; unfold slab_total, slab_inuse, slab_free_list in *; rewrite ?Hs' by lia; try done.
        eapply chain_ext; [|done]. intros o Ho. f_equal. apply Hs'. pose proof (object_range _ _ _ Hsz (Q7 o Ho)). lia.
      * subst fl1. rewrite set_fl_ne by (by apply Hne). eapply slab_ok_ext; [done|intros a; by apply (Hkeep x)|].
        by apply (cw_slab _ _ _ _ _ _ Hwf).
    + intros x Hx%list_elem_of_singleton. subst x fl1. rewrite set_fl_eq. unfold all_objects.
      destruct (capacity_pos sz Hsz) as [Hcap _]. rewrite seqZ_cons by (fold sz; lia). done.
    + apply Hwf.
    + apply Hwf.
  - split; [|intros k Hk|by rewrite Ec].
    + intros a Ha. apply Hout, Ha. set_solver.
    + subst st1. rewrite cache_at_upd, decide_False by done. by apply Hother.
  - intros o. subst fl1. split; intros (x & Hx & Ho & Hn).
    + cbn [app] in Hx. apply elem_of_cons in Hx as [->|Hx].
      * rewrite set_fl_eq in Hn. destruct Hn. by apply elem_all_objects.
      * rewrite set_fl_ne in Hn by (by apply Hne). by exists x.
    + exists x. rewrite set_fl_ne by (by apply Hne). split; [set_solver|done].
  - intros o a (x & Hx & Ho & Hn) Ha. apply (Hkeep x); [done|]. by eapply object_in_page.
Qed.

(** From the slabs [L] to the slabs [L'], with the blocks [al] and then [al'] given
    out: there is no new slab, or there is one and its page was free. *)
Definition grown (L : list Z) (al : gmap Z Z) (L' : list Z) (al' : gmap Z Z) : Prop :=
  (al' = al ∧ ∀ s, s ∈ L' → s ∈ L) ∨
  ∃ i, 0 ≤ i < BUDDY_TOTAL_PAGES ∧ al !! i = None ∧ al' = <[i := 0]> al ∧ ∀ s, s ∈ L' → s ∈ L ∨ s = page_to_addr i.

(** The slab to allocate from is at the head of the partial list. *)
Lemma choose_slab_ok st c Lp Lf fl al :
  cache_wf st c Lp Lf fl al →
  let sz := obj_size (cache_at st c) in
  (choose_slab c st = (0, st) ∧ Lp = [] ∧ no_page al) ∨
  (∃ s st1 Lp1 fl1 al1, choose_slab c st = (s, st1) ∧ s ≠ 0 ∧ cache_wf st1 c (s :: Lp1) Lf fl1 al1 ∧
     cache_only c ((s :: Lp1) ++ Lf) st st1 ∧ (∀ o, live ((s :: Lp1) ++ Lf) fl1 sz o ↔ live (Lp ++ Lf) fl sz o) ∧
     objects_kept sz (Lp ++ Lf) fl st st1 ∧ num_active (cache_at st1 c) = num_active (cache_at st c) ∧
     grown (Lp ++ Lf) al ((s :: Lp1) ++ Lf) al1).
Proof.
  intros Hwf sz. unfold choose_slab. pose proof (chain_head _ _ _ (cw_partial _ _ _ _ _ _ Hwf)) as Hp.
  destruct Lp as [|s Lp].
  - rewrite Hp, (cw_free _ _ _ _ _ _ Hwf). cbn [truth Z.eqb negb].
    destruct (alloc_slab_ok st c al (cw_buddy _ _ _ _ _ _ Hwf) (cw_size _ _ _ _ _ _ Hwf)) as [[-> Hno]|(i & st' & -> & Hnew)]; [by left|].
    right. destruct (choose_new st c Lf fl al i st' Hwf Hnew) as (H1 & H2 & H3 & H4 & H5).
    pose proof (page_to_addr_nz i (ns_index _ _ _ _ _ Hnew)) as Hnz. rewrite (proj2 (Z.eqb_neq _ _) Hnz).
    do 5 eexists. split; [reflexivity|]. repeat (split; [done|]). right. exists i.
    split; [apply Hnew|]. split; [apply Hnew|]. split; [done|]. intros x [->|Hx]%elem_of_cons; [by right|by left].
  - destruct Hp as [-> Hs0]. right. exists s, st, Lp, fl, al. unfold truth. rewrite (proj2 (Z.eqb_neq _ _) Hs0). cbn [negb].
    split; [done|]. split; [done|]. split; [done|]. split; [apply cache_only_refl|].
    split; [done|]. split; [done|]. split; [done|]. by left.
Qed.

(** A slab survives changes that spare its header and its free objects. *)
Lemma slab_ok_words st st' sz s fl :
  slab_ok st sz s fl →
  load st' (slab_total s) = load st (slab_total s) → load st' (slab_inuse s) = load st (slab_inuse s) →
  load st' (slab_free_list s) = load st (slab_free_list s) → (∀ o, o ∈ fl → load st' o = load st o) →
  slab_ok st' sz s fl.
Proof.
  intros [Hp Ht Hi Hin Hc Hnd Ho] E1 E2 E3 E4. split; rewrite ?E1, ?E2, ?E3; try done.
  eapply chain_ext; [|done]. intros o Hof. f_equal. by apply E4.
Qed.

(** Writes to the words of an object in use, as a constructor does. *)
Lemma local_write_ok st st' c Lp Lf fl al s o :
  let sz := obj_size (cache_at st c) in
  cache_wf st c Lp Lf fl al → s ∈ Lp ++ Lf → object sz s o → o ∉ fl s →
  pages st' = pages st → all_caches st' = all_caches st → (∀ a, a < o ∨ o + sz ≤ a → load st' a = load st a) →
  cache_wf st' c Lp Lf fl al ∧ cache_only c (Lp ++ Lf) st st' ∧
  (∀ o' a, live (Lp ++ Lf) fl sz o' → o' ≠ o → o' ≤ a < o' + sz → load st' a = load st a).
Proof.
  intros sz Hwf Hs Ho Hn Hpg Hcs Hmem. pose proof (cw_size _ _ _ _ _ _ Hwf) as Hsz. fold sz in Hsz.
  assert (∀ k, cache_at st' k = cache_at st k) as Ec by (intros k; unfold cache_at; by rewrite Hcs).
  pose proof (wf_slab_page _ _ _ _ _ _ s Hwf Hs) as Hsp. pose proof (object_range sz s o Hsz Ho) as Hr.
  assert (∀ a, ¬ in_page s a → load st' a = load st a) as Hout.
  { intros a Ha. apply Hmem. unfold in_page, SLAB_SIZE, PAGE_SIZE in Ha. lia. }
  assert (∀ x a, x ∈ Lp ++ Lf → in_page x a → x ≠ s → load st' a = load st a) as Hother.
  { intros x a Hx Ha Hne. apply Hout. intros Ha'. apply Hne. eapply pages_apart; [|done..]. by eapply wf_slab_page. }
  assert (∀ x, x ∈ Lp ++ Lf → load st' x = load st x) as Hnext.
  { intros x Hx. destruct (decide (x = s)) as [->|Hne]; [apply Hmem; lia|].
    apply (Hother x); [done| |done]. apply slab_head. by eapply wf_slab_page. }
  split; [|split].
  - split; rewrite ?Ec, ?Hpg; try apply Hwf.
    + eapply chain_slabs; [|apply Hwf]. intros x Hx. apply Hnext. set_solver.
    + eapply chain_slabs; [|apply Hwf]. intros x Hx. apply Hnext. set_solver.
    + intros x Hx. pose proof (cw_slab _ _ _ _ _ _ Hwf x Hx) as Hok. fold sz in Hok |- *.
      destruct (decide (x = s)) as [->|Hne]; [|eapply slab_ok_ext; [done| |done]; intros a Ha; by apply (Hother x)].
      eapply slab_ok_words; [done|apply Hmem; unfold slab_total; lia|apply Hmem; unfold slab_inuse; lia|apply Hmem; unfold slab_free_list; lia|].
      intros y Hy. apply Hmem. assert (y ≠ o) as Hyo by (intros ->; done).
      destruct (object_disjoint sz s y o Hsz (so_objects _ _ _ _ Hok y Hy) Ho Hyo); destruct Hsz; lia.
  - split; [|intros k _; apply Ec|by rewrite Ec]. intros a Ha. by apply Hout, Ha.
  - intros o' a (x & Hx & Ho' & _) Hne Ha. destruct (decide (x = s)) as [->|Hxs].
    + apply Hmem. destruct (object_disjoint sz s o' o Hsz Ho' Ho Hne); lia.
    + apply (Hother x); [done| |done]. by eapply object_in_page.
Qed.

Lemma take_object_words c s st :
  let st' := take_object c s st in
  (∀ a, a ≠ s + 4 → a ≠ s + 8 → load st' a = load st a) ∧
  load st' (slab_free_list s) = load st (load st (slab_free_list s)) ∧
  load st' (slab_inuse s) = u32 (load st (slab_inuse s) + 1) ∧
  pages st' = pages st ∧ (∀ k, k ≠ c → cache_at st' k = cache_at st k) ∧
  cache_at st' c = (cache_at st c)⟦num_active ::= fun n => u32 (n + 1)⟧.
Proof.
  unfold take_object, slab_free_list, slab_inuse. cbv zeta. set (st1 := store (s + 4) _ st).
  set (st2 := store (s + 8) _ st1).
  assert (∀ a, load (upd_cache c (fun k => k⟦num_active ::= fun n => u32 (n + 1)⟧) st2) a =
    if decide (s + 8 = a) then u32 (load st1 (s + 8) + 1) else if decide (s + 4 = a) then load st (load st (s + 4)) else load st a) as E.
  { intros a. change (load st2 a = if decide (s + 8 = a) then u32 (load st1 (s + 8) + 1) else
      if decide (s + 4 = a) then load st (load st (s + 4)) else load st a). subst st2. rewrite load_store. case_decide; [done|].
    subst st1. by rewrite load_store. }
  split; [|split; [|split; [|split; [done|split]]]].
  - intros a H1 H2. by rewrite E, !decide_False by lia.
  - by rewrite E, decide_False, decide_True by lia.
  - rewrite E, decide_True by done. subst st1. by rewrite load_store, decide_False by lia.
  - intros k Hk. by rewrite cache_at_upd, decide_False by done.
  - by rewrite cache_at_upd, decide_True.
Qed.

Lemma so_free_head st sz s fl : slab_ok st sz s fl → size_ok sz →
  match fl with [] => load st (slab_free_list s) = 0 | o :: _ => load st (slab_free_list s) = o ∧ o ≠ 0 end.
Proof.
  intros Hok Hsz. pose proof (chain_head _ _ _ (so_chain _ _ _ _ Hok)) as Hh. destruct fl; [done|]. destruct Hh as [-> ?]. done.
Qed.

(** The slab without its first free object. *)
Lemma take_slab_ok st c sz s o fl :
  size_ok sz → slab_ok st sz s (o :: fl) → slab_ok (take_object c s st) sz s fl.
Proof.
  intros Hsz Hok. destruct (take_object_words c s st) as (Hm & Hf & Hi & _).
  destruct (so_free_head _ _ _ _ Hok Hsz) as [Eh _]. destruct Hok as [Hp Ht Hin Hnn Hc Hnd Ho].
  cbn [chain] in Hc. destruct Hc as [_ Hc]. apply NoDup_cons in Hnd as [Hof Hnd]. cbn [length] in Hin.
  assert (∀ y, y ∈ o :: fl → load (take_object c s st) y = load st y) as Hobj.
  { intros y Hy. pose proof (object_range sz s y Hsz (Ho y Hy)). apply Hm; lia. }
  destruct (capacity_pos sz Hsz) as [_ Hcap]. assert (slab_capacity sz ≤ 1020) as Hcap'.
  { destruct Hsz as [_ Hs]. unfold SLAB_SIZE, SLAB_HEADER, PAGE_SIZE in *. nia. }
  split; [done|rewrite Hm by (unfold slab_total; lia); done|..]; rewrite ?Hi, ?Hf, ?Eh.
  - rewrite u32_small by lia. lia.
  - rewrite u32_small by lia. lia.
  - eapply chain_ext; [|exact Hc]. intros y Hy. f_equal. apply Hobj. set_solver.
  - done.
  - intros y Hy. apply Ho. set_solver.
Qed.

(** The cache after an object is taken, while its slab still is in the partial
    list. *)
Lemma take_cache st c s Lp Lf fl al o rest :
  let sz := obj_size (cache_at st c) in
  let st' := take_object c s st in
  let fl' := set_fl fl s rest in
  cache_wf st c (s :: Lp) Lf fl al → fl s = o :: rest →
  (∀ x, x ∈ (s :: Lp) ++ Lf → slab_ok st' sz x (fl' x)) ∧ (∀ x, x ∈ (s :: Lp) ++ Lf → load st' x = load st x) ∧
  cache_only c ((s :: Lp) ++ Lf) st st' ∧
  (∀ o' a, live ((s :: Lp) ++ Lf) fl sz o' → o' ≤ a < o' + sz → load st' a = load st a).
Proof.
  intros sz st' fl' Hwf Hfl. pose proof (cw_size _ _ _ _ _ _ Hwf) as Hsz. fold sz in Hsz.
  destruct (take_object_words c s st) as (Hm & _ & _ & _ & Hother & Hc). fold st' in Hm, Hother, Hc.
  pose proof (wf_slab_page _ _ _ _ _ _ s Hwf ltac:(set_solver)) as Hsp.
  assert (∀ x a, x ∈ (s :: Lp) ++ Lf → in_page x a → x ≠ s → load st' a = load st a) as Hpage.
  { intros x a Hx Ha Hne. assert (¬ in_page s a) as Hn.
    { intros Ha'. apply Hne. eapply pages_apart; [|done..]. by eapply wf_slab_page. }
    unfold in_page, SLAB_SIZE, PAGE_SIZE in Hn. apply Hm; lia. }
  split; [|split; [|split]].
  - intros x Hx. pose proof (cw_slab _ _ _ _ _ _ Hwf x Hx) as Hok. fold sz in Hok. subst fl'.
    destruct (decide (x = s)) as [->|Hne].
    + rewrite set_fl_eq. rewrite Hfl in Hok. by apply (take_slab_ok _ _ _ _ o).
    + rewrite set_fl_ne by done. eapply slab_ok_ext; [done| |done]. intros a Ha. by apply (Hpage x).
  - intros x Hx. destruct (decide (x = s)) as [->|Hne]; [apply Hm; lia|].
    apply (Hpage x); [done| |done]. apply slab_head. by eapply wf_slab_page.
  - split; [|done|by rewrite Hc]. intros a Ha. specialize (Ha s ltac:(set_solver)). unfold in_page, SLAB_SIZE, PAGE_SIZE in Ha.
    apply Hm; lia.
  - intros o' a (x & Hx & Ho' & _) Ha. destruct (decide (x = s)) as [->|Hne].
    + pose proof (object_range sz s o' Hsz Ho'). apply Hm; lia.
    + apply (Hpage x); [done| |done]. by eapply object_in_page.
Qed.

Lemma live_set_fl L fl s sz o rest x :
  NoDup L → s ∈ L → size_ok sz → (∀ x, x ∈ L → slab_page x) → fl s = o :: rest → NoDup (o :: rest) → object sz s o →
  live L (set_fl fl s rest) sz x ↔ live L fl sz x ∨ x = o.
Proof.
  intros Hnd Hs Hsz Hpg Hfl Hnd' Ho. apply NoDup_cons in Hnd' as [Hof _]. split.
  - intros (y & Hy & Hxo & Hn). destruct (decide (y = s)) as [->|Hne].
    + rewrite set_fl_eq in Hn. destruct (decide (x = o)) as [|Hxo']; [by right|left]. exists s. rewrite Hfl. set_solver.
    + rewrite set_fl_ne in Hn by done. left. by exists y.
  - intros [(y & Hy & Hxo & Hn)| ->].
    + exists y. split; [done|]. split; [done|]. destruct (decide (y = s)) as [->|Hne]; [|by rewrite set_fl_ne].
      rewrite set_fl_eq. rewrite Hfl in Hn. set_solver.
    + exists s. by rewrite set_fl_eq.
Qed.

(** Moving the head of the partial list to the full list. *)
Lemma move_to_full_head st c s :
  slabs_partial (cache_at st c) = s →
  ∃ st', move_to_full c s st = Some st' ∧ pages st' = pages st ∧
    (∀ a, load st' a = if decide (s = a) then slabs_full (cache_at st c) else load st a) ∧
    (∀ k, k ≠ c → cache_at st' k = cache_at st k) ∧
    cache_at st' c = (cache_at st c)⟦slabs_partial := load st s⟧⟦slabs_full := s⟧.
Proof.
  intros Hs. unfold move_to_full. rewrite Hs, Z.eqb_refl. cbn [mbind option_bind]. set (st2 := upd_cache c _ st).
  assert (cache_at st2 c = (cache_at st c)⟦slabs_partial := load st s⟧) as E2 by (subst st2; by rewrite cache_at_upd, decide_True).
  rewrite E2. eexists. split; [reflexivity|]. split; [done|]. split; [|split].
  - intros a. change (load st a) with (load st2 a). apply load_store.
  - intros k Hk. rewrite cache_at_upd, decide_False by done. change (cache_at st2 k = cache_at st k). subst st2.
    by rewrite cache_at_upd, decide_False.
  - rewrite cache_at_upd, decide_True by done. change (cache_at (store _ _ st2) c) with (cache_at st2 c). by rewrite E2.
Qed.

Lemma not_base x s d : slab_page x → slab_page s → 0 < d < 4096 → s ≠ x + d.
Proof. intros (p & -> & _)%page_addr (q & -> & _)%page_addr. lia. Qed.

(** A slab does not notice a change of the link of any slab. *)
Lemma slab_ok_next st st' sz x fl s :
  size_ok sz → slab_page s → slab_ok st sz x fl → (∀ a, s ≠ a → load st' a = load st a) → slab_ok st' sz x fl.
Proof.
  intros Hsz Hs Hok Hm. pose proof (so_page _ _ _ _ Hok) as Hx.
  eapply slab_ok_words; [done|..]; [apply Hm; unfold slab_total, slab_inuse, slab_free_list; apply not_base; done || lia..|].
  intros o Ho. apply Hm. pose proof (object_range sz x o Hsz (so_objects _ _ _ _ Hok o Ho)).
  replace o with (x + (o - x)) by lia. apply not_base; [done|done|]. destruct Hsz. lia.
Qed.

(** What a step does with the lists of the cache. *)
Record settled (st st1 st2 : slab_state) (c s : Z) (L : list Z) (fl' : Z → list Z) (al : gmap Z Z) : Prop := {
  se_wf : ∃ Lp2 Lf2, cache_wf st2 c Lp2 Lf2 fl' al ∧ ∀ x, x ∈ Lp2 ++ Lf2 ↔ x ∈ L;
  se_mem a : s ≠ a → load st2 a = load st1 a;
  se_other k : k ≠ c → cache_at st2 k = cache_at st1 k;
  se_size : obj_size (cache_at st2 c) = obj_size (cache_at st c);
  se_ctor : ctor (cache_at st2 c) = ctor (cache_at st c);
  se_active : num_active (cache_at st2 c) = u32 (num_active (cache_at st c) + 1);
}.

Lemma settle_partial st c s Lp Lf fl al o o2 rest :
  cache_wf st c (s :: Lp) Lf fl al → fl s = o :: o2 :: rest →
  settled st (take_object c s st) (take_object c s st) c s ((s :: Lp) ++ Lf) (set_fl fl s (o2 :: rest)) al.
Proof.
  intros Hwf Hfl. destruct (take_cache st c s Lp Lf fl al o _ Hwf Hfl) as (Hslab & Hnext & _ & _).
  destruct (take_object_words c s st) as (_ & _ & _ & Hpg & _ & Hc). set (st1 := take_object c s st) in *.
  split; try done; [|by rewrite Hc..]. exists (s :: Lp), Lf. split; [|done]. split; rewrite ?Hc; try apply Hwf.
  - eapply chain_slabs; [|apply Hwf]. intros x Hx. apply Hnext. set_solver.
  - eapply chain_slabs; [|apply Hwf]. intros x Hx. apply Hnext. set_solver.
  - done.
  - intros x Hx. destruct (decide (x = s)) as [->|Hne]; [by rewrite set_fl_eq|]. rewrite set_fl_ne by done.
    by apply (cw_room _ _ _ _ _ _ Hwf).
Qed.

Lemma settle_full st c s Lp Lf fl al o :
  cache_wf st c (s :: Lp) Lf fl al → fl s = [o] →
  ∃ st2, move_to_full c s (take_object c s st) = Some st2 ∧
    settled st (take_object c s st) st2 c s ((s :: Lp) ++ Lf) (set_fl fl s []) al.
Proof.
  intros Hwf Hfl. destruct (take_cache st c s Lp Lf fl al o _ Hwf Hfl) as (Hslab & Hnext & _ & _).
  destruct (take_object_words c s st) as (_ & _ & _ & Hpg & _ & Hc). set (st1 := take_object c s st) in *.
  destruct (chain_head _ _ _ (cw_partial _ _ _ _ _ _ Hwf)) as [Ep Hs0]. rewrite Ep in Hs0.
  destruct (move_to_full_head st1 c s) as (st2 & E & Hpg2 & Hm & Hother & Hc2); [by rewrite Hc|].
  pose proof (cw_nodup _ _ _ _ _ _ Hwf) as Hnd. cbn [app] in Hnd. apply NoDup_cons in Hnd as [HsL Hnd].
  pose proof (cw_partial _ _ _ _ _ _ Hwf) as Hcp. cbn [chain] in Hcp. destruct Hcp as [_ Hcp].
  assert (∀ x, x ∈ Lp ++ Lf → load st2 x = load st x) as Hn2.
  { intros x Hx. rewrite Hm, decide_False by (intros ->; done). apply Hnext. set_solver. }
  exists st2. split; [done|]. split; try (rewrite Hc2, Hc; done); [|by intros a Ha; rewrite Hm, decide_False|done].
  exists Lp, (s :: Lf). split; [|intros x; set_solver]. rewrite Hc in Hc2, Hm.
  split; rewrite ?Hc2; try apply Hwf.
  - rewrite Hpg2, Hpg. apply Hwf.
  - cbn [slabs_partial modify_field]. rewrite (Hnext s) by set_solver. eapply chain_slabs; [|exact Hcp]. intros x Hx. apply Hn2. set_solver.
  - split; [by apply as_ptr_nz|]. change ((smem st2).[s]) with (load st2 s). rewrite Hm, decide_True by done.
    eapply chain_slabs; [|apply Hwf]. intros x Hx. apply Hn2. set_solver.
  - rewrite <- Permutation_middle. by apply NoDup_cons.
  - intros x i Hx. apply (cw_owned _ _ _ _ _ _ Hwf). set_solver.
  - intros x Hx. eapply (slab_ok_next st1 st2 _ x _ s); [apply Hwf|apply (wf_slab_page _ _ _ _ _ _ s Hwf); set_solver|apply Hslab; set_solver|].
    intros a Ha. by rewrite Hm, decide_False.
  - intros x Hx. rewrite set_fl_ne by set_solver. apply (cw_room _ _ _ _ _ _ Hwf). set_solver.
Qed.

Lemma live_mem L L' fl sz o : (∀ x, x ∈ L ↔ x ∈ L') → live L fl sz o ↔ live L' fl sz o.
Proof. intros HL. split; intros (s & Hs & Ho); exists s; (split; [by apply HL|done]). Qed.

(** Distinct objects of a cache do not overlap. *)
Lemma objects_disjoint sz s x o o' :
  size_ok sz → slab_page s → slab_page x → object sz s o → object sz x o' → o ≠ o' → o' + sz ≤ o ∨ o + sz ≤ o'.
Proof.
  intros Hsz Hs Hx Ho Ho' Hne. destruct (decide (s = x)) as [->|Hsx].
  - destruct (object_disjoint sz x o o' Hsz Ho Ho' Hne); lia.
  - pose proof (object_range sz s o Hsz Ho). pose proof (object_range sz x o' Hsz Ho').
    destruct (page_addr s Hs) as (p & -> & _). destruct (page_addr x Hx) as (q & -> & _).
    assert (p ≠ q) as Hpq by (by intros ->). assert (p < q ∨ q < p) as [|] by lia; [right|left]; lia.
Qed.

(** The effect of taking the first free object of the slab [s]. *)
Lemma settle_ok st c s Lp Lf fl al o rest :
  let sz := obj_size (cache_at st c) in
  let st1 := take_object c s st in
  cache_wf st c (s :: Lp) Lf fl al → fl s = o :: rest →
  ∃ st2, (if load st1 (slab_inuse s) =? load st1 (slab_total s) then move_to_full c s st1 else Some st1) = Some st2 ∧
    settled st st1 st2 c s ((s :: Lp) ++ Lf) (set_fl fl s rest) al.
Proof.
  intros sz st1 Hwf Hfl. destruct (take_cache st c s Lp Lf fl al o rest Hwf Hfl) as (Hslab & _ & _ & _).
  pose proof (Hslab s ltac:(set_solver)) as Hs. fold sz st1 in Hs. rewrite set_fl_eq in Hs. destruct Hs as [_ Ht Hi _ _ _ _].
  destruct rest as [|o2 rest]; cbn [length] in Hi.
  - rewrite (proj2 (Z.eqb_eq _ _)) by lia. by eapply settle_full.
  - rewrite (proj2 (Z.eqb_neq _ _)) by lia. exists st1. split; [done|]. by eapply settle_partial.
Qed.

Lemma settled_only st st2 c s Lp Lf fl al o rest :
  let L := (s :: Lp) ++ Lf in
  cache_wf st c (s :: Lp) Lf fl al → fl s = o :: rest → settled st (take_object c s st) st2 c s L (set_fl fl s rest) al →
  cache_only c L st st2 ∧ objects_kept (obj_size (cache_at st c)) L fl st st2.
Proof.
  intros L Hwf Hfl Hse. destruct (take_cache st c s Lp Lf fl al o rest Hwf Hfl) as (_ & _ & Hco & Hkeep).
  pose proof (wf_slab_page _ _ _ _ _ _ s Hwf ltac:(set_solver)) as Hsp. split.
  - eapply cache_only_trans; [exact Hco|]. split.
    + intros a Ha. apply (se_mem _ _ _ _ _ _ _ _ Hse). intros <-. apply (Ha s); [set_solver|]. by apply slab_head.
    + apply Hse.
    + rewrite (se_size _ _ _ _ _ _ _ _ Hse). symmetry. apply Hco.
  - intros x a Hx Ha. rewrite (se_mem _ _ _ _ _ _ _ _ Hse); [by eapply Hkeep|]. intros <-.
    destruct Hx as (y & Hy & Hxo & _). pose proof (object_range _ _ _ (cw_size _ _ _ _ _ _ Hwf) Hxo).
    pose proof (wf_slab_page _ _ _ _ _ _ y Hwf Hy) as Hyp.
    assert (s ≠ y + (s - y)) as Hn by (apply not_base; [done|done|]; destruct (cw_size _ _ _ _ _ _ Hwf); lia). lia.
Qed.

(** The constructor runs on the new object. *)
Lemma construct_ok st c Lp Lf fl al s o :
  let sz := obj_size (cache_at st c) in
  let st' := match ctor (cache_at st c) with Some f => st⟦smem ::= f o⟧ | None => st end in
  cache_wf st c Lp Lf fl al → s ∈ Lp ++ Lf → object sz s o → o ∉ fl s →
  cache_wf st' c Lp Lf fl al ∧ cache_only c (Lp ++ Lf) st st' ∧ num_active (cache_at st' c) = num_active (cache_at st c) ∧
  (∀ o' a, live (Lp ++ Lf) fl sz o' → o' ≠ o → o' ≤ a < o' + sz → load st' a = load st a).
Proof.
  intros sz st' Hwf Hs Ho Hn. destruct (ctor (cache_at st c)) as [f|] eqn:Ef.
  - destruct (local_write_ok st st' c Lp Lf fl al s o Hwf Hs Ho Hn) as (H1 & H2 & H3); try done.
    intros a Ha. by apply (cw_ctor _ _ _ _ _ _ Hwf f Ef).
  - split; [done|]. split; [apply cache_only_refl|]. done.
Qed.

Lemma kmem_cache_alloc_ok st c Lp Lf fl al :
  cache_wf st c Lp Lf fl al →
  let sz := obj_size (cache_at st c) in
  (kmem_cache_alloc c st = Some (0, st) ∧ Lp = [] ∧ no_page al) ∨
  (∃ o st' Lp' Lf' fl' al', kmem_cache_alloc c st = Some (o, st') ∧ o ≠ 0 ∧ o mod 4 = 0 ∧
     cache_wf st' c Lp' Lf' fl' al' ∧ (∀ x, live (Lp' ++ Lf') fl' sz x ↔ live (Lp ++ Lf) fl sz x ∨ x = o) ∧
     (∀ x, live (Lp ++ Lf) fl sz x → x + sz ≤ o ∨ o + sz ≤ x) ∧
     cache_only c (Lp' ++ Lf') st st' ∧ objects_kept sz (Lp ++ Lf) fl st st' ∧
     num_active (cache_at st' c) = u32 (num_active (cache_at st c) + 1) ∧
     grown (Lp ++ Lf) al (Lp' ++ Lf') al').
Proof.
  intros Hwf sz. unfold kmem_cache_alloc. pose proof (cw_size _ _ _ _ _ _ Hwf) as Hsz. fold sz in Hsz.
  destruct (choose_slab_ok st c Lp Lf fl al Hwf) as [(-> & Hp & Hno)|(s & st1 & Lp1 & fl1 & al1 & -> & Hs0 & Hwf1 & Hco1 & Hlive1 & Hkeep1 & Hact1 & Hgr)]; [by left|].
  right. fold sz in Hlive1, Hkeep1. cbv beta iota. rewrite (proj2 (Z.eqb_neq _ _) Hs0).
  assert (obj_size (cache_at st1 c) = sz) as Esz by apply Hco1.
  assert (s ∈ (s :: Lp1) ++ Lf) as HsL by set_solver. pose proof (fun y => wf_slab_page _ _ _ _ _ _ y Hwf1) as Hpage.
  pose proof (cw_slab _ _ _ _ _ _ Hwf1 s HsL) as Hslab. rewrite Esz in Hslab.
  destruct (fl1 s) as [|o rest] eqn:Hfl; [by destruct (cw_room _ _ _ _ _ _ Hwf1 s ltac:(set_solver))|].
  destruct (so_free_head _ _ _ _ Hslab Hsz) as [Eo Ho0]. rewrite Eo, (proj2 (Z.eqb_neq _ _) Ho0).
  pose proof (so_objects _ _ _ _ Hslab o ltac:(set_solver)) as Hobj.
  destruct (settle_ok st1 c s Lp1 Lf fl1 al1 o rest Hwf1 Hfl) as (st2 & -> & Hse). cbn [mbind option_bind].
  destruct (settled_only st1 st2 c s Lp1 Lf fl1 al1 o rest Hwf1 Hfl Hse) as [Hco2 Hkeep2].
  pose proof Hse as [(Lp2 & Lf2 & Hwf2 & HL) _ _ Es2 _ Hact2]. rewrite Esz in Es2, Hkeep2.
  assert (o ∉ set_fl fl1 s rest s) as Hon.
  { rewrite set_fl_eq. pose proof (so_nodup _ _ _ _ Hslab) as Hnd. by apply NoDup_cons in Hnd as [? _]. }
  destruct (construct_ok st2 c Lp2 Lf2 (set_fl fl1 s rest) al1 s o) as (Hwf3 & Hco3 & Hact3 & Hkeep3);
    [done|by apply HL|by rewrite Es2|done|]. rewrite Es2 in Hkeep3. set (st3 := match ctor (cache_at st2 c) with Some _ => _ | None => _ end) in *.
  assert (∀ x, live (Lp2 ++ Lf2) (set_fl fl1 s rest) sz x ↔ live (Lp ++ Lf) fl sz x ∨ x = o) as Hlive.
  { intros x. rewrite (live_mem _ ((s :: Lp1) ++ Lf)), <- Hlive1 by done. apply live_set_fl; try done.
    - apply Hwf1.
    - apply (so_nodup _ _ _ _ Hslab). }
  assert (¬ live (Lp ++ Lf) fl sz o) as Hnl.
  { rewrite <- Hlive1. intros (y & Hy & Hyo & Hn). assert (y = s) as -> by (erewrite <- (object_slab sz y o), <- (object_slab sz s o); try done; by apply Hpage).
    rewrite Hfl in Hn. set_solver. }
  exists o, st3, Lp2, Lf2, (set_fl fl1 s rest), al1. split; [done|]. split; [done|].
  split; [by apply (object_aligned sz s); [|apply Hpage|]|]. split; [done|]. split; [done|]. split; [|split; [|split; [|split]]].
  - intros x Hx. assert (x ≠ o) as Hxo by (by intros ->). apply Hlive1 in Hx as (y & Hy & Hyx & _).
    apply (objects_disjoint sz s y o x); try done; by apply Hpage || congruence.
  - eapply cache_only_trans; [|exact Hco3]. eapply cache_only_trans.
    + destruct Hco1 as [H1 H2 H3]. split; [|done|done]. intros a Ha. apply H1. intros y Hy. by apply Ha, HL.
    + destruct Hco2 as [H1 H2 H3]. split; [|done|done]. intros a Ha. apply H1. intros y Hy. by apply Ha, HL.
  - intros x a Hx Ha. assert (x ≠ o) as Hxo by (by intros ->). rewrite (Hkeep3 x a), (Hkeep2 x a), (Hkeep1 x a); try done.
    + by apply Hlive1.
    + apply Hlive. by left.
  - by rewrite Hact3, Hact2, Hact1.
  - destruct Hgr as [[E Hin]|(i & Hi & Hfree & E & Hin)]; [left|right; exists i]; repeat (split; [done|]);
      intros x Hx; by apply Hin, HL.
Qed.


(** ** Release *)

(** The writes of [kmem_cache_free] after the destructor. *)
Lemma free_words st c s o :
  let st1 := store o (load st (slab_free_list s)) st in
  let st2 := store (slab_free_list s) o st1 in
  let st3 := store (slab_inuse s) (u32 (load st2 (slab_inuse s) - 1)) st2 in
  let st' := upd_cache c (fun k => k⟦num_active ::= fun n => u32 (n - 1)⟧) st3 in
  s + 16 ≤ o →
  load st' o = load st (slab_free_list s) ∧ load st' (slab_free_list s) = o ∧
  load st' (slab_inuse s) = u32 (load st (slab_inuse s) - 1) ∧
  (∀ a, a ≠ o → a ≠ s + 4 → a ≠ s + 8 → load st' a = load st a).
Proof.
  intros st1 st2 st3 st' Ho. unfold slab_free_list, slab_inuse in *.
  assert (∀ a, load st' a = if decide (s + 8 = a) then u32 (load st (s + 8) - 1) else if decide (s + 4 = a) then o
    else if decide (o = a) then load st (s + 4) else load st a) as E.
  { intros a. change (load st' a) with (load st3 a). subst st3. rewrite load_store. subst st2. rewrite !load_store.
    subst st1. rewrite !load_store. repeat case_decide; done || lia. }
  split; [|split; [|split]]; intros; rewrite E; repeat case_decide; done || lia.
Qed.

Lemma live_slab L fl sz o s :
  size_ok sz → (∀ x, x ∈ L → slab_page x) → live L fl sz o → s = andn32 o (SLAB_SIZE - 1) →
  s ∈ L ∧ object sz s o ∧ o ∉ fl s.
Proof. intros Hsz Hpg (x & Hx & Ho & Hn) ->. rewrite (object_slab sz x o) by auto. done. Qed.

Lemma capacity_bound sz : size_ok sz → slab_capacity sz ≤ 1020.
Proof.
  intros Hsz. destruct (capacity_pos sz Hsz) as [_ Hc]. destruct Hsz as [_ Hs]. unfold SLAB_SIZE, SLAB_HEADER, PAGE_SIZE in *. nia.
Qed.

(** A slab with an object in use has a free list shorter than its capacity. *)
Lemma free_list_short sz s o fl :
  size_ok sz → NoDup fl → (∀ y, y ∈ fl → object sz s y) → object sz s o → o ∉ fl → Z.of_nat (length fl) < slab_capacity sz.
Proof.
  intros Hsz Hnd Hfl Ho Hn. assert (o :: fl ⊆+ all_objects sz s) as Hsub.
  { apply NoDup_submseteq; [by apply NoDup_cons|]. intros y [->|Hy]%elem_of_cons; apply elem_all_objects; auto. }
  apply submseteq_length in Hsub. unfold all_objects in Hsub. rewrite length_fmap, length_seqZ in Hsub. cbn [length] in Hsub.
  destruct (capacity_pos sz Hsz). lia.
Qed.

(** The memory after an object is linked back into its slab. *)
Record relinked (st st' : slab_state) (s o : Z) : Prop := {
  rl_obj : load st' o = load st (slab_free_list s);
  rl_head : load st' (slab_free_list s) = o;
  rl_inuse : load st' (slab_inuse s) = u32 (load st (slab_inuse s) - 1);
  rl_mem a : a ≠ o → a ≠ s + 4 → a ≠ s + 8 → load st' a = load st a;
}.

Lemma release_slab_ok st st' sz s o fl :
  size_ok sz → slab_ok st sz s fl → object sz s o → o ∉ fl → relinked st st' s o → slab_ok st' sz s (o :: fl).
Proof.
  intros Hsz [Q1 Q2 Q3 Q4 Q5 Q6 Q7] Ho Hn [Eo Ef Ei Hm]. pose proof (object_range sz s o Hsz Ho) as Hr.
  pose proof (free_list_short sz s o fl Hsz Q6 Q7 Ho Hn). pose proof (capacity_bound sz Hsz).
  split; rewrite ?Ei, ?Ef; try done.
  - rewrite Hm by (unfold slab_total; lia). done.
  - rewrite u32_small by lia. cbn [length]. lia.
  - rewrite u32_small by lia. lia.
  - split; [apply as_ptr_nz; destruct (page_addr s Q1) as (p & -> & ?); lia|]. change ((smem st').[o]) with (load st' o).
    rewrite Eo. eapply chain_ext; [|exact Q5]. intros y Hy. f_equal. pose proof (object_range sz s y Hsz (Q7 y Hy)).
    apply Hm; [by intros ->|lia|lia].
  - by apply NoDup_cons.
  - intros y [->|Hy]%elem_of_cons; auto.
Qed.

Lemma release_ok st st' c Lp Lf fl al s o :
  let sz := obj_size (cache_at st c) in
  cache_wf st c Lp Lf fl al → s ∈ Lp ++ Lf → object sz s o → o ∉ fl s → relinked st st' s o →
  pages st' = pages st → (∃ n, cache_at st' c = (cache_at st c)⟦num_active := n⟧) →
  cache_wf st' c Lp Lf (set_fl fl s (o :: fl s)) al.
Proof.
  intros sz Hwf Hs Ho Hn Hrl Hpg [n Hc]. pose proof (cw_size _ _ _ _ _ _ Hwf) as Hsz. fold sz in Hsz.
  pose proof (fun y => wf_slab_page _ _ _ _ _ _ y Hwf) as Hpage. pose proof (object_range sz s o Hsz Ho) as Hr.
  assert (∀ x a, x ∈ Lp ++ Lf → in_page x a → x ≠ s → load st' a = load st a) as Hother.
  { intros x a Hx Ha Hne. assert (¬ in_page s a) as Hns by (intros Hp; by apply Hne, (pages_apart x s a); auto).
    unfold in_page, SLAB_SIZE, PAGE_SIZE in Hns. destruct Hsz. apply (rl_mem _ _ _ _ Hrl); lia. }
  assert (∀ x, x ∈ Lp ++ Lf → load st' x = load st x) as Hnext.
  { intros x Hx. destruct (decide (x = s)) as [->|Hne]; [apply (rl_mem _ _ _ _ Hrl); lia|].
    apply (Hother x); [done|by apply slab_head, Hpage|done]. }
  split; rewrite ?Hc, ?Hpg; try apply Hwf.
  - eapply chain_slabs; [|apply Hwf]. intros x Hx. apply Hnext. set_solver.
  - eapply chain_slabs; [|apply Hwf]. intros x Hx. apply Hnext. set_solver.
  - intros x Hx. change (obj_size _) with sz. pose proof (cw_slab _ _ _ _ _ _ Hwf x Hx) as Hok. fold sz in Hok.
    destruct (decide (x = s)) as [->|Hne]; [rewrite set_fl_eq; by eapply release_slab_ok|].
    rewrite set_fl_ne by done. eapply slab_ok_ext; [done| |done]. intros a Ha. by apply (Hother x).
  - intros x Hx. destruct (decide (x = s)) as [->|Hne]; [by rewrite set_fl_eq|]. rewrite set_fl_ne by done.
    by apply (cw_room _ _ _ _ _ _ Hwf).
Qed.

Lemma header_apart s y a d :
  slab_page s → slab_page y → y + 16 ≤ a < y + 4096 → 0 ≤ d < 16 → a ≠ s + d.
Proof. intros (p & -> & _)%page_addr (q & -> & _)%page_addr. lia. Qed.

(** [kmem_cache_free] of an object in use makes it, and no other object,
    available again in its slab; the cache stays well formed and no word of
    another object in use, of another cache or of a page of somebody else is
    changed. *)
Theorem kmem_cache_free_spec st c Lp Lf fl al o :
  let sz := obj_size (cache_at st c) in
  cache_wf st c Lp Lf fl al → live (Lp ++ Lf) fl sz o →
  ∃ fl', let st' := kmem_cache_free c o st in
    cache_wf st' c Lp Lf fl' al ∧ (∀ x, live (Lp ++ Lf) fl' sz x ↔ live (Lp ++ Lf) fl sz x ∧ x ≠ o) ∧
    cache_only c (Lp ++ Lf) st st' ∧
    (∀ x a, live (Lp ++ Lf) fl sz x → x ≠ o → x ≤ a < x + sz → load st' a = load st a).
Proof.
  intros sz Hwf Hlive. pose proof (cw_size _ _ _ _ _ _ Hwf) as Hsz. fold sz in Hsz.
  pose proof (fun y => wf_slab_page _ _ _ _ _ _ y Hwf) as Hpage. set (s := andn32 o (SLAB_SIZE - 1)).
  destruct (live_slab _ _ sz o s Hsz Hpage Hlive eq_refl) as (Hs & Ho & Hn). pose proof (object_range sz s o Hsz Ho) as Hr.
  exists (set_fl fl s (o :: fl s)). unfold kmem_cache_free.
  assert (o ≠ 0) as Ho0 by (destruct (page_addr s (Hpage s Hs)) as (p & Es & ?); lia). rewrite (proj2 (Z.eqb_neq _ _) Ho0).
  set (st0 := match dtor (cache_at st c) with Some _ => _ | None => _ end).
  assert (all_caches st0 = all_caches st ∧ pages st0 = pages st ∧ ∀ a, a < o ∨ o + sz ≤ a → load st0 a = load st a) as (Hcs & Hpg & Hm0).
  { subst st0. destruct (dtor (cache_at st c)) as [f|] eqn:Ef; [|done]. split; [done|]. split; [done|].
    intros a Ha. by apply (cw_dtor _ _ _ _ _ _ Hwf f Ef). }
  destruct (local_write_ok st st0 c Lp Lf fl al s o Hwf Hs Ho Hn Hpg Hcs Hm0) as (Hwf0 & Hco0 & Hkeep0).
  clearbody st0. fold s. cbv zeta. set (st' := upd_cache c _ _).
  destruct (free_words st0 c s o) as (W1 & W2 & W3 & W4); [lia|]. fold st' in W1, W2, W3, W4.
  assert (cache_at st0 c = cache_at st c) as Ec by (unfold cache_at; by rewrite Hcs).
  split; [|split; [|split]].
  - eapply release_ok; [done|done|by rewrite Ec|done|done|done|]. eexists. subst st'. by rewrite cache_at_upd, decide_True.
  - intros x. split.
    + intros (y & Hy & Hxo & Hx). destruct (decide (y = s)) as [->|Hne].
      * rewrite set_fl_eq in Hx. split; [exists s|]; set_solver.
      * rewrite set_fl_ne in Hx by done. split; [by exists y|]. intros ->. apply Hne. by rewrite <- (object_slab sz y o) by auto.
    + intros [(y & Hy & Hxo & Hx) Hne]. exists y. split; [done|]. split; [done|].
      destruct (decide (y = s)) as [->|]; [rewrite set_fl_eq; set_solver|by rewrite set_fl_ne].
  - eapply cache_only_trans; [exact Hco0|]. split.
    + intros a Ha. specialize (Ha s Hs). unfold in_page, SLAB_SIZE, PAGE_SIZE in Ha. destruct Hsz. apply W4; lia.
    + intros k Hk. subst st'. rewrite cache_at_upd, decide_False by done. done.
    + subst st'. by rewrite cache_at_upd, decide_True.
  - intros x a Hx Hne Ha. rewrite <- (Hkeep0 x a) by done. pose proof Hx as (y & Hy & Hxo & _).
    destruct (objects_disjoint sz s y o x Hsz (Hpage s Hs) (Hpage y Hy) Ho Hxo ltac:(congruence)) as [Hd|Hd];
      pose proof (object_range sz y x Hsz Hxo) as Hry; destruct Hsz;
      (apply W4; [lia|apply (header_apart s y); auto; lia|apply (header_apart s y); auto; lia]).
Qed.

(** ** A concrete cache *)

(** A cache of 64-byte objects without slabs. *)
Definition slab_demo : slab_state :=
  mk_slab_state {[ 0 := mk_cache [111; 98; 106] 64 4 0 0 0 0 0 0 0 None None ]} ∅ 1 true ∅ (buddy_init buddy_boot).

Lemma slab_demo_wf : cache_wf slab_demo 0 [] [] (fun _ => []) ∅.
Proof.
  assert (cache_at slab_demo 0 = mk_cache [111; 98; 106] 64 4 0 0 0 0 0 0 0 None None) as E by reflexivity.
  split; rewrite ?E; [apply buddy_init_inv|by vm_compute|reflexivity|reflexivity|reflexivity|constructor| | | |intros g [=]|intros g [=]];
    intros s; cbn [app]; intros; exfalso; by eapply not_elem_of_nil.
Qed.

Lemma slab_demo_pages : ¬ no_page ∅.
Proof. intros Hno. destruct (Hno 0 ltac:(by vm_compute)) as (j & o & Hj & _). by rewrite lookup_empty in Hj. Qed.


Lemma kmem_cache_free_witness :
  ∃ o st' Lp Lf fl al, kmem_cache_alloc 0 slab_demo = Some (o, st') ∧ cache_wf (kmem_cache_free 0 o st') 0 Lp Lf fl al ∧
    ∀ x, ¬ live (Lp ++ Lf) fl 64 x.
Proof.
  destruct (kmem_cache_alloc_ok slab_demo 0 [] [] (fun _ => []) ∅ slab_demo_wf)
    as [(_ & _ & Hno)|(o & st' & Lp' & Lf' & fl' & al' & E & _ & _ & Hwf & Hl & _ & Hco & _)]; [by destruct (slab_demo_pages Hno)|].
  pose proof (co_size _ _ _ _ Hco) as Esz. change (obj_size (cache_at slab_demo 0)) with 64 in Esz, Hl.
  destruct (kmem_cache_free_spec st' 0 Lp' Lf' fl' al' o Hwf) as (fl2 & Hwf2 & Hl2 & _).
  { rewrite Esz. apply Hl. right. reflexivity. }
  exists o, st', Lp', Lf', fl2, al'. split; [exact E|]. split; [exact Hwf2|]. intros x Hx. rewrite Esz in Hl2.
  apply Hl2 in Hx as [Hx Hne]. apply Hl in Hx as [(s & Hs & _)|Hx]; [exact (not_elem_of_nil _ Hs)|exact (Hne Hx)].
Defined.

(** ** Lost objects and overruns *)

(** [kmem_cache_free] leaves a slab in the full list, where [kmem_cache_alloc]
    never looks: with an empty partial list an allocation takes a new page,
    whatever is free in the full slabs. *)
Theorem full_slabs_not_reused st c Lf fl al o st' :
  cache_wf st c [] Lf fl al → kmem_cache_alloc c st = Some (o, st') → o ≠ 0 →
  ∀ s, s ∈ Lf → ¬ object (obj_size (cache_at st c)) s o.
Proof.
  intros Hwf E Ho0 s Hs Ho. pose proof (cw_size _ _ _ _ _ _ Hwf) as Hsz.
  pose proof (chain_head _ _ _ (cw_partial _ _ _ _ _ _ Hwf)) as Hp. cbn in Hp.
  unfold kmem_cache_alloc, choose_slab in E. rewrite Hp, (cw_free _ _ _ _ _ _ Hwf) in E. cbn [truth Z.eqb negb] in E.
  destruct (alloc_slab_ok st c al (cw_buddy _ _ _ _ _ _ Hwf) Hsz) as [[E1 _]|(i & st1 & E1 & Hnew)]; rewrite E1 in E.
  { cbn in E. congruence. }
  pose proof (page_to_addr_nz i (ns_index _ _ _ _ _ Hnew)) as Hnz. rewrite (proj2 (Z.eqb_neq _ _) Hnz) in E.
  destruct (choose_new st c Lf fl al i st1 Hwf Hnew) as (Hwf1 & Hco & _). cbv zeta in Hwf1, Hco.
  set (st2 := upd_cache c _ _) in *. clearbody st2. cbv beta iota in E. rewrite (proj2 (Z.eqb_neq _ _) Hnz) in E.
  pose proof (cw_slab _ _ _ _ _ _ Hwf1 (page_to_addr i) ltac:(set_solver)) as Hok. rewrite set_fl_eq in Hok.
  assert (size_ok (obj_size (cache_at st2 c))) as Hsz2 by apply Hwf1.
  pose proof (so_free_head _ _ _ _ Hok Hsz2) as Hh. destruct (all_objects _ _) as [|o1 rest] eqn:Eall; [by rewrite Hh in E; cbn in E; congruence|].
  destruct Hh as [Eh Hh0]. rewrite Eh, (proj2 (Z.eqb_neq _ _) Hh0) in E. apply bind_Some in E as (st3 & _ & E).
  assert (o = o1) as -> by congruence.
  assert (object (obj_size (cache_at st2 c)) (page_to_addr i) o1) as Ho1 by (apply (so_objects _ _ _ _ Hok); set_solver).
  assert (s = page_to_addr i) as ->.
  { transitivity (andn32 o1 (SLAB_SIZE - 1)); [symmetry|].
    - exact (object_slab _ s o1 Hsz (wf_slab_page _ _ _ _ _ _ s Hwf Hs) Ho).
    - exact (object_slab _ _ o1 Hsz2 (so_page _ _ _ _ Hok) Ho1). }
  pose proof (cw_owned _ _ _ _ _ _ Hwf _ i Hs (ns_index _ _ _ _ _ Hnew) eq_refl) as Hown.
  by rewrite (ns_fresh _ _ _ _ _ Hnew) in Hown.
Qed.

Lemma link_overrun st a n :
  (2 ≤ n)%nat → 0 ≤ a → a + 12288 < 2 ^ 32 →
  load (iter_up n 0 (fun i => store (u32 (a + i * 4096)) (u32 (a + (i + 1) * 4096))) st) (a + 4096) = a + 8192.
Proof.
  intros Hn Ha Hmax.
  pose proof (iter_up_inv (fun k t => 2 ≤ k → load t (a + 4096) = a + 8192)
    (fun i => store (u32 (a + i * 4096)) (u32 (a + (i + 1) * 4096))) n 0 st) as Hloop.
  rewrite Z.add_0_l in Hloop. apply Hloop; [lia| |lia]. intros k t Hk IH Hk2. rewrite load_store. case_decide as E.
  - unfold u32 in *. rewrite <- (Z.mod_small (a + 4096) (2 ^ 32)) in E by lia.
    replace (a + (k + 1) * 4096) with (a + k * 4096 + 4096) by lia. rewrite <- Z.add_mod_idemp_l, E, Z.add_mod_idemp_l by done.
    rewrite Z.mod_small by lia. lia.
  - apply IH. destruct (decide (k = 1)) as [->|]; [|lia]. destruct E. rewrite u32_small by lia. lia.
Qed.

Lemma wrapped_count : (2 ≤ Z.to_nat (u32 (0 - 1)))%nat.
Proof. apply (Nat2Z.inj_le 2). rewrite Z2Nat.id; by vm_compute. Qed.

(** The cache for 4096-byte objects has no room for an object behind the
    header of its slabs ([total] is 0): the link loop runs [2 ^ 32 - 1] times
    and writes through all of memory, here to the page after the slab. *)
Theorem slab_4096_overruns st c slab b :
  buddy_alloc 0 (pages st) = (slab, b) → SLAB_SIZE ≤ slab < 0x8000000 → obj_size (cache_at st c) = 4096 →
  ∃ st', alloc_slab c st = (slab, st') ∧ load st' (slab + SLAB_SIZE + 16) = slab + 2 * SLAB_SIZE + 16.
Proof.
  unfold SLAB_SIZE, PAGE_SIZE. intros Eb Hs Esz. unfold alloc_slab. rewrite Eb. cbv beta iota zeta.
  rewrite (proj2 (Z.eqb_neq slab 0)) by lia.
  change (cache_at st⟦pages := b⟧ c) with (cache_at st c). rewrite Esz.
  assert ((SLAB_SIZE - SLAB_HEADER) / 4096 = 0) as -> by reflexivity.
  pose proof wrapped_count as Hn. generalize dependent (Z.to_nat (u32 (0 - 1))). intros n Hn.
  set (st1 := store (slab_free_list slab) _ _). eexists. split; [reflexivity|].
  pose proof (link_overrun st1 (slab + 16) n Hn ltac:(lia) ltac:(lia)) as Hl. unfold SLAB_HEADER.
  set (st2 := iter_up n _ _ st1) in *. clearbody st2.
  change (load (store (u32 (slab + 16 + u32 (0 - 1) * 4096)) 0 st2) (slab + 4096 + 16) = slab + 2 * 4096 + 16).
  rewrite load_store, decide_False.
  - replace (slab + 4096 + 16) with (slab + 16 + 4096) by lia. rewrite Hl. lia.
  - assert (u32 (0 - 1) = 0xFFFFFFFF) as -> by reflexivity. unfold u32.
    replace (slab + 16 + 0xFFFFFFFF * 4096) with (slab - 4080 + 4096 * 2 ^ 32) by lia.
    rewrite Z.mod_add, Z.mod_small by lia. lia.
Qed.
