(* ===== verification/Ipc.v ===== *)
(** * Message queues, semaphores and mutexes (kernel/ipc.c)

    The objects live in static arrays with a bitmap of the slots in use, and
    are named by strings.  An operation that has to wait calls [task_block] and
    goes on when the task runs again: between the two, other tasks run.  An
    operation is therefore modelled by what it does up to the call
    ([Blocked] with the operation to resume) and by [resume], what it does
    after it; [ipc_step] interleaves the operations of all tasks.

    The number of the calling task ([task_get_current_id]) and the time
    ([timer_get_ticks]) are arguments.  A message buffer is the array of the
    queue's messages. *)

From S2P Require Import Prelude Bitmap PageAlloc.

Definition MAX_MSG_QUEUES : Z := 64.
Definition MAX_MSG_SIZE : Z := 8192.
Definition MAX_MSGS_PER_QUEUE : Z := 32.
Definition MAX_SEMAPHORES : Z := 128.
Definition MAX_MUTEXES : Z := 128.
Definition IPC_CREAT : Z := 0x001.
Definition IPC_EXCL : Z := 0x002.
Definition IPC_NOWAIT : Z := 0x004.
Definition INT_MAX : Z := 0x7FFFFFFF.

Record ipc_message := mk_message {
  m_type : Z;
  m_size : Z;
  m_timestamp : Z;
  m_data : list Z;
}.
#[export] Instance zeroed_message : Zeroed ipc_message := mk_message 0 0 0 [].

Record ipc_msgqueue := mk_mq {
  mq_id : Z;
  mq_name : list Z;
  mq_flags : Z;
  max_msgs : Z;
  max_msg_size : Z;
  cur_msgs : Z;
  mq_buffer : Z;
  messages : gmap Z ipc_message;
  mq_head : Z;
  mq_tail : Z;
  mq_owner : Z;
  blocked_readers : Z;
  blocked_writers : Z;
}.
#[export] Instance eta_mq : Eta ipc_msgqueue := fun q =>
  mk_mq (mq_id q) (mq_name q) (mq_flags q) (max_msgs q) (max_msg_size q) (cur_msgs q) (mq_buffer q) (messages q)
    (mq_head q) (mq_tail q) (mq_owner q) (blocked_readers q) (blocked_writers q).
#[export] Instance zeroed_mq : Zeroed ipc_msgqueue := mk_mq 0 [] 0 0 0 0 0 ∅ 0 0 0 0 0.

Record ipc_semaphore := mk_sem {
  sem_id : Z;
  sem_name : list Z;
  sem_value : Z;
  sem_max : Z;
  sem_flags : Z;
  sem_owner : Z;
  sem_blocked : Z;
}.
#[export] Instance eta_sem : Eta ipc_semaphore := fun s =>
  mk_sem (sem_id s) (sem_name s) (sem_value s) (sem_max s) (sem_flags s) (sem_owner s) (sem_blocked s).
#[export] Instance zeroed_sem : Zeroed ipc_semaphore := mk_sem 0 [] 0 0 0 0 0.

Inductive mutex_type := MUTEX_NORMAL | MUTEX_RECURSIVE | MUTEX_ERRORCHECK.
#[export] Instance mutex_type_dec : EqDecision mutex_type.
Proof. solve_decision. Defined.

Record ipc_mutex := mk_mutex {
  mu_id : Z;
  mu_name : list Z;
  mu_type : mutex_type;
  mu_locked : bool;
  mu_owner : Z;
  recursion_count : Z;
  mu_blocked : Z;
  priority_ceiling : Z;
}.
#[export] Instance eta_mutex : Eta ipc_mutex := fun u =>
  mk_mutex (mu_id u) (mu_name u) (mu_type u) (mu_locked u) (mu_owner u) (recursion_count u) (mu_blocked u)
    (priority_ceiling u).
#[export] Instance zeroed_mutex : Zeroed ipc_mutex := mk_mutex 0 [] MUTEX_NORMAL false 0 0 0 0.

Record ipc_state := mk_ipc {
  msgqueues : gmap Z ipc_msgqueue;
  msgqueue_bitmap : list Z;
  semaphores : gmap Z ipc_semaphore;
  semaphore_bitmap : list Z;
  mutexes : gmap Z ipc_mutex;
  mutex_bitmap : list Z;
}.
#[export] Instance eta_ipc : Eta ipc_state := fun s =>
  mk_ipc (msgqueues s) (msgqueue_bitmap s) (semaphores s) (semaphore_bitmap s) (mutexes s) (mutex_bitmap s).

Definition mq_at (st : ipc_state) (i : Z) : ipc_msgqueue := (msgqueues st).[i].
Definition sem_at (st : ipc_state) (i : Z) : ipc_semaphore := (semaphores st).[i].
Definition mutex_at (st : ipc_state) (i : Z) : ipc_mutex := (mutexes st).[i].
Definition upd_mq (i : Z) (f : ipc_msgqueue → ipc_msgqueue) (st : ipc_state) : ipc_state :=
  st⟦msgqueues ::= fun m => amod m i f⟧.
Definition upd_sem (i : Z) (f : ipc_semaphore → ipc_semaphore) (st : ipc_state) : ipc_state :=
  st⟦semaphores ::= fun m => amod m i f⟧.
Definition upd_mutex (i : Z) (f : ipc_mutex → ipc_mutex) (st : ipc_state) : ipc_state :=
  st⟦mutexes ::= fun m => amod m i f⟧.

(** ** Names *)

(** A string without its terminator.  The comparison loop of the two [find]
    helpers: equal characters while both strings go on, then the same
    terminator. *)
Fixpoint str_match (a b : list Z) : bool :=
  match a, b with
  | x :: a', y :: b' => if x =? y then str_match a' b' else false
  | [], [] => true
  | _, _ => false
  end.

(** [while (name[i] && i < 31)] *)
Definition copy_name (nm : list Z) : list Z := take 31 nm.

Definition is_empty (nm : list Z) : bool := match nm with [] => true | _ => false end.

Definition find_named (n : Z) (used : Z → bool) (name_of : Z → list Z) (nm : list Z) : Z :=
  default (-1) (find_up (Z.to_nat n) 0 (fun i => used i && negb (is_empty (name_of i)) && str_match nm (name_of i))).

Definition mq_used (st : ipc_state) (i : Z) : bool := bm_test 32 (msgqueue_bitmap st) i.
Definition sem_used (st : ipc_state) (i : Z) : bool := bm_test 32 (semaphore_bitmap st) i.
Definition mutex_used (st : ipc_state) (i : Z) : bool := bm_test 32 (mutex_bitmap st) i.

Definition find_msgqueue (nm : list Z) (st : ipc_state) : Z :=
  find_named MAX_MSG_QUEUES (mq_used st) (fun i => mq_name (mq_at st i)) nm.
Definition find_semaphore (nm : list Z) (st : ipc_state) : Z :=
  find_named MAX_SEMAPHORES (sem_used st) (fun i => sem_name (sem_at st i)) nm.

(** The checks that open most operations. *)
Definition mq_bad (mqid : Z) (st : ipc_state) : bool :=
  (mqid <? 0) || (MAX_MSG_QUEUES <=? mqid) || negb (mq_used st mqid).
Definition sem_bad (semid : Z) (st : ipc_state) : bool :=
  (semid <? 0) || (MAX_SEMAPHORES <=? semid) || negb (sem_used st semid).
Definition mutex_bad (mutexid : Z) (st : ipc_state) : bool :=
  (mutexid <? 0) || (MAX_MUTEXES <=? mutexid) || negb (mutex_used st mutexid).

(** ** Results *)

(** An operation that waits, with what it needs to go on. *)
Inductive pending :=
  | PSend (mqid : Z) (data : list Z) (ty : Z)
  | PReceive (mqid : Z)
  | PSem (semid : Z)
  | PMutex (mutexid : Z).
#[export] Instance pending_dec : EqDecision pending.
Proof. solve_decision. Defined.

(** A return value, with the message for [mq_receive], or a wait. *)
Inductive result :=
  | Done (r : Z) (out : option ipc_message)
  | Blocked (p : pending).

(** ** Message queues *)

Section queues.
Context {S : Type} `{PageAllocator S}.

(** [fresh] is what the new page holds, read as messages. *)
Definition mq_create (nm : list Z) (flags maxm maxsz me : Z) (fresh : gmap Z ipc_message) (st : ipc_state) (a : S) : Z * ipc_state * S :=
  if (maxm <=? 0) || (maxsz <=? 0) || (MAX_MSG_SIZE <? maxsz) then (-1, st, a)
  else
    let existing := find_msgqueue nm st in
    if 0 <=? existing then (if truth (flags &: IPC_EXCL) then -1 else existing, st, a)
    else if negb (truth (flags &: IPC_CREAT)) then (-1, st, a)
    else
      match bm_find_free 32 (msgqueue_bitmap st) (Z.to_nat MAX_MSG_QUEUES) with
      | None => (-1, st, a)
      | Some mqid =>
          let '(buf, a) := pa_alloc a in
          if buf =? 0 then (-1, st, a)
          else
            let q := mk_mq mqid (copy_name nm) flags (if maxm <? MAX_MSGS_PER_QUEUE then maxm else MAX_MSGS_PER_QUEUE)
                       maxsz 0 buf fresh 0 0 me 0 0 in
            let st := upd_mq mqid (fun _ => q) st in
            (mqid, st⟦msgqueue_bitmap ::= fun b => bm_set 32 b mqid⟧, a)
      end.

Definition mq_open (nm : list Z) (flags me : Z) (fresh : gmap Z ipc_message) (st : ipc_state) (a : S) : Z * ipc_state * S :=
  mq_create nm (flags &: Z.lnot IPC_CREAT) MAX_MSGS_PER_QUEUE MAX_MSG_SIZE me fresh st a.

Definition mq_close (mqid : Z) : Z := 0.

Definition mq_unlink (nm : list Z) (st : ipc_state) (a : S) : option (Z * ipc_state * S) :=
  let mqid := find_msgqueue nm st in
  if mqid <? 0 then Some (-1, st, a)
  else
    a ← (if truth (mq_buffer (mq_at st mqid)) then pa_free (mq_buffer (mq_at st mqid)) a else Some a);
    let st := upd_mq mqid (fun q => q⟦mq_name := []⟧) st in
    Some (0, st⟦msgqueue_bitmap ::= fun b => bm_clear 32 b mqid⟧, a).

End queues.

(** The part of [mq_send] after the wait. *)
Definition mq_put (mqid : Z) (data : list Z) (ty now : Z) (st : ipc_state) : ipc_state :=
  upd_mq mqid (fun q => q⟦messages ::= fun m => aset m (mq_tail q) (mk_message ty (Z.of_nat (length data)) now data)⟧
                         ⟦mq_tail := (mq_tail q + 1) mod max_msgs q⟧⟦cur_msgs ::= fun n => n + 1⟧) st.

(** The message is [data], [msg_size] its length. *)
Definition mq_send (mqid : Z) (data : list Z) (ty now : Z) (st : ipc_state) : result * ipc_state :=
  if mq_bad mqid st then (Done (-1) None, st)
  else
    let q := mq_at st mqid in
    if max_msg_size q <? Z.of_nat (length data) then (Done (-1) None, st)
    else if max_msgs q <=? cur_msgs q then
      if truth (mq_flags q &: IPC_NOWAIT) then (Done (-1) None, st)
      else (Blocked (PSend mqid data ty), upd_mq mqid (fun q => q⟦blocked_writers ::= fun n => n + 1⟧) st)
    else (Done 0 None, mq_put mqid data ty now st).

Definition mq_send_resume (mqid : Z) (data : list Z) (ty now : Z) (st : ipc_state) : result * ipc_state :=
  let st := upd_mq mqid (fun q => q⟦blocked_writers ::= fun n => n - 1⟧) st in
  (Done 0 None, mq_put mqid data ty now st).

(** The part of [mq_receive] after the wait. *)
Definition mq_take (mqid : Z) (st : ipc_state) : result * ipc_state :=
  let q := mq_at st mqid in
  let msg := (messages q).[mq_head q] in
  (Done 0 (Some msg),
   upd_mq mqid (fun q => q⟦mq_head := (mq_head q + 1) mod max_msgs q⟧⟦cur_msgs ::= fun n => n - 1⟧) st).

Definition mq_receive (mqid : Z) (st : ipc_state) : result * ipc_state :=
  if mq_bad mqid st then (Done (-1) None, st)
  else
    let q := mq_at st mqid in
    if cur_msgs q =? 0 then
      if truth (mq_flags q &: IPC_NOWAIT) then (Done (-1) None, st)
      else (Blocked (PReceive mqid), upd_mq mqid (fun q => q⟦blocked_readers ::= fun n => n + 1⟧) st)
    else mq_take mqid st.

Definition mq_receive_resume (mqid : Z) (st : ipc_state) : result * ipc_state :=
  mq_take mqid (upd_mq mqid (fun q => q⟦blocked_readers ::= fun n => n - 1⟧) st).

(** ** Semaphores *)

Definition sem_create (nm : list Z) (initial_value flags me : Z) (st : ipc_state) : Z * ipc_state :=
  if initial_value <? 0 then (-1, st)
  else
    let existing := find_semaphore nm st in
    if 0 <=? existing then (if truth (flags &: IPC_EXCL) then -1 else existing, st)
    else if negb (truth (flags &: IPC_CREAT)) then (-1, st)
    else
      match bm_find_free 32 (semaphore_bitmap st) (Z.to_nat MAX_SEMAPHORES) with
      | None => (-1, st)
      | Some semid =>
          let st := upd_sem semid (fun _ => mk_sem semid (copy_name nm) initial_value INT_MAX flags me 0) st in
          (semid, st⟦semaphore_bitmap ::= fun b => bm_set 32 b semid⟧)
      end.

(** One test of [while (sem->value <= 0)]. *)
Definition sem_enter (semid : Z) (st : ipc_state) : result * ipc_state :=
  if sem_value (sem_at st semid) <=? 0 then
    (Blocked (PSem semid), upd_sem semid (fun s => s⟦sem_blocked ::= fun n => n + 1⟧) st)
  else (Done 0 None, upd_sem semid (fun s => s⟦sem_value ::= fun v => v - 1⟧) st).

Definition sem_wait (semid : Z) (st : ipc_state) : result * ipc_state :=
  if sem_bad semid st then (Done (-1) None, st) else sem_enter semid st.

Definition sem_wait_resume (semid : Z) (st : ipc_state) : result * ipc_state :=
  sem_enter semid (upd_sem semid (fun s => s⟦sem_blocked ::= fun n => n - 1⟧) st).

Definition sem_trywait (semid : Z) (st : ipc_state) : result * ipc_state :=
  if sem_bad semid st then (Done (-1) None, st)
  else if sem_value (sem_at st semid) <=? 0 then (Done (-1) None, st)
  else (Done 0 None, upd_sem semid (fun s => s⟦sem_value ::= fun v => v - 1⟧) st).

Definition sem_post (semid : Z) (st : ipc_state) : result * ipc_state :=
  if sem_bad semid st then (Done (-1) None, st)
  else
    let s := sem_at st semid in
    (Done 0 None, if sem_value s <? sem_max s then upd_sem semid (fun s => s⟦sem_value ::= fun v => v + 1⟧) st else st).

Definition sem_getvalue (semid : Z) (st : ipc_state) : option Z :=
  if sem_bad semid st then None else Some (sem_value (sem_at st semid)).

Definition sem_close (semid : Z) : Z := 0.

Definition sem_unlink (nm : list Z) (st : ipc_state) : Z * ipc_state :=
  let semid := find_semaphore nm st in
  if semid <? 0 then (-1, st)
  else
    let st := upd_sem semid (fun s => s⟦sem_name := []⟧) st in
    (0, st⟦semaphore_bitmap ::= fun b => bm_clear 32 b semid⟧).

(** ** Mutexes *)

Definition mutex_create (nm : list Z) (ty : mutex_type) (st : ipc_state) : Z * ipc_state :=
  match bm_find_free 32 (mutex_bitmap st) (Z.to_nat MAX_MUTEXES) with
  | None => (-1, st)
  | Some mutexid =>
      let st := upd_mutex mutexid (fun _ => mk_mutex mutexid (copy_name nm) ty false (-1) 0 0 0) st in
      (mutexid, st⟦mutex_bitmap ::= fun b => bm_set 32 b mutexid⟧)
  end.

Definition acquire (mutexid me : Z) (st : ipc_state) : ipc_state :=
  upd_mutex mutexid (fun u => u⟦mu_locked := true⟧⟦mu_owner := me⟧⟦recursion_count := 1⟧) st.

(** One test of [while (mutex->locked)]. *)
Definition mutex_enter (mutexid me : Z) (st : ipc_state) : result * ipc_state :=
  if mu_locked (mutex_at st mutexid) then
    (Blocked (PMutex mutexid), upd_mutex mutexid (fun u => u⟦mu_blocked ::= fun n => n + 1⟧) st)
  else (Done 0 None, acquire mutexid me st).

Definition mutex_lock (mutexid me : Z) (st : ipc_state) : result * ipc_state :=
  if mutex_bad mutexid st then (Done (-1) None, st)
  else
    let u := mutex_at st mutexid in
    if bool_decide (mu_type u = MUTEX_RECURSIVE) && (mu_owner u =? me) then
      (Done 0 None, upd_mutex mutexid (fun u => u⟦recursion_count ::= fun n => n + 1⟧) st)
    else if bool_decide (mu_type u = MUTEX_ERRORCHECK) && (mu_owner u =? me) then (Done (-1) None, st)
    else mutex_enter mutexid me st.

Definition mutex_lock_resume (mutexid me : Z) (st : ipc_state) : result * ipc_state :=
  mutex_enter mutexid me (upd_mutex mutexid (fun u => u⟦mu_blocked ::= fun n => n - 1⟧) st).

Definition mutex_trylock (mutexid me : Z) (st : ipc_state) : result * ipc_state :=
  if mutex_bad mutexid st then (Done (-1) None, st)
  else
    let u := mutex_at st mutexid in
    if mu_locked u then
      if bool_decide (mu_type u = MUTEX_RECURSIVE) && (mu_owner u =? me) then
        (Done 0 None, upd_mutex mutexid (fun u => u⟦recursion_count ::= fun n => n + 1⟧) st)
      else (Done (-1) None, st)
    else (Done 0 None, acquire mutexid me st).

Definition mutex_unlock (mutexid me : Z) (st : ipc_state) : result * ipc_state :=
  if mutex_bad mutexid st then (Done (-1) None, st)
  else
    let u := mutex_at st mutexid in
    if bool_decide (mu_type u = MUTEX_ERRORCHECK) && negb (mu_owner u =? me) then (Done (-1) None, st)
    else if bool_decide (mu_type u = MUTEX_RECURSIVE) && (1 <? recursion_count u) then
      (Done 0 None, upd_mutex mutexid (fun u => u⟦recursion_count ::= fun n => n - 1⟧) st)
    else
      (Done 0 None, upd_mutex mutexid (fun u => u⟦mu_locked := false⟧⟦mu_owner := -1⟧⟦recursion_count := 0⟧) st).

Definition mutex_destroy (mutexid : Z) (st : ipc_state) : Z * ipc_state :=
  if mutex_bad mutexid st then (-1, st)
  else if mu_locked (mutex_at st mutexid) then (-1, st)
  else
    let st := upd_mutex mutexid (fun u => u⟦mu_name := []⟧) st in
    (0, st⟦mutex_bitmap ::= fun b => bm_clear 32 b mutexid⟧).

(** ** The whole system *)

Definition ipc_init (st : ipc_state) : ipc_state :=
  st⟦msgqueue_bitmap := replicate (Z.to_nat (MAX_MSG_QUEUES / 32)) 0⟧
    ⟦semaphore_bitmap := replicate (Z.to_nat (MAX_SEMAPHORES / 32)) 0⟧
    ⟦mutex_bitmap := replicate (Z.to_nat (MAX_MUTEXES / 32)) 0⟧.

(** The second loop of [ipc_cleanup_task], over the message queues, has an
    empty body. *)
Definition ipc_cleanup_task (task_id : Z) (st : ipc_state) : ipc_state :=
  iter_up (Z.to_nat MAX_MUTEXES) 0
    (fun i st => if mutex_used st i && (mu_owner (mutex_at st i) =? task_id)
                 then upd_mutex i (fun u => u⟦mu_locked := false⟧⟦mu_owner := -1⟧) st else st) st.

Inductive ipc_op :=
  | OSend (mqid : Z) (data : list Z) (ty : Z)
  | OReceive (mqid : Z)
  | OSemWait (semid : Z)
  | OSemTryWait (semid : Z)
  | OSemPost (semid : Z)
  | OLock (mutexid : Z)
  | OTryLock (mutexid : Z)
  | OUnlock (mutexid : Z).

(** A call by task [me] at time [now]. *)
Definition exec (op : ipc_op) (me now : Z) (st : ipc_state) : result * ipc_state :=
  match op with
  | OSend q d ty => mq_send q d ty now st
  | OReceive q => mq_receive q st
  | OSemWait s => sem_wait s st
  | OSemTryWait s => sem_trywait s st
  | OSemPost s => sem_post s st
  | OLock u => mutex_lock u me st
  | OTryLock u => mutex_trylock u me st
  | OUnlock u => mutex_unlock u me st
  end.

(** [task_block] has returned in task [me]. *)
Definition resume (p : pending) (me now : Z) (st : ipc_state) : result * ipc_state :=
  match p with
  | PSend q d ty => mq_send_resume q d ty now st
  | PReceive q => mq_receive_resume q st
  | PSem s => sem_wait_resume s st
  | PMutex u => mutex_lock_resume u me st
  end.

(** The operation a waiting task is in. *)
Definition op_of (p : pending) : ipc_op :=
  match p with
  | PSend q d ty => OSend q d ty
  | PReceive q => OReceive q
  | PSem s => OSemWait s
  | PMutex u => OLock u
  end.

(** The objects and the waiting tasks. *)
Record ipc_sys := mk_sys {
  ipc : ipc_state;
  waiting : gmap Z pending;
}.

(** What an observer sees of a step: an operation that returned, with the
    task, the value and the message received. *)
Record event := mk_event {
  ev_task : Z;
  ev_op : ipc_op;
  ev_ret : Z;
  ev_out : option ipc_message;
}.

(** Task [t], in operation [op], has returned or waits (again). *)
Definition after (t : Z) (op : ipc_op) (w : gmap Z pending) (out : result * ipc_state) : list event * ipc_sys :=
  match out with
  | (Done r m, st) => ([mk_event t op r m], mk_sys st w)
  | (Blocked p, st) => ([], mk_sys st (<[t := p]> w))
  end.

(** A task that does not wait calls an operation, or a waiting task goes on. *)
Inductive ipc_step : ipc_sys → list event → ipc_sys → Prop :=
  | step_call s t now op e s' :
      0 ≤ t → waiting s !! t = None → after t op (waiting s) (exec op t now (ipc s)) = (e, s') → ipc_step s e s'
  | step_resume s t now p e s' :
      0 ≤ t → waiting s !! t = Some p →
      after t (op_of p) (delete t (waiting s)) (resume p t now (ipc s)) = (e, s') → ipc_step s e s'.

(** Any number of steps, with the events in order. *)
Inductive ipc_run (s0 : ipc_sys) : list event → ipc_sys → Prop :=
  | run_nil : ipc_run s0 [] s0
  | run_snoc tr s e s' : ipc_run s0 tr s → ipc_step s e s' → ipc_run s0 (tr ++ e) s'.

(** A schedule: which task runs next, at which time, and with which call if it
    does not wait.  [drive] runs one, or fails where it is not a schedule. *)
Inductive action := ACall (t now : Z) (op : ipc_op) | AResume (t now : Z).

Definition act (a : action) (s : ipc_sys) : option (list event * ipc_sys) :=
  match a with
  | ACall t now op =>
      match waiting s !! t with
      | None => if 0 <=? t then Some (after t op (waiting s) (exec op t now (ipc s))) else None
      | Some _ => None
      end
  | AResume t now =>
      match waiting s !! t with
      | None => None
      | Some p => if 0 <=? t then Some (after t (op_of p) (delete t (waiting s)) (resume p t now (ipc s))) else None
      end
  end.

Fixpoint drive (acts : list action) (s : ipc_sys) : option (list event * ipc_sys) :=
  match acts with
  | [] => Some ([], s)
  | a :: acts' => '(e, s1) ← act a s; '(tr, s2) ← drive acts' s1; Some (e ++ tr, s2)
  end.

Lemma act_step a s e s' : act a s = Some (e, s') → ipc_step s e s'.
Proof.
  unfold act. destruct a as [t now op|t now]; destruct (waiting s !! t) eqn:Hw; try done;
    destruct (Z.leb_spec 0 t); try done; intros [= E].
  - by apply (step_call s t now op).
  - by apply (step_resume s t now p).
Qed.

Lemma run_app s0 tr1 s1 tr2 s2 : ipc_run s0 tr1 s1 → ipc_run s1 tr2 s2 → ipc_run s0 (tr1 ++ tr2) s2.
Proof.
  intros H1. induction 1 as [|tr s e s' _ IH Hstep]; [by rewrite app_nil_r|].
  rewrite app_assoc. by apply run_snoc with s.
Qed.

Lemma drive_run acts s tr s' : drive acts s = Some (tr, s') → ipc_run s tr s'.
Proof.
  revert s tr. induction acts as [|a acts IH]; intros s tr H; cbn in H.
  - injection H as <- <-. apply run_nil.
  - destruct (act a s) as [[e s1]|] eqn:Ea; [|done]. cbn in H.
    destruct (drive acts s1) as [[tr2 s2]|] eqn:Ed; [|done]. injection H as <- <-.
    apply run_app with s1; [|by apply IH]. apply (run_snoc s [] s e s1); [apply run_nil|by apply act_step with a].
Qed.

(** ** Updates and frames *)

Lemma mq_at_upd i j f st : mq_at (upd_mq i f st) j = if decide (i = j) then f (mq_at st i) else mq_at st j.
Proof. apply aget_amod. Qed.

Lemma sem_at_upd i j f st : sem_at (upd_sem i f st) j = if decide (i = j) then f (sem_at st i) else sem_at st j.
Proof. apply aget_amod. Qed.

Lemma mutex_at_upd i j f st : mutex_at (upd_mutex i f st) j = if decide (i = j) then f (mutex_at st i) else mutex_at st j.
Proof. apply aget_amod. Qed.

(** The operations keep the objects they do not concern and the bitmaps. *)
Lemma sem_at_upd_mq i f st : sem_at (upd_mq i f st) = sem_at st.
Proof. done. Qed.
Lemma sem_at_upd_mutex i f st : sem_at (upd_mutex i f st) = sem_at st.
Proof. done. Qed.
Lemma mq_at_upd_sem i f st : mq_at (upd_sem i f st) = mq_at st.
Proof. done. Qed.
Lemma mq_at_upd_mutex i f st : mq_at (upd_mutex i f st) = mq_at st.
Proof. done. Qed.
Lemma mutex_at_upd_mq i f st : mutex_at (upd_mq i f st) = mutex_at st.
Proof. done. Qed.
Lemma mutex_at_upd_sem i f st : mutex_at (upd_sem i f st) = mutex_at st.
Proof. done. Qed.
#[export] Hint Rewrite sem_at_upd_mq sem_at_upd_mutex mq_at_upd_sem mq_at_upd_mutex mutex_at_upd_mq mutex_at_upd_sem
  mq_at_upd sem_at_upd mutex_at_upd : kernel_rw.

(** The bodies of the operations, for case analysis. *)
Ltac unfold_ipc :=
  unfold mq_send_resume, mq_receive_resume, sem_wait_resume, mutex_lock_resume,
    mq_send, mq_receive, mq_put, mq_take, sem_wait, sem_trywait, sem_post, sem_enter,
    mutex_lock, mutex_trylock, mutex_unlock, mutex_enter, acquire in *.

(** Every path of the operation in hypothesis [H : op = (r, st')]. *)
Ltac ipc_paths H :=
  unfold_ipc; revert H;
  repeat match goal with
  | |- ?lhs = _ → _ => match lhs with context [if ?b then _ else _] => lazymatch type of b with bool => case_Z b end end
  end;
  intros [= <- <-].

(** Two ways a step starts, one way it ends: [op] is the operation, [w] the
    tasks that wait beside [t]. *)
Lemma ipc_step_inv s e s' :
  ipc_step s e s' →
  ∃ t now op w out st', 0 ≤ t ∧ w = delete t (waiting s) ∧
    ((exec op t now (ipc s) = (out, st') ∧ waiting s !! t = None) ∨
     (∃ p, op = op_of p ∧ resume p t now (ipc s) = (out, st') ∧ waiting s !! t = Some p)) ∧
    match out with
    | Done r m => e = [mk_event t op r m] ∧ s' = mk_sys st' w
    | Blocked p => e = [] ∧ s' = mk_sys st' (<[t := p]> w)
    end.
Proof.
  intros [s1 t now op e1 s1' Ht Hw Ha|s1 t now p e1 s1' Ht Hw Ha].
  - destruct (exec op t now (ipc s1)) as [out st'] eqn:E. exists t, now, op, (delete t (waiting s1)), out, st'.
    split; [done|]. split; [done|]. split; [by left|].
    rewrite delete_id by done. by destruct out; injection Ha as <- <-.
  - destruct (resume p t now (ipc s1)) as [out st'] eqn:E.
    exists t, now, (op_of p), (delete t (waiting s1)), out, st'.
    split; [done|]. split; [done|]. split; [right; by exists p|].
    by destruct out; injection Ha as <- <-.
Qed.

(** The sum of a weight over the events of a trace. *)
Definition tally (f : event → Z) (tr : list event) : Z := foldr (fun e n => f e + n) 0 tr.

Lemma tally_app f tr1 tr2 : tally f (tr1 ++ tr2) = tally f tr1 + tally f tr2.
Proof. unfold tally. induction tr1 as [|e tr1 IH]; cbn; [done|]. rewrite IH. lia. Qed.

Lemma tally_one f e : tally f [e] = f e.
Proof. cbn. lia. Qed.

Lemma tally_nonneg f tr : (∀ e, 0 ≤ f e) → 0 ≤ tally f tr.
Proof. intros Hf. unfold tally. induction tr as [|e tr IH]; cbn; [done|]. pose proof (Hf e). lia. Qed.

(** The number of tasks that wait with [p]. *)
Definition waiters (p : pending) (w : gmap Z pending) : Z :=
  Z.of_nat (size (filter (fun kv : Z * pending => kv.2 = p) w)).

Lemma waiters_insert p q t w :
  w !! t = None → waiters p (<[t := q]> w) = waiters p w + (if decide (q = p) then 1 else 0).
Proof.
  intros Hw. unfold waiters. case_decide as E.
  - rewrite map_filter_insert_True by done. rewrite map_size_insert_None; [lia|].
    rewrite map_lookup_filter, Hw. done.
  - rewrite map_filter_insert_False by done. rewrite delete_id by done. lia.
Qed.

Lemma waiters_delete p q t w :
  w !! t = Some q → waiters p (delete t w) = waiters p w - (if decide (q = p) then 1 else 0).
Proof.
  intros Hw. rewrite <-(insert_delete_id w t q Hw) at 2.
  rewrite waiters_insert by apply lookup_delete_eq. lia.
Qed.

(** Whether an operation goes to wait with [p]. *)
Definition blocks_on (p : pending) (out : result) : Z :=
  match out with Blocked q => if decide (q = p) then 1 else 0 | Done _ _ => 0 end.

(** ** Semaphores over all interleavings *)

Section semaphore.
Context (semid : Z).

(** A [sem_wait] or [sem_trywait] that returned with the semaphore, and a
    [sem_post]. *)
Definition sem_taken (e : event) : Z :=
  match ev_op e with
  | OSemWait i | OSemTryWait i => if (i =? semid) && (ev_ret e =? 0) then 1 else 0
  | _ => 0
  end.
Definition sem_posted (e : event) : Z :=
  match ev_op e with
  | OSemPost i => if (i =? semid) && (ev_ret e =? 0) then 1 else 0
  | _ => 0
  end.

(** What a semaphore in use satisfies: the value is within its bounds and
    [num_blocked] counts the tasks inside [task_block]. *)
Definition sem_inv (s : ipc_sys) : Prop :=
  sem_bad semid (ipc s) = false ∧
  0 ≤ sem_value (sem_at (ipc s) semid) ≤ sem_max (sem_at (ipc s) semid) ∧
  sem_blocked (sem_at (ipc s) semid) = waiters (PSem semid) (waiting s).

(** The effect on the semaphore of running a task in [op] until [out]. *)
Definition sem_effect (s s' : ipc_semaphore) (t : Z) (op : ipc_op) (out : result) (woken : Z) : Prop :=
  sem_max s' = sem_max s ∧
  sem_blocked s' = sem_blocked s - woken + blocks_on (PSem semid) out ∧
  match out with
  | Done r m => 0 ≤ sem_value s' ∧
      sem_value s' + sem_taken (mk_event t op r m) = Z.min (sem_value s + sem_posted (mk_event t op r m)) (sem_max s)
  | Blocked _ => sem_value s' = sem_value s
  end.

(** Closes a path of an operation once the state is explicit. *)
Ltac sem_path :=
  autorewrite with kernel_rw in *; unfold sem_effect, blocks_on, sem_taken, sem_posted; cbn;
  repeat (case_decide; simplify_eq/=); repeat (case_if; simplify_eq/=); try congruence; try lia.

Lemma exec_sem op t now st out st' :
  exec op t now st = (out, st') → sem_bad semid st = false →
  0 ≤ sem_value (sem_at st semid) ≤ sem_max (sem_at st semid) →
  sem_bad semid st' = false ∧ sem_effect (sem_at st semid) (sem_at st' semid) t op out 0.
Proof.
  intros H Hb Hv. destruct op; cbn [exec] in H; ipc_paths H; (split; [exact Hb|]); sem_path.
Qed.

Lemma resume_sem p t now st out st' :
  resume p t now st = (out, st') → sem_bad semid st = false →
  0 ≤ sem_value (sem_at st semid) ≤ sem_max (sem_at st semid) →
  sem_bad semid st' = false ∧
  sem_effect (sem_at st semid) (sem_at st' semid) t (op_of p) out (if decide (p = PSem semid) then 1 else 0).
Proof.
  intros H Hb Hv. destruct p; cbn [resume] in H; ipc_paths H; (split; [exact Hb|]); sem_path.
Qed.

Lemma sem_step s e s' :
  ipc_step s e s' → sem_inv s →
  sem_inv s' ∧ sem_max (sem_at (ipc s') semid) = sem_max (sem_at (ipc s) semid) ∧
  sem_value (sem_at (ipc s') semid) + tally sem_taken e =
    Z.min (sem_value (sem_at (ipc s) semid) + tally sem_posted e) (sem_max (sem_at (ipc s) semid)).
Proof.
  intros (t & now & op & w & out & st' & Ht & -> & Hrun & Hout)%ipc_step_inv (Hb & Hv & Hw).
  assert (∃ k, waiters (PSem semid) (delete t (waiting s)) = waiters (PSem semid) (waiting s) - k ∧
    sem_bad semid st' = false ∧ sem_effect (sem_at (ipc s) semid) (sem_at st' semid) t op out k)
    as (k & Hk & Hb' & Hm & Hbl & Hval).
  { destruct Hrun as [[Hrun Hn]|(p & -> & Hrun & Hp)].
    - exists 0. rewrite delete_id by done. split; [lia|]. by apply (exec_sem op t now).
    - exists (if decide (p = PSem semid) then 1 else 0). split; [by apply waiters_delete|].
      by apply (resume_sem p t now). }
  unfold sem_inv. destruct out as [r m|p]; destruct Hout as [-> ->]; cbn [ipc waiting blocks_on] in *.
  - rewrite !tally_one. destruct Hval as [H0 Hval].
    assert (0 ≤ sem_taken (mk_event t op r m)) by (unfold sem_taken; repeat case_match; lia).
    split_and!; [done|lia|lia|lia|lia|lia].
  - rewrite waiters_insert by apply lookup_delete_eq. cbn [tally foldr]. split_and!; [done|lia..].
Qed.

End semaphore.

(** C23: A semaphore neither loses nor invents units, whatever the tasks do
    and however their operations interleave: its value stays between 0 and
    [max_value], the waits that returned never exceed the initial value plus
    the posts, the difference being exactly the value as long as the posts do
    not reach [max_value], and [num_blocked] is the number of tasks inside
    [sem_wait]. *)
Theorem sem_conservation semid s0 tr s :
  ipc_run s0 tr s → sem_inv semid s0 →
  sem_inv semid s ∧
  sem_value (sem_at (ipc s) semid) + tally (sem_taken semid) tr
    ≤ sem_value (sem_at (ipc s0) semid) + tally (sem_posted semid) tr ∧
  (sem_value (sem_at (ipc s0) semid) + tally (sem_posted semid) tr ≤ sem_max (sem_at (ipc s0) semid) →
   sem_value (sem_at (ipc s) semid) + tally (sem_taken semid) tr
     = sem_value (sem_at (ipc s0) semid) + tally (sem_posted semid) tr).
Proof.
  intros Hrun H0.
  enough (sem_inv semid s ∧ sem_max (sem_at (ipc s) semid) = sem_max (sem_at (ipc s0) semid) ∧
    sem_value (sem_at (ipc s) semid) + tally (sem_taken semid) tr
      ≤ sem_value (sem_at (ipc s0) semid) + tally (sem_posted semid) tr ∧
    (sem_value (sem_at (ipc s0) semid) + tally (sem_posted semid) tr ≤ sem_max (sem_at (ipc s0) semid) →
     sem_value (sem_at (ipc s) semid) + tally (sem_taken semid) tr
       = sem_value (sem_at (ipc s0) semid) + tally (sem_posted semid) tr)) by tauto.
  induction Hrun as [|tr s e s' Hrun (Hi & Hm & Hle & Heq) Hstep].
  - split_and!; [done|done|cbn; lia..].
  - destruct (sem_step semid s e s' Hstep Hi) as (Hi' & Hm' & Hv). rewrite !tally_app.
    assert (0 ≤ tally (sem_taken semid) tr ∧ 0 ≤ tally (sem_posted semid) e) as [? ?]
      by (split; apply tally_nonneg; intros [? [] ? ?]; unfold sem_taken, sem_posted; cbn; repeat case_match; lia).
    split_and!; [done|lia|lia|]. intros. specialize (Heq ltac:(lia)). lia.
Qed.

(** Tasks 1 and 2 share a semaphore of value 1: task 2 waits until task 1
    posts. *)
Definition no_ipc : ipc_state := ipc_init (mk_ipc ∅ [] ∅ [] ∅ []).
Definition demo_sem : ipc_sys := mk_sys (sem_create [115] 1 IPC_CREAT 1 no_ipc).2 ∅.
Definition demo_sem_acts : list action :=
  [ACall 1 0 (OSemWait 0); ACall 2 0 (OSemWait 0); ACall 1 0 (OSemPost 0); AResume 2 0].

Lemma sem_conservation_witness :
  ∃ tr s, drive demo_sem_acts demo_sem = Some (tr, s) ∧ tally (sem_taken 0) tr = 2 ∧ sem_inv 0 s ∧
          sem_value (sem_at (ipc s) 0) + tally (sem_taken 0) tr
            = sem_value (sem_at (ipc demo_sem) 0) + tally (sem_posted 0) tr.
Proof.
  destruct (drive demo_sem_acts demo_sem) as [[tr s]|] eqn:E; [|vm_compute in E; discriminate E].
  exists tr, s. split; [done|].
  assert (sem_inv 0 demo_sem) as Hi by (split; [reflexivity|split; [vm_compute; split; discriminate|reflexivity]]).
  pose proof (sem_conservation 0 demo_sem tr s (drive_run _ _ _ _ E) Hi) as (Hs & _ & Heq).
  vm_compute in E. injection E as Etr Es. subst tr. split; [reflexivity|]. split; [exact Hs|].
  apply Heq. vm_compute. discriminate.
Defined.

(** ** Mutexes over all interleavings *)

Section mutex.
Context (mutexid : Z).

(** How an event changes the number of times task [t] holds the mutex. *)
Definition hold_change (t : Z) (e : event) : Z :=
  if (ev_task e =? t) && (ev_ret e =? 0) then
    match ev_op e with
    | OLock i | OTryLock i => if i =? mutexid then 1 else 0
    | OUnlock i => if i =? mutexid then -1 else 0
    | _ => 0
    end
  else 0.

(** How many times task [t] holds the mutex after the events [tr]. *)
Definition holds (t : Z) (tr : list event) : Z := tally (hold_change t) tr.

(** No task releases a mutex it does not hold. *)
Definition disciplined (tr : list event) : Prop :=
  ∀ tr1 t m tr2, tr = tr1 ++ mk_event t (OUnlock mutexid) 0 m :: tr2 → 0 < holds t tr1.

(** [d t] is how often task [t] holds the mutex: only the owner of a locked
    mutex does, a recursive one [recursion_count] times, another one once. *)
Definition mutex_inv (u : ipc_mutex) (d : Z → Z) : Prop :=
  ∃ n, (∀ t, d t = if t =? mu_owner u then n else 0) ∧
    (if mu_locked u then 0 ≤ mu_owner u ∧ 0 < n ∧ n = (if decide (mu_type u = MUTEX_RECURSIVE) then recursion_count u else 1)
     else mu_owner u = -1 ∧ n = 0).

Definition mutex_effect (u' : ipc_mutex) (d : Z → Z) (t : Z) (op : ipc_op) (out : result) : Prop :=
  match out with
  | Done r m => mutex_inv u' (fun x => d x + hold_change x (mk_event t op r m))
  | Blocked _ => mutex_inv u' d
  end.

(** An unlock that succeeds on the mutex is by a holder. *)
Definition fair_unlock (d : Z → Z) (t : Z) (op : ipc_op) (out : result) : Prop :=
  op = OUnlock mutexid → (∃ m, out = Done 0 m) → 0 < d t.

(** The five things that can happen to a mutex. *)
Lemma inv_same u u' d d' :
  mutex_inv u d → mu_owner u' = mu_owner u → mu_locked u' = mu_locked u → mu_type u' = mu_type u →
  recursion_count u' = recursion_count u → (∀ x, d' x = d x) → mutex_inv u' d'.
Proof. intros (n & Hd & Hl) Ho Hk Ht Hr Hx. exists n. rewrite Ho, Hk, Ht, Hr. split; [|done]. intros x. by rewrite Hx. Qed.

Lemma inv_acquire u u' d d' t :
  mutex_inv u d → mu_locked u = false → 0 ≤ t → mu_owner u' = t → mu_locked u' = true → recursion_count u' = 1 →
  (∀ x, d' x = d x + (if t =? x then 1 else 0)) → mutex_inv u' d'.
Proof.
  intros (n & Hd & Hl) Hk Ht Ho Hk' Hr Hx. rewrite Hk in Hl. destruct Hl as [Hl ->]. exists 1. rewrite Hk', Ho, Hr. split.
  - intros x. rewrite Hx, Hd, (Z.eqb_sym t x). destruct (x =? mu_owner u), (x =? t); done.
  - split; [done|]. split; [lia|]. by case_decide.
Qed.

Lemma inv_owner u d t : mutex_inv u d → 0 ≤ t → mu_owner u = t ∨ 0 < d t → mu_owner u = t ∧ mu_locked u = true ∧ 0 < d t.
Proof.
  intros (n & Hd & Hl) Ht Ho. rewrite Hd in Ho |- *.
  destruct (mu_locked u), (Z.eqb_spec t (mu_owner u)); destruct Hl; try (exfalso; lia); split_and!; lia || done.
Qed.

Lemma inv_again u u' d d' t k :
  mutex_inv u d → mu_owner u = t → 0 < d t → 0 < recursion_count u + k → mu_type u = MUTEX_RECURSIVE →
  mu_owner u' = t → mu_locked u' = mu_locked u → mu_type u' = mu_type u → recursion_count u' = recursion_count u + k →
  (∀ x, d' x = d x + (if t =? x then k else 0)) → mutex_inv u' d'.
Proof.
  intros (n & Hd & Hl) Ho Hp Hk Hy Ho' Hl' Hy' Hr Hx. exists (n + k). rewrite Hl', Hy', Hy, Ho', Hr.
  rewrite Hd, Ho, Z.eqb_refl in Hp. split.
  - intros x. rewrite Hx, Hd, Ho, (Z.eqb_sym t x). destruct (x =? t); lia.
  - rewrite Hy in Hl. destruct (mu_locked u); [|lia]. rewrite decide_True in Hl |- * by done. lia.
Qed.

Lemma inv_release u u' d d' t :
  mutex_inv u d → mu_owner u = t → 0 < d t → ¬ (mu_type u = MUTEX_RECURSIVE ∧ 1 < recursion_count u) →
  mu_owner u' = -1 → mu_locked u' = false →
  (∀ x, d' x = d x - (if t =? x then 1 else 0)) → mutex_inv u' d'.
Proof.
  intros (n & Hd & Hl) Ho Hp Hn Ho' Hl' Hx. exists 0. rewrite Hl', Ho'. split; [|done].
  rewrite Hd, Ho, Z.eqb_refl in Hp. assert (n = 1) by (destruct (mu_locked u); [|lia]; case_decide; [|lia]; destruct Hl as (_ & _ & ->); destruct (decide (1 < recursion_count u)); [tauto|lia]).
  intros x. rewrite Hx, Hd, Ho, (Z.eqb_sym t x). destruct (x =? t), (x =? -1); lia.
Qed.

(** The change of the hold counts, computed. *)
Ltac hold_tac := intros x; unfold hold_change; cbn; repeat (case_if; simplify_eq/=); lia.

(** Closes a path of an operation: which of the five it is. *)
Ltac mutex_path Hi :=
  unfold mutex_effect; autorewrite with kernel_rw in *; repeat (case_decide; subst); repeat case_bool_decide; cbn in *;
  first
  [ done
  | solve [eapply (inv_same _ _ _ _ Hi); [done..|hold_tac]]
  | solve [eapply (inv_acquire _ _ _ _ _ Hi); [done..|hold_tac]]
  | idtac ].

Lemma exec_mutex op t now st out st' d :
  exec op t now st = (out, st') → 0 ≤ t → mutex_bad mutexid st = false → mutex_inv (mutex_at st mutexid) d →
  (mu_type (mutex_at st mutexid) = MUTEX_ERRORCHECK ∨ fair_unlock d t op out) →
  mutex_effect (mutex_at st' mutexid) d t op out.
Proof.
  intros H Ht Hb Hi Hf.
  destruct op; cbn [exec] in H; ipc_paths H; mutex_path Hi.
  all: match goal with |- mutex_inv _ (fun x => _ + hold_change _ (mk_event ?t _ _ _)) =>
    assert (mu_owner (mutex_at st mutexid) = t ∧ mu_locked (mutex_at st mutexid) = true ∧ 0 < d t) as (Ho & Hk & Hp)
      by (apply inv_owner; [done..|]; destruct Hf as [Hf|Hf]; [left; congruence|];
          first [by left|right; apply Hf; [done|by eexists]]) end.
  all: first
    [ solve [eapply (inv_again _ _ _ _ _ 1 Hi Ho Hp); [|done..|hold_tac];
             destruct Hi as (n & Hd & Hl); rewrite Hk in Hl; rewrite decide_True in Hl by done; lia]
    | solve [eapply (inv_again _ _ _ _ _ (-1) Hi Ho Hp); [lia|done..|hold_tac]]
    | solve [eapply (inv_release _ _ _ _ _ Hi Ho Hp); [intros [? ?]; first [lia|congruence]|done..|hold_tac]]
    | idtac ].
Qed.

Lemma resume_mutex p t now st out st' d :
  resume p t now st = (out, st') → 0 ≤ t → mutex_inv (mutex_at st mutexid) d →
  mutex_effect (mutex_at st' mutexid) d t (op_of p) out.
Proof. intros H Ht Hi. destruct p; cbn [resume op_of] in *; ipc_paths H; mutex_path Hi. Qed.

Lemma mutex_frame st st' t now out :
  (∃ op, exec op t now st = (out, st')) ∨ (∃ p, resume p t now st = (out, st')) →
  mutex_bad mutexid st' = mutex_bad mutexid st ∧ mu_type (mutex_at st' mutexid) = mu_type (mutex_at st mutexid).
Proof.
  intros [[op H]|[p H]]; [destruct op|destruct p]; cbn [exec resume] in H; ipc_paths H;
    (split; [reflexivity|]); autorewrite with kernel_rw; repeat (case_decide; subst); done.
Qed.

Lemma mutex_step s e s' d :
  ipc_step s e s' → mutex_bad mutexid (ipc s) = false → mutex_inv (mutex_at (ipc s) mutexid) d →
  (mu_type (mutex_at (ipc s) mutexid) = MUTEX_ERRORCHECK ∨
   ∀ t m, e = [mk_event t (OUnlock mutexid) 0 m] → 0 < d t) →
  mutex_bad mutexid (ipc s') = false ∧ mu_type (mutex_at (ipc s') mutexid) = mu_type (mutex_at (ipc s) mutexid) ∧
  mutex_inv (mutex_at (ipc s') mutexid) (fun t => d t + tally (hold_change t) e).
Proof.
  intros (t & now & op & w & out & st' & Ht & -> & Hrun & Hout)%ipc_step_inv Hb Hi Hf.
  assert (mutex_bad mutexid st' = mutex_bad mutexid (ipc s) ∧
          mu_type (mutex_at st' mutexid) = mu_type (mutex_at (ipc s) mutexid)) as [Hb' Hy]
    by (apply (mutex_frame _ _ t now out); destruct Hrun as [[? _]|(p & _ & ? & _)]; eauto).
  assert (mutex_effect (mutex_at st' mutexid) d t op out) as Heff.
  { destruct Hrun as [[Hrun _]|(p & -> & Hrun & _)]; [|by apply (resume_mutex p t now (ipc s))].
    apply (exec_mutex op t now (ipc s)); [done..|]. destruct Hf as [Hf|Hf]; [by left|right].
    intros -> [m ->]. destruct Hout as [-> _]. by apply (Hf t m). }
  destruct out as [r m|p]; destruct Hout as [-> ->]; cbn [ipc]; (split; [congruence|]; split; [done|]);
    cbn [mutex_effect] in Heff; apply (inv_same _ _ _ _ Heff); try done; intros x; [by rewrite tally_one|cbn; lia].
Qed.

End mutex.


(** Tasks 1 and 2 share an error-checking mutex: task 2 waits while task 1
    holds it, its attempt to unlock it fails, and it gets it afterwards. *)
Definition demo_mutex (ty : mutex_type) : ipc_sys := mk_sys (mutex_create [109] ty no_ipc).2 ∅.
Definition demo_mutex_acts : list action :=
  [ACall 1 0 (OLock 0); ACall 2 0 (OUnlock 0); ACall 2 0 (OLock 0); ACall 1 0 (OUnlock 0); AResume 2 0].


(** A normal mutex does not check who unlocks it: task 2 releases the mutex
    task 1 holds and takes it, and both hold it. *)
Lemma two_holders :
  ∃ s, drive [ACall 1 0 (OLock 0); ACall 2 0 (OUnlock 0); ACall 2 0 (OLock 0)] (demo_mutex MUTEX_NORMAL) =
    Some ([mk_event 1 (OLock 0) 0 None; mk_event 2 (OUnlock 0) 0 None; mk_event 2 (OLock 0) 0 None], s).
Proof. eexists. vm_compute. reflexivity. Qed.

(** ** Message queues as bounded queues *)

Section queue.
Context (mqid : Z).

(** The type and the bytes of a message. *)
Definition payload (m : ipc_message) : Z * list Z := (m_type m, m_data m).

(** [l] are the messages of the ring buffer, the oldest first. *)
Definition mq_rep (q : ipc_msgqueue) (l : list ipc_message) : Prop :=
  0 < max_msgs q ∧ 0 ≤ mq_head q < max_msgs q ∧ cur_msgs q = Z.of_nat (length l) ∧ cur_msgs q ≤ max_msgs q ∧
  mq_tail q = (mq_head q + cur_msgs q) mod max_msgs q ∧
  ∀ i m, l !! i = Some m → (messages q).[(mq_head q + Z.of_nat i) mod max_msgs q] = m.

(** What a bounded queue of capacity [cap] whose messages have at most
    [maxsz] bytes makes of an event: the next contents, or nothing where a
    bounded queue does not behave so. *)
Definition fifo_accept (cap maxsz : Z) (q : list (Z * list Z)) (e : event) : option (list (Z * list Z)) :=
  match ev_op e with
  | OSend i d ty =>
      if negb (i =? mqid) then Some q
      else if (maxsz <? Z.of_nat (length d)) || (cap <=? Z.of_nat (length q)) then
        if ev_ret e =? -1 then Some q else None
      else if ev_ret e =? 0 then Some (q ++ [(ty, d)]) else None
  | OReceive i =>
      if negb (i =? mqid) then Some q
      else match q with
      | [] => if ev_ret e =? -1 then Some [] else None
      | x :: q' => if (ev_ret e =? 0) && bool_decide (payload <$> ev_out e = Some x) then Some q' else None
      end
  | _ => Some q
  end.

Definition fifo_replay (cap maxsz : Z) (q : list (Z * list Z)) (tr : list event) : option (list (Z * list Z)) :=
  foldl (fun oq e => oq ≫= fun q => fifo_accept cap maxsz q e) (Some q) tr.

(** A queue in use whose operations do not wait, with contents [l]. *)
Definition on_queue (p : pending) : bool :=
  match p with PSend i _ _ | PReceive i => i =? mqid | _ => false end.
Definition queue_inv (s : ipc_sys) (l : list ipc_message) : Prop :=
  mq_bad mqid (ipc s) = false ∧ truth (mq_flags (mq_at (ipc s) mqid) &: IPC_NOWAIT) = true ∧
  mq_rep (mq_at (ipc s) mqid) l ∧ map_Forall (fun _ p => on_queue p = false) (waiting s).

(** The ring index of the element after the last. *)
Lemma ring_ne h n i j : 0 < n → 0 ≤ i < j → j < n → (h + i) mod n ≠ (h + j) mod n.
Proof.
  intros Hn Hi Hj E. assert ((j - i) mod n = 0) as H0.
  { replace (j - i) with ((h + j) - (h + i)) by lia. rewrite Zminus_mod, E, Z.sub_diag. by apply Z.mod_0_l; lia. }
  rewrite Z.mod_small in H0; lia.
Qed.

Lemma mq_rep_put st l d ty now :
  mq_rep (mq_at st mqid) l → cur_msgs (mq_at st mqid) < max_msgs (mq_at st mqid) →
  mq_rep (mq_at (mq_put mqid d ty now st) mqid) (l ++ [mk_message ty (Z.of_nat (length d)) now d]).
Proof.
  intros (Hm & Hh & Hc & Hle & Ht & Hl) Hlt. unfold mq_put. rewrite mq_at_upd, decide_True by done.
  set (q := mq_at st mqid) in *. unfold mq_rep. cbn. rewrite length_app. cbn.
  split; [done|]. split; [done|]. split; [lia|]. split; [lia|]. split.
  - rewrite Ht, Zplus_mod_idemp_l. f_equal. lia.
  - intros i m Hi. apply lookup_app_Some in Hi as [Hi|[Hi1 Hi2]].
    + rewrite aget_aset_ne; [by apply Hl|]. pose proof (lookup_lt_Some _ _ _ Hi).
      rewrite Ht. intros E. symmetry in E. revert E. apply ring_ne; lia.
    + apply list_lookup_singleton_Some in Hi2 as [Hi2 <-].
      replace (Z.of_nat i) with (cur_msgs q) by lia. rewrite <-Ht. by rewrite aget_aset_eq.
Qed.

Lemma mq_rep_take st m l out st' :
  mq_rep (mq_at st mqid) (m :: l) → mq_take mqid st = (out, st') →
  out = Done 0 (Some m) ∧ mq_rep (mq_at st' mqid) l.
Proof.
  intros (Hm & Hh & Hc & Hle & Ht & Hl) [= <- <-]. split.
  - do 2 f_equal. rewrite <-(Hl 0%nat m eq_refl). f_equal. rewrite Z.add_0_r, Z.mod_small; done.
  - rewrite mq_at_upd, decide_True by done. set (q := mq_at st mqid) in *. cbn [length] in Hc.
    unfold mq_rep. cbn. split; [done|]. split; [by apply Z.mod_pos_bound|]. split; [lia|]. split; [lia|]. split.
    + rewrite Ht, Zplus_mod_idemp_l. f_equal. lia.
    + intros i m' Hi. rewrite Zplus_mod_idemp_l. rewrite <-(Hl (Datatypes.S i) m' Hi). do 2 f_equal. lia.
Qed.

(** The configuration of a queue, which no operation changes. *)
Definition mq_config (q : ipc_msgqueue) : Z * Z * Z := (mq_flags q, max_msgs q, max_msg_size q).

Definition op_on_queue (op : ipc_op) : bool :=
  match op with OSend i _ _ | OReceive i => i =? mqid | _ => false end.

(** Operations on other objects leave the queue alone. *)
Lemma other_mq st st' t now out op :
  op_on_queue op = false →
  exec op t now st = (out, st') ∨ (∃ p, op = op_of p ∧ resume p t now st = (out, st')) →
  mq_bad mqid st' = mq_bad mqid st ∧ mq_at st' mqid = mq_at st mqid ∧
  match out with
  | Done r m => ∀ cap maxsz q, fifo_accept cap maxsz q (mk_event t op r m) = Some q
  | Blocked p => on_queue p = false
  end.
Proof.
  intros Hq [H|(p & -> & H)]; [destruct op|destruct p]; cbn [exec resume op_on_queue op_of] in *; ipc_paths H;
    autorewrite with kernel_rw; repeat case_decide; subst; rewrite ?Z.eqb_refl in Hq; try done;
    (split; [reflexivity|]); (split; [reflexivity|]); unfold fifo_accept; cbn; rewrite ?Hq; done.
Qed.

(** The two operations on the queue itself are those of a bounded queue. *)
Lemma exec_mq op t now st out st' l :
  exec op t now st = (out, st') → op_on_queue op = true → mq_bad mqid st = false →
  truth (mq_flags (mq_at st mqid) &: IPC_NOWAIT) = true → mq_rep (mq_at st mqid) l →
  mq_bad mqid st' = false ∧ mq_config (mq_at st' mqid) = mq_config (mq_at st mqid) ∧
  ∃ r m l', out = Done r m ∧ mq_rep (mq_at st' mqid) l' ∧
    fifo_accept (max_msgs (mq_at st mqid)) (max_msg_size (mq_at st mqid)) (payload <$> l) (mk_event t op r m)
      = Some (payload <$> l').
Proof.
  intros H Ho Hb Hn Hrep. pose proof Hrep as (_ & _ & Hc & Hle & _).
  destruct op as [i d ty|i| | | | | |]; try done; cbn [op_on_queue exec] in *; apply Z.eqb_eq in Ho as ->;
    unfold fifo_accept; cbn [ev_op ev_ret ev_out]; rewrite Z.eqb_refl; cbn [negb].
  - unfold mq_send in H. rewrite Hb, Hn in H. rewrite length_fmap, <-Hc.
    destruct (max_msg_size (mq_at st mqid) <? Z.of_nat (length d)); cbn [orb].
    { injection H as <- <-. split; [done|]. split; [done|]. by exists (-1), None, l. }
    destruct (Z.leb_spec (max_msgs (mq_at st mqid)) (cur_msgs (mq_at st mqid))); injection H as <- <-.
    { split; [done|]. split; [done|]. by exists (-1), None, l. }
    split; [exact Hb|]. split; [unfold mq_put; rewrite mq_at_upd, decide_True; done|].
    eexists 0, None, _. split; [done|]. split; [by apply mq_rep_put|]. cbn. by rewrite fmap_app.
  - unfold mq_receive in H. rewrite Hb, Hn in H. destruct l as [|m l]; cbn [length] in Hc.
    { rewrite Hc in H. injection H as <- <-. split; [done|]. split; [done|]. by exists (-1), None, []. }
    destruct (Z.eqb_spec (cur_msgs (mq_at st mqid)) 0); [lia|].
    destruct (mq_rep_take st m l out st' Hrep H) as [-> Hrep'].
    injection H as _ <-. split; [exact Hb|]. split; [rewrite mq_at_upd, decide_True; done|].
    exists 0, (Some m), l. split; [done|]. split; [done|]. cbn. by rewrite bool_decide_eq_true_2.
Qed.

Lemma mq_step s e s' l :
  ipc_step s e s' → queue_inv s l →
  mq_config (mq_at (ipc s') mqid) = mq_config (mq_at (ipc s) mqid) ∧
  ∃ l', queue_inv s' l' ∧
    fifo_replay (max_msgs (mq_at (ipc s) mqid)) (max_msg_size (mq_at (ipc s) mqid)) (payload <$> l) e
      = Some (payload <$> l').
Proof.
  intros (t & now & op & w & out & st' & Ht & -> & Hrun & Hout)%ipc_step_inv (Hb & Hn & Hrep & Hw).
  assert (map_Forall (fun _ p => on_queue p = false) (delete t (waiting s))) as Hw' by (by apply map_Forall_delete).
  destruct (op_on_queue op) eqn:Hop.
  - destruct Hrun as [[Hrun _]|(p & -> & _ & Hp)].
    + destruct (exec_mq op t now (ipc s) out st' l) as (Hb' & Hc & r & m & l' & -> & Hr & Ha); [done..|].
      destruct Hout as [-> ->]. split; [done|]. exists l'. split; [|exact Ha].
      split; [done|]. split; [|done]. cbn. injection Hc as -> _ _. done.
    + apply Hw in Hp. destruct p; cbn in *; congruence.
  - destruct (other_mq (ipc s) st' t now out op Hop) as (Hb' & Hq & Ho);
      [destruct Hrun as [[? _]|(p & ? & ? & _)]; eauto|].
    destruct out as [r m|p]; destruct Hout as [-> ->]; unfold queue_inv; cbn [ipc waiting]; rewrite Hb', Hq.
    + split; [done|]. exists l. split; [done|]. cbn. apply Ho.
    + split; [done|]. exists l. split; [|done]. split_and!; try done. by apply map_Forall_insert_2.
Qed.

End queue.


(** Two tasks and a queue for two messages of at most 4 bytes. *)
Definition demo_mq : ipc_sys :=
  mk_sys (mq_create [113] (IPC_CREAT |: IPC_NOWAIT) 2 4 1 ∅ no_ipc three_free).1.2 ∅.
Definition demo_mq_acts : list action :=
  [ACall 1 0 (OReceive 0); ACall 1 1 (OSend 0 [10; 11] 5); ACall 2 2 (OSend 0 [12] 6); ACall 1 3 (OSend 0 [13] 7);
   ACall 2 4 (OReceive 0); ACall 1 5 (OSend 0 [14] 8); ACall 2 6 (OReceive 0)].


(** ** Where the code falls short *)

(** [mq_send] does not test the queue again after [task_block]: a sender that
    is resumed while the queue is full overwrites the oldest message, and
    [cur_msgs] exceeds [max_msgs]. *)
Definition demo_mq_blocking : ipc_sys := mk_sys (mq_create [113] IPC_CREAT 1 4 1 ∅ no_ipc three_free).1.2 ∅.
Lemma resumed_sender_overflows :
  ∃ tr s, drive [ACall 1 0 (OSend 0 [10] 5); ACall 2 0 (OSend 0 [11] 6); AResume 2 0] demo_mq_blocking = Some (tr, s) ∧
          max_msgs (mq_at (ipc s) 0) = 1 ∧ cur_msgs (mq_at (ipc s) 0) = 2 ∧
          payload (messages (mq_at (ipc s) 0)).[0] = (6, [11]).
Proof. eexists _, _. split; [vm_compute; reflexivity|]. split_and!; reflexivity. Qed.

(** The buffer of a queue is one page, a message takes
    [sizeof(ipc_message_t)] = 8208 bytes: every slot but the first lies outside
    the buffer. *)
Definition sizeof_message : Z := 4 + 4 + 8 + MAX_MSG_SIZE.
Lemma slots_outside_buffer i : 1 ≤ i → PAGE_SIZE < i * sizeof_message.
Proof. unfold PAGE_SIZE, sizeof_message, MAX_MSG_SIZE. lia. Qed.

(** A name of 32 characters is cut when stored and never found again. *)
Lemma long_name_not_found :
  find_semaphore (replicate 32 97) (sem_create (replicate 32 97) 1 IPC_CREAT 1 no_ipc).2 = -1.
Proof. vm_compute. reflexivity. Qed.
