(* ===== verification/Fat.v ===== *)
(** * The FAT file system (kernel/fat.c)

    Mounting, the partition table, the cluster chains of the three FAT
    variants, opening, reading and seeking files of the root directory.

    The disk driver is a parameter: [ide_read_sector drive lba buffer] is what
    the driver returns and what the buffer holds afterwards.  The driver
    returns the number of sectors read, 1, or a negative error code
    (include/drivers/ide.h).  A result [None] marks undefined behaviour of the
    C code: a division by zero or an access outside [sector_buffer]; for the
    loop of [fat_read] also that the fuel does not suffice, which
    [fat_read_terminates] excludes.  Output on the serial line is not
    modelled. *)

From S2P Require Import Prelude Bytes.

Definition SECTOR_SIZE : Z := 512.
Definition FAT_TYPE_FAT12 : Z := 12.
Definition FAT_TYPE_FAT16 : Z := 16.
Definition FAT_TYPE_FAT32 : Z := 32.
Definition FAT_ATTR_VOLUME_ID : Z := 0x08.
Definition FAT_ATTR_LONG_NAME : Z := 0x0F.
Definition CLUSTER_END : Z := 0xFFFFFFFF.

(** ** Data *)

Record fat_info := mk_info {
  fi_type : Z;
  fat_start : Z;
  data_start : Z;
  root_start : Z;
  root_cluster : Z;
  cluster_count : Z;
  bytes_per_sector : Z;
  sectors_per_cluster : Z;
  reserved_sectors : Z;
  fat_count : Z;
  sectors_per_fat : Z;
  root_entry_count : Z;
}.

(** The static variables of fat.c. *)
Record fat_state := mk_fat {
  info : fat_info;
  fat_mounted : bool;
  fat_current_drive : Z;
  fat_partition_offset : Z;
  sector_buffer : list Z;
}.
#[export] Instance eta_fat : Eta fat_state := fun s =>
  mk_fat (info s) (fat_mounted s) (fat_current_drive s) (fat_partition_offset s) (sector_buffer s).

Record fat_file := mk_file {
  first_cluster : Z;
  current_cluster : Z;
  position : Z;
  f_size : Z;
  f_attributes : Z;
  f_name : list Z;
  is_open : bool;
}.
#[export] Instance eta_file : Eta fat_file := fun f =>
  mk_file (first_cluster f) (current_cluster f) (position f) (f_size f) (f_attributes f) (f_name f) (is_open f).

(** Division as the code does it. *)
Definition cdiv (x y : Z) : option Z := if y =? 0 then None else Some (x / y).
Definition cmod (x y : Z) : option Z := if y =? 0 then None else Some (x mod y).

Definition is_fat_partition (type : Z) : bool :=
  (type =? 0x01) || (type =? 0x04) || (type =? 0x06) || (type =? 0x0B) || (type =? 0x0C) || (type =? 0x0E).

(** ** Names *)

Definition to_upper (c : Z) : Z := if (97 <=? c) && (c <=? 122) then c - 32 else c.

(** The two copy loops of [fat_name_to_83]: at most [n] characters of [src] to
    [out] from index [i] on. *)
Fixpoint copy_upper (n : nat) (src : list Z) (i : nat) (out : list Z) : list Z :=
  match n, src with
  | S n', c :: src' => copy_upper n' src' (S i) (<[i := to_upper c]> out)
  | _, _ => out
  end.

Definition skip_slash (name : list Z) : list Z :=
  match name with c :: name' => if c =? 47 then name' else name | [] => [] end.

(** The position of the first dot among the first 12 characters. *)
Definition find_dot (name : list Z) : option Z :=
  find_up 12 0 (fun i => match name !! Z.to_nat i with Some c => c =? 46 | None => false end).

Definition fat_name_to_83 (name : list Z) : list Z :=
  let name := skip_slash name in
  let out := replicate 11 32 in
  match find_dot name with
  | Some d =>
      let out := copy_upper (Nat.min 8 (Z.to_nat d)) name 0 out in
      copy_upper 3 (drop (Z.to_nat d + 1) name) 8 out
  | None => copy_upper 8 name 0 out
  end.

(** [fat_compare_83], on the eleven characters. *)
Fixpoint fat_compare_83 (n : nat) (a b : list Z) : Z :=
  match n, a, b with
  | S n', x :: a', y :: b' => if x =? y then fat_compare_83 n' a' b' else 1
  | _, _, _ => 0
  end.

(** ** Operations without the disk *)

Definition fat_unmount (st : fat_state) : Z * fat_state :=
  if negb (fat_mounted st) then (-1, st) else (0, st⟦fat_mounted := false⟧).

Definition fat_cluster_to_sector (i : fat_info) (cluster : Z) : Z :=
  u32 (data_start i + u32 (u32 (cluster - 2) * sectors_per_cluster i)).

Definition fat_close (f : fat_file) : Z * fat_file :=
  if negb (is_open f) then (-1, f) else (0, f⟦is_open := false⟧).

Definition fat_write (f : fat_file) (data : list Z) : Z := -1.
Definition fat_stat (path : list Z) : Z := -1.
Definition fat_set_partition_offset (offset : Z) (st : fat_state) : fat_state := st⟦fat_partition_offset := offset⟧.
Definition fat_get_info (st : fat_state) : option fat_info := if fat_mounted st then Some (info st) else None.
Definition fat_is_mounted (st : fat_state) : bool := fat_mounted st.

Definition fat_write_sector {D} (ide_write_sector : Z → Z → list Z → D → Z * D)
    (sector : Z) (buffer : list Z) (st : fat_state) (d : D) : Z * D :=
  let '(result, d) := ide_write_sector (fat_current_drive st) (u32 (sector + fat_partition_offset st)) buffer d in
  (if 0 <? result then 0 else -1, d).

(** The BPB fields [fat_mount] and [fat_detect_type] read. *)
Definition fat_detect_type (buf : list Z) : option Z :=
  rec ← le16 buf 17; bps ← le16 buf 11; spf16 ← le16 buf 22; spf32 ← le32 buf 36;
  ts16 ← le16 buf 19; ts32 ← le32 buf 32; res ← le16 buf 14; fc ← byte_at buf 16; spc ← byte_at buf 13;
  root_dir_sectors ← cdiv (rec * 32 + (bps - 1)) bps;
  let fat_size := if truth spf16 then spf16 else spf32 in
  let total_sectors := if truth ts16 then ts16 else ts32 in
  let data_sectors := u32 (total_sectors - u32 (res + u32 (fc * fat_size) + root_dir_sectors)) in
  count ← cdiv data_sectors spc;
  Some (if count <? 4085 then FAT_TYPE_FAT12 else if count <? 65525 then FAT_TYPE_FAT16 else FAT_TYPE_FAT32).

(** ** Operations on the disk *)

Section disk.
Context (ide_read_sector : Z → Z → list Z → Z * list Z).

(** Every call reads into [sector_buffer]. *)
Definition fat_read_sector (sector : Z) (st : fat_state) : Z * fat_state :=
  let '(result, buf) := ide_read_sector (fat_current_drive st) (u32 (sector + fat_partition_offset st)) (sector_buffer st) in
  (if 0 <? result then 0 else -1, st⟦sector_buffer := buf⟧).

(** The search of the partition table. *)
Fixpoint find_fat_partition (n : nat) (i : Z) (buf : list Z) : option Z :=
  match n with
  | O => Some 0
  | S n' =>
      type ← byte_at buf (446 + 16 * i + 4); lba ← le32 buf (446 + 16 * i + 8);
      if is_fat_partition type && (0 <? lba) then Some lba else find_fat_partition n' (i + 1) buf
  end.

(** The three characters FAT at offset [i]. *)
Definition fat_tag (buf : list Z) (i : Z) : option bool :=
  a ← byte_at buf i; b ← byte_at buf (i + 1); c ← byte_at buf (i + 2);
  Some ((a =? 70) && (b =? 65) && (c =? 84)).

Definition fat_find_partition (drive : Z) (st : fat_state) : option (Z * fat_state) :=
  let '(result, buf) := ide_read_sector drive 0 (sector_buffer st) in
  let st := st⟦sector_buffer := buf⟧ in
  if result <=? 0 then Some (0, st)
  else
    s1 ← byte_at buf 510; s2 ← byte_at buf 511;
    if negb (s1 =? 0x55) || negb (s2 =? 0xAA) then Some (0, st)
    else
      t1 ← fat_tag buf 0x36; t2 ← fat_tag buf 0x52;
      if t1 || t2 then Some (0, st)
      else lba ← find_fat_partition 4 0 buf; Some (lba, st).

Definition fat_mount (drive : Z) (st : fat_state) : option (Z * fat_state) :=
  let st := st⟦fat_current_drive := drive⟧ in
  let '(r, st) := fat_read_sector 0 st in
  if negb (r =? 0) then Some (-1, st)
  else
    let buf := sector_buffer st in
    s1 ← byte_at buf 510; s2 ← byte_at buf 511;
    if negb (s1 =? 0x55) || negb (s2 =? 0xAA) then Some (-1, st)
    else
      type ← fat_detect_type buf;
      bps ← le16 buf 11; spc ← byte_at buf 13; res ← le16 buf 14; fc ← byte_at buf 16; rec ← le16 buf 17;
      spf ← (if type =? FAT_TYPE_FAT32 then le32 buf 36 else le16 buf 22);
      rc ← (if type =? FAT_TYPE_FAT32 then le32 buf 44 else Some 0);
      root_dir_sectors ← cdiv (rec * 32 + (bps - 1)) bps;
      let root := u32 (res + u32 (fc * spf)) in
      let data := u32 (root + root_dir_sectors) in
      ts16 ← le16 buf 19; ts32 ← le32 buf 32;
      let total_sectors := if truth ts16 then ts16 else ts32 in
      count ← cdiv (u32 (total_sectors - data)) spc;
      Some (0, st⟦info := mk_info type res data root rc count bps spc res fc spf rec⟧⟦fat_mounted := true⟧).

Definition fat_init (drive : Z) (st : fat_state) : option (Z * fat_state) :=
  '(partition_start, st) ← fat_find_partition drive st;
  fat_mount drive (fat_set_partition_offset partition_start st).

(** The three variants of the allocation table. *)
Definition fat_get_next_cluster (cluster : Z) (st : fat_state) : option (Z * fat_state) :=
  if negb (fat_mounted st) then Some (CLUSTER_END, st)
  else
    let i := info st in
    if fi_type i =? FAT_TYPE_FAT12 then
      let fat_offset := u32 (cluster + cluster / 2) in
      q ← cdiv fat_offset (bytes_per_sector i); entry_offset ← cmod fat_offset (bytes_per_sector i);
      let '(_, st) := fat_read_sector (u32 (fat_start i + q)) st in
      next ← le16 (sector_buffer st) entry_offset;
      let next := if truth (cluster &: 1) then next >>: 4 else next &: 0x0FFF in
      Some (if 0x0FF8 <=? next then CLUSTER_END else next, st)
    else if fi_type i =? FAT_TYPE_FAT16 then
      let fat_offset := u32 (cluster * 2) in
      q ← cdiv fat_offset (bytes_per_sector i); entry_offset ← cmod fat_offset (bytes_per_sector i);
      let '(_, st) := fat_read_sector (u32 (fat_start i + q)) st in
      next ← le16 (sector_buffer st) entry_offset;
      Some (if 0xFFF8 <=? next then CLUSTER_END else next, st)
    else
      let fat_offset := u32 (cluster * 4) in
      q ← cdiv fat_offset (bytes_per_sector i); entry_offset ← cmod fat_offset (bytes_per_sector i);
      let '(_, st) := fat_read_sector (u32 (fat_start i + q)) st in
      next ← le32 (sector_buffer st) entry_offset;
      let next := next &: 0x0FFFFFFF in
      Some (if 0x0FFFFFF8 <=? next then CLUSTER_END else next, st).

(** *** The root directory *)

Definition root_sector (i : fat_info) : Z :=
  if fi_type i =? FAT_TYPE_FAT32 then fat_cluster_to_sector i (root_cluster i) else root_start i.

(** Entry [j] of the directory sector in [buf]: its 32 bytes. *)
Definition dir_entry (buf : list Z) (j : nat) : list Z := take 32 (drop (32 * j) buf).

Definition fill_file (path : list Z) (e : list Z) (f : fat_file) : option fat_file :=
  hi ← le16 e 20; lo ← le16 e 26; sz ← le32 e 28; attr ← byte_at e 11;
  let c := (hi <<: 16) |: lo in
  Some (mk_file c c 0 sz attr (match path with [] => f_name f | _ => take 255 path end) true).

(** The loop over the entries of one sector: [inl] the result of [fat_open],
    or [inr] to go on with the next sector. *)
Fixpoint open_in_sector (n j : nat) (path name83 : list Z) (f : fat_file) (buf : list Z) : option (Z * fat_file + unit) :=
  match n with
  | O => Some (inr tt)
  | S n' =>
      let e := dir_entry buf j in
      c ← byte_at e 0; attr ← byte_at e 11;
      if c =? 0 then Some (inl (-1, f))
      else if c =? 0xE5 then open_in_sector n' (S j) path name83 f buf
      else if truth (attr &: FAT_ATTR_LONG_NAME) then open_in_sector n' (S j) path name83 f buf
      else if truth (attr &: FAT_ATTR_VOLUME_ID) then open_in_sector n' (S j) path name83 f buf
      else if fat_compare_83 11 e name83 =? 0 then f' ← fill_file path e f; Some (inl (0, f'))
      else open_in_sector n' (S j) path name83 f buf
  end.

Fixpoint open_loop (n : nat) (sector : Z) (path name83 : list Z) (f : fat_file) (st : fat_state) :
    option (Z * fat_file * fat_state) :=
  match n with
  | O => Some (-1, f, st)
  | S n' =>
      let '(r, st) := fat_read_sector (u32 sector) st in
      if negb (r =? 0) then Some (-1, f, st)
      else
        out ← open_in_sector 16 0 path name83 f (sector_buffer st);
        match out with
        | inl (r, f) => Some (r, f, st)
        | inr _ => open_loop n' (sector + 1) path name83 f st
        end
  end.

(** How many directory sectors [fat_open] searches. *)
Definition search_sectors (i : fat_info) : Z :=
  let max_entries := if fi_type i =? FAT_TYPE_FAT32 then sectors_per_cluster i * bytes_per_sector i / 32
                     else root_entry_count i in
  if 4 <? max_entries / 16 then 4 else max_entries / 16.

Definition fat_open (path : list Z) (f : fat_file) (st : fat_state) : option (Z * fat_file * fat_state) :=
  if negb (fat_mounted st) then Some (-1, f, st)
  else open_loop (Z.to_nat (search_sectors (info st))) (root_sector (info st)) path (fat_name_to_83 path) f st.

(** The inner loop of [fat_list_dir]: the entries listed so far are [acc];
    the boolean says whether the end of the directory was met. *)
Fixpoint list_sector (n j : nat) (max_entries : Z) (buf : list Z) (acc : list (list Z)) : option (list (list Z) * bool) :=
  match n with
  | O => Some (acc, false)
  | S n' =>
      if max_entries <=? Z.of_nat (length acc) then Some (acc, false)
      else
        let e := dir_entry buf j in
        c ← byte_at e 0; attr ← byte_at e 11;
        if c =? 0 then Some (acc, true)
        else if c =? 0xE5 then list_sector n' (S j) max_entries buf acc
        else if truth (attr &: FAT_ATTR_LONG_NAME) then list_sector n' (S j) max_entries buf acc
        else list_sector n' (S j) max_entries buf (acc ++ [e])
  end.

Fixpoint list_loop (n : nat) (sector max_entries : Z) (acc : list (list Z)) (st : fat_state) :
    option (Z * list (list Z) * fat_state) :=
  match n with
  | O => Some (Z.of_nat (length acc), acc, st)
  | S n' =>
      if max_entries <=? Z.of_nat (length acc) then Some (Z.of_nat (length acc), acc, st)
      else
        let '(r, st) := fat_read_sector (u32 sector) st in
        if negb (r =? 0) then Some (Z.of_nat (length acc), acc, st)
        else
          '(acc, stop) ← list_sector 16 0 max_entries (sector_buffer st) acc;
          if stop : bool then Some (Z.of_nat (length acc), acc, st)
          else list_loop n' (sector + 1) max_entries acc st
  end.

Definition fat_list_dir (path : list Z) (max_entries : Z) (st : fat_state) : option (Z * list (list Z) * fat_state) :=
  if negb (fat_mounted st) then Some (-1, [], st)
  else list_loop (Z.to_nat (root_entry_count (info st) / 16)) (root_sector (info st)) max_entries [] st.

(** *** File contents *)

Definition cluster_size (i : fat_info) : Z := sectors_per_cluster i * bytes_per_sector i.

(** One iteration of the loop of [fat_read]: [inl] on a read error, or the
    bytes copied, the file and the state. *)
Definition read_step (remaining : Z) (f : fat_file) (st : fat_state) :
    option (fat_state + list Z * fat_file * fat_state) :=
  let i := info st in
  cluster_offset ← cmod (position f) (cluster_size i);
  let cluster_remaining := cluster_size i - cluster_offset in
  let to_read := if remaining <? cluster_remaining then remaining else cluster_remaining in
  q ← cdiv cluster_offset (bytes_per_sector i);
  sector_offset ← cmod cluster_offset (bytes_per_sector i);
  let sector := u32 (fat_cluster_to_sector i (current_cluster f) + q) in
  let '(r, st) := fat_read_sector sector st in
  if negb (r =? 0) then Some (inl st)
  else
    let rest := bytes_per_sector i - sector_offset in
    let copy_size := if to_read <? rest then to_read else rest in
    if Z.of_nat (length (sector_buffer st)) <? sector_offset + copy_size then None
    else
      let bytes := take (Z.to_nat copy_size) (drop (Z.to_nat sector_offset) (sector_buffer st)) in
      let f := f⟦position ::= fun p => u32 (p + copy_size)⟧ in
      if cluster_size i <=? cluster_offset + copy_size then
        '(c, st) ← fat_get_next_cluster (current_cluster f) st;
        Some (inr (bytes, f⟦current_cluster := c⟧, st))
      else Some (inr (bytes, f, st)).

(** The loop of [fat_read]; the bytes copied so far are [acc]. *)
Fixpoint read_loop (fuel : nat) (size : Z) (acc : list Z) (f : fat_file) (st : fat_state) :
    option (list Z * fat_file * fat_state) :=
  if (Z.of_nat (length acc) <? size) && negb (current_cluster f =? CLUSTER_END) then
    match fuel with
    | O => None
    | S fuel' =>
        out ← read_step (size - Z.of_nat (length acc)) f st;
        match out with
        | inl st => Some (acc, f, st)
        | inr (bytes, f, st) => read_loop fuel' size (acc ++ bytes) f st
        end
    end
  else Some (acc, f, st).

(** The result: the return value, the bytes written to the caller's buffer,
    the file and the state.  Every iteration copies a byte at least, so [size]
    iterations are enough. *)
Definition fat_read (f : fat_file) (size : Z) (st : fat_state) : option (Z * list Z * fat_file * fat_state) :=
  if negb (fat_mounted st) || negb (is_open f) then Some (-1, [], f, st)
  else if f_size f <=? position f then Some (0, [], f, st)
  else
    let size := if f_size f <? u32 (position f + size) then f_size f - position f else size in
    '(bytes, f, st) ← read_loop (Z.to_nat size) size [] f st;
    Some (i32 (Z.of_nat (length bytes)), bytes, f, st).

(** The walk of [fat_seek]. *)
Fixpoint seek_loop (n : nat) (f : fat_file) (st : fat_state) : option (fat_file * fat_state) :=
  match n with
  | O => Some (f, st)
  | S n' =>
      if current_cluster f =? CLUSTER_END then Some (f, st)
      else '(c, st) ← fat_get_next_cluster (current_cluster f) st; seek_loop n' (f⟦current_cluster := c⟧) st
  end.

Definition fat_seek (f : fat_file) (pos : Z) (st : fat_state) : option (Z * fat_file * fat_state) :=
  if negb (is_open f) then Some (-1, f, st)
  else
    let pos := if f_size f <? pos then f_size f else pos in
    let f := f⟦position := pos⟧ in
    target ← cdiv pos (cluster_size (info st));
    '(f, st) ← seek_loop (Z.to_nat target) (f⟦current_cluster := first_cluster f⟧) st;
    Some (0, f, st).

End disk.

(** ** Names in 8.3 form *)

Lemma copy_upper_spec n src i out :
  (i + Nat.min n (length src) ≤ length out)%nat →
  copy_upper n src i out = take i out ++ (to_upper <$> take n src) ++ drop (i + Nat.min n (length src)) out.
Proof.
  revert src i out. induction n as [|n IH]; intros src i out Hl; cbn [copy_upper].
  - rewrite Nat.add_0_r. symmetry. apply take_drop.
  - destruct src as [|c src]; cbn [length Nat.min] in Hl |- *; [rewrite Nat.add_0_r; symmetry; apply take_drop|].
    rewrite IH by (rewrite length_insert; lia).
    rewrite (take_S_r _ _ (to_upper c)) by (apply list_lookup_insert_eq; lia).
    rewrite take_insert_ge by lia. rewrite drop_insert_lt by lia.
    rewrite <-app_assoc. cbn. do 3 f_equal. f_equal. lia.
Qed.

Lemma copy_upper_length n src i out : length (copy_upper n src i out) = length out.
Proof.
  revert src i out. induction n as [|n IH]; intros [|c src] i out; cbn; try done.
  by rewrite IH, length_insert.
Qed.

Definition lower (c : Z) : Prop := 97 ≤ c ≤ 122.

(** The capital of a letter, by position in the alphabet; other characters
    stay. *)
Definition capital (c : Z) : Z := if decide (97 ≤ c ∧ c ≤ 122) then 65 + (c - 97) else c.

Lemma to_upper_capital (s : list Z) : to_upper <$> s = capital <$> s.
Proof.
  apply list_fmap_ext. intros _ c _. unfold to_upper, capital.
  case_decide; repeat case_if; lia.
Qed.

Lemma copy_upper_no_lower n src i out :
  Forall (fun c => ¬ lower c) out → Forall (fun c => ¬ lower c) (copy_upper n src i out).
Proof.
  revert src i out. induction n as [|n IH]; intros [|c src] i out Ho; cbn; try done.
  apply IH. apply Forall_insert; [done|]. unfold to_upper, lower. case_if; [|lia]. case_if; lia.
Qed.

(** [w] characters, padded with spaces. *)
Definition pad (w : nat) (s : list Z) : list Z := s ++ replicate (w - length s) 32.

Lemma find_dot_base base ext :
  (length base ≤ 8)%nat → 46 ∉ base → find_dot (base ++ 46 :: ext) = Some (Z.of_nat (length base)).
Proof.
  intros Hl Hd. unfold find_dot. apply find_up_Some. split; [lia|]. split.
  - rewrite Nat2Z.id, lookup_app_r, Nat.sub_diag by lia. done.
  - intros k Hk. rewrite lookup_app_l by lia. destruct (base !! Z.to_nat k) as [c|] eqn:E; [|done].
    apply Z.eqb_neq. intros ->. apply Hd. by apply list_elem_of_lookup_2 with (Z.to_nat k).
Qed.

Lemma find_dot_none base : 46 ∉ base → find_dot base = None.
Proof.
  intros Hd. unfold find_dot. apply find_up_None. intros k _.
  destruct (base !! Z.to_nat k) as [c|] eqn:E; [|done].
  apply Z.eqb_neq. intros ->. apply Hd. by apply list_elem_of_lookup_2 with (Z.to_nat k).
Qed.

Lemma skip_slash_id name : 47 ∉ name → skip_slash name = name.
Proof. destruct name as [|c name]; [done|]. intros H. cbn. destruct (Z.eqb_spec c 47); [set_solver|done]. Qed.

Lemma name_83_ext base ext :
  (length base ≤ 8)%nat → (length ext ≤ 3)%nat → 46 ∉ base → 47 ∉ base →
  fat_name_to_83 (base ++ 46 :: ext) = pad 8 (to_upper <$> base) ++ pad 3 (to_upper <$> ext).
Proof.
  intros Hb He Hd Hs. unfold fat_name_to_83.
  assert (skip_slash (base ++ 46 :: ext) = base ++ 46 :: ext) as ->.
  { destruct base as [|c base]; [done|]. cbn. destruct (Z.eqb_spec c 47); [set_solver|done]. }
  rewrite find_dot_base by done. rewrite Nat2Z.id, (copy_upper_spec (Nat.min _ _)) by (rewrite length_app, length_replicate; cbn [length]; lia).
  rewrite copy_upper_spec.
  2: { rewrite ?length_app, ?length_fmap, ?length_take, ?length_drop, ?length_app, ?length_replicate. cbn [length]. lia. }
  assert (drop (length base + 1) (base ++ 46 :: ext) = ext) as ->.
  { rewrite <-drop_drop, drop_app_length. done. }
  assert (take (Nat.min 8 (length base)) (base ++ 46 :: ext) = base) as ->.
  { replace (Nat.min 8 (length base)) with (length base) by lia. apply take_app_length. }
  replace (Nat.min (Nat.min 8 (length base)) (length (base ++ 46 :: ext))) with (length base)
    by (rewrite length_app; cbn [length]; lia).
  rewrite (take_ge ext) by lia. replace (Nat.min 3 (length ext)) with (length ext) by lia.
  unfold pad. rewrite !length_fmap, drop_replicate. change (take 0 (replicate 11 32)) with (@nil Z).
  rewrite !app_nil_l. rewrite (take_app_ge _ _ 8), (drop_app_ge _ _ (8 + _)) by (rewrite length_fmap; lia).
  rewrite length_fmap, take_replicate, drop_replicate, <-!app_assoc. do 2 f_equal; [f_equal; lia|]. do 2 f_equal. lia.
Qed.

Lemma name_83_base base :
  (length base ≤ 8)%nat → 46 ∉ base → 47 ∉ base → fat_name_to_83 base = pad 8 (to_upper <$> base) ++ pad 3 [].
Proof.
  intros Hb Hd Hs. unfold fat_name_to_83. rewrite skip_slash_id, find_dot_none by done.
  rewrite copy_upper_spec by (rewrite length_replicate; lia). rewrite (take_ge base) by lia. unfold pad. rewrite length_fmap.
  replace (Nat.min 8 (length base)) with (length base) by lia. change (take 0 (replicate 11 32)) with (@nil Z).
  rewrite !app_nil_l, drop_replicate, <-app_assoc, <-replicate_add. do 2 f_equal. cbn [length]. lia.
Qed.

(** [fat_name_to_83] produces the form directory entries have: always
    eleven characters, none of them lower case; a name and an extension that
    fit become their capitals, each padded with spaces, and a leading slash is
    ignored. *)
Theorem fat_name_83_form :
  (∀ name, length (fat_name_to_83 name) = 11%nat ∧ Forall (fun c => ¬ lower c) (fat_name_to_83 name)) ∧
  (∀ base ext, (length base ≤ 8)%nat → (length ext ≤ 3)%nat → 46 ∉ base → 47 ∉ base →
     fat_name_to_83 (base ++ 46 :: ext) = pad 8 (capital <$> base) ++ pad 3 (capital <$> ext)) ∧
  (∀ base, (length base ≤ 8)%nat → 46 ∉ base → 47 ∉ base →
     fat_name_to_83 base = pad 8 (capital <$> base) ++ pad 3 []) ∧
  (∀ name, head name ≠ Some 47 → fat_name_to_83 (47 :: name) = fat_name_to_83 name).
Proof.
  split; [|split; [intros; rewrite <-!to_upper_capital; by apply name_83_ext|
    split; [intros; rewrite <-to_upper_capital; by apply name_83_base|]]].
  - intros name. assert (Forall (fun c => ¬ lower c) (replicate 11 32))
      by (apply Forall_replicate; unfold lower; lia).
    unfold fat_name_to_83. destruct (find_dot _); rewrite ?copy_upper_length;
      (split; [done|]); repeat apply copy_upper_no_lower; done.
  - intros name Hn. unfold fat_name_to_83. replace (skip_slash name) with name; [done|].
    destruct name as [|c name]; [done|]. cbn in *. destruct (Z.eqb_spec c 47); [congruence|done].
Qed.

(** ** Reading terminates *)

(** A volume with sectors of the size of the buffer, as fat.c assumes. *)
Definition geometry (i : fat_info) : Prop := bytes_per_sector i = SECTOR_SIZE ∧ 0 < sectors_per_cluster i < 256.

(** [st'] is [st] but for a sector that was read. *)
Definition read_from (st st' : fat_state) : Prop :=
  ∃ b, length b = Z.to_nat SECTOR_SIZE ∧ st' = st⟦sector_buffer := b⟧.

Definition has_buffer (st : fat_state) : Prop := length (sector_buffer st) = Z.to_nat SECTOR_SIZE.

Lemma read_from_buffer st st' : read_from st st' → has_buffer st' ∧ info st' = info st ∧ fat_mounted st' = fat_mounted st.
Proof. intros (b & Hb & ->). done. Qed.

Lemma read_from_trans st1 st2 st3 : read_from st1 st2 → read_from st2 st3 → read_from st1 st3.
Proof. intros (b1 & _ & ->) (b2 & Hb & ->). by exists b2. Qed.

Lemma read_from_refl st : has_buffer st → read_from st st.
Proof. intros H. exists (sector_buffer st). split; [done|]. by destruct st. Qed.

Lemma byte_at_defined buf i :
  length buf = Z.to_nat SECTOR_SIZE → 0 ≤ i < SECTOR_SIZE → is_Some (byte_at buf i).
Proof. intros Hl Hi. apply lookup_lt_is_Some. rewrite Hl. lia. Qed.

Lemma le16_defined buf i :
  length buf = Z.to_nat SECTOR_SIZE → 0 ≤ i < SECTOR_SIZE - 1 → is_Some (le16 buf i).
Proof.
  intros Hl Hi. unfold le16.
  destruct (byte_at_defined buf i Hl) as [a ->]; [lia|]. cbn.
  destruct (byte_at_defined buf (i + 1) Hl) as [b ->]; [lia|]. by eexists.
Qed.

Lemma le32_defined buf i :
  length buf = Z.to_nat SECTOR_SIZE → 0 ≤ i < SECTOR_SIZE - 3 → is_Some (le32 buf i).
Proof.
  intros Hl Hi. unfold le32.
  destruct (le16_defined buf i Hl) as [a ->]; [lia|]. cbn.
  destruct (le16_defined buf (i + 2) Hl) as [b ->]; [lia|]. by eexists.
Qed.

Lemma cdiv_pos x y : 0 < y → cdiv x y = Some (x / y).
Proof. intros. unfold cdiv. case_if; [lia|done]. Qed.
Lemma cmod_pos x y : 0 < y → cmod x y = Some (x mod y).
Proof. intros. unfold cmod. case_if; [lia|done]. Qed.

(** An entry of [k] bytes, [k] a divisor of the sector size, does not straddle
    two sectors. *)
Lemma entry_inside c k : k = 2 ∨ k = 4 → 0 ≤ u32 (c * k) mod SECTOR_SIZE ≤ SECTOR_SIZE - k.
Proof.
  intros Hk. unfold u32, SECTOR_SIZE.
  pose proof (Z.mod_pos_bound ((c * k) mod 2 ^ 32) 512 ltac:(lia)).
  enough (((c * k) mod 2 ^ 32 mod 512) mod k = 0) by (destruct Hk as [-> | ->]; Z.div_mod_to_equations; lia).
  destruct Hk as [-> | ->]; Z.div_mod_to_equations; lia.
Qed.

(** The offset inside a cluster, by sectors. *)
Lemma cluster_split i p :
  geometry i → 0 ≤ p mod cluster_size i < cluster_size i ∧
  p mod cluster_size i = SECTOR_SIZE * (p mod cluster_size i / SECTOR_SIZE) + p mod SECTOR_SIZE ∧
  (p mod cluster_size i) mod SECTOR_SIZE = p mod SECTOR_SIZE ∧
  SECTOR_SIZE - p mod SECTOR_SIZE ≤ cluster_size i - p mod cluster_size i.
Proof.
  intros [Hb Hs]. unfold cluster_size. rewrite Hb. set (n := sectors_per_cluster i) in *. clearbody n.
  unfold SECTOR_SIZE. assert ((p mod (n * 512)) mod 512 = p mod 512) as Hm.
  { apply Z.mod_mod_divide. by exists n. }
  pose proof (Z.mod_pos_bound p (n * 512) ltac:(lia)) as Hr.
  pose proof (Z.div_mod (p mod (n * 512)) 512 ltac:(lia)) as Hd. rewrite Hm in Hd.
  split_and!; [lia|lia|lia|done|].
  set (q := p mod (n * 512) / 512) in *. pose proof (Z.mod_pos_bound p 512 ltac:(lia)).
  assert (q < n) by lia. lia.
Qed.

(** One iteration in plain terms: it copies the rest of the sector or what is
    left to copy, and moves to the next cluster at the end of this one. *)
Lemma read_step_eq ide n f st :
  geometry (info st) → 0 < n →
  let so := position f mod SECTOR_SIZE in
  let copy := Z.min n (SECTOR_SIZE - so) in
  let off := position f mod cluster_size (info st) in
  let '(r, st1) := fat_read_sector ide (u32 (fat_cluster_to_sector (info st) (current_cluster f) + off / SECTOR_SIZE)) st in
  let f1 := f⟦position := u32 (position f + copy)⟧ in
  let bytes := take (Z.to_nat copy) (drop (Z.to_nat so) (sector_buffer st1)) in
  has_buffer st1 →
  0 < copy ∧ Z.of_nat (length bytes) = copy ∧
  read_step ide n f st =
    if negb (r =? 0) then Some (inl st1)
    else if cluster_size (info st) <=? off + copy then
      '(c, st2) ← fat_get_next_cluster ide (current_cluster f) st1; Some (inr (bytes, f1⟦current_cluster := c⟧, st2))
    else Some (inr (bytes, f1, st1)).
Proof.
  intros Hg Hn so copy off. destruct (cluster_split (info st) (position f) Hg) as (Ho & _ & Hso & Hle).
  destruct Hg as [Hb Hs]. fold off in Ho, Hso, Hle. fold so in Hso, Hle.
  pose proof (Z.mod_pos_bound (position f) SECTOR_SIZE ltac:(done)) as Hsr. fold so in Hsr.
  assert (0 < cluster_size (info st)) by lia.
  destruct (fat_read_sector ide _ st) as [r st1] eqn:E. intros f1 bytes Hbuf.
  assert (Z.of_nat (length bytes) = copy) as Hlen.
  { unfold bytes. rewrite length_take, length_drop. unfold has_buffer in Hbuf. rewrite Hbuf. lia. }
  split; [lia|]. split; [done|]. unfold read_step.
  rewrite cmod_pos by done. cbn [mbind option_bind]. fold off. rewrite Hb, cdiv_pos by done. cbn [mbind option_bind].
  rewrite cmod_pos by done. cbn [mbind option_bind]. rewrite E.
  destruct (r =? 0); cbn [negb]; [|done]. rewrite Hso.
  assert ((if (if n <? cluster_size (info st) - off then n else cluster_size (info st) - off) <? SECTOR_SIZE - so
           then if n <? cluster_size (info st) - off then n else cluster_size (info st) - off else SECTOR_SIZE - so) = copy) as ->
    by (unfold copy; repeat case_if; lia).
  destruct (Z.ltb_spec (Z.of_nat (length (sector_buffer st1))) (so + copy)) as [Hx|_];
    [unfold has_buffer in Hbuf; rewrite Hbuf in Hx; lia|].
  done.
Qed.

Section termination.
Context (ide_read_sector : Z → Z → list Z → Z * list Z).

(** The driver fills a sector or leaves the buffer; it never resizes it. *)
Hypothesis ide_sector : ∀ d l b, length b = Z.to_nat SECTOR_SIZE → length (ide_read_sector d l b).2 = Z.to_nat SECTOR_SIZE.

Lemma fat_read_sector_total sector st :
  has_buffer st → ∃ r st', fat_read_sector ide_read_sector sector st = (r, st') ∧ read_from st st'.
Proof.
  intros Hb. unfold fat_read_sector.
  pose proof (ide_sector (fat_current_drive st) (u32 (sector + fat_partition_offset st)) _ Hb) as Hl.
  destruct (ide_read_sector _ _ _) as [r b]. eexists _, _. split; [done|]. by exists b.
Qed.

Lemma next_cluster_total c st :
  has_buffer st → geometry (info st) → fi_type (info st) ≠ FAT_TYPE_FAT12 →
  ∃ c' st', fat_get_next_cluster ide_read_sector c st = Some (c', st') ∧ read_from st st'.
Proof.
  intros Hb [Hbps _] Hty. unfold fat_get_next_cluster.
  destruct (fat_mounted st); cbn [negb]; [|eexists _, _; split; [done|by apply read_from_refl]].
  destruct (Z.eqb_spec (fi_type (info st)) FAT_TYPE_FAT12); [done|].
  destruct (Z.eqb_spec (fi_type (info st)) FAT_TYPE_FAT16); rewrite Hbps, !cdiv_pos, !cmod_pos by done; cbn [mbind option_bind];
    match goal with |- context [fat_read_sector _ ?x st] =>
      destruct (fat_read_sector_total x st Hb) as (r & st' & -> & Hst') end;
    destruct (read_from_buffer _ _ Hst') as (Hb' & _).
  - destruct (le16_defined (sector_buffer st') (u32 (c * 2) mod SECTOR_SIZE) Hb') as [v ->];
      [pose proof (entry_inside c 2 ltac:(by left)); lia|]. cbn. eauto.
  - destruct (le32_defined (sector_buffer st') (u32 (c * 4) mod SECTOR_SIZE) Hb') as [v ->];
      [pose proof (entry_inside c 4 ltac:(by right)); lia|]. cbn. eauto.
Qed.


Lemma read_step_total n f st :
  has_buffer st → geometry (info st) → fi_type (info st) ≠ FAT_TYPE_FAT12 → 0 < n →
  ∃ out, read_step ide_read_sector n f st = Some out ∧
    match out with
    | inl st' => read_from st st'
    | inr (bytes, _, st') => 0 < Z.of_nat (length bytes) ≤ n ∧ read_from st st'
    end.
Proof.
  intros Hb Hg Hty Hn. pose proof (read_step_eq ide_read_sector n f st Hg Hn) as Heq. cbv zeta in Heq.
  match type of Heq with context [fat_read_sector _ ?x st] =>
    destruct (fat_read_sector_total x st Hb) as (r & st1 & E & Hst1) end. rewrite E in Heq.
  destruct (read_from_buffer _ _ Hst1) as (Hb1 & Hi1 & _). destruct (Heq Hb1) as (Hc & Hl & ->).
  destruct (r =? 0); cbn [negb]; [|by eexists]. case_if; [|eexists; split; [done|]; split; [lia|done]].
  destruct (next_cluster_total (current_cluster f) st1) as (c & st2 & -> & Hst2); [done|by rewrite Hi1..|].
  eexists. split; [done|]. split; [lia|]. by apply read_from_trans with st1.
Qed.

Lemma read_loop_total fuel size acc f st :
  has_buffer st → geometry (info st) → fi_type (info st) ≠ FAT_TYPE_FAT12 →
  Z.of_nat (length acc) ≤ size → size - Z.of_nat (length acc) ≤ Z.of_nat fuel →
  ∃ bytes f' st', read_loop ide_read_sector fuel size acc f st = Some (bytes, f', st') ∧
    Z.of_nat (length bytes) ≤ size ∧ read_from st st'.
Proof.
  revert acc f st. induction fuel as [|fuel IH]; intros acc f st Hb Hg Hty Hle Hf; cbn [read_loop].
  - destruct (Z.ltb_spec (Z.of_nat (length acc)) size); [lia|]. cbn. eexists _, _, _. split; [done|].
    split; [done|by apply read_from_refl].
  - destruct ((Z.of_nat (length acc) <? size) && negb (current_cluster f =? CLUSTER_END)) eqn:Ec.
    2: { eexists _, _, _. split; [done|]. split; [done|by apply read_from_refl]. }
    apply andb_true_iff in Ec as [Ec%Z.ltb_lt _].
    destruct (read_step_total (size - Z.of_nat (length acc)) f st Hb Hg Hty) as (out & -> & Hout); [lia|]. cbn.
    destruct out as [st1|[[bytes f1] st1]]; [eexists _, _, _; done|]. destruct Hout as [Hn Hst1].
    destruct (read_from_buffer _ _ Hst1) as (Hb1 & Hi1 & _).
    destruct (IH (acc ++ bytes) f1 st1) as (bs & f2 & st2 & E & Hl & Hst2);
      [done|by rewrite Hi1|by rewrite Hi1|rewrite length_app; lia..|].
    eexists _, _, _. split; [exact E|]. split; [done|]. by apply read_from_trans with st1.
Qed.

End termination.


(** A volume of one-sector clusters on which every sector is the same: each
    cluster is followed by cluster 2, cluster 2 by itself. *)
Definition ring_sector : list Z := concat (replicate 256 [2; 0]).
Definition ring_info : fat_info := mk_info FAT_TYPE_FAT16 1 33 1 0 8000 512 1 1 2 16 512.
Definition ring_volume : fat_state := mk_fat ring_info true 0 0 ring_sector.
Definition ring_file : fat_file := mk_file 2 2 0 5000 0 [] true.


(** ** What a file holds *)

(** Positions in the same sector are in the same sector of the same cluster. *)
Lemma same_sector i p k :
  geometry i → 0 ≤ p → 0 ≤ k < SECTOR_SIZE - p mod SECTOR_SIZE →
  (p + k) / cluster_size i = p / cluster_size i ∧
  (p + k) mod cluster_size i / SECTOR_SIZE = p mod cluster_size i / SECTOR_SIZE ∧
  (p + k) mod SECTOR_SIZE = p mod SECTOR_SIZE + k.
Proof.
  intros [Hb Hs] Hp Hk. unfold cluster_size. rewrite Hb. set (n := sectors_per_cluster i) in *. clearbody n.
  unfold SECTOR_SIZE in *. assert ((p + k) / 512 = p / 512 ∧ (p + k) mod 512 = p mod 512 + k) as [Hd Hm]
    by (Z.div_mod_to_equations; lia).
  rewrite (Z.mul_comm n 512), <-!Z.div_div by lia. rewrite Hd. split; [done|]. split; [|done].
  rewrite !Z.rem_mul_r by lia. rewrite Hd.
  rewrite !(Z.mul_comm 512), !Z.div_add by lia.
  rewrite !(Z.div_small (_ mod 512)) by (apply Z.mod_pos_bound; lia). done.
Qed.

(** The cluster of the position after copying up to the end of the sector. *)
Lemma next_position i p k :
  geometry i → 0 ≤ p → 0 < k ≤ SECTOR_SIZE - p mod SECTOR_SIZE →
  (p + k) / cluster_size i = p / cluster_size i + (if cluster_size i <=? p mod cluster_size i + k then 1 else 0).
Proof.
  intros Hg Hp Hk. destruct (cluster_split i p Hg) as (Hr & _ & _ & Hle).
  assert (p + k = cluster_size i * (p / cluster_size i) + (p mod cluster_size i + k)) as E
    by (pose proof (Z.div_mod p (cluster_size i)); lia).
  rewrite E, (Z.mul_comm (cluster_size i)), Z.add_comm, Z.div_add by lia.
  destruct (Z.leb_spec (cluster_size i) (p mod cluster_size i + k)).
  - replace (p mod cluster_size i + k) with (cluster_size i) by lia. rewrite Z.div_same by lia. lia.
  - rewrite Z.div_small by lia. lia.
Qed.

Section content.
Context (ide_read_sector : Z → Z → list Z → Z * list Z) (disk : Z → Z → list Z).

(** Every sector can be read, and holds what the disk holds. *)
Hypothesis ide_reads : ∀ d l b, ide_read_sector d l b = (1, disk d l).
Hypothesis disk_sector : ∀ d l, length (disk d l) = Z.to_nat SECTOR_SIZE.

(** The contents of a sector of the volume. *)
Definition sector_at (st : fat_state) (sector : Z) : list Z :=
  disk (fat_current_drive st) (u32 (u32 sector + fat_partition_offset st)).

(** The cluster after [c] in the allocation table. *)
Definition fat_next (st : fat_state) (c : Z) : option Z := fst <$> fat_get_next_cluster ide_read_sector c st.

(** The clusters [cs] are a chain of the table. *)
Definition cluster_chain (st : fat_state) (cs : list Z) : Prop :=
  ∀ k c, cs !! k = Some c → c ≠ CLUSTER_END ∧
    ∃ c', fat_next st c = Some c' ∧ ∀ c2, cs !! S k = Some c2 → c' = c2.

(** Byte [p] of the file with the clusters [cs]. *)
Definition file_byte (st : fat_state) (cs : list Z) (p : Z) : option Z :=
  c ← cs !! Z.to_nat (p / cluster_size (info st));
  byte_at (sector_at st (data_start (info st) + (c - 2) * sectors_per_cluster (info st) + p mod cluster_size (info st) / SECTOR_SIZE))
    (p mod SECTOR_SIZE).

(** An open file with the clusters [cs]. *)
Definition file_on_disk (st : fat_state) (f : fat_file) (cs : list Z) : Prop :=
  fat_mounted st = true ∧ geometry (info st) ∧ is_open f = true ∧ cluster_chain st cs ∧
  cs !! 0%nat = Some (first_cluster f) ∧
  0 ≤ f_size f < 2 ^ 32 ∧ f_size f ≤ Z.of_nat (length cs) * cluster_size (info st).

(** The file is positioned: before its end, in the cluster of the position. *)
Definition positioned (st : fat_state) (f : fat_file) (cs : list Z) : Prop :=
  0 ≤ position f ≤ f_size f ∧
  (position f < f_size f → cs !! Z.to_nat (position f / cluster_size (info st)) = Some (current_cluster f)).

Lemma read_sector_disk sector st :
  fat_read_sector ide_read_sector sector st =
    (0, st⟦sector_buffer := disk (fat_current_drive st) (u32 (sector + fat_partition_offset st))⟧).
Proof. unfold fat_read_sector. by rewrite ide_reads. Qed.

(** A lookup in the table depends on the volume only. *)
Lemma next_cluster_buffer c st b :
  fat_mounted st = true →
  fat_get_next_cluster ide_read_sector c (st⟦sector_buffer := b⟧) = fat_get_next_cluster ide_read_sector c st.
Proof.
  intros Hm. destruct st as [i m d o buf]. cbn in Hm. subst m.
  unfold fat_get_next_cluster. cbn [info fat_mounted modify_field negb].
  destruct (fi_type i =? FAT_TYPE_FAT12); [|destruct (fi_type i =? FAT_TYPE_FAT16)];
    destruct (cdiv _ _); try done; destruct (cmod _ _); try done; cbn [mbind option_bind]; rewrite !read_sector_disk; reflexivity.
Qed.

Lemma next_cluster_read c st c' st' :
  fat_mounted st = true → fat_get_next_cluster ide_read_sector c st = Some (c', st') → read_from st st'.
Proof.
  intros Hm. unfold fat_get_next_cluster. rewrite Hm. cbn [negb].
  destruct (fi_type (info st) =? FAT_TYPE_FAT12); [|destruct (fi_type (info st) =? FAT_TYPE_FAT16)];
    destruct (cdiv _ _); try done; destruct (cmod _ _); try done; cbn [mbind option_bind]; rewrite read_sector_disk;
    intros H; run_inv; subst; eexists; (split; [|reflexivity]); apply disk_sector.
Qed.


(** Nothing about a file depends on the sector buffer. *)
Lemma read_from_volume st st' :
  read_from st st' → fat_mounted st = true →
  info st' = info st ∧ has_buffer st' ∧
  (∀ c, fat_next st' c = fat_next st c) ∧ (∀ cs p, file_byte st' cs p = file_byte st cs p) ∧
  (∀ f cs, file_on_disk st f cs → file_on_disk st' f cs) ∧ (∀ f cs, positioned st f cs → positioned st' f cs).
Proof.
  intros (b & Hb & ->) Hm.
  assert (∀ c, fat_next (st⟦sector_buffer := b⟧) c = fat_next st c) as Hn
    by (intros c; unfold fat_next; by rewrite next_cluster_buffer).
  split; [done|]. split; [done|]. split; [done|]. split; [done|]. split; [|done].
  intros f cs (_ & Hg & Ho & Hc & H0 & Hs). split; [done|]. split; [done|]. split; [done|]. split; [|done].
  intros k c Hk. destruct (Hc k c Hk) as (He & c' & Hc' & Hx). split; [done|]. exists c'. by rewrite Hn.
Qed.

(** The file [f'] is [f] after reading [n] bytes. *)
Definition moved (f f' : fat_file) (n : Z) : Prop :=
  position f' = position f + n ∧ first_cluster f' = first_cluster f ∧ f_size f' = f_size f ∧ is_open f' = is_open f.

Lemma moved_on_disk st f f' cs n : moved f f' n → file_on_disk st f cs → file_on_disk st f' cs.
Proof. intros (_ & H1 & H2 & H3) H. unfold file_on_disk in *. rewrite H1, H2, H3. done. Qed.

Lemma sector_at_cluster st c q :
  sector_at st (fat_cluster_to_sector (info st) c + q) =
  sector_at st (data_start (info st) + (c - 2) * sectors_per_cluster (info st) + q).
Proof.
  unfold sector_at, fat_cluster_to_sector, u32.
  do 3 f_equal. rewrite Zplus_mod_idemp_l, Zmult_mod_idemp_l.
  rewrite <-Z.add_assoc, (Z.add_comm (_ mod _)), Z.add_assoc, Zplus_mod_idemp_r. f_equal. lia.
Qed.

(** The bytes from a position to the end of its sector. *)
Lemma sector_bytes st cs p c n i :
  geometry (info st) → 0 ≤ p → n ≤ SECTOR_SIZE - p mod SECTOR_SIZE →
  cs !! Z.to_nat (p / cluster_size (info st)) = Some c → 0 ≤ i < n →
  take (Z.to_nat n) (drop (Z.to_nat (p mod SECTOR_SIZE))
    (sector_at st (fat_cluster_to_sector (info st) c + p mod cluster_size (info st) / SECTOR_SIZE))) !! Z.to_nat i
  = file_byte st cs (p + i).
Proof.
  intros Hg Hp Hn Hc Hi. destruct (same_sector (info st) p i Hg) as (E1 & E2 & E3); [lia|lia|].
  unfold file_byte. rewrite E1, E2, E3, Hc, sector_at_cluster. cbn [mbind option_bind]. unfold byte_at.
  rewrite lookup_take_lt by lia. rewrite lookup_drop.
  f_equal. pose proof (Z.mod_pos_bound p SECTOR_SIZE ltac:(done)). lia.
Qed.

Lemma read_step_file n f st cs :
  has_buffer st → file_on_disk st f cs → positioned st f cs → 0 < n ≤ f_size f - position f →
  ∃ bytes f' st', read_step ide_read_sector n f st = Some (inr (bytes, f', st')) ∧ read_from st st' ∧
    0 < Z.of_nat (length bytes) ≤ n ∧ moved f f' (Z.of_nat (length bytes)) ∧ positioned st f' cs ∧
    ∀ i, 0 ≤ i < Z.of_nat (length bytes) → bytes !! Z.to_nat i = file_byte st cs (position f + i).
Proof.
  intros Hb (Hm & Hg & Ho & Hc & H0 & Hs & Hlen) (Hp & Hcur) Hn. specialize (Hcur ltac:(lia)).
  pose proof (read_step_eq ide_read_sector n f st Hg ltac:(lia)) as Heq. cbv zeta in Heq.
  rewrite read_sector_disk in Heq. set (st1 := st⟦sector_buffer := _⟧) in Heq.
  assert (read_from st st1) as Hst1 by (eexists; split; [apply disk_sector|reflexivity]).
  destruct (read_from_volume _ _ Hst1 Hm) as (Hi1 & Hb1 & Hnx & _).
  set (so := position f mod SECTOR_SIZE) in *. set (copy := Z.min n (SECTOR_SIZE - so)) in *.
  destruct (Heq Hb1) as (Hc0 & Hbl & Hstep). clear Heq. cbn [Z.eqb negb] in Hstep.
  set (bytes := take _ _) in Hbl, Hstep.
  assert (u32 (position f + copy) = position f + copy) as Hu by (apply u32_small; lia).
  assert (∀ i, 0 ≤ i < copy → bytes !! Z.to_nat i = file_byte st cs (position f + i)) as Hbytes
    by (intros i Hi; by apply (sector_bytes st cs (position f) (current_cluster f)); [|lia|lia| |lia]).
  pose proof (next_position (info st) (position f) copy Hg ltac:(lia) ltac:(lia)) as Hnp.
  rewrite <-Hbl in Hbytes. destruct (Z.leb_spec (cluster_size (info st)) (position f mod cluster_size (info st) + copy)).
  - destruct (Hc _ _ Hcur) as (_ & c' & Hc' & Hlink). rewrite <-Hnx in Hc'. unfold fat_next in Hc'.
    destruct (fat_get_next_cluster ide_read_sector (current_cluster f) st1) as [[c2 st2]|] eqn:En; [|done].
    cbn in Hc'. injection Hc' as ->. rewrite Hstep. cbn [mbind option_bind].
    eexists _, _, _. split; [done|]. split; [apply read_from_trans with st1; [done|by eapply next_cluster_read]|].
    split; [lia|]. split; [split; [cbn; lia|done]|]. split; [|done].
    split; [cbn; lia|]. cbn. rewrite Hu. intros Hlt. rewrite Hnp.
    assert (0 < cluster_size (info st)) by (destruct Hg as [Hb' ?]; unfold cluster_size; rewrite Hb'; unfold SECTOR_SIZE; lia).
    assert (0 ≤ position f / cluster_size (info st)) by (apply Z.div_pos; lia).
    replace (Z.to_nat (position f / cluster_size (info st) + 1)) with (S (Z.to_nat (position f / cluster_size (info st)))) in * by lia.
    destruct (lookup_lt_is_Some_2 cs (S (Z.to_nat (position f / cluster_size (info st))))) as [c2 Hc2].
    { assert ((position f + copy) / cluster_size (info st) < Z.of_nat (length cs)) by (apply Z.div_lt_upper_bound; lia). lia. }
    rewrite Hc2. f_equal. symmetry. by apply Hlink.
  - rewrite Hstep. eexists _, _, _. split; [done|]. split; [done|]. split; [lia|].
    split; [split; [cbn; lia|done]|]. split; [|done]. split; [cbn; lia|]. cbn. rewrite Hu. intros _.
    by rewrite Hnp, Z.add_0_r.
Qed.

Lemma read_loop_file fuel size acc f st cs :
  has_buffer st → file_on_disk st f cs → positioned st f cs → Z.of_nat (length acc) ≤ size →
  size - Z.of_nat (length acc) ≤ Z.min (f_size f - position f) (Z.of_nat fuel) →
  ∃ bytes f' st', read_loop ide_read_sector fuel size acc f st = Some (acc ++ bytes, f', st') ∧ read_from st st' ∧
    Z.of_nat (length bytes) = size - Z.of_nat (length acc) ∧ moved f f' (Z.of_nat (length bytes)) ∧ positioned st f' cs ∧
    ∀ i, 0 ≤ i < Z.of_nat (length bytes) → bytes !! Z.to_nat i = file_byte st cs (position f + i).
Proof.
  revert acc f st. induction fuel as [|fuel IH]; intros acc f st Hb Hd Hp Hle Hsz;
    cbn [read_loop]; destruct (Z.ltb_spec (Z.of_nat (length acc)) size) as [Hlt|Hge]; try lia; cbn [andb].
  1, 3: exists [], f, st; rewrite app_nil_r; split; [done|]; split; [by apply read_from_refl|];
        cbn; split; [lia|]; split; [split; [lia|done]|]; split; [done|]; intros; lia.
  destruct (Z.eqb_spec (current_cluster f) CLUSTER_END) as [He|_].
  { exfalso. destruct Hp as [Hp Hcur]. destruct Hd as (_ & _ & _ & Hc & _). by destruct (Hc _ _ (Hcur ltac:(lia))). }
  destruct (read_step_file (size - Z.of_nat (length acc)) f st cs Hb Hd Hp)
    as (b1 & f1 & st1 & -> & Hst1 & Hl1 & Hm1 & Hp1 & Hb1); [lia|]. cbn [mbind option_bind negb].
  destruct (read_from_volume _ _ Hst1 (proj1 Hd)) as (_ & Hbuf1 & _ & Hfb & Hd1 & Hps).
  destruct (IH (acc ++ b1) f1 st1) as (b2 & f2 & st2 & -> & Hst2 & Hl2 & Hm2 & Hp2 & Hb2);
    [done|apply Hd1; by apply (moved_on_disk st f f1 cs (Z.of_nat (length b1)))|by apply Hps|rewrite length_app; lia| |].
  { destruct Hm1 as (-> & _ & -> & _). rewrite length_app. lia. }
  rewrite length_app in Hl2. exists (b1 ++ b2), f2, st2. rewrite app_assoc. split; [done|].
  split; [by apply read_from_trans with st1|]. rewrite length_app. split; [lia|].
  destruct Hm1 as (Q1 & Q2 & Q3 & Q4), Hm2 as (R1 & R2 & R3 & R4). split; [split; [lia|split_and!; congruence]|].
  split. { destruct (read_from_buffer _ _ Hst1) as (_ & E & _). unfold positioned in Hp2 |- *. by rewrite E in Hp2. }
  intros i Hi. destruct (decide (i < Z.of_nat (length b1))).
  - rewrite lookup_app_l by lia. apply Hb1. lia.
  - rewrite lookup_app_r by lia. replace (Z.to_nat i - length b1)%nat with (Z.to_nat (i - Z.of_nat (length b1))) by lia.
    rewrite Hb2, Hfb by lia. f_equal. lia.
Qed.

Lemma seek_loop_file n k f st cs :
  has_buffer st → fat_mounted st = true → cluster_chain st cs →
  cs !! k = Some (current_cluster f) → (k + n ≤ length cs)%nat →
  ∃ c st', seek_loop ide_read_sector n f st = Some (f⟦current_cluster := c⟧, st') ∧ read_from st st' ∧
    ∀ c', cs !! (k + n)%nat = Some c' → c = c'.
Proof.
  revert k f st. induction n as [|n IH]; intros k f st Hb Hm Hc Hk Hn; cbn [seek_loop].
  - exists (current_cluster f), st. split; [by destruct f|]. split; [by apply read_from_refl|].
    intros c'. rewrite Nat.add_0_r, Hk. by intros [= <-].
  - destruct (Hc k _ Hk) as (He & c1 & Hc1 & Hlink).
    destruct (Z.eqb_spec (current_cluster f) CLUSTER_END); [done|]. unfold fat_next in Hc1.
    destruct (fat_get_next_cluster ide_read_sector (current_cluster f) st) as [[c2 st1]|] eqn:En; [|done].
    cbn in Hc1. injection Hc1 as ->. cbn [mbind option_bind].
    pose proof (next_cluster_read _ _ _ _ Hm En) as Hst1.
    destruct (read_from_volume _ _ Hst1 Hm) as (_ & Hb1 & Hnx & _).
    destruct (cs !! S k) as [c2|] eqn:Hk2.
    + specialize (Hlink c2 eq_refl). subst c2.
      destruct (IH (S k) (f⟦current_cluster := c1⟧) st1) as (c & st2 & E & Hst2 & Hc2); [done| | |done|lia|].
      { by destruct (read_from_buffer _ _ Hst1) as (_ & _ & ->). }
      { intros j x Hx. destruct (Hc j x Hx) as (He' & c' & Hc' & Hx'). split; [done|]. exists c'. by rewrite Hnx. }
      exists c, st2. split; [exact E|]. split; [by apply read_from_trans with st1|].
      intros c'. rewrite <-Nat.add_succ_comm. apply Hc2.
    + assert (n = 0%nat) as -> by (apply lookup_ge_None in Hk2; lia). cbn [seek_loop].
      exists c1, st1. split; [done|]. split; [done|]. intros c'. rewrite Nat.add_1_r. congruence.
Qed.

Lemma fat_seek_ok f pos st cs :
  has_buffer st → file_on_disk st f cs → 0 ≤ pos →
  ∃ f' st', fat_seek ide_read_sector f pos st = Some (0, f', st') ∧ read_from st st' ∧
    position f' = Z.min pos (f_size f) ∧ f_size f' = f_size f ∧ file_on_disk st' f' cs ∧ positioned st' f' cs.
Proof.
  intros Hb (Hm & Hg & Ho & Hc & H0 & Hs & Hlen) Hpos. unfold fat_seek. rewrite Ho. cbn [negb].
  assert (0 < cluster_size (info st)) by (destruct Hg as [Hb' ?]; unfold cluster_size; rewrite Hb'; unfold SECTOR_SIZE; lia).
  assert ((if f_size f <? pos then f_size f else pos) = Z.min pos (f_size f)) as -> by (case_if; lia).
  set (p := Z.min pos (f_size f)). rewrite cdiv_pos by done. cbn [mbind option_bind].
  assert (0 ≤ p / cluster_size (info st) ≤ Z.of_nat (length cs)) as Ht
    by (split; [apply Z.div_pos; lia|apply Z.div_le_upper_bound; lia]).
  destruct (seek_loop_file (Z.to_nat (p / cluster_size (info st))) 0
    (f⟦position := p⟧⟦current_cluster := first_cluster f⟧) st cs) as (c & st' & E & Hst & Hc'); [done..|lia|].
  cbn in E |- *. rewrite E. cbn. eexists _, st'. split; [done|]. split; [done|].
  destruct (read_from_volume _ _ Hst Hm) as (Hi & _ & _ & _ & Hd & _).
  split; [done|]. split; [done|]. split; [by apply Hd|]. split; [cbn; lia|]. cbn. rewrite Hi. intros Hlt.
  destruct (lookup_lt_is_Some_2 cs (Z.to_nat (p / cluster_size (info st)))) as [c2 Hc2].
  { assert (p / cluster_size (info st) < Z.of_nat (length cs)) by (apply Z.div_lt_upper_bound; lia). lia. }
  rewrite Hc2. f_equal. symmetry. by apply Hc'.
Qed.

Lemma fat_read_ok f size st cs :
  has_buffer st → file_on_disk st f cs → positioned st f cs → 0 ≤ size → position f + size < 2 ^ 32 →
  let n := Z.min size (f_size f - position f) in
  ∃ bytes f' st', fat_read ide_read_sector f size st = Some (i32 n, bytes, f', st') ∧ read_from st st' ∧
    Z.of_nat (length bytes) = n ∧ (∀ i, 0 ≤ i < n → bytes !! Z.to_nat i = file_byte st cs (position f + i)) ∧
    moved f f' n ∧ file_on_disk st' f' cs ∧ positioned st' f' cs.
Proof.
  intros Hb Hd Hp Hs Hsum n. pose proof Hd as (Hm & _ & Ho & _). unfold fat_read. rewrite Hm, Ho. cbn [negb orb].
  destruct Hp as [Hr Hcur]. destruct (Z.leb_spec (f_size f) (position f)).
  { assert (n = 0) as -> by lia. exists [], f, st. split; [done|]. split; [by apply read_from_refl|].
    split; [done|]. split; [intros; lia|]. split; [split; [lia|done]|]. done. }
  rewrite u32_small by lia.
  assert ((if f_size f <? position f + size then f_size f - position f else size) = n) as -> by (case_if; lia).
  destruct (read_loop_file (Z.to_nat n) n [] f st cs Hb Hd (conj Hr Hcur))
    as (bytes & f' & st' & -> & Hst & Hl & Hmv & Hp' & Hbytes); [cbn; lia|cbn; lia|].
  cbn in Hl. rewrite Z.sub_0_r in Hl. rewrite Hl in *. cbn [mbind option_bind app].
  exists bytes, f', st'. rewrite Hl. destruct (read_from_volume _ _ Hst Hm) as (_ & _ & _ & _ & Hd' & Hp'').
  split; [done|]. split; [done|]. split; [done|]. split; [done|]. split; [done|].
  split; [apply Hd'; by apply (moved_on_disk st f f' cs n)|by apply Hp''].
Qed.

End content.


(** A file of 700 bytes in the clusters 2 and 3 of one sector each: the table in
    sector 1, the data from sector 33 on. *)
Definition demo_disk (d l : Z) : list Z :=
  if l =? 1 then [0xF8; 0xFF; 0xFF; 0xFF; 3; 0; 0xFF; 0xFF] ++ replicate 504 0
  else if l =? 33 then replicate 512 65
  else replicate 512 66.
Definition demo_ide (d l : Z) (b : list Z) : Z * list Z := (1, demo_disk d l).
Definition demo_file : fat_file := mk_file 2 2 510 700 0 [] true.

Lemma demo_disk_sector d l : length (demo_disk d l) = Z.to_nat SECTOR_SIZE.
Proof. unfold demo_disk. repeat case_if; reflexivity. Qed.

Lemma demo_on_disk : file_on_disk demo_ide ring_volume demo_file [2; 3].
Proof.
  split; [reflexivity|]. split; [split; [reflexivity|cbn; lia]|]. split; [reflexivity|].
  split; [|split; [reflexivity|split; [cbn; lia|vm_compute; discriminate]]].
  intros [|[|k]] c Hk; [injection Hk as <-|injection Hk as <-|discriminate Hk]; (split; [discriminate|]).
  - exists 3. split; [vm_compute; reflexivity|]. by intros c2 [= <-].
  - exists CLUSTER_END. split; [vm_compute; reflexivity|]. intros c2 [=].
Qed.


(** ** Opening a file *)

(** The entries of a directory sector, and of a directory up to its end
    marker. *)
Definition sector_entries (buf : list Z) : list (list Z) := dir_entry buf <$> seq 0 16.
Definition ends_dir (e : list Z) : bool := default 0 (byte_at e 0) =? 0.
Fixpoint before_end (es : list (list Z)) : list (list Z) :=
  match es with
  | [] => []
  | e :: es' => if ends_dir e then [] else e :: before_end es'
  end.

(** The entry of a file named [nm] that [fat_open] takes into account. *)
Definition names_file (nm e : list Z) : bool :=
  negb (default 0 (byte_at e 0) =? 0xE5) && ((default 0 (byte_at e 11) &: FAT_ATTR_LONG_NAME) =? 0) &&
  bool_decide (take 11 e = nm).

Definition dir_lookup (nm : list Z) (es : list (list Z)) : option (list Z) := find (names_file nm) (before_end es).

Lemma dir_lookup_app nm es1 es2 :
  dir_lookup nm (es1 ++ es2) =
    match dir_lookup nm es1 with
    | Some e => Some e
    | None => if existsb ends_dir es1 then None else dir_lookup nm es2
    end.
Proof.
  unfold dir_lookup. induction es1 as [|e es1 IH]; [done|]. cbn. destruct (ends_dir e); [done|]. cbn.
  by destruct (names_file nm e).
Qed.

Lemma before_end_elem e es : e ∈ before_end es → e ∈ es.
Proof.
  induction es as [|x es IH]; cbn [before_end]; [done|].
  destruct (ends_dir x); [intros H; by apply not_elem_of_nil in H|]. rewrite !elem_of_cons. tauto.
Qed.

Lemma dir_lookup_elem nm es e : dir_lookup nm es = Some e → e ∈ es.
Proof. intros [H _]%find_some. apply before_end_elem. by apply list_elem_of_In. Qed.

Lemma dir_entry_length buf j : length buf = Z.to_nat SECTOR_SIZE → (j < 16)%nat → length (dir_entry buf j) = 32%nat.
Proof. intros Hb Hj. unfold dir_entry. rewrite length_take, length_drop, Hb. change (Z.to_nat SECTOR_SIZE) with 512%nat. lia. Qed.

Lemma entry_byte e i : length e = 32%nat → 0 ≤ i < 32 → byte_at e i = Some (default 0 (byte_at e i)).
Proof.
  intros He Hi. unfold byte_at. destruct (lookup_lt_is_Some_2 e (Z.to_nat i)) as [x ->]; [lia|done].
Qed.

Lemma compare_83_spec n a b :
  (n ≤ length a)%nat → length b = n → (fat_compare_83 n a b =? 0) = bool_decide (take n a = b).
Proof.
  revert a b. induction n as [|n IH]; intros a b Ha Hb.
  - destruct b; [|done]. reflexivity.
  - destruct a as [|x a]; [cbn in Ha; lia|]. destruct b as [|y b]; [done|].
    cbn in Ha, Hb. cbn [fat_compare_83 take].
    destruct (Z.eqb_spec x y) as [->|Hne].
    + rewrite IH by lia. apply bool_decide_ext. split; [congruence|by intros [= ->]].
    + symmetry. apply bool_decide_eq_false. congruence.
Qed.

(** The file [f'] is open at the start of what the entry [e] describes. *)
Definition opened_as (path e : list Z) (f' : fat_file) : Prop :=
  (∃ hi lo, le16 e 20 = Some hi ∧ le16 e 26 = Some lo ∧ first_cluster f' = (hi <<: 16) |: lo) ∧
  le32 e 28 = Some (f_size f') ∧ byte_at e 11 = Some (f_attributes f') ∧
  position f' = 0 ∧ current_cluster f' = first_cluster f' ∧ is_open f' = true ∧ (path ≠ [] → f_name f' = take 255 path).

Lemma fill_file_defined path e f :
  length e = 32%nat → ∃ f', fill_file path e f = Some f' ∧ opened_as path e f'.
Proof.
  intros He. unfold fill_file, opened_as, le32, le16.
  rewrite (entry_byte e 11 He), (entry_byte e 20 He), (entry_byte e (20 + 1) He), (entry_byte e 26 He),
    (entry_byte e (26 + 1) He), (entry_byte e 28 He), (entry_byte e (28 + 1) He), (entry_byte e (28 + 2) He),
    (entry_byte e (28 + 2 + 1) He) by lia. cbn [mbind option_bind].
  eexists. split; [done|]. cbn. split; [by eexists _, _|]. do 5 (split; [done|]). by destruct path.
Qed.

(** The loop over a sector is a lookup among its entries. *)
Lemma open_in_sector_spec n j path nm f buf :
  length buf = Z.to_nat SECTOR_SIZE → length nm = 11%nat → (j + n ≤ 16)%nat →
  let es := dir_entry buf <$> seq j n in
  open_in_sector n j path nm f buf =
    match dir_lookup nm es with
    | Some e => f' ← fill_file path e f; Some (inl (0, f'))
    | None => Some (if existsb ends_dir es then inl (-1, f) else inr tt)
    end.
Proof.
  intros Hb Hnm. revert j. induction n as [|n IH]; intros j Hj; [done|].
  assert (length (dir_entry buf j) = 32%nat) as He by (apply dir_entry_length; [done|lia]).
  cbn [open_in_sector]. rewrite (entry_byte _ 0), (entry_byte _ 11) by (done || lia). cbn [mbind option_bind].
  unfold dir_lookup. cbn [seq fmap list_fmap before_end existsb].
  fold (ends_dir (dir_entry buf j)). destruct (ends_dir (dir_entry buf j)); [done|]. cbn [find orb].
  cbv zeta in IH. rewrite IH by lia. unfold dir_lookup.
  assert (names_file nm (dir_entry buf j) = negb (default 0 (byte_at (dir_entry buf j) 0) =? 0xE5) &&
    ((default 0 (byte_at (dir_entry buf j) 11) &: FAT_ATTR_LONG_NAME) =? 0) && bool_decide (take 11 (dir_entry buf j) = nm)) as ->
    by reflexivity.
  destruct (default 0 (byte_at (dir_entry buf j) 0) =? 0xE5); [done|]. cbn [negb andb].
  set (attr := default 0 (byte_at (dir_entry buf j) 11)). unfold truth.
  destruct (Z.eqb_spec (attr &: FAT_ATTR_LONG_NAME) 0) as [Ha|]; cbn [negb andb]; [|done].
  assert (attr &: FAT_ATTR_VOLUME_ID = 0) as ->.
  { change FAT_ATTR_VOLUME_ID with (FAT_ATTR_LONG_NAME &: 8). by rewrite Z.land_assoc, Ha. }
  cbn [Z.eqb negb]. rewrite compare_83_spec by (done || lia). by destruct (bool_decide _).
Qed.

Section open.
Context (ide_read_sector : Z → Z → list Z → Z * list Z) (disk : Z → Z → list Z).
Hypothesis ide_reads : ∀ d l b, ide_read_sector d l b = (1, disk d l).
Hypothesis disk_sector : ∀ d l, length (disk d l) = Z.to_nat SECTOR_SIZE.

(** The entries of [n] directory sectors from [sector] on. *)
Fixpoint entries_from (st : fat_state) (sector : Z) (n : nat) : list (list Z) :=
  match n with
  | O => []
  | S n' => sector_entries (sector_at disk st sector) ++ entries_from st (sector + 1) n'
  end.

Lemma entries_from_buffer st b sector n : entries_from (st⟦sector_buffer := b⟧) sector n = entries_from st sector n.
Proof. revert sector. induction n as [|n IH]; intros sector; cbn; [done|]. by rewrite IH. Qed.

Lemma open_loop_spec n sector path nm f st :
  has_buffer st → length nm = 11%nat →
  ∃ r f' st', open_loop ide_read_sector n sector path nm f st = Some (r, f', st') ∧ read_from st st' ∧
    match dir_lookup nm (entries_from st sector n) with
    | Some e => r = 0 ∧ fill_file path e f = Some f' ∧ length e = 32%nat
    | None => r = -1 ∧ f' = f
    end.
Proof.
  intros Hb Hnm. revert sector st Hb. induction n as [|n IH]; intros sector st Hb; cbn [open_loop].
  { exists (-1), f, st. split; [done|]. split; [by apply read_from_refl|done]. }
  rewrite (read_sector_disk _ _ ide_reads). cbn [Z.eqb negb sector_buffer modify_field].
  fold (sector_at disk st sector). set (st1 := mk_fat _ _ _ _ (sector_at disk st sector)).
  assert (read_from st st1) as Hst1 by (eexists; split; [|reflexivity]; apply disk_sector).
  rewrite open_in_sector_spec by (done || lia || apply disk_sector). cbn [entries_from].
  fold (sector_entries (sector_at disk st sector)). rewrite dir_lookup_app.
  destruct (dir_lookup nm (sector_entries (sector_at disk st sector))) as [e|] eqn:El.
  - assert (length e = 32%nat) as He.
    { apply dir_lookup_elem in El as Hin.
      apply list_elem_of_fmap in Hin as (j & -> & Hj). apply elem_of_seq in Hj. apply dir_entry_length; [apply disk_sector|lia]. }
    destruct (fill_file_defined path e f He) as (f' & Hf & _). rewrite Hf. cbn. eexists _, _, _. done.
  - cbn [mbind option_bind]. destruct (existsb ends_dir (sector_entries (sector_at disk st sector))).
    + eexists _, _, _. done.
    + destruct (IH (sector + 1) st1) as (r & f' & st' & E & Hst & Hm); [by eapply read_from_buffer|].
      exists r, f', st'. split; [exact E|]. split; [by apply read_from_trans with st1|].
      destruct Hst1 as (b & _ & Hst1). rewrite Hst1, entries_from_buffer in Hm. exact Hm.
Qed.

End open.


(** The root directory of the volume above, in sector 1, with a deleted entry,
    the file A.B and the end marker; [attr] are the attributes of the file. *)
Definition demo_entry (first attr : Z) : list Z :=
  [first; 32; 32; 32; 32; 32; 32; 32; 66; 32; 32; attr] ++ replicate 14 0 ++ [5; 0; 188; 2; 0; 0].
Definition demo_root (attr d l : Z) : list Z := demo_entry 0xE5 0 ++ demo_entry 65 attr ++ replicate 448 0.

Lemma demo_root_sector attr d l : length (demo_root attr d l) = Z.to_nat SECTOR_SIZE.
Proof. reflexivity. Qed.


(** ** Where the code falls short *)

(** Entries with any of the bits 0 to 3 pass for long names, so a read-only,
    hidden or system file cannot be opened. *)
Lemma read_only_not_found :
  ∃ f' st', fat_open (fun d l _ => (1, demo_root 0x21 d l)) [47; 97; 46; 98] ring_file ring_volume = Some (-1, f', st').
Proof. eexists _, _. vm_compute. reflexivity. Qed.

(** An entry of FAT12 at the last byte of a sector is read across the end of
    the buffer: cluster 341. *)
Lemma fat12_entry_straddles :
  fat_get_next_cluster (fun _ _ _ => (1, ring_sector)) 341
    (ring_volume⟦info := mk_info FAT_TYPE_FAT12 1 33 1 0 8000 512 1 1 2 16 512⟧) = None.
Proof. vm_compute. reflexivity. Qed.

(** [fat_list_dir] goes by [root_entry_count], which is 0 on FAT32. *)
Lemma fat32_lists_nothing ide path n st :
  fat_mounted st = true → root_entry_count (info st) = 0 → fat_list_dir ide path n st = Some (0, [], st).
Proof. intros Hm Hr. unfold fat_list_dir. by rewrite Hm, Hr. Qed.

Lemma read_loop_mono ide n m size acc f st out :
  read_loop ide n size acc f st = Some out → (n ≤ m)%nat → read_loop ide m size acc f st = Some out.
Proof.
  revert m acc f st. induction n as [|n IH]; intros m acc f st H Hm; cbn [read_loop] in H.
  - destruct m; cbn [read_loop]; case_match; done.
  - destruct m as [|m]; [lia|]. cbn [read_loop]. destruct ((_ <? _) && _); [|done].
    destruct (read_step _ _ _ _) as [[st1|[[bytes f1] st1]]|]; cbn in *; try done. apply IH; [done|lia].
Qed.

(** [file->position + size] wraps around: with a size close to [2 ^ 32] the
    read goes on behind the end of the file, here 1023 bytes of a file of 700
    from position 1. *)
Lemma fat_read_past_end :
  ∃ bytes f' st', fat_read demo_ide (demo_file⟦position := 1⟧) 0xFFFFFFFF ring_volume = Some (1023, bytes, f', st').
Proof.
  destruct (read_loop demo_ide 3 0xFFFFFFFF [] (demo_file⟦position := 1⟧) ring_volume) as [[[bytes f'] st']|] eqn:E;
    [|vm_compute in E; discriminate E].
  exists bytes, f', st'. unfold fat_read. cbn [fat_mounted is_open negb orb ring_volume demo_file modify_field].
  change (700 <=? 1) with false. change (f_size _ <? u32 _) with false.
  rewrite (read_loop_mono _ 3 _ _ _ _ _ _ E) by lia. cbn [mbind option_bind].
  do 4 f_equal. vm_compute in E. injection E as <- _ _. reflexivity.
Qed.
