(* ===== verification/KHeap.v ===== *)
(** * The kernel heap interface

    The protocols take memory for packets and buffers from [kmalloc]
    (include/kernel/memory.h).  This file states that interface: the two
    operations, the regions a state has handed out, and the laws the protocols
    rely on, with a reference implementation for examples.  [SlabHeap] proves the
    laws of kernel/mm/slab.c. *)

From S2P Require Import Prelude.

(** The sizes [kmalloc] serves.  Sizes above 2048 and up to 4096 fall into the
    size cache whose slabs cannot hold an object ([Slab.slab_4096_overruns]);
    the largest block is 4 MiB. *)
Definition served_size (size : Z) : Prop := 0 < size ≤ 2048 ∨ 4096 < size ≤ 4194304.

(** Addresses are byte addresses and 0 is the null pointer; a result [None] is
    undefined behaviour of the allocator. *)
Class KernelHeap (H : Type) := {
  kmalloc : Z → H → option (Z * H);
  kfree : Z → H → H;
  (** [kh_rep h L]: [h] is consistent and [L] maps the address of each region in
      use to its size. *)
  kh_rep : H → gmap Z Z → Prop;
}.

Definition apart (a n a' n' : Z) : Prop := a + n ≤ a' ∨ a' + n' ≤ a.

Class KernelHeapLaws (H : Type) `{KernelHeap H} : Prop := {
  kh_rep_pos h L a n : kh_rep h L → L !! a = Some n → 0 < n;
  kmalloc_0 h : kmalloc 0 h = Some (0, h);
  (** An allocation fails and changes nothing, or returns a region of at least
      the size asked for that overlaps none in use. *)
  kmalloc_law h L size : kh_rep h L → served_size size →
    (∃ h', kmalloc size h = Some (0, h') ∧ kh_rep h' L) ∨
    (∃ a n h', kmalloc size h = Some (a, h') ∧ a ≠ 0 ∧ size ≤ n ∧
       (∀ a' n', L !! a' = Some n' → apart a n a' n') ∧ kh_rep h' (<[a := n]> L));
  (** Releasing a region releases at most that region. *)
  kfree_law h L a : kh_rep h L → ∃ L', kh_rep (kfree a h) L' ∧ delete a L ⊆ L' ∧ L' ⊆ L;
}.

(** An allocation as the clients see it. *)
Lemma kmalloc_fresh {H} `{KernelHeapLaws H} h L size :
  kh_rep h L → served_size size →
  ∃ a h', kmalloc size h = Some (a, h') ∧
    ((a = 0 ∧ kh_rep h' L) ∨ (a ≠ 0 ∧ L !! a = None ∧ ∃ n, kh_rep h' (<[a := n]> L))).
Proof.
  intros Hr Hs. destruct (kmalloc_law h L size Hr Hs) as [(h' & E & Hr')|(a & n & h' & E & Ha & Hn & Hd & Hr')].
  { exists 0, h'. split; [done|]. by left. }
  exists a, h'. split; [done|]. right. split; [done|]. split; [|by exists n].
  destruct (L !! a) as [n'|] eqn:E'; [|done]. pose proof (kh_rep_pos _ _ _ _ Hr E').
  destruct (Hd a n' E'); unfold served_size in Hs; lia.
Qed.

(** The next [n] allocations of the sizes the protocols ask for succeed. *)
Fixpoint serves {H} `{KernelHeap H} (n : nat) (h : H) : Prop :=
  match n with
  | O => True
  | S n' => ∀ size, served_size size → size ≤ 65536 →
      ∃ p h', kmalloc size h = Some (p, h') ∧ p ≠ 0 ∧ serves n' h' ∧ serves n' (kfree p h')
  end.

Lemma serves_mono {H} `{KernelHeap H} n m (h : H) : (n ≤ m)%nat → serves m h → serves n h.
Proof.
  revert m h. induction n as [|n IH]; intros [|m] h Hle Hs; [done|done|lia|].
  intros size H1 H2. destruct (Hs size H1 H2) as (p & h' & ? & ? & ? & ?).
  exists p, h'. split; [done|]. split; [done|]. split; apply (IH m); (lia || done).
Qed.

(** ** A reference heap

    Regions one after the other, up to a limit, never reused: the simplest
    implementation, on which the clients' examples run. *)

Record bump := mk_bump { bump_next : Z; bump_limit : Z }.

#[export] Instance bump_heap : KernelHeap bump := {
  kmalloc size h :=
    Some (if (size =? 0) || (bump_limit h <? bump_next h + size) then (0, h)
          else (bump_next h, mk_bump (bump_next h + size) (bump_limit h)));
  kfree _ h := h;
  kh_rep h L := 0 < bump_next h ∧ (∀ a n, L !! a = Some n → 0 < n ∧ a + n ≤ bump_next h);
}.

#[export] Instance bump_heap_laws : KernelHeapLaws bump.
Proof.
  split.
  - intros h L a n [_ HL] E. by apply HL in E as [? _].
  - done.
  - intros h L size [Hn HL] Hs. cbn [kmalloc bump_heap kh_rep]. unfold served_size in Hs.
    case_Z (size =? 0); [lia|]. cbn [orb]. case_Z (bump_limit h <? bump_next h + size).
    + left. by exists h.
    + right. do 3 eexists. split; [done|]. split; [lia|]. split; [done|]. cbn [bump_next]. split.
      * intros a' n' E. apply HL in E. right. lia.
      * split; [lia|]. intros a m [[-> ->]|[_ E]]%lookup_insert_Some; [lia|]. apply HL in E. lia.
  - intros h L a Hr. exists L. split; [done|]. split; [apply delete_subseteq|done].
Qed.

(** 16 MiB from address 4 MiB on, none of it in use. *)
Definition bump_demo : bump := mk_bump 0x400000 0x1400000.

Lemma bump_demo_rep : kh_rep bump_demo ∅.
Proof. split; [done|]. intros a n E. by rewrite lookup_empty in E. Qed.

Lemma bump_serves n h : 0 < bump_next h → bump_next h + 65536 * Z.of_nat n ≤ bump_limit h → serves n h.
Proof.
  revert h. induction n as [|n IH]; intros h Hp Hl; [done|]. intros size Hs Hz. unfold served_size in Hs.
  cbn [kmalloc kfree bump_heap]. case_Z (size =? 0); [lia|]. cbn [orb].
  case_Z (bump_limit h <? bump_next h + size); [lia|]. do 2 eexists. split; [done|]. split; [lia|].
  assert (serves n (mk_bump (bump_next h + size) (bump_limit h))) as Hn by (apply IH; cbn [bump_next bump_limit]; lia).
  by split.
Qed.
