(* ===== verification/SlabHeap.v ===== *)
(** * The kernel heap of kernel/mm/slab.c

    [Slab.kmalloc] takes small objects from the caches of the sizes 8 to 2048 and
    larger blocks from the buddy allocator.  This file puts the caches and the
    blocks together and shows that they satisfy the laws of [KHeap], against
    which the protocols are proved: regions in use never overlap, across caches
    and blocks. *)

From stdpp Require Import functions.
From S2P Require Import Prelude PageAlloc Dll Buddy Slab KHeap.

(** ** The state of all caches *)

(** The slabs of one cache, with the free objects of each. *)
Record pool := mk_pool {
  partial : list Z;
  full : list Z;
  free_objects : Z → list Z;
}.
Definition slabs (p : pool) : list Z := partial p ++ full p.

(** The caches of sizes that fit into a slab. *)
Definition size_class (k : Z) : Prop := 0 ≤ k ≤ 8.
Definition class_size (k : Z) : Z := 2 ^ (k + 3).

(** The caches have the slabs of [P]; [al] are the blocks the buddy allocator has
    given out, for slabs and for large regions. *)
Record heap_wf (st : slab_state) (P : Z → pool) (al : gmap Z Z) : Prop := {
  hw_ready : slab_initialized st = true;
  hw_buddy : buddy_inv (pages st) al;
  hw_table k : 0 ≤ k < 10 → (size_caches st).[k] = Some k ∧ obj_size (cache_at st k) = class_size k;
  hw_cache k : size_class k → cache_wf st k (partial (P k)) (full (P k)) (free_objects (P k)) al;
  hw_apart k k' s : size_class k → size_class k' → s ∈ slabs (P k) → s ∈ slabs (P k') → k = k';
}.

(** A region in use: an object of a cache, or a block of more than a page. *)
Definition region (P : Z → pool) (al : gmap Z Z) (a n : Z) : Prop :=
  (∃ k, size_class k ∧ n = class_size k ∧ live (slabs (P k)) (free_objects (P k)) n a) ∨
  (∃ i o, 1 ≤ o ∧ al !! i = Some o ∧ a = page_to_addr i ∧ n = 2 ^ o * PAGE_SIZE).

Definition heap_rep (st : slab_state) (L : gmap Z Z) : Prop :=
  ∃ P al, heap_wf st P al ∧ map_Forall (region P al) L.

(** ** Blocks *)

(** The region from [a] of [n] bytes lies in the block of order [o] at page [i]. *)
Definition within (i o a n : Z) : Prop := page_to_addr i ≤ a ∧ a + n ≤ page_to_addr i + 2 ^ o * PAGE_SIZE.

Lemma given_block_ok s al i o : buddy_inv s al → al !! i = Some o → block_ok i o.
Proof. intros (_ & fl & Hrep & _) E. apply (part_ok _ (rep_part _ _ _ _ Hrep)). right. by left. Qed.

(** Regions in different blocks do not overlap. *)
Lemma blocks_apart s al i o a n j o' a' n' :
  buddy_inv s al → al !! i = Some o → al !! j = Some o' → i ≠ j → within i o a n → within j o' a' n' → apart a n a' n'.
Proof.
  intros Hb Hi Hj Hne [H1 H2] [H3 H4]. pose proof (given_block_ok _ _ _ _ Hb Hi) as Hok.
  pose proof (given_block_ok _ _ _ _ Hb Hj) as Hok'. pose proof (block_ok_range _ _ Hok). pose proof (block_ok_range _ _ Hok').
  rewrite page_to_addr_eq in H1, H2, H3, H4 by done. destruct Hb as (_ & fl & Hrep & _).
  assert (i + 2 ^ o ≤ j ∨ j + 2 ^ o' ≤ i) as Hd.
  { destruct (decide (i + 2 ^ o ≤ j)) as [|Hn]; [by left|]. destruct (decide (j + 2 ^ o' ≤ i)) as [|Hn']; [by right|].
    destruct Hne. destruct Hok as [Ho _], Hok' as [Ho' _].
    apply (part_disjoint _ (rep_part _ _ _ _ Hrep) i o j o' (Z.max i j)); [right; by left|right; by left|..]; unfold in_block;
      pose proof (pow2_pos o ltac:(lia)); pose proof (pow2_pos o' ltac:(lia)); lia. }
  unfold apart, PAGE_SIZE in *. lia.
Qed.

Lemma slab_owned st P al k s :
  heap_wf st P al → size_class k → s ∈ slabs (P k) → ∃ i, 0 ≤ i < BUDDY_TOTAL_PAGES ∧ s = page_to_addr i ∧ al !! i = Some 0.
Proof.
  intros Hwf Hk Hs. pose proof (hw_cache _ _ _ Hwf k Hk) as Hc. destruct (wf_slab_page _ _ _ _ _ _ s Hc Hs) as (i & Hi & ->).
  exists i. split; [done|]. split; [done|]. by apply (cw_owned _ _ _ _ _ _ Hc _ _ Hs Hi).
Qed.

Lemma class_size_ok k : size_class k → size_ok (class_size k).
Proof.
  intros Hk. assert (Forall (fun k => size_ok (class_size k)) (seqZ 0 9)) as Hall.
  { change (seqZ 0 9) with [0; 1; 2; 3; 4; 5; 6; 7; 8]. repeat (apply Forall_cons_2; [by vm_compute|]). apply Forall_nil_2. }
  rewrite Forall_forall in Hall. apply Hall, elem_of_seqZ. unfold size_class in Hk. lia.
Qed.

Lemma object_within i n a : size_ok n → object n (page_to_addr i) a → within i 0 a n.
Proof.
  intros Hn Ho. pose proof (object_range _ _ _ Hn Ho). unfold within, PAGE_SIZE. change (2 ^ 0) with 1. lia.
Qed.

(** A region lies in one block; a block of order 0 is a slab of its cache. *)
Lemma region_block st P al a n :
  heap_wf st P al → region P al a n →
  0 < n ∧ ∃ i o, al !! i = Some o ∧ within i o a n ∧
    (o = 0 → ∃ k, size_class k ∧ n = class_size k ∧ page_to_addr i ∈ slabs (P k)).
Proof.
  intros Hwf [(k & Hk & -> & s & Hs & Ho & Hn)|(i & o & Ho & Hal & -> & ->)].
  - pose proof (class_size_ok _ Hk) as Hsz. split; [destruct Hsz; lia|].
    destruct (slab_owned _ _ _ _ _ Hwf Hk Hs) as (i & Hi & -> & E). exists i, 0. split; [done|].
    split; [by apply object_within|]. intros _. by exists k.
  - pose proof (pow2_pos o ltac:(lia)). unfold PAGE_SIZE. split; [lia|]. exists i, o. split; [done|].
    unfold within, PAGE_SIZE. split; lia.
Qed.

(** ** Small regions *)

(** A cache does not notice an allocation from another cache. *)
Lemma cache_frame st st' k c L Lp Lf fl al al' :
  cache_wf st k Lp Lf fl al → k ≠ c → cache_only c L st st' → (∀ s, s ∈ L → slab_page s) → (∀ s, s ∈ Lp ++ Lf → s ∉ L) →
  buddy_inv (pages st') al' → al ⊆ al' → cache_wf st' k Lp Lf fl al'.
Proof.
  intros Hwf Hk Hco Hpg Hout Hb Hal. pose proof (fun s => wf_slab_page _ _ _ _ _ _ s Hwf) as Hp.
  assert (∀ s a, s ∈ Lp ++ Lf → in_page s a → load st' a = load st a) as Hm.
  { intros s a Hs Ha. apply (co_mem _ _ _ _ Hco). intros x Hx Hxa. apply (Hout s Hs). by rewrite (pages_apart s x a) by auto. }
  assert (∀ s, s ∈ Lp ++ Lf → load st' s = load st s) as Hh by (intros s Hs; apply (Hm s); [done|by apply slab_head, Hp]).
  split; rewrite ?(co_other _ _ _ _ Hco k Hk); try apply Hwf; [done|..].
  - eapply chain_slabs; [|apply Hwf]. intros s Hs. apply Hh. set_solver.
  - eapply chain_slabs; [|apply Hwf]. intros s Hs. apply Hh. set_solver.
  - intros s i Hs Hi E. eapply lookup_weaken; [by apply (cw_owned _ _ _ _ _ _ Hwf s)|done].
  - intros s Hs. eapply slab_ok_ext; [apply Hwf|intros a; by apply (Hm s)|by apply (cw_slab _ _ _ _ _ _ Hwf)].
Qed.

(** The table of caches is not changed by an allocation. *)
Definition tables (st : slab_state) : gmap Z ptr * bool := (size_caches st, slab_initialized st).

Lemma alloc_slab_tables c st : tables (alloc_slab c st).2 = tables st.
Proof.
  unfold alloc_slab. destruct (buddy_alloc 0 (pages st)) as [slab b]. destruct (slab =? 0); [done|]. cbv zeta. cbn [snd].
  match goal with |- tables (upd_cache _ _ (store _ _ (iter_up ?n ?i ?f ?s))) = _ =>
    pose proof (iter_up_inv (fun _ t => tables t = tables st) f n i s) as Hl; change (tables (iter_up n i f s) = tables st) end.
  apply Hl; [done|]. intros k t _ Ht. exact Ht.
Qed.

Lemma choose_slab_tables c st : tables (choose_slab c st).2 = tables st.
Proof.
  unfold choose_slab. destruct (truth _); [done|]. destruct (truth _); [done|].
  pose proof (alloc_slab_tables c st) as Ht. destruct (alloc_slab c st) as [slab st1]. by destruct (slab =? 0).
Qed.

Lemma move_to_full_tables c s st st' : move_to_full c s st = Some st' → tables st' = tables st.
Proof.
  unfold move_to_full. destruct (_ =? s); [by intros [= <-]|]. destruct (find_prev _ _ _ _) as [p|]; [|done].
  cbn [mbind option_bind]. by destruct (p =? 0); intros [= <-].
Qed.

Lemma kmem_cache_alloc_tables c st o st' : kmem_cache_alloc c st = Some (o, st') → tables st' = tables st.
Proof.
  unfold kmem_cache_alloc. pose proof (choose_slab_tables c st) as Ht. destruct (choose_slab c st) as [s st1]. cbn [snd] in Ht.
  destruct (s =? 0); [by intros [= _ <-]|]. destruct (_ =? 0); [by intros [= _ <-]|]. intros (st2 & E & E')%bind_Some.
  assert (tables st2 = tables st1) as Ht2 by (destruct (_ =? _); [by apply move_to_full_tables in E|by injection E as <-]).
  destruct (ctor (cache_at st2 c)); injection E' as _ <-; by rewrite <- Ht.
Qed.

(** At most one more block, of order at most [o], is given out. *)
Definition spent (o : Z) (al al' : gmap Z Z) : Prop :=
  al' = al ∨ ∃ i o', o' ≤ o ∧ al !! i = None ∧ al' = <[i := o']> al.

(** What an allocation of [n] bytes at [a] does to the heap. *)
Definition allocated (st : slab_state) (P : Z → pool) (al : gmap Z Z) (st' : slab_state) (a n o : Z) : Prop :=
  ∃ P' al', heap_wf st' P' al' ∧ spent o al al' ∧ region P' al' a n ∧
    ∀ b m, region P al b m → region P' al' b m ∧ apart a n b m ∧ ∀ x, b ≤ x < b + m → load st' x = load st x.

Lemma allocated_rep st P al L st' a n o :
  heap_wf st P al → map_Forall (region P al) L → allocated st P al st' a n o →
  heap_rep st' (<[a := n]> L) ∧
  ∀ a' n', L !! a' = Some n' → apart a n a' n' ∧ ∀ x, a' ≤ x < a' + n' → load st' x = load st x.
Proof.
  intros Hwf HL (P' & al' & Hwf' & _ & Ha & Hold). split; [|intros a' n' E; by apply Hold, HL].
  exists P', al'. split; [done|]. apply map_Forall_insert_2; [done|]. intros b m E. by apply Hold, HL.
Qed.

Lemma grown_spent L al L' al' o : 0 ≤ o → grown L al L' al' → spent o al al'.
Proof. intros Ho [[-> _]|(i & _ & Hi & -> & _)]; [by left|]. right. by exists i, 0. Qed.

Lemma spent_subseteq o al al' : spent o al al' → al ⊆ al'.
Proof. intros [->|(i & o' & _ & Hi & ->)]; [done|]. by apply insert_subseteq. Qed.

(** The slabs of cache [k] after an allocation are not those of another cache. *)
Lemma grown_apart st P al k L al' j s :
  heap_wf st P al → size_class k → size_class j → j ≠ k → grown (slabs (P k)) al L al' → s ∈ slabs (P j) → s ∉ L.
Proof.
  intros Hwf Hk Hj Hne Hgr Hs Hin. assert (s ∉ slabs (P k)) as Hk' by (intros H'; by apply Hne, (hw_apart _ _ _ Hwf j k s)).
  destruct Hgr as [[_ Hnew]|(i & Hi & Hfree & _ & Hnew)]; apply Hnew in Hin; [done|]. destruct Hin as [Hin| ->].
  - done.
  - destruct (slab_owned _ _ _ _ _ Hwf Hj Hs) as (i' & Hi' & Ei & E).
    apply (page_to_addr_inj _ _ Hi Hi') in Ei as <-. by rewrite Hfree in E.
Qed.

Lemma grown_wf st P al k st' Lp Lf fl al' :
  let P' := <[k := mk_pool Lp Lf fl]> P in
  heap_wf st P al → size_class k → cache_wf st' k Lp Lf fl al' → cache_only k (Lp ++ Lf) st st' →
  grown (slabs (P k)) al (Lp ++ Lf) al' → tables st' = tables st → heap_wf st' P' al'.
Proof.
  intros P' Hwf Hk Hc Hco Hgr Ht. apply pair_equal_spec in Ht as [Et Ei].
  assert (∀ j s, size_class j → j ≠ k → s ∈ slabs (P j) → s ∉ Lp ++ Lf) as Hsep.
  { intros j s Hj Hne. exact (grown_apart _ _ _ _ _ _ _ s Hwf Hk Hj Hne Hgr). }
  split.
  - rewrite Ei. apply Hwf.
  - apply Hc.
  - intros j Hj. rewrite Et. destruct (hw_table _ _ _ Hwf j Hj) as [E1 E2]. split; [done|]. destruct (decide (j = k)) as [->|Hne].
    + by rewrite (co_size _ _ _ _ Hco).
    + by rewrite (co_other _ _ _ _ Hco).
  - intros j Hj. unfold P'. destruct (decide (j = k)) as [->|Hne]; [by rewrite fn_lookup_insert|]. rewrite fn_lookup_insert_ne by done.
    eapply cache_frame; [by apply (hw_cache _ _ _ Hwf)|done|exact Hco| | |apply Hc|by eapply (spent_subseteq 0), grown_spent].
    + intros s. by apply (wf_slab_page _ _ _ _ _ _ s Hc).
    + intros s Hs. by eapply Hsep.
  - intros j j' s Hj Hj'. unfold P'. destruct (decide (j = k)) as [->|H1], (decide (j' = k)) as [->|H2];
      rewrite ?fn_lookup_insert, ?fn_lookup_insert_ne by done; [done|..].
    + intros Hs Hs'. by destruct (Hsep j' s).
    + intros Hs Hs'. by destruct (Hsep j s).
    + by apply (hw_apart _ _ _ Hwf).
Qed.

(** A region outside cache [k] stays, and is apart from all slabs of that cache. *)
Definition elsewhere (P : Z → pool) (al : gmap Z Z) (k b m : Z) : Prop :=
  (∃ j, size_class j ∧ j ≠ k ∧ m = class_size j ∧ live (slabs (P j)) (free_objects (P j)) m b) ∨
  (∃ i o, 1 ≤ o ∧ al !! i = Some o ∧ b = page_to_addr i ∧ m = 2 ^ o * PAGE_SIZE).

Lemma elsewhere_apart st P al k st' Lp Lf fl al' b m :
  let P' := <[k := mk_pool Lp Lf fl]> P in
  heap_wf st P al → size_class k → heap_wf st' P' al' → grown (slabs (P k)) al (Lp ++ Lf) al' → elsewhere P al k b m →
  region P' al' b m ∧ ∀ s, s ∈ Lp ++ Lf → apart s SLAB_SIZE b m.
Proof.
  intros P' Hwf Hk Hwf' Hgr Hb. pose proof (spent_subseteq _ _ _ (grown_spent _ _ _ _ 0 ltac:(done) Hgr)) as Hal.
  assert (∀ s j o, s ∈ Lp ++ Lf → al' !! j = Some o → within j o b m → (o = 0 → page_to_addr j ∉ Lp ++ Lf) → apart s SLAB_SIZE b m) as Hap.
  { intros s j o Hs Ej Hw Hn. destruct (slab_owned _ _ _ k s Hwf' Hk) as (i & Hi & -> & Ei); [unfold P'; by rewrite fn_lookup_insert|].
    eapply (blocks_apart _ al' i 0 _ _ j o); [apply Hwf'|done|done| |by unfold within, SLAB_SIZE; rewrite Z.mul_1_l|done].
    intros <-. apply Hn; [congruence|done]. }
  destruct Hb as [(j & Hj & Hne & -> & Hl)|(j & o & Ho1 & Ej & -> & ->)].
  - split; [left; exists j; unfold P'; by rewrite fn_lookup_insert_ne|]. destruct Hl as (s' & Hsj & Hob & _). intros s Hs.
    destruct (slab_owned _ _ _ _ _ Hwf Hj Hsj) as (i & Hi & -> & Ei). apply (Hap s i 0); [done|by eapply lookup_weaken|..].
    + apply object_within; [by apply class_size_ok|done].
    + intros _. exact (grown_apart _ _ _ _ _ _ _ _ Hwf Hk Hj Hne Hgr Hsj).
  - assert (al' !! j = Some o) as Ej' by (by eapply lookup_weaken). split; [right; by exists j, o|]. intros s Hs.
    apply (Hap s j o); [done|done|by unfold within|lia].
Qed.

(** No block of order [o] is free. *)
Definition exhausted (al : gmap Z Z) (o : Z) : Prop :=
  ∀ i, block_ok i o → ∃ j o' p, al !! j = Some o' ∧ in_block j o' p ∧ in_block i o p.

Lemma no_page_exhausted al : no_page al → exhausted al 0.
Proof.
  intros Hno i Hi. destruct (Hno i (block_ok_range _ _ Hi)) as (j & o & E & Hin). exists j, o, i. split; [done|].
  split; [done|]. by apply in_block_head.
Qed.

Lemma kmem_cache_alloc_heap st P al k :
  heap_wf st P al → size_class k →
  (kmem_cache_alloc k st = Some (0, st) ∧ exhausted al 0) ∨
  ∃ a st', kmem_cache_alloc k st = Some (a, st') ∧ a ≠ 0 ∧ allocated st P al st' a (class_size k) 0.
Proof.
  intros Hwf Hk. pose proof (hw_cache _ _ _ Hwf k Hk) as Hc.
  destruct (hw_table _ _ _ Hwf k) as [_ Esz]; [unfold size_class in Hk; lia|].
  destruct (kmem_cache_alloc_ok _ _ _ _ _ _ Hc) as [(E & _ & Hno)|(a & st' & Lp & Lf & fl & al' & E & Ha & _ & Hc' & Hlive & Hdis & Hco & Hkeep & _ & Hgr)];
    [left; split; [done|by apply no_page_exhausted]|]. rewrite Esz in Hlive, Hdis, Hkeep. right. exists a, st'. split; [done|]. split; [done|].
  pose proof (grown_wf _ _ _ _ _ _ _ _ _ Hwf Hk Hc' Hco Hgr (kmem_cache_alloc_tables _ _ _ _ E)) as Hwf'.
  pose proof (grown_spent _ _ _ _ 0 ltac:(done) Hgr) as Hsp. pose proof (spent_subseteq _ _ _ Hsp) as Hal.
  exists (<[k := mk_pool Lp Lf fl]> P), al'. split; [done|]. split; [done|].
  assert (live (Lp ++ Lf) fl (class_size k) a) as Hla by (apply Hlive; by right). split.
  { left. exists k. rewrite fn_lookup_insert. by split. }
  assert (∀ b m, elsewhere P al k b m → region (<[k := mk_pool Lp Lf fl]> P) al' b m ∧
    apart a (class_size k) b m ∧ ∀ x, b ≤ x < b + m → load st' x = load st x) as Helse.
  { intros b m Hb. destruct (elsewhere_apart _ _ _ _ _ _ _ _ _ _ _ Hwf Hk Hwf' Hgr Hb) as [Hr Hap]. split; [done|]. split.
    - destruct Hla as (s & Hs & Ho & _). pose proof (object_range _ _ _ (class_size_ok _ Hk) Ho).
      specialize (Hap s Hs). unfold apart, SLAB_SIZE, PAGE_SIZE in *. lia.
    - intros x Hx. apply (co_mem _ _ _ _ Hco). intros s Hs. specialize (Hap s Hs). unfold apart, in_page in *. lia. }
  intros b m [(j & Hj & -> & Hl)|Hl]; [|by apply Helse; right].
  destruct (decide (j = k)) as [->|Hne]; [|by apply Helse; left; exists j]. split; [|split].
  - left. exists k. rewrite fn_lookup_insert. split; [done|]. split; [done|]. apply Hlive. by left.
  - destruct (Hdis b Hl); [by right|by left].
  - intros x. by apply Hkeep.
Qed.

(** ** Large regions *)

Lemma buddy_alloc_heap st P al o :
  heap_wf st P al → 1 ≤ o < MAX_ORDER →
  (buddy_alloc o (pages st) = (0, pages st) ∧ exhausted al o) ∨
  ∃ a b, buddy_alloc o (pages st) = (a, b) ∧ a ≠ 0 ∧ allocated st P al st⟦pages := b⟧ a (2 ^ o * PAGE_SIZE) o.
Proof.
  intros Hwf Ho. destruct (buddy_alloc_step (pages st) al o (hw_buddy _ _ _ Hwf) ltac:(lia)) as [(i & b & E & Hok & Hi & _ & Hb)|Hno];
    [|by left]. right. exists (page_to_addr i), b. split; [done|]. split; [by eapply page_to_addr_nz, block_ok_range|].
  assert (al ⊆ <[i := o]> al) as Hal by (by apply insert_subseteq).
  assert (∀ b' m, region P al b' m → region P (<[i := o]> al) b' m) as Hreg.
  { intros b' m [Hl|(j & o' & Ho' & Ej & HH)]; [by left|]. right. exists j, o'. split; [done|]. split; [by eapply lookup_weaken|done]. }
  exists P, (<[i := o]> al). split.
  { split; [apply Hwf|done|apply Hwf| |apply Hwf]. intros k Hk. pose proof (hw_cache _ _ _ Hwf k Hk) as Hc.
    split; try apply Hc; [done|..].
    - intros s j Hs Hj Es. eapply lookup_weaken; [by apply (cw_owned _ _ _ _ _ _ Hc s)|done].
    - intros s Hs. eapply slab_ok_ext; [apply Hc| |by apply (cw_slab _ _ _ _ _ _ Hc)]. done. }
  split; [right; by exists i, o|]. split; [right; exists i, o; split; [lia|]; by rewrite lookup_insert_eq|].
  intros b' m Hr. split; [by apply Hreg|]. split; [|done]. destruct (region_block _ _ _ _ _ Hwf Hr) as (_ & j & o' & Ej & Hw & _).
  eapply (blocks_apart b (<[i := o]> al) i o _ _ j o'); [done|by rewrite lookup_insert_eq|by eapply lookup_weaken| | |done].
  - intros <-. congruence.
  - by unfold within.
Qed.

(** ** The laws *)

Lemma class_size_mono j k : 0 ≤ j → j ≤ k → class_size j ≤ class_size k.
Proof. intros. apply Z.pow_le_mono_r; lia. Qed.

Lemma size_cache_small st P al size :
  heap_wf st P al → 0 < size ≤ 2048 → ∃ k, size_class k ∧ size ≤ class_size k ∧ size_cache_for size st = Some k.
Proof.
  intros Hwf Hs. unfold size_cache_for. pose proof (hw_table _ _ _ Hwf) as Ht. destruct (find_up _ _ _) as [k|] eqn:E.
  - apply find_up_Some in E as (Hk & Hf & Hmin). destruct (Ht k ltac:(lia)) as [E1 E2]. rewrite E1, E2 in Hf. apply Z.leb_le in Hf.
    exists k. split; [|by cbn [mbind option_bind]]. unfold size_class. destruct (decide (k = 9)) as [->|]; [|lia].
    specialize (Hmin 8 ltac:(lia)). destruct (Ht 8 ltac:(lia)) as [E3 E4]. rewrite E3, E4 in Hmin. apply Z.leb_gt in Hmin.
    change (class_size 8) with 2048 in Hmin. lia.
  - pose proof (proj1 (find_up_None _ _ _) E 8 ltac:(lia)) as Hf. cbv beta in Hf. destruct (Ht 8 ltac:(lia)) as [E3 E4]. rewrite E3, E4 in Hf.
    apply Z.leb_gt in Hf. change (class_size 8) with 2048 in Hf. lia.
Qed.

Lemma size_cache_large st P al size : heap_wf st P al → 4096 < size → size_cache_for size st = None.
Proof.
  intros Hwf Hs. unfold size_cache_for. rewrite (proj2 (find_up_None 10 0 _)); [done|]. intros k Hk.
  destruct (hw_table _ _ _ Hwf k) as [-> ->]; [lia|]. apply Z.leb_gt. pose proof (class_size_mono k 9 ltac:(lia) ltac:(lia)).
  change (class_size 9) with 4096 in *. lia.
Qed.

Lemma order_small size : size ≤ PAGE_SIZE → buddy_get_order size = 0.
Proof.
  intros Hs. destruct (buddy_get_order_spec size) as (Ho & _ & Hmin). destruct (decide (buddy_get_order size = 0)) as [|Hn]; [done|].
  specialize (Hmin ltac:(lia)). pose proof (pow2_pos (buddy_get_order size - 1) ltac:(lia)). unfold PAGE_SIZE in *. lia.
Qed.

(** An allocation fails only when no block of its order is free. *)
Lemma kmalloc_heap st P al size :
  let o := buddy_get_order size in
  heap_wf st P al → served_size size →
  (Slab.kmalloc size st = Some (0, st) ∧ exhausted al o) ∨
  ∃ a n st', Slab.kmalloc size st = Some (a, st') ∧ a ≠ 0 ∧ size ≤ n ∧ allocated st P al st' a n o.
Proof.
  intros o Hwf Hs. unfold Slab.kmalloc. rewrite (hw_ready _ _ _ Hwf), (proj2 (Z.eqb_neq size 0)) by (unfold served_size in Hs; lia).
  cbn [negb orb]. destruct Hs as [Hs|Hs].
  - subst o. rewrite order_small by (unfold PAGE_SIZE; lia). destruct (size_cache_small _ _ _ _ Hwf Hs) as (k & Hk & Hle & ->).
    destruct (kmem_cache_alloc_heap _ _ _ _ Hwf Hk) as [E|(a & st' & E & Ha & Hal)]; [by left|right]. by exists a, (class_size k), st'.
  - rewrite (size_cache_large _ _ _ _ Hwf) by lia. destruct (buddy_get_order_spec size) as (Ho & Hfit & _). fold o in Ho, Hfit |- *.
    specialize (Hfit ltac:(unfold PAGE_SIZE, MAX_ORDER; change (2 ^ (11 - 1)) with 1024; lia)).
    assert (o ≠ 0) as Hn by (intros E; rewrite E in Hfit; change (PAGE_SIZE * 2 ^ 0) with 4096 in Hfit; lia).
    destruct (buddy_alloc_heap _ _ _ o Hwf ltac:(lia)) as [[-> Hno]|(a & b & -> & Ha & Hal)].
    + left. split; [by destruct st|done].
    + right. do 3 eexists. split; [reflexivity|]. split; [done|]. split; [|exact Hal]. lia.
Qed.

#[export] Instance slab_heap : KernelHeap slab_state := {
  KHeap.kmalloc := Slab.kmalloc;
  KHeap.kfree := Slab.kfree;
  kh_rep := heap_rep;
}.

#[export] Instance slab_heap_laws : KernelHeapLaws slab_state.
Proof.
  split.
  - intros st L a n (P & al & Hwf & HL) E. by apply (region_block _ _ _ _ _ Hwf (HL a n E)).
  - intros st. cbn. unfold Slab.kmalloc. by rewrite orb_true_r.
  - intros st L size (P & al & Hwf & HL) Hs. destruct (kmalloc_heap _ _ _ _ Hwf Hs) as [[E _]|(a & n & st' & E & Ha & Hn & Hal)].
    + left. exists st. split; [done|]. by exists P, al.
    + destruct (allocated_rep _ _ _ _ _ _ _ _ Hwf HL Hal) as [Hr Hd]. right.
      exists a, n, st'. repeat (split; [done|]). split; [|done]. intros a' n' E'. by apply Hd.
  - intros st L a Hr. exists L. split; [done|]. split; [apply delete_subseteq|done].
Qed.

(** The heap after boot: the caches are there, without slabs, and nothing is in
    use. *)
Lemma slab_init_wf b al : buddy_inv b al → heap_wf (slab_init (slab_boot b)) (fun _ => mk_pool [] [] (fun _ => [])) al.
Proof.
  intros Hb. set (st := slab_init (slab_boot b)).
  assert (Forall (fun k => (size_caches st).[k] = Some k ∧
    ∃ nm, cache_at st k = mk_cache nm (class_size k) 4 0 0 0 0 0 0 0 None None) (seqZ 0 10)) as Ht.
  { change (seqZ 0 10) with [0; 1; 2; 3; 4; 5; 6; 7; 8; 9]. subst st.
    repeat (apply Forall_cons_2; [split; [|eexists]; vm_compute; reflexivity|]). apply Forall_nil_2. }
  assert (slab_initialized st = true ∧ pages st = b) as [Hi Hp] by (split; vm_compute; reflexivity). clearbody st.
  rewrite Forall_forall in Ht. split.
  - exact Hi.
  - by rewrite Hp.
  - intros k Hk. destruct (Ht k) as [E1 [nm E2]]; [by apply elem_of_seqZ|]. by rewrite E2.
  - intros k Hk. destruct (Ht k) as [_ [nm E]]; [apply elem_of_seqZ; unfold size_class in Hk; lia|].
    split; rewrite ?E; cbn [obj_size slabs_partial slabs_full slabs_free ctor dtor]; rewrite ?Hp; try done.
    + by apply class_size_ok.
    + constructor.
    + intros s i Hs. by apply not_elem_of_nil in Hs.
    + intros s Hs. by apply not_elem_of_nil in Hs.
    + intros s Hs. by apply not_elem_of_nil in Hs.
  - intros k k' s _ _ Hs. by apply not_elem_of_nil in Hs.
Qed.

Lemma slab_init_rep b al : buddy_inv b al → heap_rep (slab_init (slab_boot b)) ∅.
Proof. intros Hb. do 2 eexists. split; [by apply slab_init_wf|apply map_Forall_empty]. Qed.

(** ** How much the heap serves

    Requests of at most 64 KiB take blocks of at most 16 pages.  The managed range
    has 1984 naturally aligned groups of 16 pages and every such block lies in one
    of them, so that a request can fail only after 1984 blocks. *)

Definition GROUPS : Z := 1984.
Definition small_blocks (al : gmap Z Z) : Prop := map_Forall (fun _ o => o ≤ 4) al.

Lemma order_cases o : 0 ≤ o ≤ 4 → o ∈ [0; 1; 2; 3; 4].
Proof. intros Ho. change [0; 1; 2; 3; 4] with (seqZ 0 5). apply elem_of_seqZ. lia. Qed.

Lemma small_block_group s al j o p : buddy_inv s al → al !! j = Some o → o ≤ 4 → in_block j o p → p / 16 = j / 16.
Proof.
  intros Hb Hj Ho Hp. destruct (given_block_ok _ _ _ _ Hb Hj) as ((H0 & _) & _ & _ & Hm). unfold in_block in Hp.
  pose proof (order_cases o ltac:(lia)) as Hc.
  repeat (apply elem_of_cons in Hc as [->|Hc]; [cbn in *; Z.to_euclidean_division_equations; lia|]). set_solver.
Qed.

Lemma exhausted_group al o g : exhausted al o → 0 ≤ o ≤ 4 → 0 ≤ g < GROUPS → ∃ j o' p, al !! j = Some o' ∧ in_block j o' p ∧ p / 16 = g.
Proof.
  unfold GROUPS. intros He Ho Hg.
  assert (2 ^ o ≤ 16 ∧ (16 * g) mod 2 ^ o = 0) as [Hle Hm].
  { pose proof (order_cases o Ho) as Hc.
    repeat (apply elem_of_cons in Hc as [->|Hc]; [cbn; Z.to_euclidean_division_equations; lia|]). set_solver. }
  destruct (He (16 * g)) as (j & o' & p & E & Hj & Hp).
  { unfold block_ok, MAX_ORDER, BUDDY_TOTAL_PAGES. lia. }
  exists j, o', p. split; [done|]. split; [done|]. unfold in_block in Hp. Z.to_euclidean_division_equations; lia.
Qed.

Lemma exhausted_size s al o :
  buddy_inv s al → small_blocks al → exhausted al o → 0 ≤ o ≤ 4 → GROUPS ≤ Z.of_nat (size al).
Proof.
  intros Hb Hsm He Ho. assert (seqZ 0 GROUPS ⊆+ (fun e => e.1 / 16) <$> map_to_list al) as Hsub.
  { apply NoDup_submseteq; [apply NoDup_seqZ|]. intros g Hg%elem_of_seqZ.
    destruct (exhausted_group al o g He Ho ltac:(lia)) as (j & o' & p & E & Hj & <-).
    apply list_elem_of_fmap. exists (j, o'). split; [|by apply elem_of_map_to_list].
    eapply small_block_group; [done|done|by eapply Hsm|done]. }
  apply submseteq_length in Hsub. rewrite length_seqZ, length_fmap, length_map_to_list in Hsub. lia.
Qed.

Lemma spent_small o al al' :
  o ≤ 4 → spent o al al' → small_blocks al → small_blocks al' ∧ Z.of_nat (size al') ≤ Z.of_nat (size al) + 1.
Proof.
  intros Ho [->|(i & o' & Ho' & Hi & ->)] Hsm; [split; [done|lia]|]. rewrite map_size_insert_None by done. split; [|lia].
  apply map_Forall_insert_2; [lia|done].
Qed.

Lemma order_of_64k n : n ≤ 65536 → 0 ≤ buddy_get_order n ≤ 4.
Proof.
  intros Hn. destruct (buddy_get_order_spec n) as (Ho & _ & Hmin). split; [lia|].
  destruct (decide (buddy_get_order n ≤ 4)) as [|Hgt]; [done|]. specialize (Hmin ltac:(lia)).
  pose proof (Z.pow_le_mono_r 2 4 (buddy_get_order n - 1) ltac:(lia) ltac:(lia)) as Hp. change (2 ^ 4) with 16 in Hp.
  unfold PAGE_SIZE in Hmin. lia.
Qed.

Lemma heap_serves n st P al :
  heap_wf st P al → small_blocks al → Z.of_nat (size al) + Z.of_nat n ≤ GROUPS → serves n st.
Proof.
  revert st P al. induction n as [|n IH]; intros st P al Hwf Hsm Hsz; [done|]. intros sz Hs Hmax.
  pose proof (order_of_64k sz Hmax) as Ho. destruct (kmalloc_heap st P al sz Hwf Hs) as [[_ He]|(a & m & st' & E & Ha & _ & P' & al' & Hwf' & Hsp & _)].
  - pose proof (exhausted_size _ _ _ (hw_buddy _ _ _ Hwf) Hsm He Ho). lia.
  - destruct (spent_small _ _ _ (proj2 Ho) Hsp Hsm) as [Hsm' Hsz'].
    assert (serves n st') as Hn by (apply (IH st' P' al'); [done|done|lia]). by exists a, st'.
Qed.

(** After boot the kernel heap serves every sequence of 1984 requests of at most
    64 KiB each. *)
Lemma slab_boot_serves : serves (Z.to_nat GROUPS) (slab_init (slab_boot (buddy_init buddy_boot))).
Proof.
  eapply heap_serves; [apply slab_init_wf, buddy_init_inv|apply map_Forall_empty|]. rewrite map_size_empty. by vm_compute.
Qed.

(** ** The kernel heap *)


