(* ===== verification/Net.v ===== *)
(** * Byte order, the Internet checksum and IP output (kernel/tcpip.c)

    The parts of tcpip.c the protocols call: byte order conversion, the
    checksum, the interface and the construction of IP packets.  The input side,
    which calls the protocols, is in [Ip].

    [ip_send] of the code builds the header and returns; the call of the network
    driver is a TODO comment.  [ip_out] records, newest first, the packets built
    so far: the header and the payload that the missing call would transmit.  No
    operation reads it. *)

From S2P Require Import Prelude Bytes.

Definition IP_PROTO_ICMP : Z := 1.
Definition IP_PROTO_TCP : Z := 6.
Definition IP_PROTO_UDP : Z := 17.
Definition IP_HEADER_SIZE : Z := 20.

(** ** Byte order *)

Definition htons (x : Z) : Z := u16 (((x &: 0xFF) <<: 8) |: ((x >>: 8) &: 0xFF)).
Definition ntohs (x : Z) : Z := htons x.
Definition htonl (x : Z) : Z :=
  u32 (((x &: 0xFF) <<: 24) |: ((x &: 0xFF00) <<: 8) |: ((x &: 0xFF0000) >>: 8) |: ((x >>: 24) &: 0xFF)).
Definition ntohl (x : Z) : Z := htonl x.

(** ** The checksum *)

(** [while (length > 1)] and the odd byte after it: the words of [data] are
    added to [sum].  [None] is a read behind the end of the buffer. *)
Fixpoint sum_words (data : list Z) (length sum : Z) : option Z :=
  if 1 <? length then
    match data with
    | a :: b :: data' => sum_words data' (length - 2) (u32 (sum + (a |: (b <<: 8))))
    | _ => None
    end
  else if 0 <? length then a ← head data; Some (u32 (sum + a))
  else Some sum.

(** [while (sum >> 16) sum = (sum & 0xFFFF) + (sum >> 16);] *)
Fixpoint fold_sum (fuel : nat) (sum : Z) : option Z :=
  if truth (sum >>: 16) then
    match fuel with
    | O => None
    | S fuel' => fold_sum fuel' (u32 ((sum &: 0xFFFF) + (sum >>: 16)))
    end
  else Some sum.

(** A 32-bit sum is folded after at most two rounds. *)
Definition FOLD_ROUNDS : nat := 2.

(** The loops shared by the checksums of all protocols, from the sum of the
    pseudo header on. *)
Definition checksum_from (sum : Z) (data : list Z) (length : Z) : option Z :=
  sum ← sum_words data length sum;
  sum ← fold_sum FOLD_ROUNDS sum;
  Some (u16 (Z.lnot sum)).

Definition ip_checksum (data : list Z) (length : Z) : option Z := checksum_from 0 data length.

(** The sum over the pseudo header in [udp_checksum] and [tcp_checksum]. *)
Definition pseudo_sum (src_ip dest_ip proto length : Z) : Z :=
  ((src_ip >>: 16) &: 0xFFFF) + (src_ip &: 0xFFFF) + ((dest_ip >>: 16) &: 0xFFFF) + (dest_ip &: 0xFFFF)
  + htons proto + htons length.

(** ** The interface *)

Record net_interface := mk_iface {
  mac_addr : list Z;
  ip_addr : Z;
  netmask : Z;
  gateway : Z;
  up : Z;
}.
#[export] Instance eta_iface : Eta net_interface := fun i =>
  mk_iface (mac_addr i) (ip_addr i) (netmask i) (gateway i) (up i).

Record net_state := mk_net {
  net_iface : net_interface;
  tcpip_initialized : bool;
  (** destination, protocol, header, payload *)
  ip_out : list (Z * Z * list Z * list Z);
}.
#[export] Instance eta_net : Eta net_state := fun s => mk_net (net_iface s) (tcpip_initialized s) (ip_out s).

(** What the protocols have below them: the IP layer and the kernel heap. *)
Record kenv (H : Type) := mk_kenv {
  knet : net_state;
  kheap : H;
}.
Arguments mk_kenv {H} _ _.
Arguments knet {H} _.
Arguments kheap {H} _.
#[export] Instance eta_kenv {H} : Eta (kenv H) := fun e => mk_kenv (knet e) (kheap e).

Definition net_boot : net_state := mk_net (mk_iface (replicate 6 0) 0 0 0 0) false [].

(** [mac] is what [net_get_mac_address] of the driver stores. *)
Definition tcpip_set_interface (ip mask gw : Z) (mac : list Z) (s : net_state) : Z * net_state :=
  if negb (tcpip_initialized s) then (-1, s)
  else (0, s⟦net_iface := mk_iface mac ip mask gw 1⟧).

Definition tcpip_get_interface (s : net_state) : option net_interface :=
  if tcpip_initialized s then Some (net_iface s) else None.

Definition tcpip_get_local_ip (s : net_state) : Z := ip_addr (net_iface s).

(** ** Sending *)

(** The packed struct [ipv4_header_t] as [ip_send] fills it. *)
Definition ip_header (src_ip dest_ip protocol length checksum : Z) : list Z :=
  [0x45; 0] ++ put16 (htons (u16 (IP_HEADER_SIZE + length))) ++ put16 0 ++ put16 0 ++ [64; protocol]
  ++ put16 checksum ++ put32 (htonl src_ip) ++ put32 (htonl dest_ip).

Definition ip_send (dest_ip protocol : Z) (data : option (list Z)) (length : Z) (s : net_state)
    : option (Z * net_state) :=
  match data with
  | None => Some (-1, s)
  | Some data =>
      if negb (tcpip_initialized s) then Some (-1, s)
      else
        let src_ip := ip_addr (net_iface s) in
        checksum ← ip_checksum (ip_header src_ip dest_ip protocol length 0) IP_HEADER_SIZE;
        Some (0, s⟦ip_out ::= cons (dest_ip, protocol, ip_header src_ip dest_ip protocol length checksum, data)⟧)
  end.

Definition ip_send_packet := ip_send.

(** ** Addresses as text *)

(** [octets[i] = x]; undefined outside the array of four. *)
Definition set_octet (octets : list Z) (i x : Z) : option (list Z) :=
  if (0 <=? i) && (i <? 4) then Some (<[Z.to_nat i := u8 x]> octets) else None.

(** The loop of [ip_str_to_addr], on the characters before the terminator;
    overflow of the signed [num] is undefined. *)
Fixpoint parse_octets (str : list Z) (octets : list Z) (octet_idx num : Z) : option (list Z * Z * Z) :=
  match str with
  | [] => Some (octets, octet_idx, num)
  | c :: str' =>
      if 4 <=? octet_idx then Some (octets, octet_idx, num)
      else if (48 <=? c) && (c <=? 57) then
        let num := num * 10 + (c - 48) in
        if 2 ^ 31 <=? num then None else parse_octets str' octets octet_idx num
      else if c =? 46 then
        octets ← set_octet octets octet_idx num; parse_octets str' octets (octet_idx + 1) 0
      else parse_octets str' octets octet_idx num
  end.

Definition octets_addr (octets : list Z) : Z :=
  match octets with
  | [a; b; c; d] => (a <<: 24) |: (b <<: 16) |: (c <<: 8) |: d
  | _ => 0
  end.

Definition ip_str_to_addr (str : option (list Z)) : option Z :=
  match str with
  | None => Some 0
  | Some str =>
      '(octets, octet_idx, num) ← parse_octets str [0; 0; 0; 0] 0 0;
      octets ← set_octet octets octet_idx num;
      Some (u32 (octets_addr octets))
  end.

(** ** Byte order *)

Lemma land_ff x : x &: 0xFF = x mod 256.
Proof. apply (Z.land_ones x 8). lia. Qed.

Lemma land_ffff x : x &: 0xFFFF = x mod 65536.
Proof. apply (Z.land_ones x 16). lia. Qed.

Lemma htons_eq x : 0 ≤ x < 65536 → htons x = x / 256 + 256 * (x mod 256).
Proof.
  intros Hx. unfold htons. rewrite !land_ff, Z.shiftr_div_pow2 by done. change (2 ^ 8) with 256.
  assert (0 ≤ x / 256 < 256) by (split; [apply Z.div_pos; lia|apply Z.div_lt_upper_bound; lia]).
  pose proof (Z.mod_pos_bound x 256 ltac:(lia)).
  rewrite Z.lor_comm, (Z.mod_small (x / 256)), byte_pair by (unfold is_byte; lia). apply u16_small. lia.
Qed.

Lemma htons_range x : 0 ≤ htons x < 65536.
Proof. apply u16_range. Qed.

Lemma htons_involutive x : 0 ≤ x < 65536 → htons (htons x) = x.
Proof.
  intros Hx. pose proof (htons_range x). rewrite (htons_eq (htons x)) by done. rewrite htons_eq by done.
  pose proof (Z.div_mod x 256 ltac:(lia)). pose proof (Z.mod_pos_bound x 256 ltac:(lia)).
  assert (0 ≤ x / 256 < 256) by (split; [apply Z.div_pos; lia|apply Z.div_lt_upper_bound; lia]).
  rewrite <-(Z.div_unique (x / 256 + 256 * (x mod 256)) 256 (x mod 256) (x / 256)) by lia.
  rewrite <-(Z.mod_unique (x / 256 + 256 * (x mod 256)) 256 (x mod 256) (x / 256)) by lia. lia.
Qed.

(** The four bytes of a word, most significant first. *)
Lemma byte_mask x n : 0 ≤ n → (x &: (0xFF <<: n)) = ((x / 2 ^ n) mod 256) <<: n.
Proof.
  intros Hn. rewrite <-Z.shiftr_div_pow2 by done. rewrite <-land_ff. apply Z.bits_inj'. intros k Hk.
  rewrite Z.land_spec. destruct (Z.ltb_spec k n).
  - rewrite !Z.shiftl_spec_low by done. apply andb_false_r.
  - rewrite !Z.shiftl_spec_high, Z.land_spec, Z.shiftr_spec by lia. do 2 f_equal. lia.
Qed.

Definition byte_of (x n : Z) : Z := (x / 2 ^ n) mod 256.

Lemma byte_of_range x n : 0 ≤ byte_of x n < 256.
Proof. apply Z.mod_pos_bound. lia. Qed.

Lemma lor_reverse a b c d : a |: b |: c |: d = d |: c |: b |: a.
Proof. apply Z.bits_inj'. intros k _. rewrite !Z.lor_spec. by destruct (Z.testbit a k), (Z.testbit b k), (Z.testbit c k), (Z.testbit d k). Qed.

Lemma htonl_eq x : 0 ≤ x < 2 ^ 32 →
  htonl x = byte_of x 24 + 2 ^ 8 * byte_of x 16 + 2 ^ 16 * byte_of x 8 + 2 ^ 24 * byte_of x 0.
Proof.
  intros Hx. unfold htonl.
  change 0xFF00 with (0xFF <<: 8). change 0xFF0000 with (0xFF <<: 16). rewrite !byte_mask by lia.
  rewrite !land_ff, Z.shiftr_shiftl_l, Z.shiftl_shiftl by lia. rewrite Z.shiftr_div_pow2 by lia.
  fold (byte_of x 24) (byte_of x 16) (byte_of x 8).
  replace (x mod 256) with (byte_of x 0) by (unfold byte_of; by rewrite Z.div_1_r).
  pose proof (byte_of_range x 24). pose proof (byte_of_range x 16).
  pose proof (byte_of_range x 8). pose proof (byte_of_range x 0).
  change (16 - 8) with 8. change (8 + 8) with 16. rewrite lor_reverse.
  rewrite (lor_shiftl_add (byte_of x 24)), (lor_shiftl_add (_ + _)), (lor_shiftl_add (_ + _)) by lia.
  rewrite u32_small; lia.
Qed.

Lemma htonl_range x : 0 ≤ htonl x < 2 ^ 32.
Proof. apply u32_range. Qed.

Lemma bytes_of_sum a b c d :
  is_byte a → is_byte b → is_byte c → is_byte d → let x := a + 2 ^ 8 * b + 2 ^ 16 * c + 2 ^ 24 * d in
  byte_of x 0 = a ∧ byte_of x 8 = b ∧ byte_of x 16 = c ∧ byte_of x 24 = d.
Proof.
  unfold is_byte, byte_of. intros Ha Hb Hc Hd. cbv zeta. split_and!.
  - rewrite Z.div_1_r. symmetry. apply (Z.mod_unique _ _ (b + 2 ^ 8 * c + 2 ^ 16 * d)); lia.
  - rewrite <-(Z.div_unique _ (2 ^ 8) (b + 2 ^ 8 * c + 2 ^ 16 * d) a) by lia.
    symmetry. apply (Z.mod_unique _ _ (c + 2 ^ 8 * d)); lia.
  - rewrite <-(Z.div_unique _ (2 ^ 16) (c + 2 ^ 8 * d) (a + 2 ^ 8 * b)) by lia.
    symmetry. apply (Z.mod_unique _ _ d); lia.
  - rewrite <-(Z.div_unique _ (2 ^ 24) d (a + 2 ^ 8 * b + 2 ^ 16 * c)) by lia. apply Z.mod_small. lia.
Qed.

Lemma bytes_sum x : 0 ≤ x < 2 ^ 32 →
  x = byte_of x 0 + 2 ^ 8 * byte_of x 8 + 2 ^ 16 * byte_of x 16 + 2 ^ 24 * byte_of x 24.
Proof.
  intros Hx. unfold byte_of. rewrite Z.div_1_r, (Z.mod_small (x / 2 ^ 24)) by
    (split; [apply Z.div_pos; lia|apply Z.div_lt_upper_bound; lia]).
  change (2 ^ 16) with (2 ^ 8 * 256) at 2. change (2 ^ 24) with (2 ^ 8 * 256 * 256) at 2.
  rewrite <-!Z.div_div by lia. change (2 ^ 8) with 256.
  pose proof (Z.div_mod x 256). pose proof (Z.div_mod (x / 256) 256). pose proof (Z.div_mod (x / 256 / 256) 256). lia.
Qed.

Lemma htonl_involutive x : 0 ≤ x < 2 ^ 32 → htonl (htonl x) = x.
Proof.
  intros Hx. rewrite (htonl_eq (htonl x)) by apply htonl_range. rewrite (htonl_eq x) by done.
  destruct (bytes_of_sum (byte_of x 24) (byte_of x 16) (byte_of x 8) (byte_of x 0))
    as (-> & -> & -> & ->); [apply byte_of_range..|]. symmetry. rewrite (bytes_sum x) at 1 by done. lia.
Qed.

(** On the wire a converted field has its most significant byte first. *)
Lemma put32_bytes x : put32 x = [byte_of x 0; byte_of x 8; byte_of x 16; byte_of x 24].
Proof. unfold put32, byte_of, u8. rewrite !Z.shiftr_div_pow2 by done. by rewrite Z.div_1_r. Qed.

Lemma put32_htonl x : 0 ≤ x < 2 ^ 32 → put32 (htonl x) = [byte_of x 24; byte_of x 16; byte_of x 8; byte_of x 0].
Proof.
  intros Hx. rewrite put32_bytes, htonl_eq by done.
  by destruct (bytes_of_sum (byte_of x 24) (byte_of x 16) (byte_of x 8) (byte_of x 0))
    as (-> & -> & -> & ->); [apply byte_of_range..|].
Qed.

Lemma put16_htons x : 0 ≤ x < 65536 → put16 (htons x) = [x / 256; x mod 256].
Proof.
  intros Hx. rewrite htons_eq by done. unfold put16, u8. rewrite Z.shiftr_div_pow2 by done. change (2 ^ 8) with 256.
  assert (0 ≤ x / 256 < 256) by (split; [apply Z.div_pos; lia|apply Z.div_lt_upper_bound; lia]).
  pose proof (Z.mod_pos_bound x 256 ltac:(lia)).
  rewrite <-(Z.mod_unique (x / 256 + 256 * (x mod 256)) 256 (x mod 256) (x / 256)) by lia.
  rewrite <-(Z.div_unique (x / 256 + 256 * (x mod 256)) 256 (x mod 256) (x / 256)) by lia.
  by rewrite Z.mod_mod by lia.
Qed.

(** The wire formats: most significant byte first. *)
Definition be16 (x : Z) : list Z := [x / 256; x mod 256].
Definition be32 (x : Z) : list Z := [byte_of x 24; byte_of x 16; byte_of x 8; byte_of x 0].


(** ** The checksum as a one's-complement sum *)

(** The sum of the little-endian words of a buffer; an odd last byte counts as
    a word of its own. *)
Fixpoint wsum (l : list Z) : Z :=
  match l with
  | a :: b :: l' => a + 256 * b + wsum l'
  | [a] => a
  | [] => 0
  end.

(** The representative of a sum in one's-complement arithmetic of 16 bits. *)
Definition ones16 (w : Z) : Z := if w =? 0 then 0 else (w - 1) mod 65535 + 1.

Lemma ones16_range w : 0 ≤ ones16 w ≤ 65535.
Proof. unfold ones16. case_Z (w =? 0); [lia|]. pose proof (Z.mod_pos_bound (w - 1) 65535). lia. Qed.

Lemma ones16_small w : 0 ≤ w ≤ 65535 → ones16 w = w.
Proof. intros. unfold ones16. case_Z (w =? 0); [lia|]. rewrite Z.mod_small; lia. Qed.

Lemma ones16_shift w k : 0 < w → 0 ≤ k → ones16 (w + k * 65535) = ones16 w.
Proof.
  intros Hw Hk. unfold ones16. case_Z (w =? 0); [lia|]. case_Z (w + k * 65535 =? 0); [lia|].
  replace (w + k * 65535 - 1) with (w - 1 + k * 65535) by lia. by rewrite Z.mod_add by lia.
Qed.

(** A sum is folded to all ones exactly when it is a positive multiple of
    65535. *)
Lemma ones16_full w : 0 ≤ w → ones16 w = 65535 ↔ 0 < w ∧ w mod 65535 = 0.
Proof.
  intros Hw. unfold ones16. case_Z (w =? 0); [lia|]. split.
  - intros E. split; [lia|].
    pose proof (Z.div_mod (w - 1) 65535 ltac:(lia)) as D.
    replace w with ((w - 1) / 65535 * 65535 + 65535) by lia.
    replace ((w - 1) / 65535 * 65535 + 65535) with (((w - 1) / 65535 + 1) * 65535) by lia.
    apply Z.mod_mul. lia.
  - intros [_ E]. apply Z.mod_divide in E as [k ->]; [|lia].
    rewrite <-(Z.mod_unique (k * 65535 - 1) 65535 (k - 1) 65534); lia.
Qed.

Lemma fold_step s : 0 ≤ s < 2 ^ 32 →
  let r := (s &: 0xFFFF) + (s >>: 16) in
  0 ≤ r ≤ 0x1FFFE ∧ (s < 0x1FFFF → r ≤ 65535) ∧ ones16 r = ones16 s.
Proof.
  intros Hs r. subst r. rewrite land_ffff, Z.shiftr_div_pow2 by lia. change (2 ^ 16) with 65536.
  pose proof (Z.div_mod s 65536 ltac:(lia)) as D. pose proof (Z.mod_pos_bound s 65536 ltac:(lia)).
  assert (0 ≤ s / 65536 < 65536) by (split; [apply Z.div_pos; lia|apply Z.div_lt_upper_bound; lia]).
  split; [lia|]. split; [lia|]. destruct (decide (s = 0)) as [->|]; [done|].
  rewrite <-(ones16_shift _ (s / 65536)) by lia. f_equal. lia.
Qed.

Lemma fold_sum_ok s : 0 ≤ s < 2 ^ 32 → fold_sum FOLD_ROUNDS s = Some (ones16 s).
Proof.
  assert (Hstop : ∀ n s, 0 ≤ s ≤ 65535 → fold_sum n s = Some (ones16 s)).
  { intros n x Hx. assert (truth (x >>: 16) = false) as E.
    { unfold truth. rewrite Z.shiftr_div_pow2, Z.div_small by lia. done. }
    rewrite (ones16_small x) by lia. destruct n; cbn [fold_sum]; by rewrite E. }
  intros Hs. unfold FOLD_ROUNDS. cbn [fold_sum].
  destruct (fold_step s Hs) as (Hr & _ & E1). rewrite (u32_small (_ + _)) by lia.
  destruct (truth (s >>: 16)) eqn:T1.
  2:{ rewrite ones16_small; [done|]. unfold truth in T1. rewrite Z.shiftr_div_pow2 in T1 by lia.
      apply negb_false_iff, Z.eqb_eq in T1. apply Z.div_small_iff in T1; lia. }
  destruct (fold_step ((s &: 0xFFFF) + (s >>: 16))) as (_ & Hr2 & E2); [lia|].
  rewrite <-E1, <-E2. set (r := (s &: 0xFFFF) + (s >>: 16)) in *. cbn [fold_sum].
  destruct (truth (r >>: 16)) eqn:T2.
  - destruct (fold_step r ltac:(lia)) as (? & _). rewrite (u32_small (_ + _)) by lia. apply (Hstop 0%nat). lia.
  - rewrite E2, ones16_small; [done|]. unfold truth in T2. rewrite Z.shiftr_div_pow2 in T2 by lia.
    apply negb_false_iff, Z.eqb_eq in T2. apply Z.div_small_iff in T2; lia.
Qed.

Lemma wsum_bounds l : bytes l → 0 ≤ wsum l ∧ 2 * wsum l ≤ 65535 * (Z.of_nat (length l) + 1).
Proof.
  revert l. fix IH 1. intros [|a [|b l]] Hl; cbn [wsum length]; [lia|..].
  - inversion_clear Hl as [|? ? Ha _]. unfold is_byte in Ha. lia.
  - inversion_clear Hl as [|? ? Ha Hl']. inversion_clear Hl' as [|? ? Hb Hl].
    specialize (IH l Hl). unfold is_byte in *. lia.
Qed.

Lemma sum_words_ok l sum : bytes l → 0 ≤ sum → 2 * sum + 65535 * (Z.of_nat (length l) + 1) < 2 ^ 33 →
  sum_words l (Z.of_nat (length l)) sum = Some (sum + wsum l).
Proof.
  revert l sum. fix IH 1. intros [|a [|b l]] sum Hl Hs Hb; cbn [sum_words wsum length].
  - cbn. f_equal. lia.
  - inversion_clear Hl as [|? ? Ha _]. unfold is_byte in Ha. cbn in *. rewrite u32_small by lia. done.
  - inversion_clear Hl as [|? ? Ha Hl']. inversion_clear Hl' as [|? ? Hb' Hl]. cbn [length] in Hb.
    case_Z (1 <? Z.of_nat (Datatypes.S (Datatypes.S (length l)))); [|lia].
    rewrite byte_pair by done. unfold is_byte in *. rewrite u32_small by lia.
    replace (Z.of_nat (Datatypes.S (Datatypes.S (length l))) - 2) with (Z.of_nat (length l)) by lia.
    rewrite IH by (done || lia). f_equal. lia.
Qed.

(** A buffer of a length a 16-bit variable can hold. *)
Definition packet (l : list Z) : Prop := bytes l ∧ Z.of_nat (length l) < 65536.

(** The value of the shared loops, for a pseudo header sum of six words. *)
Lemma checksum_from_ok sum l : packet l → 0 ≤ sum ≤ 6 * 65535 →
  checksum_from sum l (Z.of_nat (length l)) = Some (65535 - ones16 (sum + wsum l)).
Proof.
  intros [Hl Hn] Hs. unfold checksum_from. pose proof (wsum_bounds l Hl).
  rewrite sum_words_ok by (done || lia). cbn [mbind option_bind]. rewrite fold_sum_ok by lia.
  cbn [mbind option_bind]. f_equal. pose proof (ones16_range (sum + wsum l)).
  unfold u16, Z.lnot. rewrite <-(Z.mod_unique _ _ (-1) (65535 - ones16 (sum + wsum l))); lia.
Qed.

(** C37: [ip_checksum] of any packet is the complement of the one's-complement sum
    of its 16-bit words (the odd byte last), the checksum of RFC 1071: the carries
    are folded in two rounds and nothing overflows. *)
Theorem ip_checksum_spec data : packet data →
  ip_checksum data (Z.of_nat (length data)) = Some (65535 - ones16 (wsum data)).
Proof. intros Hd. unfold ip_checksum. rewrite checksum_from_ok by (done || lia). done. Qed.

Lemma ip_checksum_witness : ip_checksum [0x45; 0; 0; 0x16] 4 = Some (65535 - (0x0045 + 0x1600)).
Proof.
  etrans; [apply (ip_checksum_spec [0x45; 0; 0; 0x16])|reflexivity]. split; [|done]. by repeat constructor.
Defined.

(** Bytes behind the range do not matter. *)
Lemma sum_words_app l1 l2 sum :
  sum_words (l1 ++ l2) (Z.of_nat (length l1)) sum = sum_words l1 (Z.of_nat (length l1)) sum.
Proof.
  revert l1 sum. fix IH 1. intros [|a [|b l]] sum; [clear IH; by destruct l2|clear IH; by destruct l2|].
  cbn [length app sum_words]. case_Z (1 <? Z.of_nat (Datatypes.S (Datatypes.S (length l)))); [|lia].
  replace (Z.of_nat (Datatypes.S (Datatypes.S (length l))) - 2) with (Z.of_nat (length l)) by lia. apply IH.
Qed.

Lemma checksum_from_app sum l1 l2 :
  checksum_from sum (l1 ++ l2) (Z.of_nat (length l1)) = checksum_from sum l1 (Z.of_nat (length l1)).
Proof. unfold checksum_from. by rewrite sum_words_app. Qed.

(** ** Verification of a checksum *)

(** The receiver's test: the sum with the checksum in place folds to all
    ones. *)
Lemma checksum_zero sum l : packet l → 0 ≤ sum ≤ 6 * 65535 →
  checksum_from sum l (Z.of_nat (length l)) = Some 0 ↔ 0 < sum + wsum l ∧ (sum + wsum l) mod 65535 = 0.
Proof.
  intros Hl Hs. rewrite checksum_from_ok by done. pose proof (wsum_bounds l (proj1 Hl)).
  rewrite <-ones16_full by lia. split; [intros [=]; lia|]. intros ->. done.
Qed.

Lemma wsum_app l1 l2 : Nat.even (length l1) = true → wsum (l1 ++ l2) = wsum l1 + wsum l2.
Proof.
  revert l1. fix IH 1. intros [|a [|b l]] He; [done|done|].
  cbn [app wsum]. rewrite IH by done. lia.
Qed.

Lemma wsum_put16 x l : 0 ≤ x < 65536 → wsum (put16 x ++ l) = x + wsum l.
Proof.
  intros Hx. cbn [put16 app wsum]. rewrite <-byte_pair by apply u8_byte. rewrite join16, u16_small by done. done.
Qed.

(** A sender that stores the checksum of its packet in an aligned word that was
    zero produces a packet every receiver accepts. *)
Lemma checksum_inserted sum pre post n c :
  Nat.even (length pre) = true → 0 ≤ sum ≤ 6 * 65535 → packet (pre ++ put16 0 ++ post) →
  n = Z.of_nat (length (pre ++ put16 0 ++ post)) →
  checksum_from sum (pre ++ put16 0 ++ post) n = Some c →
  0 ≤ c < 65536 ∧ checksum_from sum (pre ++ put16 c ++ post) n = Some 0.
Proof.
  intros He Hs Hl ->. rewrite checksum_from_ok by done. intros <-%Some_inj.
  set (w := sum + wsum (pre ++ put16 0 ++ post)). pose proof (ones16_range w) as Hr.
  split; [lia|]. set (c := 65535 - ones16 w) in *.
  assert (packet (pre ++ put16 c ++ post)) as Hp.
  { unfold packet in *. rewrite !bytes_app, !length_app in *. split; [|exact (proj2 Hl)]. destruct Hl as [(? & _ & ?) _].
    auto with kernel. }
  replace (length (pre ++ put16 0 ++ post)) with (length (pre ++ put16 c ++ post)) by (by rewrite !length_app).
  apply checksum_zero; [done|done|].
  assert (sum + wsum (pre ++ put16 c ++ post) = w + c) as ->.
  { subst w. rewrite !(wsum_app pre), !wsum_put16 by (done || lia). lia. }
  assert (0 ≤ w) by (pose proof (wsum_bounds _ (proj1 Hl)); lia). clearbody w. subst c.
  clear Hr Hp. unfold ones16. case_Z (w =? 0); [subst; done|].
  pose proof (Z.div_mod (w - 1) 65535 ltac:(lia)). pose proof (Z.mod_pos_bound (w - 1) 65535 ltac:(lia)).
  split; [lia|]. replace (w + _) with (((w - 1) / 65535 + 1) * 65535) by lia. by apply Z.mod_mul.
Qed.

(** One changed byte changes the sum by less than 65535. *)
Lemma wsum_update l i a b :
  l !! i = Some a → wsum (<[i := b]> l) = wsum l + (b - a) * (if Nat.even i then 1 else 256).
Proof.
  revert l i. fix IH 1. intros [|x [|y l]] [|[|i]] Hi; try done; cbn in Hi; simplify_eq; try (cbn; lia).
  change (<[Datatypes.S (Datatypes.S i) := b]> (x :: y :: l)) with (x :: y :: <[i := b]> l).
  cbn [wsum Nat.even]. rewrite (IH l i Hi). lia.
Qed.

(** No packet that passes the test fails to lose it by the change of a single
    byte. *)
Lemma checksum_detects sum l i a b :
  packet l → 0 ≤ sum ≤ 6 * 65535 → l !! i = Some a → is_byte b → b ≠ a →
  checksum_from sum l (Z.of_nat (length l)) = Some 0 →
  checksum_from sum (<[i := b]> l) (Z.of_nat (length l)) ≠ Some 0.
Proof.
  intros Hl Hs Hi Hb Hne. assert (packet (<[i := b]> l)) as Hl'.
  { destruct Hl as [Hf Hn]. split; [|by rewrite length_insert]. by apply Forall_insert. }
  rewrite checksum_zero by done. intros [_ E].
  replace (length l) with (length (<[i := b]> l)) by apply length_insert.
  rewrite checksum_zero by done. rewrite (wsum_update l i a b Hi). intros [_ E'].
  assert (is_byte a) as Ha by (by eapply Forall_lookup_1; [apply Hl|]). unfold is_byte in *.
  apply Z.mod_divide in E as [k E]; [|lia]. apply Z.mod_divide in E' as [k' E']; [|lia].
  destruct (Nat.even i); lia.
Qed.

(** ** Sending *)

Lemma pseudo_sum_range src_ip dest_ip proto length : 0 ≤ pseudo_sum src_ip dest_ip proto length ≤ 6 * 65535.
Proof.
  unfold pseudo_sum. rewrite !land_ffff.
  pose proof (Z.mod_pos_bound (src_ip >>: 16) 65536). pose proof (Z.mod_pos_bound src_ip 65536).
  pose proof (Z.mod_pos_bound (dest_ip >>: 16) 65536). pose proof (Z.mod_pos_bound dest_ip 65536).
  pose proof (htons_range proto). pose proof (htons_range length). lia.
Qed.

Lemma ip_header_packet src_ip dest_ip protocol length c : is_byte protocol →
  packet (ip_header src_ip dest_ip protocol length c) ∧ List.length (ip_header src_ip dest_ip protocol length c) = 20%nat.
Proof.
  intros Hp. split; [split|]; [|done..]. unfold ip_header. rewrite !bytes_app, !bytes_cons.
  split_and!; auto with kernel; unfold is_byte; lia.
Qed.

Lemma ip_header_split src_ip dest_ip protocol length c :
  ip_header src_ip dest_ip protocol length c =
  ([0x45; 0] ++ put16 (htons (u16 (IP_HEADER_SIZE + length))) ++ put16 0 ++ put16 0 ++ [64; protocol])
  ++ put16 c ++ put32 (htonl src_ip) ++ put32 (htonl dest_ip).
Proof. unfold ip_header. by rewrite !app_assoc. Qed.

(** The checksum of the header passes the receiver's test. *)
Lemma ip_header_sum src_ip dest_ip protocol length : is_byte protocol →
  ∃ c, ip_checksum (ip_header src_ip dest_ip protocol length 0) IP_HEADER_SIZE = Some c ∧
    ip_checksum (ip_header src_ip dest_ip protocol length c) IP_HEADER_SIZE = Some 0.
Proof.
  intros Hp. destruct (ip_header_packet src_ip dest_ip protocol length 0 Hp) as [Hpk Hl].
  pose proof (checksum_from_ok 0 _ Hpk ltac:(lia)) as Hc. rewrite Hl in Hc. change (Z.of_nat 20) with IP_HEADER_SIZE in Hc.
  eexists. split; [exact Hc|]. revert Hc. generalize (65535 - ones16 (0 + wsum (ip_header src_ip dest_ip protocol length 0))).
  intros c. rewrite !ip_header_split in *. unfold ip_checksum. intros Hc.
  eapply checksum_inserted; [reflexivity|lia|exact Hpk|reflexivity|exact Hc].
Qed.

(** What [ip_send] builds. *)
Lemma ip_send_ok dest_ip protocol data length s :
  tcpip_initialized s = true → is_byte protocol →
  ∃ c, let hdr := ip_header (ip_addr (net_iface s)) dest_ip protocol length c in
    ip_send dest_ip protocol (Some data) length s = Some (0, s⟦ip_out ::= cons (dest_ip, protocol, hdr, data)⟧) ∧
    ip_checksum hdr IP_HEADER_SIZE = Some 0.
Proof.
  intros Hi Hp. destruct (ip_header_sum (ip_addr (net_iface s)) dest_ip protocol length Hp) as (c & Hc & Hv).
  exists c. cbv zeta. split; [|exact Hv]. unfold ip_send. rewrite Hi, Hc. reflexivity.
Qed.

(** The header of a packet of [length] bytes between two hosts. *)
Definition good_header (src_ip dest_ip protocol length : Z) (hdr : list Z) : Prop :=
  ∃ c, hdr = ip_header src_ip dest_ip protocol length c ∧ ip_checksum hdr IP_HEADER_SIZE = Some 0.

(** A packet that was handed to the IP layer, nothing else changed there. *)
Definition emitted (dest_ip protocol : Z) (pkt : list Z) (ns ns' : net_state) : Prop :=
  ∃ iphdr, good_header (ip_addr (net_iface ns)) dest_ip protocol (Z.of_nat (length pkt)) iphdr ∧
    ns' = ns⟦ip_out ::= cons (dest_ip, protocol, iphdr, pkt)⟧.

Lemma ip_send_emitted dest_ip protocol pkt n s :
  tcpip_initialized s = true → is_byte protocol → n = Z.of_nat (length pkt) →
  ∃ s', ip_send dest_ip protocol (Some pkt) n s = Some (0, s') ∧ emitted dest_ip protocol pkt s s'.
Proof.
  intros Hi Hp ->. destruct (ip_send_ok dest_ip protocol pkt (Z.of_nat (length pkt)) s Hi Hp) as (c & Hsend & Hc).
  eexists. split; [exact Hsend|]. eexists. split; [|reflexivity]. by exists c.
Qed.

(** ** Addresses as text *)

Definition digits (ds : list Z) : Prop := Forall (fun c => 48 ≤ c ≤ 57) ds.
Definition decimal (n : Z) (ds : list Z) : Z := foldl (fun n c => n * 10 + (c - 48)) n ds.

Lemma decimal_grows n ds : 0 ≤ n → digits ds → n ≤ decimal n ds.
Proof.
  intros Hn Hd. revert n Hn. induction Hd as [|c ds Hc Hd IH]; intros n Hn; [done|].
  cbn [decimal foldl]. etrans; [|apply IH; lia]. lia.
Qed.

Lemma parse_digits ds rest octets idx num :
  digits ds → 0 ≤ num → 0 ≤ idx < 4 → decimal num ds < 2 ^ 31 →
  parse_octets (ds ++ rest) octets idx num = parse_octets rest octets idx (decimal num ds).
Proof.
  intros Hd. revert num. induction Hd as [|c ds Hc Hd IH]; intros num Hn Hi Hv; [done|].
  cbn [app parse_octets decimal foldl] in *. case_Z (4 <=? idx); [lia|].
  case_Z (48 <=? c); [|lia]. case_Z (c <=? 57); [|lia]. cbn [andb].
  pose proof (decimal_grows (num * 10 + (c - 48)) ds ltac:(lia) Hd). unfold decimal in *.
  case_Z (2 ^ 31 <=? num * 10 + (c - 48)); [lia|]. apply IH; [lia|lia|done].
Qed.

Lemma parse_dot rest octets idx num :
  0 ≤ idx < 4 → parse_octets (46 :: rest) octets idx num = parse_octets rest (<[Z.to_nat idx := u8 num]> octets) (idx + 1) 0.
Proof.
  intros Hi. cbn [parse_octets]. case_Z (4 <=? idx); [lia|]. cbn [Z.leb Z.eqb andb Z.compare Pos.compare Pos.compare_cont Pos.eqb].
  unfold set_octet. case_Z (0 <=? idx); [|lia]. case_Z (idx <? 4); [|lia]. done.
Qed.

Definition dotted (a b c d : list Z) : list Z := a ++ 46 :: b ++ 46 :: c ++ 46 :: d.

(** Each of the four numbers of a dotted address is kept modulo 256. *)
Lemma ip_str_to_addr_octets a b c d :
  (∀ ds, ds ∈ [a; b; c; d] → digits ds ∧ decimal 0 ds < 2 ^ 31) →
  ip_str_to_addr (Some (dotted a b c d)) =
  Some (2 ^ 24 * u8 (decimal 0 a) + 2 ^ 16 * u8 (decimal 0 b) + 2 ^ 8 * u8 (decimal 0 c) + u8 (decimal 0 d)).
Proof.
  intros Hall. unfold ip_str_to_addr, dotted.
  destruct (Hall a) as [Ha Va]; [set_solver|]. destruct (Hall b) as [Hb Vb]; [set_solver|].
  destruct (Hall c) as [Hc Vc]; [set_solver|]. destruct (Hall d) as [Hd Vd]; [set_solver|].
  rewrite parse_digits, parse_dot by (done || lia). rewrite parse_digits, parse_dot by (done || lia).
  rewrite parse_digits, parse_dot by (done || lia). rewrite <-(app_nil_r d) at 1.
  rewrite parse_digits by (done || lia). cbn [parse_octets mbind option_bind].
  change (set_octet (<[Z.to_nat (0 + 1 + 1):=u8 (decimal 0 c)]> (<[Z.to_nat (0 + 1):=u8 (decimal 0 b)]>
    (<[Z.to_nat 0:=u8 (decimal 0 a)]> [0; 0; 0; 0]))) (0 + 1 + 1 + 1) (decimal 0 d))
    with (Some [u8 (decimal 0 a); u8 (decimal 0 b); u8 (decimal 0 c); u8 (decimal 0 d)]).
  cbn [mbind option_bind octets_addr].
  pose proof (u8_byte (decimal 0 a)). pose proof (u8_byte (decimal 0 b)).
  pose proof (u8_byte (decimal 0 c)). pose proof (u8_byte (decimal 0 d)). unfold is_byte in *.
  rewrite lor_reverse, (lor_shiftl_add (u8 _)), (lor_shiftl_add (_ + _)), (lor_shiftl_add (_ + _)) by lia.
  rewrite u32_small by lia. f_equal. lia.
Qed.

(** Parsing inverts the dotted notation of an address. *)
Theorem ip_str_to_addr_spec a b c d :
  (∀ ds, ds ∈ [a; b; c; d] → digits ds ∧ decimal 0 ds < 256) →
  ip_str_to_addr (Some (dotted a b c d)) =
  Some (2 ^ 24 * decimal 0 a + 2 ^ 16 * decimal 0 b + 2 ^ 8 * decimal 0 c + decimal 0 d).
Proof.
  intros Hall. rewrite ip_str_to_addr_octets by (intros ds Hds; destruct (Hall ds Hds); split; [done|lia]).
  assert (∀ ds, ds ∈ [a; b; c; d] → u8 (decimal 0 ds) = decimal 0 ds) as E.
  { intros ds Hds. destruct (Hall ds Hds) as [Hd Hv]. apply u8_small.
    pose proof (decimal_grows 0 ds ltac:(lia) Hd). lia. }
  rewrite !E by set_solver. done.
Qed.

Definition text (s : string) : list Z := (fun c => Z.of_N (Ascii.N_of_ascii c)) <$> String.list_ascii_of_string s.

Lemma ip_str_to_addr_witness : ip_str_to_addr (Some (text "192.168.1.10")) = Some 0xC0A8010A.
Proof.
  refine (ip_str_to_addr_spec (text "192") (text "168") (text "1") (text "10") _).
  intros ds Hds. rewrite !elem_of_cons, elem_of_nil in Hds.
  destruct Hds as [->|[->|[->|[->|[]]]]]; (split; [apply (bool_decide_unpack _); vm_compute; exact I|vm_compute; done]).
Defined.

(** A fourth dot makes the code write behind the array of octets; a number
    above 255 is cut to eight bits. *)
Theorem ip_str_to_addr_overruns :
  ip_str_to_addr (Some (text "192.168.1.10.")) = None ∧ ip_str_to_addr (Some (text "256.0.0.1")) = Some 1.
Proof. by vm_compute. Qed.
