(* ===== verification/Icmp.v ===== *)
(** * ICMP (kernel/net/icmp.c)

    Echo requests and replies, error messages, the receive handler and [ping].
    Packets are lists of bytes; a packet argument of the code is a pointer and a
    length, here the bytes from the pointer on (or the null pointer) and the
    length.  A result [None] is undefined behaviour: a read or write outside a
    packet.

    [ping] waits in a loop for a reply while interrupts deliver packets.  The
    loop is a function of what happens in each of its rounds: the clock reading
    and the packets that arrive.  Output on the serial line is not modelled. *)

From S2P Require Import Prelude Bytes KHeap Net.

Definition ICMP_TYPE_ECHO_REPLY : Z := 0.
Definition ICMP_TYPE_DEST_UNREACHABLE : Z := 3.
Definition ICMP_TYPE_ECHO_REQUEST : Z := 8.
Definition ICMP_TYPE_TIME_EXCEEDED : Z := 11.
Definition ICMP_HEADER_SIZE : Z := 8.

Record icmp_stats := mk_icmp_stats {
  msgs_received : Z;
  msgs_sent : Z;
  icmp_errors : Z;
  echo_requests : Z;
  echo_replies : Z;
}.
#[export] Instance eta_icmp_stats : Eta icmp_stats := fun s =>
  mk_icmp_stats (msgs_received s) (msgs_sent s) (icmp_errors s) (echo_requests s) (echo_replies s).

Record ping_state := mk_ping {
  ping_dest : Z;
  ping_id_used : Z;
  ping_seq_used : Z;
  send_time : Z;
  received : Z;
  rtt_ms : Z;
}.
#[export] Instance eta_ping : Eta ping_state := fun p =>
  mk_ping (ping_dest p) (ping_id_used p) (ping_seq_used p) (send_time p) (received p) (rtt_ms p).

(** The static variables of icmp.c. *)
Record icmp_state := mk_icmp {
  stats : icmp_stats;
  pinging : ping_state;
  ping_seq : Z;
}.
#[export] Instance eta_icmp : Eta icmp_state := fun s => mk_icmp (stats s) (pinging s) (ping_seq s).

Definition icmp_boot : icmp_state := mk_icmp (mk_icmp_stats 0 0 0 0 0) (mk_ping 0 0 0 0 0 0) 0.
Definition ping_id : Z := 1.

Definition count (f : icmp_stats → icmp_stats) (st : icmp_state) : icmp_state := st⟦stats ::= f⟧.

Definition icmp_checksum (data : list Z) (length : Z) : option Z := checksum_from 0 data length.

(** The packed struct [icmp_header_t]. *)
Definition icmp_header (type code checksum rest : Z) : list Z :=
  [type; code] ++ put16 checksum ++ put32 rest.

(** [rest] of an echo message. *)
Definition echo_rest (id seq : Z) : Z := htonl ((id <<: 16) |: seq).

Section icmp.
Context {H : Type} `{KernelHeap H}.

(** The part common to the four senders, from the computation of the checksum
    on: [packet] is the block at [p] with the checksum field zero. *)
Definition transmit (dest_ip p : Z) (hdr : Z → list Z) (data : list Z) (total_len : Z) (e : kenv H)
    : option (Z * kenv H) :=
  checksum ← icmp_checksum (hdr 0 ++ data) total_len;
  '(ret, ns) ← ip_send_packet dest_ip IP_PROTO_ICMP (Some (hdr checksum ++ data)) total_len (knet e);
  Some (ret, mk_kenv ns (kfree p (kheap e))).

(** [if (data && data_len > 0) icmp_memcpy(packet + 8, data, data_len);] with
    [total_len] bytes at [packet].  Without data the bytes sent would be those
    that happen to be in the block. *)
Definition copied (data : option (list Z)) (data_len total_len : Z) : option (list Z) :=
  if total_len <? ICMP_HEADER_SIZE + data_len then None
  else if data_len =? 0 then Some []
  else d ← data; slice d 0 data_len.

Definition icmp_echo_request (dest_ip id seq : Z) (data : option (list Z)) (data_len : Z)
    (st : icmp_state) (e : kenv H) : option (Z * icmp_state * kenv H) :=
  let total_len := u16 (ICMP_HEADER_SIZE + data_len) in
  '(p, h) ← kmalloc total_len (kheap e);
  let e := e⟦kheap := h⟧ in
  if p =? 0 then Some (-1, st, e)
  else
    d ← copied data data_len total_len;
    '(ret, e) ← transmit dest_ip p (fun c => icmp_header ICMP_TYPE_ECHO_REQUEST 0 c (echo_rest id seq)) d total_len e;
    let st := if ret =? 0 then
                count (fun s => s⟦msgs_sent ::= fun n => u32 (n + 1)⟧⟦echo_requests ::= fun n => u32 (n + 1)⟧) st
              else st in
    Some (ret, st, e).

Definition icmp_echo_reply (dest_ip id seq : Z) (data : option (list Z)) (data_len : Z)
    (st : icmp_state) (e : kenv H) : option (Z * icmp_state * kenv H) :=
  let total_len := u16 (ICMP_HEADER_SIZE + data_len) in
  '(p, h) ← kmalloc total_len (kheap e);
  let e := e⟦kheap := h⟧ in
  if p =? 0 then Some (-1, st, e)
  else
    d ← copied data data_len total_len;
    '(ret, e) ← transmit dest_ip p (fun c => icmp_header ICMP_TYPE_ECHO_REPLY 0 c (echo_rest id seq)) d total_len e;
    let st := if ret =? 0 then
                count (fun s => s⟦msgs_sent ::= fun n => u32 (n + 1)⟧⟦echo_replies ::= fun n => u32 (n + 1)⟧) st
              else st in
    Some (ret, st, e).

Definition icmp_dest_unreachable (dest_ip code : Z) (orig_packet : list Z) (orig_len : Z)
    (st : icmp_state) (e : kenv H) : option (Z * icmp_state * kenv H) :=
  let copy_len := if 28 <? orig_len then 28 else orig_len in
  let total_len := u16 (ICMP_HEADER_SIZE + copy_len) in
  '(p, h) ← kmalloc total_len (kheap e);
  let e := e⟦kheap := h⟧ in
  if p =? 0 then Some (-1, st, e)
  else
    d ← slice orig_packet 0 copy_len;
    '(ret, e) ← transmit dest_ip p (fun c => icmp_header ICMP_TYPE_DEST_UNREACHABLE code c 0) d total_len e;
    let st := if ret =? 0 then count (fun s => s⟦msgs_sent ::= fun n => u32 (n + 1)⟧) st else st in
    Some (ret, st, e).

Definition icmp_time_exceeded (dest_ip code : Z) (orig_packet : list Z) (orig_len : Z)
    (st : icmp_state) (e : kenv H) : option (Z * icmp_state * kenv H) :=
  let copy_len := if 28 <? orig_len then 28 else orig_len in
  let total_len := u16 (ICMP_HEADER_SIZE + copy_len) in
  '(p, h) ← kmalloc total_len (kheap e);
  let e := e⟦kheap := h⟧ in
  if p =? 0 then Some (-1, st, e)
  else
    d ← slice orig_packet 0 copy_len;
    '(ret, e) ← transmit dest_ip p (fun c => icmp_header ICMP_TYPE_TIME_EXCEEDED code c 0) d total_len e;
    Some (ret, st, e).

Definition icmp_receive (src_ip : Z) (packet : option (list Z)) (length : Z)
    (st : icmp_state) (e : kenv H) : option (Z * icmp_state * kenv H) :=
  let bad := Some (-1, count (fun s => s⟦icmp_errors ::= fun n => u32 (n + 1)⟧) st, e) in
  match packet with
  | None => bad
  | Some packet =>
      if length <? ICMP_HEADER_SIZE then bad
      else
        checksum ← icmp_checksum packet length;
        if negb (checksum =? 0) then bad
        else
          let st := count (fun s => s⟦msgs_received ::= fun n => u32 (n + 1)⟧) st in
          type ← byte_at packet 0; rest ← le32 packet 4;
          let id := (ntohl rest >>: 16) &: 0xFFFF in
          let seq := ntohl rest &: 0xFFFF in
          let data := drop (Z.to_nat ICMP_HEADER_SIZE) packet in
          let data_len := u16 (length - ICMP_HEADER_SIZE) in
          if type =? ICMP_TYPE_ECHO_REQUEST then icmp_echo_reply src_ip id seq (Some data) data_len st e
          else if type =? ICMP_TYPE_ECHO_REPLY then
            Some (0, count (fun s => s⟦echo_replies ::= fun n => u32 (n + 1)⟧) st, e)
          else Some (0, st, e)
  end.

(** ** Ping *)

(** [data[i] = 'a' + (i % 26)] *)
Definition ping_data : list Z := (fun i => 97 + i mod 26) <$> seqZ 0 32.

(** [ping] up to its loop. *)
Definition ping_start (dest_ip now : Z) (st : icmp_state) (e : kenv H) : option (Z * icmp_state * kenv H) :=
  let seq := u16 (ping_seq st + 1) in
  let st := st⟦ping_seq := seq⟧ in
  let st := st⟦pinging ::= fun p => p⟦ping_dest := dest_ip⟧⟦ping_id_used := ping_id⟧⟦ping_seq_used := seq⟧
                                     ⟦send_time := now⟧⟦received := 0⟧⟧ in
  icmp_echo_request dest_ip ping_id seq (Some ping_data) 32 st e.

(** The packets that interrupts deliver in one round of the loop. *)
Fixpoint arrive (ps : list (Z * list Z * Z)) (st : icmp_state) (e : kenv H) : option (icmp_state * kenv H) :=
  match ps with
  | [] => Some (st, e)
  | (src, packet, length) :: ps' => '(_, st, e) ← icmp_receive src (Some packet) length st e; arrive ps' st e
  end.

(** The loop of [ping]; the result is [None] while it waits. *)
Fixpoint ping_wait (rounds : list (Z * list (Z * list Z * Z))) (start timeout_ms : Z)
    (st : icmp_state) (e : kenv H) : option (option Z * icmp_state * kenv H) :=
  match rounds with
  | [] => Some (None, st, e)
  | (now, ps) :: rounds' =>
      if u32 (now - start) <? timeout_ms then
        if truth (received (pinging st)) then Some (Some (rtt_ms (pinging st)), st, e)
        else '(st, e) ← arrive ps st e; ping_wait rounds' start timeout_ms st e
      else Some (Some (-1), st, e)
  end.

Definition ping (dest_ip timeout_ms now start : Z) (rounds : list (Z * list (Z * list Z * Z)))
    (st : icmp_state) (e : kenv H) : option (option Z * icmp_state * kenv H) :=
  '(ret, st, e) ← ping_start dest_ip now st e;
  if negb (ret =? 0) then Some (Some (-1), st, e) else ping_wait rounds start timeout_ms st e.

End icmp.

Definition icmp_get_stats (st : icmp_state) : Z * Z * Z :=
  (msgs_sent (stats st), msgs_received (stats st), icmp_errors (stats st)).

(** ** Sending *)

Section proofs.
Context {H : Type} `{KernelHeap H}.

Lemma transmit_ok dest_ip p type code rest data (e : kenv H) :
  tcpip_initialized (knet e) = true → is_byte type → is_byte code → bytes data →
  8 + Z.of_nat (length data) < 65536 →
  ∃ c ns', let pkt := icmp_header type code c rest ++ data in
    transmit dest_ip p (fun c => icmp_header type code c rest) data (8 + Z.of_nat (length data)) e =
      Some (0, mk_kenv ns' (kfree p (kheap e))) ∧
    emitted dest_ip IP_PROTO_ICMP pkt (knet e) ns' ∧ packet pkt ∧ icmp_checksum pkt (Z.of_nat (length pkt)) = Some 0.
Proof.
  intros Hi Ht Hc Hd Hl.
  assert (∀ c, packet (icmp_header type code c rest ++ data) ∧
               Z.of_nat (length (icmp_header type code c rest ++ data)) = 8 + Z.of_nat (length data)) as Hpk.
  { intros c. assert (Z.of_nat (length (icmp_header type code c rest ++ data)) = 8 + Z.of_nat (length data)) as E
      by (rewrite length_app; cbn; lia). split; [|done]. split; [|lia].
    unfold icmp_header. rewrite !bytes_app, !bytes_cons. split_and!; auto with kernel. }
  unfold transmit. destruct (Hpk 0) as [Hp0 E0]. pose proof (checksum_from_ok 0 _ Hp0 ltac:(lia)) as Hsum. rewrite E0 in Hsum.
  unfold icmp_checksum. rewrite Hsum. cbn [mbind option_bind].
  revert Hsum. generalize (65535 - ones16 (0 + wsum (icmp_header type code 0 rest ++ data))). intros c Hsum.
  destruct (Hpk c) as [Hpc Ec].
  destruct (ip_send_emitted dest_ip IP_PROTO_ICMP (icmp_header type code c rest ++ data) (8 + Z.of_nat (length data)) (knet e) Hi
    ltac:(unfold is_byte, IP_PROTO_ICMP; lia) (eq_sym Ec)) as (ns' & Hsend & Hem). unfold ip_send_packet. rewrite Hsend.
  cbn [mbind option_bind]. exists c, ns'. split; [done|]. split; [done|]. split; [done|].
  rewrite Ec. refine (proj2 (checksum_inserted 0 [type; code] (put32 rest ++ data) _ c eq_refl _ Hp0 (eq_sym E0) Hsum)). lia.
Qed.

(** An echo message as it is on the wire (RFC 792): the identifier and the
    sequence number with the most significant byte first. *)
Definition echo_bytes (type c id seq : Z) (data : list Z) : list Z :=
  [type; 0] ++ put16 c ++ [id / 256; id mod 256; seq / 256; seq mod 256] ++ data.

Definition id_seq (id seq : Z) : Prop := 0 ≤ id < 65536 ∧ 0 ≤ seq < 65536.

Lemma echo_word id seq : id_seq id seq → (id <<: 16) |: seq = id * 65536 + seq.
Proof. intros [? ?]. rewrite Z.lor_comm, lor_shiftl_add by lia. lia. Qed.

Lemma echo_header_bytes type c id seq data : id_seq id seq →
  icmp_header type 0 c (echo_rest id seq) ++ data = echo_bytes type c id seq data.
Proof.
  intros Hid. unfold icmp_header, echo_rest, echo_bytes. rewrite echo_word by done. destruct Hid.
  rewrite put32_htonl by lia. rewrite <-!app_assoc. do 3 f_equal. unfold byte_of.
  pose proof (Z.mod_pos_bound seq 256 ltac:(lia)). pose proof (Z.div_mod seq 256 ltac:(lia)).
  assert (0 ≤ seq / 256 < 256) by (split; [apply Z.div_pos; lia|apply Z.div_lt_upper_bound; lia]).
  assert (0 ≤ id / 256 < 256) by (split; [apply Z.div_pos; lia|apply Z.div_lt_upper_bound; lia]).
  rewrite Z.div_1_r. rewrite <-(Z.div_unique (id * 65536 + seq) (2 ^ 16) id seq) by lia.
  rewrite <-(Z.div_unique (id * 65536 + seq) (2 ^ 8) (id * 256 + seq / 256) (seq mod 256)) by lia.
  replace (2 ^ 24) with (2 ^ 16 * 256) by lia. rewrite <-Z.div_div by lia.
  rewrite <-(Z.div_unique (id * 65536 + seq) (2 ^ 16) id seq) by lia.
  rewrite (Z.mod_small (id / 256)) by lia.
  rewrite <-(Z.mod_unique (id * 256 + seq / 256) 256 id (seq / 256)) by lia.
  rewrite <-(Z.mod_unique (id * 65536 + seq) 256 (id * 256 + seq / 256) (seq mod 256)) by lia. done.
Qed.

Lemma copied_ok data : 8 + Z.of_nat (length data) < 65536 →
  copied (Some data) (Z.of_nat (length data)) (8 + Z.of_nat (length data)) = Some data.
Proof.
  intros Hl. unfold copied, ICMP_HEADER_SIZE. case_Z (8 + Z.of_nat (length data) <? 8 + Z.of_nat (length data)); [lia|].
  case_Z (Z.of_nat (length data) =? 0).
  - f_equal. symmetry. apply nil_length_inv. lia.
  - cbn [mbind option_bind]. apply (slice_tail [] data).
Qed.

Section echo.
Context (id seq : Z) (data : list Z).
Hypotheses (Hid : id_seq id seq) (Hdata : bytes data) (Hlen : 8 + Z.of_nat (length data) < 65536).
Let n := Z.of_nat (length data).

Lemma icmp_echo_request_ok dest_ip st (e : kenv H) p h :
  tcpip_initialized (knet e) = true → kmalloc (8 + n) (kheap e) = Some (p, h) → p ≠ 0 →
  ∃ c st' ns', icmp_echo_request dest_ip id seq (Some data) n st e = Some (0, st', mk_kenv ns' (kfree p h)) ∧
    let pkt := echo_bytes ICMP_TYPE_ECHO_REQUEST c id seq data in
    emitted dest_ip IP_PROTO_ICMP pkt (knet e) ns' ∧ packet pkt ∧ icmp_checksum pkt (8 + n) = Some 0.
Proof.
  intros Hi Hk Hp. unfold icmp_echo_request. subst n. rewrite u16_small by (unfold ICMP_HEADER_SIZE; lia).
  unfold ICMP_HEADER_SIZE. rewrite Hk. cbn [mbind option_bind]. case_Z (p =? 0); [done|].
  rewrite copied_ok by done. cbn [mbind option_bind]. change (e⟦kheap := h⟧) with (mk_kenv (knet e) h).
  destruct (transmit_ok dest_ip p ICMP_TYPE_ECHO_REQUEST 0 (echo_rest id seq) data (mk_kenv (knet e) h) Hi
    ltac:(by vm_compute) ltac:(by vm_compute) Hdata Hlen) as (c & ns' & -> & Hem & Hpk & Hsum).
  rewrite echo_header_bytes in Hem, Hpk, Hsum by done. cbn [mbind option_bind].
  eexists c, _, _. split; [done|]. split; [exact Hem|]. split; [done|].
  rewrite <-Hsum. f_equal. unfold echo_bytes. rewrite !length_app. cbn. lia.
Qed.

Lemma icmp_echo_reply_ok dest_ip st (e : kenv H) p h :
  tcpip_initialized (knet e) = true → kmalloc (8 + n) (kheap e) = Some (p, h) → p ≠ 0 →
  ∃ c st' ns', icmp_echo_reply dest_ip id seq (Some data) n st e = Some (0, st', mk_kenv ns' (kfree p h)) ∧
    let pkt := echo_bytes ICMP_TYPE_ECHO_REPLY c id seq data in
    emitted dest_ip IP_PROTO_ICMP pkt (knet e) ns' ∧ packet pkt ∧ icmp_checksum pkt (8 + n) = Some 0.
Proof.
  intros Hi Hk Hp. unfold icmp_echo_reply. subst n. rewrite u16_small by (unfold ICMP_HEADER_SIZE; lia).
  unfold ICMP_HEADER_SIZE. rewrite Hk. cbn [mbind option_bind]. case_Z (p =? 0); [done|].
  rewrite copied_ok by done. cbn [mbind option_bind]. change (e⟦kheap := h⟧) with (mk_kenv (knet e) h).
  destruct (transmit_ok dest_ip p ICMP_TYPE_ECHO_REPLY 0 (echo_rest id seq) data (mk_kenv (knet e) h) Hi
    ltac:(by vm_compute) ltac:(by vm_compute) Hdata Hlen) as (c & ns' & -> & Hem & Hpk & Hsum).
  rewrite echo_header_bytes in Hem, Hpk, Hsum by done. cbn [mbind option_bind].
  eexists c, _, _. split; [done|]. split; [exact Hem|]. split; [done|].
  rewrite <-Hsum. f_equal. unfold echo_bytes. rewrite !length_app. cbn. lia.
Qed.

(** What the receive handler extracts from an echo message. *)
Lemma icmp_receive_echo type c src_ip st (e : kenv H) :
  let pkt := echo_bytes type c id seq data in
  icmp_checksum pkt (8 + n) = Some 0 →
  icmp_receive src_ip (Some pkt) (8 + n) st e =
    let st := count (fun s => s⟦msgs_received ::= fun n => u32 (n + 1)⟧) st in
    if type =? ICMP_TYPE_ECHO_REQUEST then icmp_echo_reply src_ip id seq (Some data) n st e
    else if type =? ICMP_TYPE_ECHO_REPLY then Some (0, count (fun s => s⟦echo_replies ::= fun n => u32 (n + 1)⟧) st, e)
    else Some (0, st, e).
Proof.
  cbv zeta. intros Hsum. unfold icmp_receive, ICMP_HEADER_SIZE. subst n.
  case_Z (8 + Z.of_nat (length data) <? 8); [lia|]. rewrite Hsum. cbn [mbind option_bind Z.eqb negb].
  rewrite <-echo_header_bytes by done. unfold byte_at at 1.
  change ((icmp_header type 0 c (echo_rest id seq) ++ data) !! Z.to_nat 0) with (Some type). cbn [mbind option_bind].
  change (le32 (icmp_header type 0 c (echo_rest id seq) ++ data) 4) with (le32 (put32 (echo_rest id seq)) 0).
  change (le32 (put32 (echo_rest id seq)) 0) with
    (Some ((u8 (echo_rest id seq) |: (u8 (echo_rest id seq >>: 8) <<: 8)) |:
           ((u8 (echo_rest id seq >>: 16) |: (u8 (echo_rest id seq >>: 24) <<: 8)) <<: 16))).
  rewrite join32. cbn [mbind option_bind]. unfold echo_rest, ntohl. rewrite u32_small by apply htonl_range.
  rewrite echo_word by done. destruct Hid. rewrite htonl_involutive by lia. rewrite !land_ffff, Z.shiftr_div_pow2 by lia.
  change (drop (Z.to_nat 8) (icmp_header type 0 c (htonl (id * 65536 + seq)) ++ data)) with data.
  rewrite <-(Z.div_unique (id * 65536 + seq) (2 ^ 16) id seq), (Z.mod_small id) by lia.
  rewrite <-(Z.mod_unique (id * 65536 + seq) 65536 id seq) by lia.
  replace (u16 (8 + Z.of_nat (length data) - 8)) with (Z.of_nat (length data)) by (rewrite u16_small; lia). done.
Qed.

(** An echo request is answered: the message of [icmp_echo_request] has the
    format of RFC 792, the receiver takes it and sends a reply with the same
    identifier, sequence number and data, and the sender takes the reply. *)
Theorem icmp_echo_answered a b sta (ea : kenv H) pa ha stb (eb : kenv H) pb hb :
  tcpip_initialized (knet ea) = true → kmalloc (8 + n) (kheap ea) = Some (pa, ha) → pa ≠ 0 →
  tcpip_initialized (knet eb) = true → kmalloc (8 + n) (kheap eb) = Some (pb, hb) → pb ≠ 0 →
  ∃ c sta' nsa c' stb' nsb,
    let request := echo_bytes ICMP_TYPE_ECHO_REQUEST c id seq data in
    let reply := echo_bytes ICMP_TYPE_ECHO_REPLY c' id seq data in
    icmp_echo_request b id seq (Some data) n sta ea = Some (0, sta', mk_kenv nsa (kfree pa ha)) ∧
    emitted b IP_PROTO_ICMP request (knet ea) nsa ∧
    icmp_receive a (Some request) (8 + n) stb eb = Some (0, stb', mk_kenv nsb (kfree pb hb)) ∧
    emitted a IP_PROTO_ICMP reply (knet eb) nsb ∧
    ∀ st (e : kenv H), icmp_receive b (Some reply) (8 + n) st e =
      Some (0, count (fun s => s⟦msgs_received ::= fun n => u32 (n + 1)⟧⟦echo_replies ::= fun n => u32 (n + 1)⟧) st, e).
Proof.
  intros Hia Hka Hpa Hib Hkb Hpb.
  destruct (icmp_echo_request_ok b sta ea pa ha Hia Hka Hpa) as (c & sta' & nsa & Ereq & Hout & _ & Hsum).
  destruct (icmp_echo_reply_ok a (count (fun s => s⟦msgs_received ::= fun n => u32 (n + 1)⟧) stb) eb pb hb Hib Hkb Hpb)
    as (c' & stb' & nsb & Erep & Hout' & _ & Hsum').
  exists c, sta', nsa, c', stb', nsb. split; [exact Ereq|]. split; [exact Hout|].
  split; [rewrite icmp_receive_echo by exact Hsum; exact Erep|]. split; [exact Hout'|].
  intros st e. rewrite icmp_receive_echo by exact Hsum'. done.
Qed.
End echo.
End proofs.

(** The length of the packet is computed in 16 bits: with more than 65527 bytes
    of data a block of at most 7 bytes is asked for, and if there is one the
    header and the data are written behind its end. *)
Theorem icmp_echo_request_overruns {H} `{KernelHeap H} dest_ip id seq data n st (e : kenv H) p h :
  65528 ≤ n < 65536 → kmalloc (n - 65528) (kheap e) = Some (p, h) → p ≠ 0 →
  icmp_echo_request dest_ip id seq (Some data) n st e = None.
Proof.
  intros Hn Hk Hp. unfold icmp_echo_request, ICMP_HEADER_SIZE, u16.
  rewrite <-(Z.mod_unique (8 + n) (2 ^ 16) 1 (n - 65528)) by lia. rewrite Hk. cbn [mbind option_bind].
  case_Z (p =? 0); [done|]. unfold copied, ICMP_HEADER_SIZE. case_Z (n - 65528 <? 8 + n); [done|lia].
Qed.

(** A host with an address and an unused heap. *)
Definition host_demo (ip : Z) : kenv bump :=
  mk_kenv (mk_net (mk_iface [2; 0; 0; 0; 0; 1] ip 0xFFFFFF00 0x0A000001 1) true []) bump_demo.

Lemma icmp_echo_witness :
  ∃ c sta' nsa c' stb' nsb,
    let request := echo_bytes ICMP_TYPE_ECHO_REQUEST c 1 258 [97; 98; 99] in
    let reply := echo_bytes ICMP_TYPE_ECHO_REPLY c' 1 258 [97; 98; 99] in
    icmp_echo_request 0x0A000003 1 258 (Some [97; 98; 99]) 3 icmp_boot (host_demo 0x0A000002) =
      Some (0, sta', mk_kenv nsa (kfree 0x400000 (mk_bump 0x40000B 0x1400000))) ∧
    emitted 0x0A000003 IP_PROTO_ICMP request (knet (host_demo 0x0A000002)) nsa ∧
    icmp_receive 0x0A000002 (Some request) 11 icmp_boot (host_demo 0x0A000003) =
      Some (0, stb', mk_kenv nsb (kfree 0x400000 (mk_bump 0x40000B 0x1400000))) ∧
    emitted 0x0A000002 IP_PROTO_ICMP reply (knet (host_demo 0x0A000003)) nsb ∧
    ∀ st e, icmp_receive 0x0A000003 (Some reply) 11 st e =
      Some (0, count (fun s => s⟦msgs_received ::= fun n => u32 (n + 1)⟧⟦echo_replies ::= fun n => u32 (n + 1)⟧) st, e : kenv bump).
Proof.
  refine (icmp_echo_answered 1 258 [97; 98; 99] _ _ _ 0x0A000002 0x0A000003 icmp_boot (host_demo 0x0A000002) 0x400000
    (mk_bump 0x40000B 0x1400000) icmp_boot (host_demo 0x0A000003) 0x400000 (mk_bump 0x40000B 0x1400000) _ _ _ _ _ _);
    solve [split; lia | reflexivity | discriminate | apply (bool_decide_unpack _); vm_compute; exact I].
Defined.

(** ** Ping *)

Section ping_proofs.
Context {H : Type} `{KernelHeap H}.

Lemma icmp_echo_reply_pinging dest_ip id seq data n st (e : kenv H) r st' e' :
  icmp_echo_reply dest_ip id seq data n st e = Some (r, st', e') → pinging st' = pinging st.
Proof.
  unfold icmp_echo_reply. destruct (kmalloc _ _) as [[p h]|]; cbn [mbind option_bind]; [|done].
  destruct (p =? 0); [by intros [= _ <- _]|]. destruct (copied _ _ _); cbn [mbind option_bind]; [|done].
  destruct (transmit _ _ _ _ _ _) as [[ret e2]|]; cbn [mbind option_bind]; [|done].
  destruct (ret =? 0); by intros [= _ <- _].
Qed.

Lemma icmp_echo_request_pinging dest_ip id seq data n st (e : kenv H) r st' e' :
  icmp_echo_request dest_ip id seq data n st e = Some (r, st', e') → pinging st' = pinging st.
Proof.
  unfold icmp_echo_request. destruct (kmalloc _ _) as [[p h]|]; cbn [mbind option_bind]; [|done].
  destruct (p =? 0); [by intros [= _ <- _]|]. destruct (copied _ _ _); cbn [mbind option_bind]; [|done].
  destruct (transmit _ _ _ _ _ _) as [[ret e2]|]; cbn [mbind option_bind]; [|done].
  destruct (ret =? 0); by intros [= _ <- _].
Qed.

Lemma icmp_receive_pinging src_ip packet n st (e : kenv H) r st' e' :
  icmp_receive src_ip packet n st e = Some (r, st', e') → pinging st' = pinging st.
Proof.
  unfold icmp_receive. destruct packet as [packet|]; [|by intros [= _ <- _]].
  destruct (n <? _); [by intros [= _ <- _]|]. destruct (icmp_checksum _ _) as [c|]; cbn [mbind option_bind]; [|done].
  destruct (negb _); [by intros [= _ <- _]|]. destruct (byte_at _ _) as [type|]; cbn [mbind option_bind]; [|done].
  destruct (le32 _ _); cbn [mbind option_bind]; [|done].
  destruct (type =? _); [by intros ->%icmp_echo_reply_pinging|]. destruct (type =? _); by intros [= _ <- _].
Qed.

Lemma arrive_pinging ps st (e : kenv H) st' e' : arrive ps st e = Some (st', e') → pinging st' = pinging st.
Proof.
  revert st e. induction ps as [|[[src packet] n] ps IH]; intros st e; cbn [arrive]; [by intros [= <- _]|].
  destruct (icmp_receive _ _ _ _ _) as [[[r st1] e1]|] eqn:E; cbn [mbind option_bind]; [|done].
  intros ->%IH. by eapply icmp_receive_pinging.
Qed.

(** No packet makes [ping] succeed: nothing sets [received], so every call that
    returns reports a timeout, also when the reply has arrived. *)
Theorem ping_always_times_out dest_ip timeout_ms now start rounds st (e : kenv H) r st' e' :
  ping dest_ip timeout_ms now start rounds st e = Some (Some r, st', e') → r = -1.
Proof.
  assert (∀ rounds st (e : kenv H), received (pinging st) = 0 →
    ping_wait rounds start timeout_ms st e = Some (Some r, st', e') → r = -1) as Hwait.
  { clear. intros rounds. induction rounds as [|[now ps] rounds IH]; intros st e Hr; cbn [ping_wait]; [done|].
    rewrite Hr. cbn [truth Z.eqb negb]. destruct (u32 _ <? _); [|by intros [= <- _ _]].
    destruct (arrive ps st e) as [[st1 e1]|] eqn:E; cbn [mbind option_bind]; [|done].
    apply IH. by rewrite (arrive_pinging _ _ _ _ _ E). }
  unfold ping. destruct (ping_start dest_ip now st e) as [[[ret st1] e1]|] eqn:E; cbn [mbind option_bind]; [|done].
  destruct (negb (ret =? 0)); [by intros [= <- _ _]|]. apply Hwait.
  unfold ping_start in E. apply icmp_echo_request_pinging in E. by rewrite E.
Qed.
End ping_proofs.
