(* ===== verification/Arp.v ===== *)
(** * ARP (kernel/net/arp.c)

    The cache of 64 entries, requests and replies, the receive handler and the
    resolution of an address.

    The network driver is a parameter: [net_send_packet data length] is what
    the driver returns and does to its state.  Packets are lists of bytes.

    [arp_resolve] waits for a reply while interrupts deliver packets, and calls
    itself to send the request again.  It is a function of what happens
    meanwhile: for each attempt the clock readings and, for each round of the
    waiting loop, the packets that arrive.  Output on the serial line is not
    modelled. *)

From S2P Require Import Prelude Bytes Net.

Definition ARP_HW_ETHERNET : Z := 1.
Definition ARP_PROTO_IPV4 : Z := 0x0800.
Definition ARP_OP_REQUEST : Z := 1.
Definition ARP_OP_REPLY : Z := 2.
Definition ETHERTYPE_ARP : Z := 0x0806.
Definition ARP_CACHE_SIZE : Z := 64.
Definition ARP_PENDING_TIMEOUT : Z := 3000.
Definition ARP_RETRIES : Z := 3.
Definition ARP_PACKET_SIZE : Z := 28.

Inductive arp_entry_state := ARP_STATE_FREE | ARP_STATE_PENDING | ARP_STATE_RESOLVED.
#[export] Instance arp_entry_state_eq : EqDecision arp_entry_state.
Proof. solve_decision. Defined.

Record arp_entry := mk_arp_entry {
  ae_ip : Z;
  ae_mac : list Z;
  ae_state : arp_entry_state;
  ae_timestamp : Z;
  ae_retries : Z;
}.
#[export] Instance eta_arp_entry : Eta arp_entry := fun x =>
  mk_arp_entry (ae_ip x) (ae_mac x) (ae_state x) (ae_timestamp x) (ae_retries x).
#[export] Instance zeroed_arp_entry : Zeroed arp_entry := mk_arp_entry 0 (replicate 6 0) ARP_STATE_FREE 0 0.

(** The static variables of arp.c. *)
Record arp_state := mk_arp {
  arp_cache : gmap Z arp_entry;
  arp_initialized : bool;
  local_mac : list Z;
  local_ip : Z;
}.
#[export] Instance eta_arp : Eta arp_state := fun s =>
  mk_arp (arp_cache s) (arp_initialized s) (local_mac s) (local_ip s).

Definition arp_boot : arp_state := mk_arp ∅ false (replicate 6 0) 0.

Definition entry_at (st : arp_state) (i : Z) : arp_entry := (arp_cache st).[i].
Definition upd_entry (i : Z) (f : arp_entry → arp_entry) (st : arp_state) : arp_state :=
  st⟦arp_cache ::= fun m => amod m i f⟧.

(** ** Initialisation *)

(** [mac] is what [net_get_mac_address] of the driver stores. *)
Definition arp_init (mac : list Z) (st : arp_state) : arp_state :=
  if arp_initialized st then st
  else
    let st := iter_up (Z.to_nat ARP_CACHE_SIZE) 0
                (fun i => upd_entry i (fun x => x⟦ae_state := ARP_STATE_FREE⟧⟦ae_ip := 0⟧⟦ae_timestamp := 0⟧)) st in
    st⟦local_mac := mac⟧⟦arp_initialized := true⟧.

Definition arp_set_ip (ip : Z) (st : arp_state) : arp_state := st⟦local_ip := ip⟧.

(** ** The cache *)

Definition is_free (x : arp_entry) : bool := bool_decide (ae_state x = ARP_STATE_FREE).

Definition arp_cache_find (ip : Z) (st : arp_state) : ptr :=
  find_up (Z.to_nat ARP_CACHE_SIZE) 0 (fun i => negb (is_free (entry_at st i)) && (ae_ip (entry_at st i) =? ip)).

Definition arp_cache_alloc (st : arp_state) : Z * arp_state :=
  match find_up (Z.to_nat ARP_CACHE_SIZE) 0 (fun i => is_free (entry_at st i)) with
  | Some i => (i, st)
  | None =>
      let oldest := iter_up (Z.to_nat (ARP_CACHE_SIZE - 1)) 1
                      (fun i o => if ae_timestamp (entry_at st i) <? ae_timestamp (entry_at st o) then i else o) 0 in
      (oldest, upd_entry oldest (fun x => x⟦ae_state := ARP_STATE_FREE⟧) st)
  end.

Definition arp_cache_add (ip : Z) (mac : list Z) (now : Z) (st : arp_state) : arp_state :=
  let '(i, st) := match arp_cache_find ip st with Some i => (i, st) | None => arp_cache_alloc st end in
  upd_entry i (fun x => x⟦ae_ip := ip⟧⟦ae_mac := mac⟧⟦ae_state := ARP_STATE_RESOLVED⟧⟦ae_timestamp := now⟧) st.

Definition arp_cache_clear (st : arp_state) : arp_state :=
  iter_up (Z.to_nat ARP_CACHE_SIZE) 0 (fun i => upd_entry i (fun x => x⟦ae_state := ARP_STATE_FREE⟧)) st.

(** ** Packets *)

(** The packed struct [arp_packet_t]. *)
Definition arp_packet (operation : Z) (sender_mac : list Z) (sender_ip : Z) (target_mac : list Z) (target_ip : Z) : list Z :=
  put16 (htons ARP_HW_ETHERNET) ++ put16 (htons ARP_PROTO_IPV4) ++ [6; 4] ++ put16 (htons operation)
  ++ sender_mac ++ put32 (htonl sender_ip) ++ target_mac ++ put32 (htonl target_ip).

(** The Ethernet header before it. *)
Definition arp_frame (dest_mac src_mac packet : list Z) : list Z :=
  dest_mac ++ src_mac ++ [(ETHERTYPE_ARP >>: 8) &: 0xFF; ETHERTYPE_ARP &: 0xFF] ++ packet.

Section driver.
Context {N : Type} (net_send_packet : list Z → Z → N → Z * N).

Definition arp_send_request (target_ip : Z) (st : arp_state) (n : N) : Z * N :=
  net_send_packet
    (arp_frame (replicate 6 0xFF) (local_mac st)
       (arp_packet ARP_OP_REQUEST (local_mac st) (local_ip st) (replicate 6 0) target_ip)) 42 n.

Definition arp_send_reply (target_ip : Z) (target_mac : list Z) (st : arp_state) (n : N) : Z * N :=
  net_send_packet
    (arp_frame target_mac (local_mac st)
       (arp_packet ARP_OP_REPLY (local_mac st) (local_ip st) target_mac target_ip)) 42 n.

Definition arp_announce (st : arp_state) (n : N) : Z * N := arp_send_request (local_ip st) st n.

Definition arp_receive (arp : option (list Z)) (length now : Z) (st : arp_state) (n : N) : option (Z * arp_state * N) :=
  match arp with
  | None => Some (-1, st, n)
  | Some arp =>
      if length <? ARP_PACKET_SIZE then Some (-1, st, n)
      else
        hw_type ← le16 arp 0; proto_type ← le16 arp 2; hw_len ← byte_at arp 4; proto_len ← byte_at arp 5;
        if negb (ntohs hw_type =? ARP_HW_ETHERNET) || negb (ntohs proto_type =? ARP_PROTO_IPV4)
           || negb (hw_len =? 6) || negb (proto_len =? 4) then Some (-1, st, n)
        else
          operation ← le16 arp 6; sender_mac ← slice arp 8 6; sender ← le32 arp 14; target ← le32 arp 24;
          let st := arp_cache_add (ntohl sender) sender_mac now st in
          let n := if (ntohs operation =? ARP_OP_REQUEST) && (ntohl target =? local_ip st)
                   then (arp_send_reply (ntohl sender) sender_mac st n).2 else n in
          Some (0, st, n)
  end.

(** ** Resolution *)

(** The packets that interrupts deliver in one round of the waiting loop. *)
Fixpoint arp_arrive (ps : list (list Z * Z)) (now : Z) (st : arp_state) (n : N) : option (arp_state * N) :=
  match ps with
  | [] => Some (st, n)
  | (p, length) :: ps' => '(_, st, n) ← arp_receive (Some p) length now st n; arp_arrive ps' now st n
  end.

Inductive waited :=
| Found (mac : list Z)
| Timeout (entry : ptr)
| Unfinished.

(** [while (timer_get_ticks() - start < ARP_PENDING_TIMEOUT)]; [entry] is the
    variable of that name. *)
Fixpoint arp_wait (rounds : list (Z * list (list Z * Z))) (start ip : Z) (entry : ptr) (st : arp_state) (n : N)
    : option (waited * arp_state * N) :=
  match rounds with
  | [] => Some (Unfinished, st, n)
  | (now, ps) :: rounds' =>
      if u32 (now - start) <? ARP_PENDING_TIMEOUT then
        let entry := arp_cache_find ip st in
        match entry with
        | Some i =>
            if bool_decide (ae_state (entry_at st i) = ARP_STATE_RESOLVED)
            then Some (Found (ae_mac (entry_at st i)), st, n)
            else '(st, n) ← arp_arrive ps now st n; arp_wait rounds' start ip entry st n
        | None => '(st, n) ← arp_arrive ps now st n; arp_wait rounds' start ip entry st n
        end
      else Some (Timeout entry, st, n)
  end.

(** [arp_resolve] up to the request: the address, if it is known, or the entry
    to wait for. *)
Definition arp_begin (ip now : Z) (st : arp_state) : list Z + Z * arp_state :=
  if ip =? 0xFFFFFFFF then inl (replicate 6 0xFF)
  else
    match arp_cache_find ip st with
    | Some i => if bool_decide (ae_state (entry_at st i) = ARP_STATE_RESOLVED) then inl (ae_mac (entry_at st i)) else inr (i, st)
    | None =>
        let '(i, st) := arp_cache_alloc st in
        inr (i, upd_entry i (fun x => x⟦ae_ip := ip⟧⟦ae_state := ARP_STATE_PENDING⟧⟦ae_retries := 0⟧⟦ae_timestamp := now⟧) st)
    end.

(** The address written through [mac_addr] with the return value 0, or the
    return value -1. *)
Inductive resolution := Resolved (mac : list Z) | Failed | Pending.

(** [script] has an element for each call of [arp_resolve] that sends a request:
    the time of its entry, the start of its loop and the rounds of the loop.
    The result is [Pending] while the call waits. *)
Fixpoint arp_resolve (script : list (Z * Z * list (Z * list (list Z * Z)))) (ip : Z) (st : arp_state) (n : N)
    : option (resolution * arp_state * N) :=
  let now := match script with (now, _, _) :: _ => now | [] => 0 end in
  match arp_begin ip now st with
  | inl mac => Some (Resolved mac, st, n)
  | inr (i, st) =>
      match script with
      | [] => Some (Pending, st, n)
      | (_, start, rounds) :: script' =>
          let '(_, n) := arp_send_request ip st n in
          let st := upd_entry i (fun x => x⟦ae_retries ::= fun r => r + 1⟧) st in
          '(w, st, n) ← arp_wait rounds start ip (Some i) st n;
          match w with
          | Found mac => Some (Resolved mac, st, n)
          | Unfinished => Some (Pending, st, n)
          | Timeout (Some j) => if ae_retries (entry_at st j) <? ARP_RETRIES then arp_resolve script' ip st n
                                else Some (Failed, st, n)
          | Timeout None => Some (Failed, st, n)
          end
      end
  end.

End driver.

(** ** The cache invariant *)

Definition live (st : arp_state) (i : Z) : Prop := 0 ≤ i < ARP_CACHE_SIZE ∧ ae_state (entry_at st i) ≠ ARP_STATE_FREE.

(** At most one entry in use per address. *)
Definition arp_inv (st : arp_state) : Prop :=
  ∀ i j, live st i → live st j → ae_ip (entry_at st i) = ae_ip (entry_at st j) → i = j.

(** The cache knows the hardware address of [ip]. *)
Definition cached (st : arp_state) (ip : Z) (mac : list Z) : Prop :=
  ∃ i, live st i ∧ ae_state (entry_at st i) = ARP_STATE_RESOLVED ∧ ae_ip (entry_at st i) = ip ∧ ae_mac (entry_at st i) = mac.

Lemma entry_at_upd st i f j : entry_at (upd_entry i f st) j = if decide (i = j) then f (entry_at st i) else entry_at st j.
Proof. apply aget_amod. Qed.

Lemma is_free_spec x : is_free x = true ↔ ae_state x = ARP_STATE_FREE.
Proof. apply bool_decide_eq_true. Qed.

Lemma find_test st ip i :
  negb (is_free (entry_at st i)) && (ae_ip (entry_at st i) =? ip) = true ↔
  ae_state (entry_at st i) ≠ ARP_STATE_FREE ∧ ae_ip (entry_at st i) = ip.
Proof. rewrite andb_true_iff, negb_true_iff, Z.eqb_eq, <-not_true_iff_false, is_free_spec. done. Qed.

Lemma arp_cache_find_Some st ip i : arp_cache_find ip st = Some i → live st i ∧ ae_ip (entry_at st i) = ip.
Proof. intros (Hi & Ht & _)%find_up_Some. apply find_test in Ht as [? ?]. done. Qed.

Lemma arp_cache_find_None st ip i : arp_cache_find ip st = None → live st i → ae_ip (entry_at st i) ≠ ip.
Proof.
  intros Hn [Hi Hl] E. eapply find_up_None in Hn; [|exact Hi]. apply not_true_iff_false in Hn. apply Hn, find_test. done.
Qed.

Lemma arp_cache_find_live st ip i :
  arp_inv st → live st i → ae_ip (entry_at st i) = ip → arp_cache_find ip st = Some i.
Proof.
  intros Hinv Hl Hip. destruct (arp_cache_find ip st) as [j|] eqn:E.
  - apply arp_cache_find_Some in E as [Hj Ej]. f_equal. apply Hinv; congruence.
  - by eapply arp_cache_find_None in E.
Qed.

(** The entry taken: a free one if there is one, else an oldest one. *)
Definition oldest (st : arp_state) (i : Z) : Prop :=
  (∀ j, 0 ≤ j < ARP_CACHE_SIZE → live st j ∧ ae_timestamp (entry_at st i) ≤ ae_timestamp (entry_at st j)).

Lemma arp_cache_alloc_ok st i st' : arp_cache_alloc st = (i, st') →
  0 ≤ i < ARP_CACHE_SIZE ∧ ¬ live st' i ∧ (∀ j, j ≠ i → entry_at st' j = entry_at st j) ∧
  (¬ live st i ∨ oldest st i) ∧ local_ip st' = local_ip st ∧ local_mac st' = local_mac st.
Proof.
  unfold arp_cache_alloc. destruct (find_up _ _ _) as [k|] eqn:E.
  - intros [= <- <-]. apply find_up_Some in E as (Hk & Hf & _). apply is_free_spec in Hf.
    split; [exact Hk|]. assert (¬ live st k) by (intros [_ Hl]; done). auto.
  - set (o := iter_up _ _ _ _). intros [= <- <-].
    assert (0 ≤ o < ARP_CACHE_SIZE ∧ ∀ j, 0 ≤ j < ARP_CACHE_SIZE → ae_timestamp (entry_at st o) ≤ ae_timestamp (entry_at st j))
      as [Ho Hmin].
    { subst o. pose proof (iter_up_inv (fun k o => 0 ≤ o < ARP_CACHE_SIZE ∧
        ∀ j, 0 ≤ j < k → ae_timestamp (entry_at st o) ≤ ae_timestamp (entry_at st j))
        (fun i o => if ae_timestamp (entry_at st i) <? ae_timestamp (entry_at st o) then i else o)
        (Z.to_nat (ARP_CACHE_SIZE - 1)) 1 0) as HI.
      apply HI; clear HI; unfold ARP_CACHE_SIZE in *.
      - split; [lia|]. intros j Hj. by replace j with 0 by lia.
      - intros k o Hk [Ho Hm]. case_Z (ae_timestamp (entry_at st k) <? ae_timestamp (entry_at st o)); (split; [lia|]); intros j Hj.
        + destruct (decide (j = k)) as [->|]; [lia|]. specialize (Hm j). lia.
        + destruct (decide (j = k)) as [->|]; [lia|]. apply Hm. lia. }
    split; [done|]. split; [intros [_ Hl]; rewrite entry_at_upd, decide_True in Hl by done; done|].
    split; [intros j Hj; by rewrite entry_at_upd, decide_False by done|]. split; [|done]. right. intros j Hj. split; [|auto].
    split; [done|]. intros Hf. eapply find_up_None in E; [|exact Hj]. by rewrite (proj2 (is_free_spec _) Hf) in E.
Qed.

(** Writing an entry that is the only one for its address. *)
Lemma upd_entry_inv st i ip f :
  arp_inv st → (∀ j, live st j → j ≠ i → ae_ip (entry_at st j) ≠ ip) →
  (∀ x, ae_ip (f x) = ip) → arp_inv (upd_entry i f st).
Proof.
  intros Hinv Ho Hf j k [Hj Hlj] [Hk Hlk] E. rewrite !entry_at_upd in *.
  destruct (decide (i = j)) as [<-|], (decide (i = k)) as [<-|]; [done|..].
  - rewrite Hf in E. by destruct (Ho k (conj Hk Hlk)).
  - rewrite Hf in E. by destruct (Ho j (conj Hj Hlj)).
  - by apply Hinv.
Qed.

Lemma alloc_inv st i st' : arp_inv st → arp_cache_alloc st = (i, st') → arp_inv st'.
Proof.
  intros Hinv Ha. destruct (arp_cache_alloc_ok _ _ _ Ha) as (Hi & Hf & Ho & _).
  intros j k Hj Hk. assert (j ≠ i) by (intros ->; done). assert (k ≠ i) by (intros ->; done).
  unfold live in *. rewrite !Ho in * by done. by apply Hinv.
Qed.

(** Adding an address: the entry written. *)
Lemma arp_cache_add_entry ip mac now st : arp_inv st →
  ∃ i, 0 ≤ i < ARP_CACHE_SIZE ∧ let st' := arp_cache_add ip mac now st in
    (∃ r, entry_at st' i = mk_arp_entry ip mac ARP_STATE_RESOLVED now r) ∧ (∀ j, j ≠ i → entry_at st' j = entry_at st j) ∧
    (∀ j, live st j → j ≠ i → ae_ip (entry_at st j) ≠ ip) ∧
    ((live st i ∧ ae_ip (entry_at st i) = ip) ∨ ¬ live st i ∨ (oldest st i ∧ ∀ j, live st j → ae_ip (entry_at st j) ≠ ip)) ∧
    local_ip st' = local_ip st ∧ local_mac st' = local_mac st.
Proof.
  intros Hinv. unfold arp_cache_add. destruct (arp_cache_find ip st) as [i|] eqn:E.
  - apply arp_cache_find_Some in E as [Hl Hip]. exists i. split; [apply Hl|]. cbv zeta.
    split; [eexists; by rewrite entry_at_upd, decide_True by done|].
    split; [intros j Hj; by rewrite entry_at_upd, decide_False by done|]. split; [|by auto].
    intros j Hj Hne Ej. apply Hne, Hinv; congruence.
  - pose proof (fun j => arp_cache_find_None st ip j E) as Hno.
    destruct (arp_cache_alloc st) as [i st1] eqn:Ea. destruct (arp_cache_alloc_ok _ _ _ Ea) as (Hi & _ & Ho & Hw & Hip & Hmac).
    exists i. split; [done|]. cbv zeta. split; [eexists; by rewrite entry_at_upd, decide_True by done|].
    split; [intros j Hj; rewrite entry_at_upd, decide_False by done; by apply Ho|]. split; [intros j Hj _; by apply Hno|].
    split; [right; destruct Hw; auto|done].
Qed.

Lemma arp_cache_add_inv ip mac now st : arp_inv st → arp_inv (arp_cache_add ip mac now st).
Proof.
  intros Hinv. destruct (arp_cache_add_entry ip mac now st Hinv) as (i & Hi & [r Er] & Ho & Hu & _).
  intros j k [Hj Hlj] [Hk Hlk]. destruct (decide (j = i)) as [->|Hji], (decide (k = i)) as [->|Hki]; [done|..];
    rewrite ?Er, ?(Ho j), ?(Ho k) in * by done; cbn [ae_ip].
  - intros E. by destruct (Hu k).
  - intros E. by destruct (Hu j).
  - by apply Hinv.
Qed.

(** [arp_cache_add] keeps one entry per address, makes the new address known,
    forgets nothing else unless the cache is full, and then only an oldest
    entry; what it knew of other addresses is unchanged. *)
Theorem arp_cache_add_spec ip mac now st :
  arp_inv st → let st' := arp_cache_add ip mac now st in
  arp_inv st' ∧ (∀ mac', cached st' ip mac' ↔ mac' = mac) ∧
  (∀ ip' mac', ip' ≠ ip → cached st' ip' mac' → cached st ip' mac') ∧
  (∀ ip' mac', ip' ≠ ip → cached st ip' mac' →
     cached st' ip' mac' ∨ (∃ i, oldest st i ∧ ae_ip (entry_at st i) = ip' ∧ ∀ j, live st j → ae_ip (entry_at st j) ≠ ip)).
Proof.
  intros Hinv. cbv zeta. pose proof (arp_cache_add_inv ip mac now st Hinv) as Hinv'.
  destruct (arp_cache_add_entry ip mac now st Hinv) as (i & Hi & [r Er] & Ho & Hu & Hw & _).
  set (st' := arp_cache_add ip mac now st) in *. clearbody st'.
  assert (live st' i) as Hli by (split; [done|by rewrite Er]).
  split; [done|]. split; [|split].
  - intros mac'. split; [|intros ->; exists i; rewrite Er; done].
    intros (j & Hj & _ & Eip & <-). assert (j = i) as -> by (apply Hinv'; [done..|by rewrite Er]). by rewrite Er.
  - intros ip' mac' Hne (j & [Hj Hl] & Hs & Eip & Em). assert (j ≠ i) as Hji by (intros ->; rewrite Er in Eip; done).
    unfold live. rewrite Ho in * by done. by exists j.
  - intros ip' mac' Hne (j & Hj & Hs & Eip & Em). destruct (decide (j = i)) as [->|Hji].
    + destruct Hw as [[_ E]|[Hn|[Hold Hno]]]; [congruence|done|]. right. by exists i.
    + left. exists j. unfold live. rewrite Ho by done. done.
Qed.

(** ** Packets on the wire *)

(** The format of RFC 826: Ethernet, IPv4, lengths 6 and 4, every field with its
    most significant byte first. *)
Definition arp_wire (operation : Z) (sender_mac : list Z) (sender_ip : Z) (target_mac : list Z) (target_ip : Z) : list Z :=
  [0; 1; 8; 0; 6; 4; 0; operation] ++ sender_mac ++ be32 sender_ip ++ target_mac ++ be32 target_ip.

Definition is_mac (m : list Z) : Prop := length m = 6%nat.
Definition is_ip (x : Z) : Prop := 0 ≤ x < 2 ^ 32.

Lemma arp_packet_wire operation smac sip tmac tip : 0 ≤ operation < 256 → is_ip sip → is_ip tip →
  arp_packet operation smac sip tmac tip = arp_wire operation smac sip tmac tip.
Proof.
  intros Ho Hs Ht. unfold arp_packet, arp_wire, be32. rewrite !put32_htonl by done.
  rewrite !put16_htons by (unfold ARP_HW_ETHERNET, ARP_PROTO_IPV4; lia).
  rewrite (Z.div_small operation), (Z.mod_small operation) by lia. done.
Qed.

Lemma mac_cases m : is_mac m → ∃ a b c d e f, m = [a; b; c; d; e; f].
Proof. destruct m as [|a [|b [|c [|d [|e [|f [|]]]]]]]; intros [=]. by exists a, b, c, d, e, f. Qed.

Section exchange.
Context {N : Type} (net_send_packet : list Z → Z → N → Z * N).

(** What the receive handler does with a packet, whatever padding follows it. *)
Lemma arp_receive_packet operation smac sip tmac tip pad len now st (n : N) :
  0 ≤ operation < 65536 → is_mac smac → is_mac tmac → is_ip sip → is_ip tip → ARP_PACKET_SIZE ≤ len →
  let st' := arp_cache_add sip smac now st in
  arp_receive net_send_packet (Some (arp_packet operation smac sip tmac tip ++ pad)) len now st n =
  Some (0, st', if (operation =? ARP_OP_REQUEST) && (tip =? local_ip st')
                then (arp_send_reply net_send_packet sip smac st' n).2 else n).
Proof.
  intros Ho Hs Ht Hsip Htip Hlen. cbv zeta. unfold arp_receive. case_Z (len <? ARP_PACKET_SIZE); [lia|].
  destruct (mac_cases smac Hs) as (a & b & c & d & e & f & ->), (mac_cases tmac Ht) as (a' & b' & c' & d' & e' & f' & ->).
  set (p := arp_packet _ _ _ _ _ ++ pad).
  assert (slice p 8 6 = Some [a; b; c; d; e; f]) as ->.
  { apply (slice_app (put16 (htons ARP_HW_ETHERNET) ++ put16 (htons ARP_PROTO_IPV4) ++ [6; 4] ++ put16 (htons operation))
      [a; b; c; d; e; f]). }
  change (le16 p 0) with (Some (htons 1)). change (le16 p 2) with (Some (htons 0x800)).
  change (byte_at p 4) with (Some 6). change (byte_at p 5) with (Some 4).
  change (le16 p 6) with (Some (u8 (htons operation) |: (u8 (htons operation >>: 8) <<: 8))).
  change (le32 p 14) with (le32 (put32 (htonl sip)) 0). change (le32 p 24) with (le32 (put32 (htonl tip)) 0).
  assert (∀ x, le32 (put32 x) 0 = Some (u32 x)) as E32 by (intros x; rewrite <-join32; done).
  rewrite !E32, join16. cbn [mbind option_bind]. unfold ntohl, ntohs.
  rewrite !(u32_small (htonl _)), (u16_small (htons _)) by apply htonl_range || apply htons_range.
  rewrite !htonl_involutive, !htons_involutive by (done || lia). done.
Qed.


(** ** Giving up *)

(** The rounds of a waiting loop in which no packet arrives, up to the first
    clock reading that ends it. *)
Fixpoint silent (start : Z) (rounds : list (Z * list (list Z * Z))) : Prop :=
  match rounds with
  | [] => False
  | (now, ps) :: rounds' =>
      if u32 (now - start) <? ARP_PENDING_TIMEOUT then ps = [] ∧ silent start rounds' else True
  end.

Definition pending (st : arp_state) (ip i retries : Z) : Prop :=
  arp_inv st ∧ live st i ∧ ae_ip (entry_at st i) = ip ∧ ae_state (entry_at st i) = ARP_STATE_PENDING ∧
  ae_retries (entry_at st i) = retries.

Lemma arp_wait_silent rounds start ip i r st (n : N) :
  pending st ip i r → silent start rounds →
  arp_wait net_send_packet rounds start ip (Some i) st n = Some (Timeout (Some i), st, n).
Proof.
  intros Hp. induction rounds as [|[now ps] rounds IH]; [done|]. cbn [silent arp_wait].
  destruct (u32 (now - start) <? ARP_PENDING_TIMEOUT); [|done]. intros [-> Hs].
  destruct Hp as (Hinv & Hl & Hip & Hst & Hr). rewrite (arp_cache_find_live st ip i) by done. rewrite Hst. cbn. by apply IH.
Qed.

(** Every attempt sends the request once. *)
Definition sent_request (ip : Z) (st : arp_state) (n : N) : N :=
  (net_send_packet (arp_frame (replicate 6 0xFF) (local_mac st)
     (arp_packet ARP_OP_REQUEST (local_mac st) (local_ip st) (replicate 6 0) ip)) 42 n).2.

Lemma arp_attempt now start rounds script ip i r st (n : N) :
  pending st ip i r → ip ≠ 0xFFFFFFFF → silent start rounds →
  ∃ st', pending st' ip i (r + 1) ∧ local_ip st' = local_ip st ∧ local_mac st' = local_mac st ∧
    arp_resolve net_send_packet ((now, start, rounds) :: script) ip st n =
    if r + 1 <? ARP_RETRIES then arp_resolve net_send_packet script ip st' (sent_request ip st n)
    else Some (Failed, st', sent_request ip st n).
Proof.
  intros Hp Hbc Hs. pose proof Hp as (Hinv & Hl & Hip & Hst & Hr).
  exists (upd_entry i (fun x => x⟦ae_retries ::= fun r => r + 1⟧) st).
  assert (pending (upd_entry i (fun x => x⟦ae_retries ::= fun r => r + 1⟧) st) ip i (r + 1)) as Hp'.
  { assert (∀ j, ae_ip (entry_at (upd_entry i (fun x => x⟦ae_retries ::= fun r => r + 1⟧) st) j) = ae_ip (entry_at st j) ∧
      ae_state (entry_at (upd_entry i (fun x => x⟦ae_retries ::= fun r => r + 1⟧) st) j) = ae_state (entry_at st j)) as E.
    { intros j. rewrite entry_at_upd. case_decide; [by subst|done]. }
    split; [|split; [|split; [|split]]].
    - intros j k [Hj Hlj] [Hk Hlk]. rewrite (proj1 (E j)), (proj1 (E k)), (proj2 (E j)), (proj2 (E k)) in *. by apply Hinv.
    - destruct Hl as [Hi Hf]. split; [done|]. by rewrite (proj2 (E i)).
    - by rewrite (proj1 (E i)).
    - by rewrite (proj2 (E i)).
    - rewrite entry_at_upd, decide_True by done. cbn. by rewrite Hr. }
  split; [done|]. split; [done|]. split; [done|]. cbn [arp_resolve]. unfold arp_begin.
  case_Z (ip =? 0xFFFFFFFF); [done|]. rewrite (arp_cache_find_live st ip i), Hst, bool_decide_false by done.
  unfold sent_request, arp_send_request. destruct (net_send_packet _ 42 n) as [ret n'].
  rewrite (arp_wait_silent _ _ _ _ _ _ _ Hp' Hs). cbn [mbind option_bind].
  destruct Hp' as (_ & _ & _ & _ & ->). done.
Qed.

(** An address nobody answers for: after three requests the resolution fails. *)
Theorem arp_resolve_gives_up ip st t1 s1 r1 t2 s2 r2 t3 s3 r3 script (n : N) :
  arp_inv st → ip ≠ 0xFFFFFFFF → (∀ i, live st i → ae_ip (entry_at st i) ≠ ip) →
  silent s1 r1 → silent s2 r2 → silent s3 r3 →
  ∃ st', arp_inv st' ∧
    arp_resolve net_send_packet ((t1, s1, r1) :: (t2, s2, r2) :: (t3, s3, r3) :: script) ip st n =
    Some (Failed, st', sent_request ip st (sent_request ip st (sent_request ip st n))).
Proof.
  intros Hinv Hbc Hno H1 H2 H3.
  assert (arp_cache_find ip st = None) as Hf.
  { destruct (arp_cache_find ip st) as [i|] eqn:E; [|done]. apply arp_cache_find_Some in E as [Hl E]. by destruct (Hno i). }
  destruct (arp_cache_alloc st) as [i st1] eqn:Ea.
  destruct (arp_cache_alloc_ok _ _ _ Ea) as (Hi & Hfree & Ho & _ & Eip & Emac).
  set (st2 := upd_entry i (fun x => x⟦ae_ip := ip⟧⟦ae_state := ARP_STATE_PENDING⟧⟦ae_retries := 0⟧⟦ae_timestamp := t1⟧) st1).
  assert (pending st2 ip i 0) as Hp.
  { split; [|subst st2; unfold live; rewrite entry_at_upd, decide_True by done; done].
    apply (upd_entry_inv st1 i ip); [by eapply alloc_inv| |done].
    intros j [Hj Hl] Hne. rewrite Ho in * by done. by apply Hno. }
  destruct (arp_attempt t1 s1 r1 ((t2, s2, r2) :: (t3, s3, r3) :: script) ip i 0 st2 n Hp Hbc H1) as (st3 & Hp3 & Eip3 & Emac3 & E1).
  destruct (arp_attempt t2 s2 r2 ((t3, s3, r3) :: script) ip i 1 st3 (sent_request ip st2 n) Hp3 Hbc H2) as (st4 & Hp4 & Eip4 & Emac4 & E2).
  destruct (arp_attempt t3 s3 r3 script ip i 2 st4 (sent_request ip st3 (sent_request ip st2 n)) Hp4 Hbc H3) as (st5 & Hp5 & _ & _ & E3).
  assert (∀ n, sent_request ip st2 n = sent_request ip st n) as Q2 by (intros ?; unfold sent_request; subst st2; cbn; by rewrite Eip, Emac).
  assert (∀ n, sent_request ip st3 n = sent_request ip st n) as Q3 by (intros ?; rewrite <-Q2; unfold sent_request; by rewrite Eip3, Emac3).
  assert (∀ n, sent_request ip st4 n = sent_request ip st n) as Q4 by (intros ?; rewrite <-Q3; unfold sent_request; by rewrite Eip4, Emac4).
  exists st5. split; [apply Hp5|]. change (0 + 1 <? ARP_RETRIES) with true in E1.
  change (1 + 1 <? ARP_RETRIES) with true in E2. change (2 + 1 <? ARP_RETRIES) with false in E3. cbv iota in E1, E2, E3.
  transitivity (arp_resolve net_send_packet ((t1, s1, r1) :: (t2, s2, r2) :: (t3, s3, r3) :: script) ip st2 n).
  - cbn [arp_resolve]. unfold arp_begin. case_Z (ip =? 0xFFFFFFFF); [done|]. rewrite Hf, Ea. fold st2.
    destruct Hp as (Hi2 & Hl2 & Hip2 & Hs2 & _). rewrite (arp_cache_find_live st2 ip i), Hs2, bool_decide_false by done. done.
  - by rewrite E1, E2, E3, Q2, Q3, Q4.
Qed.
End exchange.

(** ** Reachable states *)

Section reachable.
Context {N : Type} (net_send_packet : list Z → Z → N → Z * N).

Lemma arp_receive_inv arp len now st (n : N) r st' n' :
  arp_inv st → arp_receive net_send_packet arp len now st n = Some (r, st', n') → arp_inv st'.
Proof.
  intros Hinv. unfold arp_receive. destruct arp as [arp|]; [|by intros [= _ <- _]].
  destruct (len <? _); [by intros [= _ <- _]|]. do 4 next_bind.
  destruct (_ || _); [by intros [= _ <- _]|]. do 4 next_bind. intros [= _ <- _]. by apply arp_cache_add_inv.
Qed.

Lemma arp_arrive_inv ps now st (n : N) st' n' :
  arp_inv st → arp_arrive net_send_packet ps now st n = Some (st', n') → arp_inv st'.
Proof.
  revert st n. induction ps as [|[p len] ps IH]; intros st n Hinv; cbn [arp_arrive]; [by intros [= <- _]|].
  next_bind. destruct p0 as [[r st1] n1]. apply IH. by eapply arp_receive_inv.
Qed.

Lemma arp_wait_inv rounds start ip entry st (n : N) w st' n' :
  arp_inv st → arp_wait net_send_packet rounds start ip entry st n = Some (w, st', n') → arp_inv st'.
Proof.
  revert entry st n. induction rounds as [|[now ps] rounds IH]; intros entry st n Hinv; cbn [arp_wait]; [by intros [= _ <- _]|].
  destruct (u32 _ <? _); [|by intros [= _ <- _]]. destruct (arp_cache_find ip st) as [i|].
  - case_bool_decide; [by intros [= _ <- _]|]. next_bind. destruct p as [st1 n1]. apply IH. by eapply arp_arrive_inv.
  - next_bind. destruct p as [st1 n1]. apply IH. by eapply arp_arrive_inv.
Qed.

Lemma arp_begin_inv ip now st i st' : arp_inv st → arp_begin ip now st = inr (i, st') → arp_inv st'.
Proof.
  intros Hinv. unfold arp_begin. destruct (ip =? _); [done|]. destruct (arp_cache_find ip st) as [j|] eqn:Ef.
  - case_bool_decide; [done|]. by intros [= _ <-].
  - destruct (arp_cache_alloc st) as [j st1] eqn:Ea. intros [= <- <-].
    destruct (arp_cache_alloc_ok _ _ _ Ea) as (_ & _ & Ho & _).
    apply (upd_entry_inv st1 j ip); [by eapply alloc_inv| |done].
    intros k [Hk Hl] Hne. rewrite Ho in * by done. by eapply arp_cache_find_None.
Qed.

(** A change of an entry that keeps its address and whether it is in use. *)
Lemma upd_entry_kept st i f :
  (∀ x, ae_ip (f x) = ae_ip x) → (∀ x, ae_state (f x) = ae_state x) → arp_inv st → arp_inv (upd_entry i f st).
Proof.
  intros Hip Hst Hinv j k [Hj Hlj] [Hk Hlk]. rewrite !entry_at_upd in *.
  destruct (decide (i = j)) as [<-|], (decide (i = k)) as [<-|]; rewrite ?Hip, ?Hst in *; by apply Hinv.
Qed.

Lemma arp_resolve_inv script ip st (n : N) r st' n' :
  arp_inv st → arp_resolve net_send_packet script ip st n = Some (r, st', n') → arp_inv st'.
Proof.
  revert st n. induction script as [|[[now start] rounds] script IH]; intros st n Hinv; cbn [arp_resolve];
    destruct (arp_begin ip _ st) as [mac|[i st1]] eqn:Eb; try by intros [= _ <- _].
  - apply arp_begin_inv in Eb; [|done]. by intros [= _ <- _].
  - apply arp_begin_inv in Eb; [|done]. destruct (arp_send_request _ _ _ _) as [ret n1].
    next_bind. destruct p as [[w st2] n2]. apply arp_wait_inv in E; [|by apply upd_entry_kept].
    destruct w as [mac|[j|]|]; try by intros [= _ <- _].
    destruct (_ <? _); [by apply IH|by intros [= _ <- _]].
Qed.

Lemma free_cache_inv (f : arp_entry → arp_entry) st :
  (∀ x, ae_state (f x) = ARP_STATE_FREE) →
  arp_inv (iter_up (Z.to_nat ARP_CACHE_SIZE) 0 (fun i => upd_entry i f) st).
Proof.
  intros Hf. pose proof (iter_up_inv (fun k st => ∀ j, 0 ≤ j < k → ae_state (entry_at st j) = ARP_STATE_FREE)
    (fun i => upd_entry i f) (Z.to_nat ARP_CACHE_SIZE) 0 st) as HI.
  intros i j [Hi Hl] _. destruct Hl. apply HI; [lia| |done].
  intros k t _ Ht j' Hj'. rewrite entry_at_upd. case_decide; [apply Hf|apply Ht; lia].
Qed.

Lemma started_inv mac st : arp_inv st → arp_inv st⟦local_mac := mac⟧⟦arp_initialized := true⟧.
Proof. intros Hinv. exact Hinv. Qed.

Lemma arp_init_inv mac st : arp_inv st → arp_inv (arp_init mac st).
Proof.
  intros Hinv. unfold arp_init. destruct (arp_initialized st); [exact Hinv|].
  apply started_inv, free_cache_inv. intros x. reflexivity.
Qed.

Lemma arp_cache_clear_inv st : arp_inv (arp_cache_clear st).
Proof. unfold arp_cache_clear. apply free_cache_inv. intros x. reflexivity. Qed.

(** What the kernel can do to the cache. *)
Inductive arp_reach : arp_state → Prop :=
| reach_boot : arp_reach arp_boot
| reach_init mac st : arp_reach st → arp_reach (arp_init mac st)
| reach_set_ip ip st : arp_reach st → arp_reach (arp_set_ip ip st)
| reach_receive arp len now st (n : N) r st' n' :
    arp_reach st → arp_receive net_send_packet arp len now st n = Some (r, st', n') → arp_reach st'
| reach_resolve script ip st (n : N) r st' n' :
    arp_reach st → arp_resolve net_send_packet script ip st n = Some (r, st', n') → arp_reach st'
| reach_clear st : arp_reach st → arp_reach (arp_cache_clear st).

Lemma arp_reach_inv st : arp_reach st → arp_inv st.
Proof.
  induction 1 as [|mac st _ IH|ip st _ IH|arp len now st n r st' n' _ IH E|script ip st n r st' n' _ IH E|st _ IH].
  - intros i j [_ Hl]. by destruct Hl.
  - by apply arp_init_inv.
  - exact IH.
  - by eapply arp_receive_inv.
  - by eapply arp_resolve_inv.
  - apply arp_cache_clear_inv.
Qed.
End reachable.

(** ** Examples *)

(** A driver that records the frames, and two hosts. *)
Definition record_frame (data : list Z) (len : Z) (n : list (list Z)) : Z * list (list Z) := (len, data :: n).
Definition arp_host (ip last : Z) : arp_state := mk_arp ∅ true [2; 0; 0; 0; 0; last] ip.

Lemma arp_host_inv ip last : arp_inv (arp_host ip last).
Proof. intros i j [_ Hl]. by destruct Hl. Qed.

Lemma arp_cache_add_witness :
  let st' := arp_cache_add 0x0A000003 [2; 0; 0; 0; 0; 3] 5 (arp_host 0x0A000002 2) in
  arp_inv st' ∧ (∀ mac', cached st' 0x0A000003 mac' ↔ mac' = [2; 0; 0; 0; 0; 3]).
Proof.
  destruct (arp_cache_add_spec 0x0A000003 [2; 0; 0; 0; 0; 3] 5 (arp_host 0x0A000002 2) (arp_host_inv _ _)) as (H1 & H2 & _).
  split; [exact H1|exact H2].
Defined.


Lemma arp_resolve_gives_up_witness :
  ∃ st' frames, length frames = 3%nat ∧
    arp_resolve record_frame [(1, 1, [(2, []); (4000, [])]); (4000, 4000, [(8000, [])]); (8000, 8000, [(11000, [])])]
      0x0A000009 (arp_host 0x0A000002 2) [] = Some (Failed, st', frames).
Proof.
  destruct (arp_resolve_gives_up record_frame 0x0A000009 (arp_host 0x0A000002 2) 1 1 [(2, []); (4000, [])]
    4000 4000 [(8000, [])] 8000 8000 [(11000, [])] [] [] (arp_host_inv _ _) ltac:(by vm_compute)
    ltac:(intros i [_ Hl]; by destruct Hl) ltac:(by vm_compute) ltac:(by vm_compute) ltac:(by vm_compute)) as (st' & _ & E).
  eexists st', _. split; [|exact E]. reflexivity.
Defined.
