(* ===== verification/Ports.v ===== *)
(** * Ephemeral ports

    [udp_alloc_port] and [tcp_alloc_port] are the same code: take the next port
    of the range 49152 to 65535, and call itself while the port is taken by one
    of the 64 sockets.  This file has that recursion, on the test of a port, and
    shows that it ends. *)

From S2P Require Import Prelude Bytes.

Definition FIRST_EPHEMERAL : Z := 49152.
Definition MAX_SOCKETS : Z := 64.

(** [next_ephemeral_port++] with its wrap-around. *)
Definition next_port (port : Z) : Z := if u16 (port + 1) =? 0 then FIRST_EPHEMERAL else u16 (port + 1).

(** The port and the next value of [next_ephemeral_port]. *)
Fixpoint alloc_port (fuel : nat) (taken : Z → bool) (port : Z) : option (Z * Z) :=
  match fuel with
  | O => None
  | S fuel' => if taken port then alloc_port fuel' taken (next_port port) else Some (port, next_port port)
  end.

(** 64 sockets occupy at most 64 ports. *)
Definition PORT_TRIES : nat := 65.

Definition is_port (p : Z) : Prop := 0 ≤ p < 65536.
Definition ephemeral (p : Z) : Prop := FIRST_EPHEMERAL ≤ p ≤ 65535.

Lemma ephemeral_port p : ephemeral p → is_port p.
Proof. unfold ephemeral, is_port, FIRST_EPHEMERAL. lia. Qed.
#[export] Hint Resolve ephemeral_port : kernel.

(** The [k]-th candidate. *)
Definition candidate (p k : Z) : Z := FIRST_EPHEMERAL + (p - FIRST_EPHEMERAL + k) mod 16384.

Lemma next_port_candidate p k : ephemeral p → candidate (next_port p) k = candidate p (k + 1).
Proof.
  unfold ephemeral, next_port, candidate, FIRST_EPHEMERAL, u16. intros Hp. destruct (Z.eqb_spec ((p + 1) mod 2 ^ 16) 0) as [Ez|].
  - assert (p = 65535) as -> by (destruct (decide (p = 65535)); [done|]; rewrite Z.mod_small in Ez by lia; lia).
    f_equal. replace (65535 - 49152 + (k + 1)) with (49152 - 49152 + k + 1 * 16384) by lia. by rewrite Z.mod_add by lia.
  - assert (p ≠ 65535) by (intros ->; done). rewrite (Z.mod_small (p + 1)) by lia. do 2 f_equal. lia.
Qed.

Lemma next_port_ephemeral p : ephemeral p → ephemeral (next_port p).
Proof.
  unfold ephemeral, next_port, FIRST_EPHEMERAL, u16. intros Hp. case_Z (((p + 1) mod 2 ^ 16) =? 0); [lia|].
  assert (p ≠ 65535) by (intros ->; done). rewrite Z.mod_small by lia. lia.
Qed.

Lemma alloc_port_path n taken p : ephemeral p →
  match alloc_port n taken p with
  | Some (q, p') => ephemeral q ∧ taken q = false ∧ ephemeral p'
  | None => ∀ k, 0 ≤ k < Z.of_nat n → taken (candidate p k) = true
  end.
Proof.
  revert p. induction n as [|n IH]; intros p He; cbn [alloc_port]; [lia|].
  destruct (taken p) eqn:Et; [|split_and!; [done|done|by apply next_port_ephemeral]].
  specialize (IH (next_port p) (next_port_ephemeral p He)). destruct (alloc_port n taken (next_port p)) as [[q p']|]; [done|].
  intros k Hk. destruct (decide (k = 0)) as [->|].
  - unfold candidate. replace (FIRST_EPHEMERAL + _) with p; [done|]. unfold ephemeral, FIRST_EPHEMERAL in *. rewrite Z.mod_small; lia.
  - specialize (IH (k - 1)). rewrite next_port_candidate in IH by done. replace (k - 1 + 1) with k in IH by lia. apply IH. lia.
Qed.

(** More candidates than sockets: one of them is free. *)
Lemma pigeonhole p (port_of : Z → Z) :
  ¬ (∀ k, 0 ≤ k < Z.of_nat PORT_TRIES → ∃ i, 0 ≤ i < MAX_SOCKETS ∧ port_of i = candidate p k).
Proof.
  intros Hall. set (ports := candidate p <$> seqZ 0 65).
  assert (ports ⊆+ (port_of <$> seqZ 0 64)) as Hs.
  { apply NoDup_submseteq.
    - apply NoDup_fmap_2_strong; [|apply NoDup_seqZ]. intros j k Hj%elem_of_seqZ Hk%elem_of_seqZ. unfold candidate. intros E.
      assert ((p - FIRST_EPHEMERAL + j) mod 16384 = (p - FIRST_EPHEMERAL + k) mod 16384) as E' by lia.
      assert (((p - FIRST_EPHEMERAL + j) - (p - FIRST_EPHEMERAL + k)) mod 16384 = 0) as D
        by (rewrite Zminus_mod, E', Z.sub_diag; done).
      apply Z.mod_divide in D as [c D]; [|lia]. lia.
    - intros q (k & -> & Hk%elem_of_seqZ)%list_elem_of_fmap. destruct (Hall k) as (i & Hi & Ep); [done|].
      apply list_elem_of_fmap. exists i. split; [done|]. apply elem_of_seqZ. unfold MAX_SOCKETS in Hi. lia. }
  apply submseteq_length in Hs. subst ports. rewrite !length_fmap, !length_seqZ in Hs. lia.
Qed.

(** The recursion ends after at most 65 calls, with a port of the range that is
    not taken, when each taken port is that of one of 64 sockets. *)
Lemma alloc_port_ok taken (port_of : Z → Z) p :
  ephemeral p → (∀ q, taken q = true → ∃ i, 0 ≤ i < MAX_SOCKETS ∧ port_of i = q) →
  ∃ q p', alloc_port PORT_TRIES taken p = Some (q, p') ∧ ephemeral q ∧ taken q = false ∧ ephemeral p'.
Proof.
  intros He Ht. pose proof (alloc_port_path PORT_TRIES taken p He) as Hp.
  destruct (alloc_port PORT_TRIES taken p) as [[q p']|]; [by exists q, p'|].
  exfalso. apply (pigeonhole p port_of). intros k Hk. by apply Ht, Hp.
Qed.
