(* ===== verification/Udp.v ===== *)
(** * UDP (kernel/net/udp.c)

    The table of 64 sockets, ephemeral ports, sending, the receive queues and
    the receive handler.

    A queued datagram is a [udp_packet] in a block of the kernel heap; [pkts] is
    the memory of these blocks by address, and a pointer that is not there is
    undefined to follow.  The block of the payload is owned by its packet:
    [pk_data] is its address and [pk_bytes] its contents.  A result [None] is
    undefined behaviour, or, for the loops with fuel, that the fuel does not
    suffice, which the theorems exclude.  Output on the serial line is not
    modelled. *)

From S2P Require Import Prelude Bytes KHeap Net Ports.

Definition UDP_HEADER_SIZE : Z := 8.
Definition UDP_MAX_SOCKETS : Z := 64.
Definition UDP_RECV_QUEUE_SIZE : Z := 16.
Definition UDP_MAX_PAYLOAD : Z := 65507.
(** [sizeof(udp_packet_t)] on the 32-bit target. *)
Definition UDP_PACKET_STRUCT : Z := 16.

Record udp_packet := mk_udp_packet {
  pk_src_ip : Z;
  pk_src_port : Z;
  pk_length : Z;
  pk_data : Z;
  pk_bytes : list Z;
  pk_next : ptr;
}.
#[export] Instance eta_udp_packet : Eta udp_packet := fun p =>
  mk_udp_packet (pk_src_ip p) (pk_src_port p) (pk_length p) (pk_data p) (pk_bytes p) (pk_next p).

Record udp_socket := mk_udp_socket {
  in_use : bool;
  local_port : Z;
  local_ip : Z;
  bound : bool;
  remote_ip : Z;
  remote_port : Z;
  connected : bool;
  recv_queue_head : ptr;
  recv_queue_tail : ptr;
  recv_queue_count : Z;
  packets_sent : Z;
  packets_received : Z;
}.
#[export] Instance eta_udp_socket : Eta udp_socket := fun s =>
  mk_udp_socket (in_use s) (local_port s) (local_ip s) (bound s) (remote_ip s) (remote_port s) (connected s)
    (recv_queue_head s) (recv_queue_tail s) (recv_queue_count s) (packets_sent s) (packets_received s).
#[export] Instance zeroed_udp_socket : Zeroed udp_socket :=
  mk_udp_socket false 0 0 false 0 0 false None None 0 0 0.

Record udp_stats := mk_udp_stats {
  datagrams_received : Z;
  datagrams_sent : Z;
  receive_errors : Z;
  no_port_errors : Z;
  checksum_errors : Z;
}.
#[export] Instance eta_udp_stats : Eta udp_stats := fun s =>
  mk_udp_stats (datagrams_received s) (datagrams_sent s) (receive_errors s) (no_port_errors s) (checksum_errors s).

(** The static variables of udp.c, and the packets in the queues. *)
Record udp_state := mk_udp {
  udp_sockets : gmap Z udp_socket;
  udp_initialized : bool;
  next_ephemeral_port : Z;
  ustats : udp_stats;
  pkts : gmap Z udp_packet;
}.
#[export] Instance eta_udp : Eta udp_state := fun s =>
  mk_udp (udp_sockets s) (udp_initialized s) (next_ephemeral_port s) (ustats s) (pkts s).

Definition udp_boot : udp_state := mk_udp ∅ false FIRST_EPHEMERAL (mk_udp_stats 0 0 0 0 0) ∅.

Definition sock_at (st : udp_state) (i : Z) : udp_socket := (udp_sockets st).[i].
Definition upd_sock (i : Z) (f : udp_socket → udp_socket) (st : udp_state) : udp_state :=
  st⟦udp_sockets ::= fun m => amod m i f⟧.
Definition ucount (f : udp_stats → udp_stats) (st : udp_state) : udp_state := st⟦ustats ::= f⟧.
Definition inc (n : Z) : Z := u32 (n + 1).

Definition bad_fd (sockfd : Z) : bool := (sockfd <? 0) || (UDP_MAX_SOCKETS <=? sockfd).

(** ** Checksum *)

Definition udp_checksum (src_ip dest_ip : Z) (udp_packet : list Z) (udp_length : Z) : option Z :=
  result ← checksum_from (pseudo_sum src_ip dest_ip IP_PROTO_UDP udp_length) udp_packet udp_length;
  Some (if result =? 0 then 0xFFFF else result).

(** ** Ports *)

Definition udp_init (st : udp_state) : udp_state :=
  if udp_initialized st then st
  else (iter_up (Z.to_nat UDP_MAX_SOCKETS) 0 (fun i => upd_sock i (fun _ => zero)) st)⟦udp_initialized := true⟧.

(** Whether a socket has the port. *)
Definition port_taken (st : udp_state) (port : Z) : bool :=
  negb (is_null (find_up (Z.to_nat UDP_MAX_SOCKETS) 0
                   (fun i => in_use (sock_at st i) && (local_port (sock_at st i) =? port)))).

Definition udp_alloc_port (st : udp_state) : option (Z * udp_state) :=
  '(port, next) ← alloc_port PORT_TRIES (port_taken st) (next_ephemeral_port st);
  Some (port, st⟦next_ephemeral_port := next⟧).

Definition udp_find_socket (port : Z) (st : udp_state) : ptr :=
  find_up (Z.to_nat UDP_MAX_SOCKETS) 0
    (fun i => in_use (sock_at st i) && bound (sock_at st i) && (local_port (sock_at st i) =? port)).

(** ** Sockets *)

Definition udp_socket_create (st : udp_state) : Z * udp_state :=
  match find_up (Z.to_nat UDP_MAX_SOCKETS) 0 (fun i => negb (in_use (sock_at st i))) with
  | Some i => (i, upd_sock i (fun _ => (zero : udp_socket)⟦in_use := true⟧) st)
  | None => (-1, st)
  end.

(** [ip] is the result of [tcpip_get_local_ip]. *)
Definition udp_bind (sockfd port ip : Z) (st : udp_state) : option (Z * udp_state) :=
  if bad_fd sockfd then Some (-1, st)
  else if negb (in_use (sock_at st sockfd)) then Some (-1, st)
  else
    let bind p st := (0, upd_sock sockfd (fun s => s⟦local_port := p⟧⟦local_ip := ip⟧⟦bound := true⟧) st) in
    if negb (port =? 0) then
      match find_up (Z.to_nat UDP_MAX_SOCKETS) 0
              (fun i => negb (i =? sockfd) && in_use (sock_at st i) && bound (sock_at st i)
                        && (local_port (sock_at st i) =? port)) with
      | Some _ => Some (-1, st)
      | None => Some (bind port st)
      end
    else '(p, st) ← udp_alloc_port st; Some (bind p st).

(** The bind of [udp_connect] and [udp_sendto] for a socket without a port. *)
Definition auto_bind (sockfd ip : Z) (st : udp_state) : option (Z * udp_state) :=
  if bound (sock_at st sockfd) then Some (0, st) else udp_bind sockfd 0 ip st.

Definition udp_connect (sockfd ip rip rport : Z) (st : udp_state) : option (Z * udp_state) :=
  if bad_fd sockfd then Some (-1, st)
  else if negb (in_use (sock_at st sockfd)) then Some (-1, st)
  else
    '(r, st) ← auto_bind sockfd ip st;
    if negb (r =? 0) then Some (-1, st)
    else Some (0, upd_sock sockfd (fun s => s⟦remote_ip := rip⟧⟦remote_port := rport⟧⟦connected := true⟧) st).

(** The packed struct [udp_header_t]. *)
Definition udp_header (src_port dest_port length checksum : Z) : list Z :=
  put16 (htons src_port) ++ put16 (htons dest_port) ++ put16 (htons length) ++ put16 checksum.

Section heap.
Context {H : Type} `{KernelHeap H}.

Definition udp_sendto (sockfd : Z) (data : option (list Z)) (length dest_ip dest_port : Z)
    (st : udp_state) (e : kenv H) : option (Z * udp_state * kenv H) :=
  if bad_fd sockfd then Some (-1, st, e)
  else
    match data with
    | None => Some (-1, st, e)
    | Some data =>
        if (length =? 0) || (UDP_MAX_PAYLOAD <? length) then Some (-1, st, e)
        else if negb (in_use (sock_at st sockfd)) then Some (-1, st, e)
        else
          '(r, st) ← auto_bind sockfd (tcpip_get_local_ip (knet e)) st;
          if negb (r =? 0) then Some (-1, st, e)
          else
            let udp_length := u16 (UDP_HEADER_SIZE + length) in
            '(p, h) ← kmalloc udp_length (kheap e);
            if p =? 0 then Some (-1, st, e⟦kheap := h⟧)
            else
              let sock := sock_at st sockfd in
              d ← slice data 0 length;
              checksum ← udp_checksum (local_ip sock) dest_ip (udp_header (local_port sock) dest_port udp_length 0 ++ d) udp_length;
              '(ret, ns) ← ip_send_packet dest_ip IP_PROTO_UDP
                             (Some (udp_header (local_port sock) dest_port udp_length checksum ++ d)) udp_length (knet e);
              let e := mk_kenv ns (kfree p h) in
              if ret =? 0 then
                Some (length, ucount (fun s => s⟦datagrams_sent ::= inc⟧) (upd_sock sockfd (fun s => s⟦packets_sent ::= inc⟧) st), e)
              else Some (-1, st, e)
    end.

Definition udp_send (sockfd : Z) (data : option (list Z)) (length : Z) (st : udp_state) (e : kenv H)
    : option (Z * udp_state * kenv H) :=
  if bad_fd sockfd then Some (-1, st, e)
  else
    let sock := sock_at st sockfd in
    if negb (in_use sock) || negb (connected sock) then Some (-1, st, e)
    else udp_sendto sockfd data length (remote_ip sock) (remote_port sock) st e.

(** The result and what is written through [buffer], [src_ip] and [src_port]. *)
Definition udp_recvfrom (sockfd : Z) (buffer : bool) (max_length : Z) (st : udp_state) (e : kenv H)
    : option (Z * option (list Z * Z * Z) * udp_state * kenv H) :=
  if bad_fd sockfd then Some (-1, None, st, e)
  else if negb buffer || (max_length =? 0) then Some (-1, None, st, e)
  else
    let sock := sock_at st sockfd in
    if negb (in_use sock) || negb (bound sock) then Some (-1, None, st, e)
    else
      match recv_queue_head sock with
      | None => Some (0, None, st, e)
      | Some a =>
          pkt ← pkts st !! a;
          let st := upd_sock sockfd (fun s => s⟦recv_queue_head := pk_next pkt⟧
                                              ⟦recv_queue_tail := if is_null (pk_next pkt) then None else recv_queue_tail s⟧
                                              ⟦recv_queue_count ::= fun n => n - 1⟧) st in
          let copy_len := if pk_length pkt <? max_length then pk_length pkt else max_length in
          d ← slice (pk_bytes pkt) 0 copy_len;
          Some (copy_len, Some (d, pk_src_ip pkt, pk_src_port pkt), st⟦pkts ::= delete a⟧,
                e⟦kheap ::= fun h => kfree a (kfree (pk_data pkt) h)⟧)
      end.

Definition udp_recv := udp_recvfrom.

(** [while (sock->recv_queue_head != NULL)] *)
Fixpoint free_queue (fuel : nat) (sockfd : Z) (st : udp_state) (h : H) : option (udp_state * H) :=
  match recv_queue_head (sock_at st sockfd) with
  | None => Some (st, h)
  | Some a =>
      match fuel with
      | O => None
      | S fuel' =>
          pkt ← pkts st !! a;
          let st := upd_sock sockfd (fun s => s⟦recv_queue_head := pk_next pkt⟧) st in
          free_queue fuel' sockfd st⟦pkts ::= delete a⟧ (kfree a (kfree (pk_data pkt) h))
      end
  end.

(** Every round releases a packet. *)
Definition udp_close (sockfd : Z) (st : udp_state) (e : kenv H) : option (Z * udp_state * kenv H) :=
  if bad_fd sockfd then Some (-1, st, e)
  else if negb (in_use (sock_at st sockfd)) then Some (-1, st, e)
  else
    '(st, h) ← free_queue (size (pkts st)) sockfd st (kheap e);
    Some (0, upd_sock sockfd (fun _ => zero) st, e⟦kheap := h⟧).

(** Appending a packet to the queue of a socket. *)
Definition enqueue (sockfd a : Z) (pkt : udp_packet) (st : udp_state) : option udp_state :=
  let st := st⟦pkts ::= <[a := pkt]>⟧ in
  st ← match recv_queue_tail (sock_at st sockfd) with
       | None => Some (upd_sock sockfd (fun s => s⟦recv_queue_head := Some a⟧) st)
       | Some t => last ← pkts st !! t; Some st⟦pkts ::= <[t := last⟦pk_next := Some a⟧]>⟧
       end;
  Some (upd_sock sockfd (fun s => s⟦recv_queue_tail := Some a⟧⟦recv_queue_count ::= fun n => n + 1⟧⟦packets_received ::= inc⟧) st).

(** From the search for the socket on. *)
Definition udp_deliver (src_ip src_port dest_port udp_length : Z) (packet : list Z) (st : udp_state) (e : kenv H)
    : option (Z * udp_state * kenv H) :=
  match udp_find_socket dest_port st with
  | None => Some (-1, ucount (fun s => s⟦no_port_errors ::= inc⟧) st, e)
  | Some fd =>
      let sock := sock_at st fd in
      if connected sock && (negb (remote_ip sock =? src_ip) || negb (remote_port sock =? src_port)) then Some (0, st, e)
      else if UDP_RECV_QUEUE_SIZE <=? recv_queue_count sock then Some (-1, st, e)
      else
        let data_len := u16 (udp_length - UDP_HEADER_SIZE) in
        '(a, h) ← kmalloc UDP_PACKET_STRUCT (kheap e);
        if a =? 0 then Some (-1, st, e⟦kheap := h⟧)
        else
          '(b, h) ← kmalloc data_len h;
          if b =? 0 then Some (-1, st, e⟦kheap := kfree a h⟧)
          else
            d ← slice packet UDP_HEADER_SIZE data_len;
            st ← enqueue fd a (mk_udp_packet src_ip src_port data_len b d None) st;
            Some (0, st, e⟦kheap := h⟧)
  end.

Definition udp_receive (src_ip dest_ip : Z) (packet : option (list Z)) (length : Z) (st : udp_state) (e : kenv H)
    : option (Z * udp_state * kenv H) :=
  let bad := Some (-1, ucount (fun s => s⟦receive_errors ::= inc⟧) st, e) in
  match packet with
  | None => bad
  | Some packet =>
      if length <? UDP_HEADER_SIZE then bad
      else
        sp ← le16 packet 0; dp ← le16 packet 2; ul ← le16 packet 4; checksum ← le16 packet 6;
        let udp_length := ntohs ul in
        if (udp_length <? UDP_HEADER_SIZE) || (length <? udp_length) then bad
        else
          calc ← (if negb (checksum =? 0) then udp_checksum src_ip dest_ip packet udp_length else Some 0);
          if negb (calc =? 0) then Some (-1, ucount (fun s => s⟦checksum_errors ::= inc⟧) st, e)
          else
            udp_deliver src_ip (ntohs sp) (ntohs dp) udp_length packet (ucount (fun s => s⟦datagrams_received ::= inc⟧) st) e
  end.

End heap.

Definition udp_get_stats (st : udp_state) : Z * Z * Z :=
  (datagrams_sent (ustats st), datagrams_received (ustats st), u32 (receive_errors (ustats st) + checksum_errors (ustats st))).

(** ** Checksums *)

(** [udp_checksum] never returns 0, the value the receive handler asks for. *)
Lemma udp_checksum_nonzero src_ip dest_ip p n : udp_checksum src_ip dest_ip p n ≠ Some 0.
Proof.
  unfold udp_checksum. destruct (checksum_from _ p n) as [c|]; cbn [mbind option_bind]; [|done].
  case_Z (c =? 0); [done|]. by intros [= ?].
Qed.

Lemma udp_checksum_ok src_ip dest_ip p : packet p →
  ∃ c, udp_checksum src_ip dest_ip p (Z.of_nat (length p)) = Some c ∧ 0 < c < 65536.
Proof.
  intros Hp. unfold udp_checksum. rewrite checksum_from_ok by (done || apply pseudo_sum_range). cbn [mbind option_bind].
  eexists. split; [done|]. set (w := ones16 _). pose proof (ones16_range (pseudo_sum src_ip dest_ip IP_PROTO_UDP (Z.of_nat (length p)) + wsum p)).
  fold w in H. case_Z (65535 - w =? 0); lia.
Qed.

(** ** Ephemeral ports *)

Definition has_port (st : udp_state) (p i : Z) : Prop :=
  0 ≤ i < UDP_MAX_SOCKETS ∧ in_use (sock_at st i) = true ∧ local_port (sock_at st i) = p.

Lemma port_taken_spec st p : port_taken st p = true ↔ ∃ i, has_port st p i.
Proof.
  unfold port_taken, has_port. split.
  - destruct (find_up _ _ _) as [i|] eqn:Ef; [|done]. intros _. apply find_up_Some in Ef as (Hi & Ht & _).
    apply andb_true_iff in Ht as [Hu Hp%Z.eqb_eq]. by exists i.
  - intros (i & Hi & Hu & Hp). destruct (find_up _ _ _) as [j|] eqn:Ef; [done|]. eapply find_up_None in Ef; [|exact Hi].
    cbv beta in Ef. rewrite Hu, Hp, Z.eqb_refl in Ef. done.
Qed.

(** [udp_alloc_port] returns, with a port of the ephemeral range that no socket
    in use has. *)
Lemma udp_alloc_port_ok st : ephemeral (next_ephemeral_port st) →
  ∃ p q, udp_alloc_port st = Some (p, st⟦next_ephemeral_port := q⟧) ∧ ephemeral p ∧ ephemeral q ∧ ∀ i, ¬ has_port st p i.
Proof.
  intros He. unfold udp_alloc_port.
  destruct (alloc_port_ok (port_taken st) (fun i => local_port (sock_at st i)) _ He) as (p & q & -> & Hp & Ht & Hq).
  - intros r (i & Hi & _ & Ep)%port_taken_spec. by exists i.
  - exists p, q. split; [done|]. split; [done|]. split; [done|]. intros i Hi. apply not_true_iff_false in Ht. apply Ht, port_taken_spec. by exists i.
Qed.

(** ** The receive queues as lists of datagrams *)

(** Source address, source port and payload. *)
Definition datagram : Type := Z * Z * list Z.
Definition carries (p : udp_packet) (d : datagram) : Prop :=
  (pk_src_ip p, pk_src_port p, pk_bytes p) = d ∧ pk_length p = Z.of_nat (length (pk_bytes p)).

(** The packets at the addresses [ns], linked from [hd] on, carry [ds]. *)
Fixpoint qseg (m : gmap Z udp_packet) (hd : ptr) (ns : list Z) (ds : list datagram) : Prop :=
  match ns, ds with
  | [], [] => hd = None
  | a :: ns', d :: ds' => hd = Some a ∧ ∃ p, m !! a = Some p ∧ carries p d ∧ qseg m (pk_next p) ns' ds'
  | _, _ => False
  end.

Lemma qseg_length m hd ns ds : qseg m hd ns ds → length ds = length ns.
Proof.
  revert hd ds. induction ns as [|a ns IH]; intros hd [|d ds]; cbn; [done..|].
  intros (_ & p & _ & _ & Hq). f_equal. by eapply IH.
Qed.

Lemma qseg_ext m m' hd ns ds : (∀ a, a ∈ ns → m' !! a = m !! a) → qseg m hd ns ds → qseg m' hd ns ds.
Proof.
  revert hd ds. induction ns as [|a ns IH]; intros hd [|d ds] Hm; cbn; [done..|].
  intros (-> & p & Hp & Hc & Hq). split; [done|]. exists p. rewrite Hm by set_solver. split; [done|]. split; [done|].
  apply IH; [set_solver|done].
Qed.

Lemma qseg_nodes m hd ns ds a : qseg m hd ns ds → a ∈ ns → is_Some (m !! a).
Proof.
  revert hd ds. induction ns as [|b ns IH]; intros hd [|d ds]; cbn; try done; [by intros _ ?%elem_of_nil|].
  intros (_ & p & Hp & _ & Hq) [->|Ha]%elem_of_cons; [by eexists|by eapply IH].
Qed.

Lemma qseg_append m hd ns t ds d a pkt lastp :
  qseg m hd (ns ++ [t]) ds → NoDup (ns ++ [t]) → a ∉ ns ++ [t] → m !! t = Some lastp →
  carries pkt d → pk_next pkt = None →
  qseg (<[t := lastp⟦pk_next := Some a⟧]> (<[a := pkt]> m)) hd ((ns ++ [t]) ++ [a]) (ds ++ [d]).
Proof.
  revert hd ds. induction ns as [|b ns IH]; intros hd [|d' ds] Hq Hnd Ha Ht Hc Hn; cbn [app qseg] in *; try done.
  - destruct Hq as (-> & p & Hp & Hcp & Hq). destruct ds; [|done]. simplify_eq.
    assert (t ≠ a) by set_solver. split; [done|]. eexists. rewrite lookup_insert_eq. split; [done|]. split; [done|]. cbn [app qseg].
    split; [done|]. exists pkt. rewrite lookup_insert_ne, lookup_insert_eq by done. done.
  - destruct Hq as (-> & p & Hp & Hcp & Hq). apply NoDup_cons in Hnd as [Hb Hnd].
    assert (b ≠ t) by set_solver. assert (b ≠ a) by set_solver.
    split; [done|]. exists p. rewrite !lookup_insert_ne by done. split; [done|]. split; [done|]. apply IH; try done. set_solver.
Qed.

Definition fupd {A} (f : Z → A) (i : Z) (x : A) : Z → A := fun j => if decide (i = j) then x else f j.
Lemma fupd_eq {A} (f : Z → A) i x : fupd f i x i = x.
Proof. unfold fupd. by rewrite decide_True. Qed.
Lemma fupd_ne {A} (f : Z → A) i x j : i ≠ j → fupd f i x j = f j.
Proof. intros. unfold fupd. by rewrite decide_False. Qed.

Definition is_fd (fd : Z) : Prop := 0 ≤ fd < UDP_MAX_SOCKETS.
Definition is_bound (st : udp_state) (p i : Z) : Prop :=
  is_fd i ∧ in_use (sock_at st i) = true ∧ bound (sock_at st i) = true ∧ local_port (sock_at st i) = p.

(** The socket's queue has the packets [ns], which carry [ds]. *)
Definition queue_ok (m : gmap Z udp_packet) (s : udp_socket) (ns : list Z) (ds : list datagram) : Prop :=
  qseg m (recv_queue_head s) ns ds ∧ recv_queue_tail s = last ns ∧
  recv_queue_count s = Z.of_nat (length ns) ∧ recv_queue_count s ≤ UDP_RECV_QUEUE_SIZE ∧ (in_use s = false → ns = []).

(** [Q fd] is what the queue of socket [fd] holds; [L] is the heap in use. *)
Record udp_inv (st : udp_state) (L : gmap Z Z) (nodes : Z → list Z) (Q : Z → list datagram) : Prop := {
  ui_ephemeral : ephemeral (next_ephemeral_port st);
  ui_ports i j p : is_bound st p i → is_bound st p j → i = j;
  ui_port i : is_port (local_port (sock_at st i));
  ui_queue fd : is_fd fd → queue_ok (pkts st) (sock_at st fd) (nodes fd) (Q fd);
  ui_nodup fd : NoDup (nodes fd);
  ui_range fd a : a ∈ nodes fd → is_fd fd;
  ui_disjoint fd fd' a : a ∈ nodes fd → a ∈ nodes fd' → fd = fd';
  ui_live a p : pkts st !! a = Some p → is_Some (L !! a) ∧ is_Some (L !! pk_data p) ∧ pkts st !! pk_data p = None;
  ui_data a p a' p' : pkts st !! a = Some p → pkts st !! a' = Some p' → pk_data p = pk_data p' → a = a';
}.

Lemma sock_at_upd st i f j : sock_at (upd_sock i f st) j = if decide (i = j) then f (sock_at st i) else sock_at st j.
Proof. apply aget_amod. Qed.

Lemma sock_at_pkts st f i : sock_at st⟦pkts ::= f⟧ i = sock_at st i.
Proof. done. Qed.

Lemma bad_fd_spec fd : bad_fd fd = false ↔ is_fd fd.
Proof.
  unfold bad_fd, is_fd. rewrite orb_false_iff, Z.ltb_ge, Z.leb_gt. done.
Qed.

(** Changes that leave the queues alone. *)
Definition same_queue (s s' : udp_socket) : Prop :=
  recv_queue_head s' = recv_queue_head s ∧ recv_queue_tail s' = recv_queue_tail s ∧
  recv_queue_count s' = recv_queue_count s ∧ (in_use s' = false → in_use s = false) ∧
  (is_port (local_port s) → is_port (local_port s')).

Lemma udp_inv_sockets st st' L nodes Q :
  udp_inv st L nodes Q → pkts st' = pkts st → ephemeral (next_ephemeral_port st') →
  (∀ fd, same_queue (sock_at st fd) (sock_at st' fd)) →
  (∀ i j p, is_bound st' p i → is_bound st' p j → i = j) → udp_inv st' L nodes Q.
Proof.
  intros [_ _ Hport Hq Hnd Hr Hdj Hl Hd] Em He Hs Hp. split; rewrite ?Em; try done; [intros i; by apply (Hs i)|].
  intros fd Hfd. destruct (Hq fd Hfd) as (H1 & H2 & H3 & H4 & H5), (Hs fd) as (E1 & E2 & E3 & E4 & _).
  split; [by rewrite E1|]. split; [by rewrite E2|]. rewrite E3. split; [done|]. split; [done|]. intros Hu. auto.
Qed.

Lemma same_queue_refl s : same_queue s s.
Proof. done. Qed.

(** A socket whose change keeps the ports. *)
Lemma upd_sock_inv st L nodes Q fd f :
  udp_inv st L nodes Q → same_queue (sock_at st fd) (f (sock_at st fd)) →
  (∀ p, is_bound (upd_sock fd f st) p fd → ∀ j, is_bound st p j → j = fd) → udp_inv (upd_sock fd f st) L nodes Q.
Proof.
  intros Hinv Hs Hp. eapply udp_inv_sockets; [exact Hinv|done|apply Hinv|..].
  - intros i. rewrite sock_at_upd. case_decide; [by subst|done].
  - intros i j p Hi Hj. pose proof (Hp p) as Hpp.
    assert (∀ k, k ≠ fd → is_bound (upd_sock fd f st) p k → is_bound st p k) as Ho.
    { intros k Hk. unfold is_bound. rewrite sock_at_upd, decide_False by done. done. }
    destruct (decide (i = fd)) as [->|], (decide (j = fd)) as [->|]; [done|..].
    + symmetry. auto.
    + auto.
    + eapply (ui_ports _ _ _ _ Hinv); eauto.
Qed.

(** ** Sockets and ports *)

Lemma set_port_inv st L nodes Q fd p ip :
  udp_inv st L nodes Q → is_port p → (∀ i, i ≠ fd → ¬ is_bound st p i) →
  udp_inv (upd_sock fd (fun s => s⟦local_port := p⟧⟦local_ip := ip⟧⟦bound := true⟧) st) L nodes Q.
Proof.
  intros Hinv Hp Hno. apply upd_sock_inv; [done|done|]. intros p' (_ & _ & _ & Ep) j Hj.
  rewrite sock_at_upd, decide_True in Ep by done. cbn in Ep. subst p'.
  destruct (decide (j = fd)); [done|]. by destruct (Hno j).
Qed.

Lemma next_port_inv st L nodes Q q :
  udp_inv st L nodes Q → ephemeral q → udp_inv st⟦next_ephemeral_port := q⟧ L nodes Q.
Proof. intros Hinv Hq. eapply udp_inv_sockets; [exact Hinv|done|done|done|]. apply Hinv. Qed.

Lemma conflict_test st fd port i :
  negb (i =? fd) && in_use (sock_at st i) && bound (sock_at st i) && (local_port (sock_at st i) =? port) = true ↔
  i ≠ fd ∧ in_use (sock_at st i) = true ∧ bound (sock_at st i) = true ∧ local_port (sock_at st i) = port.
Proof. rewrite !andb_true_iff, negb_true_iff, Z.eqb_eq, Z.eqb_neq. tauto. Qed.

(** A refused bind. *)
Definition bind_refused (st : udp_state) (fd port : Z) : Prop :=
  ¬ is_fd fd ∨ in_use (sock_at st fd) = false ∨ (port ≠ 0 ∧ ∃ i, i ≠ fd ∧ is_bound st port i).

Lemma udp_bind_ok st L nodes Q fd port ip : udp_inv st L nodes Q → is_port port →
  (udp_bind fd port ip st = Some (-1, st) ∧ bind_refused st fd port) ∨
  (∃ p st', udp_bind fd port ip st = Some (0, st') ∧ udp_inv st' L nodes Q ∧ ¬ bind_refused st fd port ∧
     is_bound st' p fd ∧ (∀ i, i ≠ fd → sock_at st' i = sock_at st i ∧ ¬ is_bound st p i) ∧
     (if decide (port = 0) then ephemeral p else p = port)).
Proof.
  intros Hinv Hport. unfold udp_bind, bind_refused. destruct (bad_fd fd) eqn:Hfd.
  { left. split; [done|]. left. rewrite <-bad_fd_spec. by rewrite Hfd. }
  apply bad_fd_spec in Hfd. destruct (in_use (sock_at st fd)) eqn:Hu; cbn [negb]; [|by auto].
  assert (∀ p st1, sock_at st1 = sock_at st → is_bound (upd_sock fd (fun s => s⟦local_port := p⟧⟦local_ip := ip⟧⟦bound := true⟧) st1) p fd) as Hb.
  { intros p st1 E. unfold is_bound. rewrite sock_at_upd, decide_True by done. rewrite E. cbn. done. }
  assert (∀ p st1 i, sock_at st1 = sock_at st → i ≠ fd →
    sock_at (upd_sock fd (fun s => s⟦local_port := p⟧⟦local_ip := ip⟧⟦bound := true⟧) st1) i = sock_at st i) as Ho.
  { intros p st1 i E Hi. rewrite sock_at_upd, decide_False by done. by rewrite E. }
  case_Z (port =? 0); [|destruct (find_up _ _ _) as [i|] eqn:Ef]; cbn [negb].
  - right. destruct (udp_alloc_port_ok st (ui_ephemeral _ _ _ _ Hinv)) as (p & q & -> & Hp & Hq & Hno).
    cbn [mbind option_bind]. assert (∀ i, i ≠ fd → ¬ is_bound st p i) as Hno'.
    { intros i _ (Hi & Hui & _ & Ep). by apply (Hno i). }
    do 2 eexists. split; [done|]. split; [apply set_port_inv; [by apply next_port_inv|auto with kernel|done]|].
    split; [intros [?|[?|[? _]]]; [done|congruence|done]|]. split; [by apply Hb|]. split; [intros i Hi; split; [by apply Ho|auto]|]. by rewrite decide_True.
  - left. split; [done|]. right. right. split; [done|].
    apply find_up_Some in Ef as (Hi & Ht & _). apply conflict_test in Ht as (Hne & H1 & H2 & H3). by exists i.
  - right. assert (∀ i, i ≠ fd → ¬ is_bound st port i) as Hno.
    { intros i Hi (Hr & H1 & H2 & H3). eapply find_up_None in Ef; [|exact Hr]. apply not_true_iff_false in Ef. by apply Ef, conflict_test. }
    do 2 eexists. split; [done|]. split; [by apply set_port_inv|].
    split; [intros [?|[?|(_ & i & Hi & Hbi)]]; [done|congruence|by apply (Hno i)]|].
    split; [by apply Hb|]. split; [intros i Hi; split; [by apply Ho|auto]|]. by rewrite decide_False.
Qed.

(** [udp_bind] gives the socket the port asked for, or one of the ephemeral
    range for port 0; it refuses exactly an invalid socket and a port that
    another socket is bound to, and it always returns. *)
Theorem udp_bind_spec st L nodes Q fd port ip : udp_inv st L nodes Q → is_port port →
  (udp_bind fd port ip st = Some (-1, st) ∧ bind_refused st fd port) ∨
  (∃ p st', udp_bind fd port ip st = Some (0, st') ∧ udp_inv st' L nodes Q ∧ ¬ bind_refused st fd port ∧
     is_bound st' p fd ∧ (∀ i, i ≠ fd → sock_at st' i = sock_at st i ∧ ¬ is_bound st p i) ∧
     (if decide (port = 0) then ephemeral p else p = port)).
Proof. apply udp_bind_ok. Qed.

Lemma auto_bind_ok st L nodes Q fd ip : udp_inv st L nodes Q → is_fd fd → in_use (sock_at st fd) = true →
  ∃ p st', auto_bind fd ip st = Some (0, st') ∧ udp_inv st' L nodes Q ∧ is_bound st' p fd ∧
    ∀ i, i ≠ fd → sock_at st' i = sock_at st i.
Proof.
  intros Hinv Hfd Hu. unfold auto_bind. destruct (bound (sock_at st fd)) eqn:Hb; [by eexists _, st|].
  destruct (udp_bind_ok st L nodes Q fd 0 ip Hinv ltac:(by vm_compute)) as [(_ & [?|[?|[? _]]])|(p & st' & -> & H1 & _ & H2 & H3 & _)]; [done|congruence|done|].
  exists p, st'. split; [done|]. split; [done|]. split; [done|]. intros i Hi. by apply H3.
Qed.

Lemma udp_socket_create_ok st L nodes Q : udp_inv st L nodes Q →
  let '(fd, st') := udp_socket_create st in
  udp_inv st' L nodes Q ∧
  ((fd = -1 ∧ st' = st ∧ ∀ i, is_fd i → in_use (sock_at st i) = true) ∨
   (is_fd fd ∧ in_use (sock_at st fd) = false ∧ sock_at st' fd = (zero : udp_socket)⟦in_use := true⟧ ∧ Q fd = [])).
Proof.
  intros Hinv. unfold udp_socket_create. destruct (find_up _ _ _) as [fd|] eqn:Ef.
  - apply find_up_Some in Ef as (Hfd & Hu & _). apply negb_true_iff in Hu.
    destruct (ui_queue _ _ _ _ Hinv fd Hfd) as (Hq & Ht & Hc & _ & Hn). specialize (Hn Hu). rewrite Hn in Hq, Ht, Hc.
    destruct (Q fd) eqn:EQ; [|done]. cbn [qseg] in Hq. split.
    + apply upd_sock_inv; [done|by repeat split; rewrite ?Hq, ?Ht, ?Hc|].
      intros p (_ & _ & Hb & _). rewrite sock_at_upd, decide_True in Hb by done. done.
    + right. rewrite sock_at_upd, decide_True by done. done.
  - split; [done|]. left. split; [done|]. split; [done|]. intros i Hi. eapply find_up_None in Ef; [|exact Hi].
    by apply negb_false_iff in Ef.
Qed.

Lemma udp_connect_ok st L nodes Q fd ip rip rport : udp_inv st L nodes Q →
  ∃ r st', udp_connect fd ip rip rport st = Some (r, st') ∧ udp_inv st' L nodes Q.
Proof.
  intros Hinv. unfold udp_connect. destruct (bad_fd fd) eqn:Hfd; [by do 2 eexists|]. apply bad_fd_spec in Hfd.
  destruct (in_use (sock_at st fd)) eqn:Hu; cbn [negb]; [|by do 2 eexists].
  destruct (auto_bind_ok st L nodes Q fd ip Hinv Hfd Hu) as (p & st1 & -> & Hinv1 & _). cbn [mbind option_bind Z.eqb negb].
  do 2 eexists. split; [done|]. apply upd_sock_inv; [done|done|]. intros p' Hb j Hj.
  eapply (ui_ports _ _ _ _ Hinv1); [exact Hj|]. unfold is_bound in *. rewrite sock_at_upd, decide_True in Hb by done. exact Hb.
Qed.

(** ** Receiving *)

(** A change of one queue. *)
Lemma queue_update st st' L L' nodes Q fd ns ds :
  udp_inv st L nodes Q → is_fd fd →
  next_ephemeral_port st' = next_ephemeral_port st →
  (∀ i, i ≠ fd → sock_at st' i = sock_at st i) →
  (∀ p, is_bound st' p fd → is_bound st p fd) → is_port (local_port (sock_at st' fd)) →
  queue_ok (pkts st') (sock_at st' fd) ns ds → NoDup ns →
  (∀ i a, i ≠ fd → a ∈ nodes i → (a ∉ ns) ∧ pkts st' !! a = pkts st !! a) →
  (∀ a p, pkts st' !! a = Some p → is_Some (L' !! a) ∧ is_Some (L' !! pk_data p) ∧ pkts st' !! pk_data p = None) →
  (∀ a p a' p', pkts st' !! a = Some p → pkts st' !! a' = Some p' → pk_data p = pk_data p' → a = a') →
  udp_inv st' L' (fupd nodes fd ns) (fupd Q fd ds).
Proof.
  intros Hinv Hfd En Ho Hb Hport Hq Hnd Hm Hl Hd. split; [rewrite En; apply Hinv|..]; [| | | | | |done|done].
  - intros i j p Hi Hj. eapply (ui_ports _ _ _ _ Hinv).
    + destruct (decide (i = fd)) as [->|]; [by apply Hb|]. unfold is_bound in *. rewrite Ho in Hi by done. exact Hi.
    + destruct (decide (j = fd)) as [->|]; [by apply Hb|]. unfold is_bound in *. rewrite Ho in Hj by done. exact Hj.
  - intros i. destruct (decide (i = fd)) as [->|]; [done|]. rewrite Ho by done. apply Hinv.
  - intros i Hi. destruct (decide (fd = i)) as [<-|]; [by rewrite !fupd_eq|]. rewrite !fupd_ne, Ho by done.
    destruct (ui_queue _ _ _ _ Hinv i Hi) as (H1 & H2). split; [|exact H2].
    eapply qseg_ext; [|exact H1]. intros a Ha. by apply (Hm i).
  - intros i. destruct (decide (fd = i)) as [<-|]; [by rewrite fupd_eq|]. rewrite fupd_ne by done. apply Hinv.
  - intros i a. destruct (decide (fd = i)) as [<-|]; [done|]. rewrite fupd_ne by done. apply Hinv.
  - intros i j a. destruct (decide (fd = i)) as [<-|], (decide (fd = j)) as [<-|]; rewrite ?fupd_eq, ?fupd_ne by done; [done|..].
    + intros Ha Hj. by destruct (Hm j a).
    + intros Hi Ha. by destruct (Hm i a).
    + apply Hinv.
Qed.

(** The memory of the packets is owned: every packet and its payload are in use,
    no block serves twice. *)
Definition pkts_live (m : gmap Z udp_packet) (L : gmap Z Z) : Prop :=
  (∀ a p, m !! a = Some p → is_Some (L !! a) ∧ is_Some (L !! pk_data p) ∧ m !! pk_data p = None) ∧
  (∀ a p a' p', m !! a = Some p → m !! a' = Some p' → pk_data p = pk_data p' → a = a').

Lemma udp_inv_live st L nodes Q : udp_inv st L nodes Q → pkts_live (pkts st) L.
Proof. intros Hinv. split; apply Hinv. Qed.

Lemma pkts_live_grow m m' L a b na nb :
  pkts_live m L → L !! a = None → L !! b = None → a ≠ b →
  (∀ x p, m' !! x = Some p → (x = a ∧ pk_data p = b) ∨ (∃ p0, m !! x = Some p0 ∧ pk_data p = pk_data p0)) →
  (∀ x, x ≠ a → m !! x = None → m' !! x = None) →
  pkts_live m' (<[b := nb]> (<[a := na]> L)).
Proof.
  intros [Hl Hd] Ha Hb Hab Hm Hn.
  assert (∀ x p, m !! x = Some p → pk_data p ≠ a ∧ pk_data p ≠ b ∧ x ≠ a ∧ x ≠ b) as Hfr.
  { intros x p E. destruct (Hl x p E) as ([? E1] & [? E2] & _). split_and!; congruence. }
  assert (m !! a = None ∧ m !! b = None) as [Ma Mb].
  { split; apply eq_None_not_Some; intros [p E]; by destruct (Hfr _ _ E) as (_ & _ & ? & ?). }
  split.
  - intros x p E. destruct (Hm x p E) as [[-> <-]|(p0 & E0 & ->)].
    + rewrite lookup_insert_ne, !lookup_insert_eq by done. split; [done|]. split; [done|]. by apply Hn.
    + destruct (Hl x p0 E0) as (H1 & H2 & H3), (Hfr x p0 E0) as (? & ? & ? & ?).
      rewrite !lookup_insert_ne by done. split; [done|]. split; [done|]. by apply Hn.
  - intros x p x' p' E E' Ed. destruct (Hm x p E) as [[-> Eb]|(p0 & E0 & Eb)], (Hm x' p' E') as [[-> Eb']|(p0' & E0' & Eb')]; [done|..].
    + destruct (Hfr x' p0' E0') as (_ & ? & _). congruence.
    + destruct (Hfr x p0 E0) as (_ & ? & _). congruence.
    + apply (Hd x p0 x' p0' E0 E0'). congruence.
Qed.

(** Releasing a packet and its payload. *)
Lemma pkts_live_shrink m L L' L'' a p :
  pkts_live m L → m !! a = Some p → delete (pk_data p) L ⊆ L' → delete a L' ⊆ L'' → pkts_live (delete a m) L''.
Proof.
  intros [Hl Hd] Ha HL HL'.
  assert (∀ x, x ≠ a → x ≠ pk_data p → is_Some (L !! x) → is_Some (L'' !! x)) as Hkeep.
  { intros x H1 H2 [n E]. exists n. eapply lookup_weaken; [|exact HL']. rewrite lookup_delete_ne by done.
    eapply lookup_weaken; [|exact HL]. by rewrite lookup_delete_ne. }
  split.
  - intros x q [Hx E]%lookup_delete_Some. destruct (Hl x q E) as (H1 & H2 & H3), (Hl a p Ha) as (_ & _ & H6).
    split; [apply Hkeep; [done|congruence|done]|]. split; [|by apply lookup_delete_None; right].
    apply Hkeep; [congruence| |done]. intros Ed. apply Hx. by apply (Hd a p x q).
  - intros x q x' q' [_ E]%lookup_delete_Some [_ E']%lookup_delete_Some. by apply Hd.
Qed.

Lemma enqueue_ok st L nodes Q fd a b na nb d pkt :
  udp_inv st L nodes Q → is_fd fd → in_use (sock_at st fd) = true →
  Z.of_nat (length (Q fd)) < UDP_RECV_QUEUE_SIZE → L !! a = None → L !! b = None → a ≠ b →
  carries pkt d → pk_next pkt = None → pk_data pkt = b →
  ∃ st', enqueue fd a pkt st = Some st' ∧
    udp_inv st' (<[b := nb]> (<[a := na]> L)) (fupd nodes fd (nodes fd ++ [a])) (fupd Q fd (Q fd ++ [d])).
Proof.
  intros Hinv Hfd Hu Hlen Ha Hb Hab Hc Hn Hpd. pose proof (udp_inv_live _ _ _ _ Hinv) as Hlive.
  destruct (ui_queue _ _ _ _ Hinv fd Hfd) as (Hq & Ht & Hcnt & _ & _). pose proof (qseg_length _ _ _ _ Hq) as El.
  assert (pkts st !! a = None) as Hpa.
  { apply eq_None_not_Some. intros [p E]. destruct (proj1 Hlive a p E) as [[? E'] _]. congruence. }
  assert (∀ i, a ∉ nodes i) as Hna.
  { intros i Hi. destruct (ui_queue _ _ _ _ Hinv i (ui_range _ _ _ _ Hinv i a Hi)) as (Hqi & _).
    eapply qseg_nodes in Hqi as [? E]; [|exact Hi]. congruence. }
  assert (NoDup (nodes fd ++ [a])) as Hnd.
  { apply NoDup_app. split; [apply Hinv|]. split; [|apply NoDup_singleton]. intros x Hx ->%list_elem_of_singleton. by apply (Hna fd). }
  unfold enqueue. change (sock_at st⟦pkts ::= <[a:=pkt]>⟧ fd) with (sock_at st fd). rewrite Ht.
  destruct (last (nodes fd)) as [t|] eqn:Elast.
  - apply last_Some in Elast as [ns0 Ens]. assert (t ∈ nodes fd) as Htn by (rewrite Ens; set_solver).
    destruct (qseg_nodes _ _ _ _ t Hq Htn) as [lastp Elp]. assert (t ≠ a) as Hta by (intros ->; by apply (Hna fd)).
    change (pkts st⟦pkts ::= <[a:=pkt]>⟧) with (<[a:=pkt]> (pkts st)). rewrite lookup_insert_ne, Elp by done.
    cbn [mbind option_bind]. eexists. split; [done|]. set (st' := upd_sock fd _ _).
    assert (pkts st' = <[t := lastp⟦pk_next := Some a⟧]> (<[a := pkt]> (pkts st))) as Em by done.
    assert (pkts_live (pkts st') (<[b := nb]> (<[a := na]> L))) as [Hl' Hd'].
    { rewrite Em. eapply pkts_live_grow; [exact Hlive|done..| |].
      - intros x p. destruct (decide (x = t)) as [->|]; [rewrite lookup_insert_eq; intros [= <-]; right; by eexists|].
        rewrite lookup_insert_ne by done. destruct (decide (x = a)) as [->|]; [rewrite lookup_insert_eq; intros [= <-]; by left|].
        rewrite lookup_insert_ne by done. intros E. right. by eexists.
      - intros x Hx E. rewrite !lookup_insert_ne; [done|congruence|congruence]. }
    eapply (queue_update st st'); [exact Hinv|exact Hfd|done|..]; [| | | |exact Hnd| |exact Hl'|exact Hd'].
    + intros i Hi. subst st'. rewrite sock_at_upd, decide_False by done. done.
    + intros p. subst st'. unfold is_bound. rewrite sock_at_upd, decide_True by done. done.
    + subst st'. rewrite sock_at_upd, decide_True by done. apply Hinv.
    + subst st'. unfold queue_ok. rewrite sock_at_upd, decide_True by done. cbn. rewrite last_snoc, length_app. cbn [length].
      split; [|split; [done|]; change (sock_at _ fd) with (sock_at st fd); split; [lia|]; split; [lia|congruence]].
      rewrite Ens in Hq |- *. rewrite Ens in Hnd. apply (qseg_append _ _ _ _ _ _ _ _ _ Hq); try done.
      * rewrite <-Ens. apply Hinv.
      * rewrite <-Ens. apply Hna.
    + intros i x Hi Hx. assert (x ∉ nodes fd) as Hxf by (intros Hx'; by apply Hi, (ui_disjoint _ _ _ _ Hinv _ _ x)).
      assert (x ≠ a) by (intros ->; by apply (Hna i)). split; [set_solver|]. rewrite Em, !lookup_insert_ne; [done|congruence|congruence].
  - apply last_None in Elast. rewrite Elast in Hq, El, Hnd |- *. destruct (Q fd) eqn:EQ; [|done].
    cbn [mbind option_bind]. eexists. split; [done|]. set (st' := upd_sock fd _ _).
    assert (pkts st' = <[a := pkt]> (pkts st)) as Em by done.
    assert (pkts_live (pkts st') (<[b := nb]> (<[a := na]> L))) as [Hl' Hd'].
    { rewrite Em. eapply pkts_live_grow; [exact Hlive|done..| |].
      - intros x p. destruct (decide (x = a)) as [->|]; [rewrite lookup_insert_eq; intros [= <-]; by left|].
        rewrite lookup_insert_ne by done. intros E. right. by eexists.
      - intros x Hx E. by rewrite lookup_insert_ne by congruence. }
    eapply (queue_update st st'); [exact Hinv|exact Hfd|done|..]; [| | | |exact Hnd| |exact Hl'|exact Hd'].
    + intros i Hi. subst st'. rewrite !sock_at_upd, !decide_False by done. done.
    + intros p. subst st'. unfold is_bound. rewrite !sock_at_upd, !decide_True by done. done.
    + subst st'. rewrite !sock_at_upd, !decide_True by done. apply Hinv.
    + subst st'. unfold queue_ok. rewrite !sock_at_upd, !decide_True by done. cbn.
      split; [split; [done|]; exists pkt; by rewrite lookup_insert_eq, Hn|].
      split; [done|]. change (sock_at _ fd) with (sock_at st fd). rewrite Elast in Hcnt. cbn in Hcnt. rewrite Hcnt.
      split; [done|]. split; [by vm_compute|congruence].
    + intros i x Hi Hx. assert (x ≠ a) by (intros ->; by apply (Hna i)). split; [set_solver|]. by rewrite Em, lookup_insert_ne by congruence.
Qed.

Section queues.
Context {H : Type} `{KernelHeapLaws H}.

Lemma kfree2 h L p a : kh_rep h L →
  ∃ L' L'', kh_rep (kfree a (kfree p h)) L'' ∧ delete p L ⊆ L' ∧ delete a L' ⊆ L'' ∧ L'' ⊆ L.
Proof.
  intros Hr. destruct (kfree_law h L p Hr) as (L' & Hr' & HL1 & HL2).
  destruct (kfree_law _ L' a Hr') as (L'' & Hr'' & HL3 & HL4). exists L', L''.
  split; [done|]. split; [done|]. split; [done|]. by etrans.
Qed.

(** Taking the first packet off a queue, as [udp_recvfrom] and [udp_close] do:
    the remaining packets are those after it. *)
Lemma take_packet st st' L L' L'' nodes Q fd a ns p d ds :
  udp_inv st L nodes Q → is_fd fd → nodes fd = a :: ns → Q fd = d :: ds → pkts st !! a = Some p →
  next_ephemeral_port st' = next_ephemeral_port st → pkts st' = delete a (pkts st) →
  (∀ i, i ≠ fd → sock_at st' i = sock_at st i) → (∀ q, is_bound st' q fd → is_bound st q fd) →
  local_port (sock_at st' fd) = local_port (sock_at st fd) → recv_queue_tail (sock_at st' fd) = last ns → recv_queue_count (sock_at st' fd) = Z.of_nat (length ns) →
  recv_queue_head (sock_at st' fd) = pk_next p → in_use (sock_at st' fd) = in_use (sock_at st fd) →
  delete (pk_data p) L ⊆ L' → delete a L' ⊆ L'' →
  udp_inv st' L'' (fupd nodes fd ns) (fupd Q fd ds).
Proof.
  intros Hinv Hfd En EQ Ep Enext Em Ho Hb Hport Ht Hc Hh Hu HL HL'.
  destruct (ui_queue _ _ _ _ Hinv fd Hfd) as (Hq & _ & Hcnt & Hle & Hidle).
  pose proof (ui_nodup _ _ _ _ Hinv fd) as Hnd. rewrite En in Hq, Hnd, Hcnt, Hidle. rewrite EQ in Hq.
  destruct Hq as (_ & p' & Ep' & _ & Hq). assert (p' = p) as -> by congruence. apply NoDup_cons in Hnd as [Hna Hnd].
  destruct (pkts_live_shrink _ _ _ _ _ _ (udp_inv_live _ _ _ _ Hinv) Ep HL HL') as [Hl Hd]. rewrite <-Em in Hl, Hd.
  eapply (queue_update st st'); [exact Hinv|exact Hfd|done|done|done|rewrite Hport; apply Hinv| |exact Hnd| |exact Hl|exact Hd].
  - split; [rewrite Hh, Em; eapply qseg_ext; [|exact Hq]; intros x Hx; rewrite lookup_delete_ne; [done|by intros <-]|].
    split; [done|]. split; [done|]. cbn [length] in Hcnt. split; [lia|]. rewrite Hu. intros Hi. by specialize (Hidle Hi).
  - intros i x Hi Hx. assert (x ∉ nodes fd) as Hxf by (intros Hx'; by apply Hi, (ui_disjoint _ _ _ _ Hinv _ _ x)).
    rewrite En in Hxf. split; [set_solver|]. rewrite Em, lookup_delete_ne; [done|set_solver].
Qed.

Lemma udp_recvfrom_ok st (e : kenv H) L nodes Q fd max_length :
  udp_inv st L nodes Q → kh_rep (kheap e) L → is_fd fd →
  in_use (sock_at st fd) = true → bound (sock_at st fd) = true → 0 < max_length →
  match Q fd with
  | [] => udp_recvfrom fd true max_length st e = Some (0, None, st, e)
  | (ip, port, d) :: q => ∃ st' h' L' nodes',
      udp_recvfrom fd true max_length st e =
        Some (Z.min (Z.of_nat (length d)) max_length, Some (take (Z.to_nat max_length) d, ip, port), st', mk_kenv (knet e) h') ∧
      udp_inv st' L' nodes' (fupd Q fd q) ∧ kh_rep h' L'
  end.
Proof.
  intros Hinv Hr Hfd Hu Hb Hm. unfold udp_recvfrom. rewrite (proj2 (bad_fd_spec fd) Hfd), Hu, Hb.
  case_Z (max_length =? 0); [lia|]. cbn [negb orb].
  destruct (ui_queue _ _ _ _ Hinv fd Hfd) as (Hq & Ht & Hc & _ & _). destruct (nodes fd) as [|a ns] eqn:En, (Q fd) as [|[[ip port] d] ds] eqn:EQ; try done.
  - cbn [qseg] in Hq. by rewrite Hq.
  - destruct Hq as (Hh & p & Ep & [Ecar Elen] & Hq). rewrite Hh, Ep. cbn [mbind option_bind]. injection Ecar as <- <- <-.
    assert (slice (pk_bytes p) 0 (if pk_length p <? max_length then pk_length p else max_length) = Some (take (Z.to_nat max_length) (pk_bytes p))) as ->.
    { unfold slice. rewrite Elen, drop_0. case_Z (Z.of_nat (length (pk_bytes p)) <? max_length).
      - case_Z (Z.of_nat (length (pk_bytes p)) <? 0 + Z.of_nat (length (pk_bytes p))); [lia|]. f_equal. rewrite !take_ge by lia. done.
      - case_Z (Z.of_nat (length (pk_bytes p)) <? 0 + max_length); [lia|]. done. }
    cbn [mbind option_bind]. destruct (kfree2 (kheap e) L (pk_data p) a Hr) as (L' & L'' & Hr' & HL & HL' & _).
    eexists _, _, L'', (fupd nodes fd ns). split; [|split; [|exact Hr']].
    + f_equal. f_equal. f_equal. f_equal. rewrite Elen. case_Z (Z.of_nat (length (pk_bytes p)) <? max_length); lia.
    + eapply (take_packet st); [exact Hinv|exact Hfd|exact En|exact EQ|exact Ep|done|done|..|exact HL|exact HL'].
      * intros i Hi. by rewrite sock_at_pkts, sock_at_upd, decide_False by done.
      * intros q. unfold is_bound. rewrite sock_at_pkts, sock_at_upd, decide_True by done. done.
      * rewrite sock_at_pkts, sock_at_upd, decide_True by done. done.
      * rewrite sock_at_pkts, sock_at_upd, decide_True by done. cbn. rewrite Ht. destruct ns as [|b ns], ds; try done; cbn in Hq.
        -- by rewrite Hq.
        -- destruct Hq as (-> & _). done.
      * rewrite sock_at_pkts, sock_at_upd, decide_True by done. cbn in Hc |- *. lia.
      * rewrite sock_at_pkts, sock_at_upd, decide_True by done. done.
      * rewrite sock_at_pkts, sock_at_upd, decide_True by done. done.
Qed.

(** ** Closing *)

Lemma udp_inv_ext st L nodes Q Q' : (∀ fd, Q' fd = Q fd) → udp_inv st L nodes Q → udp_inv st L nodes Q'.
Proof. intros E [F1 F2 F3 F4 F5 F6 F7 F8 F9]. split; try done. intros fd Hfd. rewrite E. by apply F4. Qed.

(** While the loop of [udp_close] runs, the tail and the count of the socket are
    those of the whole queue; with them set right the state is consistent. *)
Definition settled (fd : Z) (ns : list Z) (st : udp_state) : udp_state :=
  upd_sock fd (fun s => s⟦recv_queue_tail := last ns⟧⟦recv_queue_count := Z.of_nat (length ns)⟧) st.

Lemma sock_at_settled fd ns st i :
  sock_at (settled fd ns st) i =
  if decide (fd = i) then (sock_at st fd)⟦recv_queue_tail := last ns⟧⟦recv_queue_count := Z.of_nat (length ns)⟧ else sock_at st i.
Proof. apply sock_at_upd. Qed.

Lemma free_queue_ok n fd ns : ∀ st h L nodes Q,
  udp_inv (settled fd ns st) L nodes Q → is_fd fd → nodes fd = ns → (length ns ≤ n)%nat → kh_rep h L →
  ∃ st' h' L' nodes', free_queue n fd st h = Some (st', h') ∧ kh_rep h' L' ∧
    udp_inv (settled fd [] st') L' nodes' (fupd Q fd []) ∧ nodes' fd = [] ∧
    next_ephemeral_port st' = next_ephemeral_port st ∧ ∀ i, i ≠ fd → sock_at st' i = sock_at st i.
Proof.
  revert n. induction ns as [|a ns IH]; intros n st h L nodes Q Hinv Hfd En Hlen Hr;
    pose proof (ui_queue _ _ _ _ Hinv fd Hfd) as Hqok; rewrite En in Hqok; destruct Hqok as (Hq & _);
    rewrite sock_at_settled, decide_True in Hq by done; change (recv_queue_head _) with (recv_queue_head (sock_at st fd)) in Hq;
    destruct (Q fd) as [|d ds] eqn:EQ; try done; cbn [qseg] in Hq.
  - exists st, h, L, nodes. destruct n; cbn [free_queue]; rewrite Hq; (split; [done|]; split; [done|];
      split; [eapply udp_inv_ext; [|exact Hinv]; intros i; unfold fupd; case_decide; congruence|done]).
  - destruct Hq as (Hh & p & Ep & _ & Hq). destruct n as [|n]; [cbn in Hlen; lia|]. cbn [free_queue]. rewrite Hh.
    change (pkts (settled fd (a :: ns) st)) with (pkts st) in Ep. rewrite Ep. cbn [mbind option_bind].
    destruct (kfree2 h L (pk_data p) a Hr) as (L' & L'' & Hr' & HL & HL' & _).
    set (st1 := (upd_sock fd (fun s => s⟦recv_queue_head := pk_next p⟧) st)⟦pkts ::= delete a⟧).
    assert (∀ i, i ≠ fd → sock_at st1 i = sock_at st i) as Ho1.
    { intros i Hi. subst st1. by rewrite sock_at_pkts, sock_at_upd, decide_False by done. }
    assert (sock_at st1 fd = (sock_at st fd)⟦recv_queue_head := pk_next p⟧) as E1.
    { subst st1. by rewrite sock_at_pkts, sock_at_upd, decide_True by done. }
    destruct (IH n st1 (kfree a (kfree (pk_data p) h)) L'' (fupd nodes fd ns) (fupd Q fd ds))
      as (st' & h' & L3 & nodes' & E & Hr3 & Hinv3 & En3 & Enext & Ho3); [|done|apply fupd_eq|cbn in Hlen; lia|done|].
    + eapply (take_packet (settled fd (a :: ns) st)); [exact Hinv|exact Hfd|exact En|exact EQ|exact Ep|done|done|..|exact HL|exact HL'].
      * intros i Hi. rewrite !sock_at_settled, !decide_False by done. by apply Ho1.
      * intros q. unfold is_bound. rewrite !sock_at_settled, !decide_True, E1 by done. done.
      * by rewrite !sock_at_settled, !decide_True, E1 by done.
      * by rewrite sock_at_settled, decide_True by done.
      * by rewrite sock_at_settled, decide_True by done.
      * by rewrite sock_at_settled, decide_True, E1 by done.
      * by rewrite !sock_at_settled, !decide_True, E1 by done.
    + exists st', h', L3, nodes'. split; [exact E|]. split; [done|]. split; [|split; [done|split; [done|]]].
      * eapply udp_inv_ext; [|exact Hinv3]. intros i. unfold fupd. by case_decide.
      * intros i Hi. by rewrite Ho3, Ho1.
Qed.

Lemma queue_size st L nodes Q fd : udp_inv st L nodes Q → is_fd fd → (length (nodes fd) ≤ size (pkts st))%nat.
Proof.
  intros Hinv Hfd. rewrite <-(size_list_to_set (C := gset Z)) by apply Hinv. rewrite <-(size_dom (D := gset Z)).
  apply subseteq_size. intros a Ha%elem_of_list_to_set. apply elem_of_dom.
  destruct (ui_queue _ _ _ _ Hinv fd Hfd) as (Hq & _). by eapply qseg_nodes.
Qed.

(** [udp_close] returns, empties the queue and frees the socket. *)
Lemma udp_close_ok st (e : kenv H) L nodes Q fd :
  udp_inv st L nodes Q → kh_rep (kheap e) L → is_fd fd → in_use (sock_at st fd) = true →
  ∃ st' h' L' nodes', udp_close fd st e = Some (0, st', mk_kenv (knet e) h') ∧
    udp_inv st' L' nodes' (fupd Q fd []) ∧ kh_rep h' L' ∧ sock_at st' fd = zero ∧ ∀ i, i ≠ fd → sock_at st' i = sock_at st i.
Proof.
  intros Hinv Hr Hfd Hu. unfold udp_close. rewrite (proj2 (bad_fd_spec fd) Hfd), Hu. cbn [negb].
  destruct (free_queue_ok (size (pkts st)) fd (nodes fd) st (kheap e) L nodes Q) as (st1 & h' & L' & nodes' & -> & Hr' & Hinv' & En & _ & Ho).
  - destruct (ui_queue _ _ _ _ Hinv fd Hfd) as (H1' & H2 & H3 & _).
    eapply udp_inv_sockets; [exact Hinv|done|apply Hinv|..].
    + intros i. rewrite sock_at_settled. case_decide as D; [subst i|done]. split; [done|]. split; [cbn; by rewrite H2|]. split; [cbn; by rewrite H3|done].
    + intros i j p. unfold is_bound. rewrite !sock_at_settled. intros Hi Hj. apply (ui_ports _ _ _ _ Hinv i j p).
      * unfold is_bound. destruct (decide (fd = i)) as [<-|]; exact Hi.
      * unfold is_bound. destruct (decide (fd = j)) as [<-|]; exact Hj.
  - done.
  - done.
  - by eapply queue_size.
  - done.
  - cbn [mbind option_bind]. eexists _, h', L', nodes'. split; [done|].
    split; [|split; [done|split; [by rewrite sock_at_upd, decide_True by done|intros i Hi; rewrite sock_at_upd, decide_False by done; by apply Ho]]].
    apply (udp_inv_ext _ _ _ (fupd (fupd Q fd []) fd [])); [intros i; unfold fupd; by case_decide|].
    assert (udp_inv (upd_sock fd (fun _ => zero) st1) L' (fupd nodes' fd []) (fupd (fupd Q fd []) fd [])) as Hfin.
    { eapply (queue_update (settled fd [] st1)); [exact Hinv'|exact Hfd|done|..].
      - intros i Hi. rewrite sock_at_upd, sock_at_settled, !decide_False by done. done.
      - intros p (_ & Hz & _). rewrite sock_at_upd, decide_True in Hz by done. done.
      - by rewrite sock_at_upd, decide_True by done.
      - rewrite sock_at_upd, decide_True by done. done.
      - apply NoDup_nil_2.
      - intros i a _ _. split; [apply not_elem_of_nil|done].
      - apply Hinv'.
      - apply Hinv'. }
    destruct Hfin as [F1 F2 F3 F4 F5 F6 F7 F8 F9]. split; try done.
    + intros i Hi. specialize (F4 i Hi). unfold fupd in F4 at 1. destruct (decide (fd = i)) as [<-|]; [by rewrite En|done].
    + apply Hinv'.
    + apply Hinv'.
    + apply Hinv'.
Qed.
End queues.

(** ** Delivery *)

Lemma find_socket_test st p i :
  in_use (sock_at st i) && bound (sock_at st i) && (local_port (sock_at st i) =? p) = true ↔
  in_use (sock_at st i) = true ∧ bound (sock_at st i) = true ∧ local_port (sock_at st i) = p.
Proof. rewrite !andb_true_iff, Z.eqb_eq. tauto. Qed.

Lemma udp_find_socket_Some st p fd : udp_find_socket p st = Some fd → is_bound st p fd.
Proof. intros (Hi & Ht & _)%find_up_Some. apply find_socket_test in Ht. done. Qed.

Lemma udp_find_socket_None st p fd : udp_find_socket p st = None → ¬ is_bound st p fd.
Proof. intros Hn (Hi & Ht). eapply find_up_None in Hn; [|exact Hi]. apply not_true_iff_false in Hn. by apply Hn, find_socket_test. Qed.

(** Why a datagram for a port is not queued, and the result then. *)
Inductive not_queued {H} `{KernelHeap H} (st : udp_state) (Q : Z → list datagram) (h : H) (src sport dport n : Z) : Z → Prop :=
| no_socket : (∀ fd, ¬ is_bound st dport fd) → not_queued st Q h src sport dport n (-1)
| other_peer fd : is_bound st dport fd → connected (sock_at st fd) = true →
    (remote_ip (sock_at st fd), remote_port (sock_at st fd)) ≠ (src, sport) → not_queued st Q h src sport dport n 0
| queue_full fd : is_bound st dport fd → Z.of_nat (length (Q fd)) = UDP_RECV_QUEUE_SIZE → not_queued st Q h src sport dport n (-1)
| no_packet h1 : kmalloc UDP_PACKET_STRUCT h = Some (0, h1) → not_queued st Q h src sport dport n (-1)
| no_payload a h1 h2 : kmalloc UDP_PACKET_STRUCT h = Some (a, h1) → kmalloc n h1 = Some (0, h2) →
    not_queued st Q h src sport dport n (-1).

Section delivery.
Context {H : Type} `{KernelHeapLaws H}.

Lemma kmalloc_any h L n : kh_rep h L → n = 0 ∨ served_size n →
  ∃ a h', kmalloc n h = Some (a, h') ∧
    ((a = 0 ∧ kh_rep h' L) ∨ (a ≠ 0 ∧ L !! a = None ∧ ∃ m, kh_rep h' (<[a := m]> L))).
Proof.
  intros Hr [->|Hs]; [|by apply kmalloc_fresh]. exists 0, h. split; [apply kmalloc_0|]. by left.
Qed.

Lemma udp_deliver_ok st (e : kenv H) L nodes Q src sport dport packet hdr d rest :
  udp_inv st L nodes Q → kh_rep (kheap e) L →
  packet = hdr ++ d ++ rest → length hdr = 8%nat → let n := Z.of_nat (length d) in n + 8 < 65536 → n = 0 ∨ served_size n →
  ∃ r st' h' L' nodes' Q', udp_deliver src sport dport (n + 8) packet st e = Some (r, st', mk_kenv (knet e) h') ∧
    udp_inv st' L' nodes' Q' ∧ kh_rep h' L' ∧
    ((Q' = Q ∧ not_queued st Q (kheap e) src sport dport n r) ∨
     (∃ fd, r = 0 ∧ is_bound st dport fd ∧ Q' = fupd Q fd (Q fd ++ [(src, sport, d)]))).
Proof.
  intros Hinv Hr -> Hh n Hn Hsz. unfold udp_deliver. destruct (udp_find_socket dport st) as [fd|] eqn:Ef.
  2: { eexists _, _, (kheap e), L, nodes, Q. split; [by destruct e|]. split; [|split; [done|]].
       - eapply udp_inv_sockets; [exact Hinv|done|apply Hinv|done|apply Hinv].
       - left. split; [done|]. apply no_socket. intros fd. by apply udp_find_socket_None. }
  apply udp_find_socket_Some in Ef. pose proof Ef as (Hfd & Hu & Hb & Hp).
  destruct (connected (sock_at st fd) && _) eqn:Econ.
  { exists 0, st, (kheap e), L, nodes, Q. split; [by destruct e|]. split; [done|]. split; [done|]. left. split; [done|].
    apply andb_true_iff in Econ as [Ec Eo]. apply (other_peer _ _ _ _ _ _ _ fd); [done|done|].
    intros [= E1 E2]. apply orb_true_iff in Eo as [Eo|Eo]; apply negb_true_iff, Z.eqb_neq in Eo; congruence. }
  destruct (ui_queue _ _ _ _ Hinv fd Hfd) as (Hq & _ & Hcnt & Hle & _). pose proof (qseg_length _ _ _ _ Hq) as El.
  case_Z (UDP_RECV_QUEUE_SIZE <=? recv_queue_count (sock_at st fd)).
  { exists (-1), st, (kheap e), L, nodes, Q. split; [by destruct e|]. split; [done|]. split; [done|]. left. split; [done|].
    apply (queue_full _ _ _ _ _ _ _ fd); [done|lia]. }
  unfold UDP_HEADER_SIZE. replace (n + 8 - 8) with n by lia. rewrite u16_small by lia.
  destruct (kmalloc_fresh (kheap e) L UDP_PACKET_STRUCT Hr) as (a & h1 & E1 & Ha); [left; by vm_compute|].
  rewrite E1. cbn [mbind option_bind]. destruct Ha as [[-> Hr1]|(Ha0 & Hla & na & Hr1)].
  { exists (-1), st, h1, L, nodes, Q. split; [done|]. split; [done|]. split; [done|]. left. split; [done|]. by eapply no_packet. }
  rewrite (proj2 (Z.eqb_neq a 0) Ha0).
  destruct (kmalloc_any h1 _ n Hr1 Hsz) as (b & h2 & E2 & Hb2). rewrite E2. cbn [mbind option_bind].
  destruct Hb2 as [[-> Hr2]|(Hb0 & Hlb & nb & Hr2)].
  { destruct (kfree_law h2 _ a Hr2) as (L' & Hr' & HL1 & HL2). exists (-1), st, (kfree a h2), L', nodes, Q. split; [done|].
    split; [|split; [done|left; split; [done|by eapply no_payload]]].
    destruct Hinv as [F1 F2 F3 F4 F5 F6 F7 F8 F9]. split; try done. intros x p Ex. destruct (F8 x p Ex) as ([? G1] & [? G2] & G3).
    assert (∀ y m, L !! y = Some m → L' !! y = Some m) as Hsub.
    { intros y m Ey. eapply lookup_weaken; [|exact HL1]. assert (y ≠ a) by congruence. by rewrite lookup_delete_ne, lookup_insert_ne. }
    split; [eexists; by apply Hsub|]. split; [eexists; by apply Hsub|done]. }
  rewrite (proj2 (Z.eqb_neq b 0) Hb0). apply lookup_insert_None in Hlb as [Hlb Hab].
  replace 8 with (Z.of_nat (length hdr)) by lia. rewrite slice_app. cbn [mbind option_bind].
  destruct (enqueue_ok st L nodes Q fd a b na nb (src, sport, d) (mk_udp_packet src sport n b d None))
    as (st' & -> & Hinv'); try done; [lia|].
  cbn [mbind option_bind]. eexists 0, st', h2, _, _, _. split; [done|]. split; [exact Hinv'|]. split; [done|]. right. by exists fd.
Qed.
End delivery.

(** ** The receive handler *)

(** A datagram on the wire (RFC 768): ports, length and checksum with the most
    significant byte first. *)
Definition udp_wire (sport dport c : Z) (d : list Z) : list Z :=
  be16 sport ++ be16 dport ++ be16 (Z.of_nat (length d) + 8) ++ put16 c ++ d.

Lemma udp_header_wire sport dport c d : is_port sport → is_port dport → Z.of_nat (length d) + 8 < 65536 →
  udp_header sport dport (Z.of_nat (length d) + 8) c ++ d = udp_wire sport dport c d.
Proof.
  intros Hs Hd Hn. unfold udp_header, udp_wire, be16. rewrite !put16_htons by (done || lia). by rewrite <-!app_assoc.
Qed.

Section handler.
Context {H : Type} `{KernelHeap H}.

Lemma udp_receive_fields src dst sport dport c d len st (e : kenv H) :
  is_port sport → is_port dport → 0 ≤ c < 65536 → let n := Z.of_nat (length d) in n + 8 < 65536 → n + 8 ≤ len →
  let p := udp_wire sport dport c d in
  udp_receive src dst (Some p) len st e =
    calc ← (if negb (c =? 0) then udp_checksum src dst p (n + 8) else Some 0);
    if negb (calc =? 0) then Some (-1, ucount (fun s => s⟦checksum_errors ::= inc⟧) st, e)
    else udp_deliver src sport dport (n + 8) p (ucount (fun s => s⟦datagrams_received ::= inc⟧) st) e.
Proof.
  cbv zeta. intros Hs Hd Hc Hn Hl. unfold udp_receive, UDP_HEADER_SIZE. case_Z (len <? 8); [lia|].
  rewrite <-udp_header_wire by done. set (n := Z.of_nat (length d)). set (p := udp_header sport dport (n + 8) c ++ d).
  change (le16 p 0) with (Some (u8 (htons sport) |: (u8 (htons sport >>: 8) <<: 8))).
  change (le16 p 2) with (Some (u8 (htons dport) |: (u8 (htons dport >>: 8) <<: 8))).
  change (le16 p 4) with (Some (u8 (htons (n + 8)) |: (u8 (htons (n + 8) >>: 8) <<: 8))).
  change (le16 p 6) with (Some (u8 c |: (u8 (c >>: 8) <<: 8))). rewrite !join16. cbn [mbind option_bind].
  rewrite !(u16_small (htons _)) by apply htons_range. rewrite u16_small by done. unfold ntohs.
  rewrite !htons_involutive by (done || lia).
  case_Z (n + 8 <? 8); [lia|]. case_Z (len <? n + 8); [lia|]. done.
Qed.

(** A datagram that carries a checksum is never accepted. *)
Theorem udp_rejects_checksummed src dst sport dport c d len st (e : kenv H) :
  is_port sport → is_port dport → 0 < c < 65536 → bytes d → let n := Z.of_nat (length d) in n + 8 < 65536 → n + 8 ≤ len →
  udp_receive src dst (Some (udp_wire sport dport c d)) len st e =
    Some (-1, ucount (fun s => s⟦checksum_errors ::= inc⟧) st, e).
Proof.
  cbv zeta. intros Hs Hd Hc Hb Hn Hl. rewrite udp_receive_fields by (done || lia). case_Z (c =? 0); [lia|]. cbn [negb].
  assert (packet (udp_wire sport dport c d) ∧ Z.of_nat (length (udp_wire sport dport c d)) = Z.of_nat (length d) + 8) as [Hp El].
  { unfold packet. rewrite <-udp_header_wire by done. rewrite length_app. cbn [length]. split; [|cbn; lia]. split; [|cbn; lia].
    unfold udp_header. rewrite !bytes_app. auto with kernel. }
  destruct (udp_checksum_ok src dst _ Hp) as (c' & Ec & Hc'). rewrite El in Ec. rewrite Ec. cbn [mbind option_bind].
  case_Z (c' =? 0); [lia|]. done.
Qed.
End handler.

Section specification.
Context {H : Type} `{KernelHeapLaws H}.

Lemma count_inv st L nodes Q f : udp_inv st L nodes Q → udp_inv (ucount f st) L nodes Q.
Proof. intros Hinv. eapply udp_inv_sockets; [exact Hinv|done|apply Hinv|done|apply Hinv]. Qed.

Lemma udp_receive_ok st (e : kenv H) L nodes Q src dst sport dport d len :
  udp_inv st L nodes Q → kh_rep (kheap e) L → is_port sport → is_port dport →
  let n := Z.of_nat (length d) in n + 8 < 65536 → n + 8 ≤ len → n = 0 ∨ served_size n →
  ∃ r st' h' L' nodes' Q',
    udp_receive src dst (Some (udp_wire sport dport 0 d)) len st e = Some (r, st', mk_kenv (knet e) h') ∧
    udp_inv st' L' nodes' Q' ∧ kh_rep h' L' ∧
    ((Q' = Q ∧ not_queued st Q (kheap e) src sport dport n r) ∨
     (∃ fd, r = 0 ∧ is_bound st dport fd ∧ Q' = fupd Q fd (Q fd ++ [(src, sport, d)]))).
Proof.
  cbv zeta. intros Hinv Hr Hs Hd Hn Hl Hsz. rewrite udp_receive_fields by (done || lia). cbn [Z.eqb negb mbind option_bind].
  destruct (udp_deliver_ok (ucount (fun s => s⟦datagrams_received ::= inc⟧) st) e L nodes Q src sport dport
    (udp_wire sport dport 0 d) (udp_header sport dport (Z.of_nat (length d) + 8) 0) d []) as (r & st' & h' & L' & nodes' & Q' & E & Hi & Hr' & Hq);
    [by apply count_inv|done|by rewrite app_nil_r, udp_header_wire|done|done|done|].
  exists r, st', h', L', nodes', Q'. split; [exact E|]. split; [done|]. split; [done|].
  destruct Hq as [[-> Hno]|(fd & -> & Hb & ->)]; [left|right; by exists fd].
  split; [done|]. destruct Hno; [by apply no_socket|by eapply other_peer|by eapply queue_full|by eapply no_packet|by eapply no_payload].
Qed.


(** ** Sending *)

(** The datagram [udp_sendto] hands to the IP layer, from the port the socket is
    bound to, bound before if it was not. *)
Lemma udp_sendto_ok st (e : kenv H) L nodes Q fd data dest_ip dport p h :
  udp_inv st L nodes Q → is_fd fd → in_use (sock_at st fd) = true → tcpip_initialized (knet e) = true →
  bytes data → is_port dport → let n := Z.of_nat (length data) in 0 < n ≤ UDP_MAX_PAYLOAD →
  kmalloc (n + 8) (kheap e) = Some (p, h) → p ≠ 0 →
  ∃ port c iphdr st', udp_sendto fd (Some data) n dest_ip dport st e =
      Some (n, st', mk_kenv (knet e)⟦ip_out ::= cons (dest_ip, IP_PROTO_UDP, iphdr, udp_wire port dport c data)⟧ (kfree p h)) ∧
    udp_inv st' L nodes Q ∧ is_bound st' port fd ∧ is_port port ∧ 0 < c < 65536.
Proof.
  cbv zeta. intros Hinv Hfd Hu Hi Hd Hdp Hn Hk Hp. unfold udp_sendto, UDP_HEADER_SIZE. rewrite (proj2 (bad_fd_spec fd) Hfd).
  case_Z (Z.of_nat (length data) =? 0); [lia|]. case_Z (UDP_MAX_PAYLOAD <? Z.of_nat (length data)); [lia|]. cbn [orb].
  rewrite Hu. cbn [negb]. unfold UDP_MAX_PAYLOAD in *.
  destruct (auto_bind_ok st L nodes Q fd (tcpip_get_local_ip (knet e)) Hinv Hfd Hu) as (port & st1 & -> & Hinv1 & Hb & _).
  cbn [mbind option_bind Z.eqb negb]. rewrite u16_small by lia. replace (8 + Z.of_nat (length data)) with (Z.of_nat (length data) + 8) by lia.
  rewrite Hk. cbn [mbind option_bind]. case_Z (p =? 0); [done|].
  assert (slice data 0 (Z.of_nat (length data)) = Some data) as -> by apply (slice_tail [] data). cbn [mbind option_bind]. pose proof Hb as (_ & _ & _ & Ep). rewrite Ep.
  assert (is_port port) as Hport by (rewrite <-Ep; apply Hinv1).
  rewrite !udp_header_wire by (done || lia).
  assert (∀ c, packet (udp_wire port dport c data) ∧ Z.of_nat (length (udp_wire port dport c data)) = Z.of_nat (length data) + 8) as Hpk.
  { intros c. unfold packet. rewrite <-udp_header_wire by (done || lia). rewrite length_app. cbn [length]. split; [|cbn; lia]. split; [|cbn; lia].
    unfold udp_header. rewrite !bytes_app. auto with kernel. }
  destruct (Hpk 0) as [Hp0 E0]. destruct (udp_checksum_ok (local_ip (sock_at st1 fd)) dest_ip _ Hp0) as (c & Ec & Hc). rewrite E0 in Ec.
  rewrite Ec. cbn [mbind option_bind]. unfold ip_send_packet. rewrite udp_header_wire by (done || lia).
  destruct (ip_send_ok dest_ip IP_PROTO_UDP (udp_wire port dport c data) (Z.of_nat (length data) + 8) (knet e) Hi
    ltac:(unfold is_byte, IP_PROTO_UDP; lia)) as (ic & -> & _). cbn [mbind option_bind Z.eqb].
  eexists port, c, _, _. split; [done|]. split; [|split; [|done]].
  - apply count_inv, upd_sock_inv; [done|done|]. intros q Hq j Hj. eapply (ui_ports _ _ _ _ Hinv1); [exact Hj|].
    unfold is_bound in *. rewrite sock_at_upd, decide_True in Hq by done. exact Hq.
  - unfold is_bound. change (sock_at (ucount _ ?x)) with (sock_at x). rewrite sock_at_upd, decide_True by done. exact Hb.
Qed.
End specification.

(** Every datagram the stack sends carries a checksum, so no instance of the
    stack accepts it. *)
Theorem udp_rejects_its_own {H} `{KernelHeapLaws H} st (e : kenv H) L nodes Q fd data dest_ip dport p h :
  udp_inv st L nodes Q → is_fd fd → in_use (sock_at st fd) = true → tcpip_initialized (knet e) = true →
  bytes data → is_port dport → let n := Z.of_nat (length data) in 0 < n ≤ UDP_MAX_PAYLOAD →
  kmalloc (n + 8) (kheap e) = Some (p, h) → p ≠ 0 →
  ∃ st' e' iphdr pkt, udp_sendto fd (Some data) n dest_ip dport st e = Some (n, st', e') ∧
    ip_out (knet e') = (dest_ip, IP_PROTO_UDP, iphdr, pkt) :: ip_out (knet e) ∧
    ∀ src dst len st2 (e2 : kenv H), n + 8 ≤ len →
      udp_receive src dst (Some pkt) len st2 e2 = Some (-1, ucount (fun s => s⟦checksum_errors ::= inc⟧) st2, e2).
Proof.
  cbv zeta. intros Hinv Hfd Hu Hi Hd Hdp Hn Hk Hp.
  destruct (udp_sendto_ok st e L nodes Q fd data dest_ip dport p h Hinv Hfd Hu Hi Hd Hdp Hn Hk Hp)
    as (port & c & iphdr & st' & E & _ & _ & Hport & Hc).
  eexists st', _, iphdr, _. split; [exact E|]. split; [done|]. intros src dst len st2 e2 Hlen.
  apply udp_rejects_checksummed; try done. unfold UDP_MAX_PAYLOAD in Hn. lia.
Qed.

(** ** Reachable states *)

Section reachable.
Context {H : Type} `{KernelHeapLaws H}.

Lemma udp_inv_mono st L L' nodes Q : L ⊆ L' → udp_inv st L nodes Q → udp_inv st L' nodes Q.
Proof.
  intros HL [F1 F2 F3 F4 F5 F6 F7 F8 F9]. split; try done. intros a p Ea. destruct (F8 a p Ea) as ([x Ex] & [y Ey] & G).
  split; [exists x; by eapply lookup_weaken|]. split; [exists y; by eapply lookup_weaken|done].
Qed.

(** A block taken and released again. *)
Lemma borrow h L n : kh_rep h L → served_size n →
  ∃ a h', kmalloc n h = Some (a, h') ∧ (a = 0 → kh_rep h' L) ∧ (a ≠ 0 → ∃ L', kh_rep (kfree a h') L' ∧ L ⊆ L').
Proof.
  intros Hr Hs. destruct (kmalloc_fresh h L n Hr Hs) as (a & h' & E & [[-> Hr']|(Ha & HL & m & Hr')]).
  - exists 0, h'. by split_and!.
  - exists a, h'. split; [done|]. split; [done|]. intros _. destruct (kfree_law h' _ a Hr') as (L' & Hr2 & H1' & _).
    exists L'. split; [done|]. rewrite delete_insert_id in H1' by done. done.
Qed.

Lemma udp_sendto_inv st (e : kenv H) L nodes Q fd data n dest_ip dport r st' e' :
  udp_inv st L nodes Q → kh_rep (kheap e) L → 0 ≤ n → served_size (n + 8) →
  udp_sendto fd data n dest_ip dport st e = Some (r, st', e') →
  ∃ L', udp_inv st' L' nodes Q ∧ kh_rep (kheap e') L'.
Proof.
  intros Hinv Hr Hn Hs. unfold udp_sendto, UDP_HEADER_SIZE. destruct (bad_fd fd) eqn:Hfd; [intros [= _ <- <-]; by exists L|].
  apply bad_fd_spec in Hfd. destruct data as [data|]; [|intros [= _ <- <-]; by exists L].
  destruct (n =? 0); [intros [= _ <- <-]; by exists L|]. cbn [orb].
  case_Z (UDP_MAX_PAYLOAD <? n); [intros [= _ <- <-]; by exists L|]. unfold UDP_MAX_PAYLOAD in *.
  destruct (in_use (sock_at st fd)) eqn:Hu; cbn [negb]; [|intros [= _ <- <-]; by exists L].
  destruct (auto_bind_ok st L nodes Q fd (tcpip_get_local_ip (knet e)) Hinv Hfd Hu) as (port & st1 & -> & Hinv1 & Hb & _).
  cbn [mbind option_bind Z.eqb negb]. rewrite u16_small by lia. replace (8 + n) with (n + 8) by lia.
  destruct (borrow (kheap e) L (n + 8) Hr Hs) as (a & h' & -> & H0' & H1'). cbn [mbind option_bind].
  case_Z (a =? 0); [intros [= _ <- <-]; exists L; auto|]. destruct H1' as (L' & Hr' & HL); [done|].
  next_bind. next_bind. next_bind. destruct p as [ret ns]. pose proof (udp_inv_mono _ _ _ _ _ HL Hinv1) as Hinv2.
  destruct (ret =? 0); intros [= _ <- <-]; exists L'; (split; [|done]); [|done].
  apply count_inv, upd_sock_inv; [done|done|]. intros q Hq j Hj. eapply (ui_ports _ _ _ _ Hinv1); [exact Hj|].
  unfold is_bound in *. rewrite sock_at_upd, decide_True in Hq by done. exact Hq.
Qed.

(** The payload length announced by a packet. *)
Definition announced (p : list Z) : Z := match le16 p 4 with Some ul => ntohs ul - 8 | None => 0 end.

Lemma udp_receive_inv st (e : kenv H) L nodes Q src dst p len r st' e' :
  udp_inv st L nodes Q → kh_rep (kheap e) L → len ≤ Z.of_nat (length p) → announced p = 0 ∨ served_size (announced p) →
  udp_receive src dst (Some p) len st e = Some (r, st', e') →
  ∃ L' nodes' Q', udp_inv st' L' nodes' Q' ∧ kh_rep (kheap e') L'.
Proof.
  intros Hinv Hr Hlen Hs. unfold udp_receive, announced, UDP_HEADER_SIZE in *.
  destruct (len <? 8); [intros [= _ <- <-]; exists L, nodes, Q; split; [by apply count_inv|done]|].
  next_bind. next_bind. next_bind. next_bind.
  case_Z (ntohs z1 <? 8); cbn [orb]; [intros [= _ <- <-]; exists L, nodes, Q; split; [by apply count_inv|done]|].
  case_Z (len <? ntohs z1); [intros [= _ <- <-]; exists L, nodes, Q; split; [by apply count_inv|done]|]. next_bind.
  destruct (negb (z3 =? 0)); [intros [= _ <- <-]; exists L, nodes, Q; split; [by apply count_inv|done]|].
  pose proof (htons_range z1) as Hrange. unfold ntohs in *.
  set (d := take (Z.to_nat (htons z1 - 8)) (drop 8 p)).
  assert (length d = Z.to_nat (htons z1 - 8)) as Ed by (subst d; rewrite length_take, length_drop; lia).
  replace (htons z1) with (Z.of_nat (length d) + 8) by lia.
  edestruct (udp_deliver_ok (ucount (fun s => s⟦datagrams_received ::= inc⟧) st) e L nodes Q src (htons z) (htons z0) p (take 8 p) d
    (drop (Z.to_nat (htons z1 - 8)) (drop 8 p))) as (r' & st2 & h' & L' & nodes' & Q' & -> & Hi & Hr' & _).
  - by apply count_inv.
  - done.
  - subst d. by rewrite take_drop, take_drop.
  - rewrite length_take. lia.
  - lia.
  - replace (Z.of_nat (length d)) with (htons z1 - 8) by lia. exact Hs.
  - intros [= _ <- <-]. by exists L', nodes', Q'.
Qed.

Inductive udp_reach : udp_state → kenv H → Prop :=
| reach_init e L : kh_rep (kheap e) L → udp_reach (udp_init udp_boot) e
| reach_socket st e : udp_reach st e → udp_reach (udp_socket_create st).2 e
| reach_bind st e fd port r st' :
    udp_reach st e → is_port port → udp_bind fd port (tcpip_get_local_ip (knet e)) st = Some (r, st') → udp_reach st' e
| reach_connect st e fd rip rport r st' :
    udp_reach st e → udp_connect fd (tcpip_get_local_ip (knet e)) rip rport st = Some (r, st') → udp_reach st' e
| reach_send st e fd data n dest_ip dport r st' e' :
    udp_reach st e → 0 ≤ n → served_size (n + 8) → udp_sendto fd data n dest_ip dport st e = Some (r, st', e') → udp_reach st' e'
| reach_recv st e fd buf max r out st' e' :
    udp_reach st e → 0 ≤ max → udp_recvfrom fd buf max st e = Some (r, out, st', e') → udp_reach st' e'
| reach_close st e fd r st' e' : udp_reach st e → udp_close fd st e = Some (r, st', e') → udp_reach st' e'
| reach_receive st e src dst p len r st' e' :
    udp_reach st e → len ≤ Z.of_nat (length p) → announced p = 0 ∨ served_size (announced p) →
    udp_receive src dst (Some p) len st e = Some (r, st', e') → udp_reach st' e'.

Lemma udp_boot_state :
  let st := udp_init udp_boot in
  (∀ i, sock_at st i = zero) ∧ pkts st = ∅ ∧ next_ephemeral_port st = FIRST_EPHEMERAL.
Proof.
  cbv zeta. unfold udp_init. change (udp_initialized udp_boot) with false. cbv iota.
  pose proof (iter_up_inv (fun _ st => (∀ i, sock_at st i = zero) ∧ pkts st = ∅ ∧ next_ephemeral_port st = FIRST_EPHEMERAL)
    (fun i => upd_sock i (fun _ => zero)) (Z.to_nat UDP_MAX_SOCKETS) 0 udp_boot) as HI. cbv beta in HI.
  set (st := iter_up _ _ _ _) in *. clearbody st. apply HI; clear.
  - done.
  - intros k st _ (H1 & H2 & H3). split; [|done]. intros j. rewrite sock_at_upd. by case_decide.
Qed.

Lemma udp_boot_inv L : udp_inv (udp_init udp_boot) L (fun _ => []) (fun _ => []).
Proof.
  destruct udp_boot_state as (Es & Em & En). set (st := udp_init udp_boot) in *. clearbody st.
  split; rewrite ?Em, ?En; try done.
  - intros i j p (_ & Hu & _). by rewrite Es in Hu.
  - intros i. by rewrite Es.
  - intros fd _. rewrite Es. by repeat split.
  - intros fd. apply NoDup_nil_2.
  - intros fd a Ha. by apply elem_of_nil in Ha.
  - intros fd fd' a Ha. by apply elem_of_nil in Ha.
Qed.

Lemma udp_reach_ok st e : udp_reach st e → ∃ L nodes Q, udp_inv st L nodes Q ∧ kh_rep (kheap e) L.
Proof.
  induction 1 as [e L Hr|st e _ IH|st e fd port r st' _ IH Hp E|st e fd rip rport r st' _ IH E
    |st e fd data n dip dport r st' e' _ IH Hn Hs E|st e fd buf max r out st' e' _ IH Hm E|st e fd r st' e' _ IH E
    |st e src dst p len r st' e' _ IH Hl Hs E]; [exists L; do 2 eexists; split; [apply udp_boot_inv|done]|..];
    destruct IH as (L & nodes & Q & Hinv & Hr).
  - pose proof (udp_socket_create_ok st L nodes Q Hinv) as Hc. destruct (udp_socket_create st) as [fd st']. exists L, nodes, Q. by split; [apply Hc|].
  - exists L, nodes, Q. split; [|done].
    destruct (udp_bind_ok st L nodes Q fd port (tcpip_get_local_ip (knet e)) Hinv Hp) as [[E' _]|(q & st2 & E' & Hi & _)]; congruence.
  - exists L, nodes, Q. split; [|done].
    destruct (udp_connect_ok st L nodes Q fd (tcpip_get_local_ip (knet e)) rip rport Hinv) as (r' & st2 & E' & Hi). congruence.
  - destruct (udp_sendto_inv _ _ _ _ _ _ _ _ _ _ _ _ _ Hinv Hr Hn Hs E) as (L' & Hi & Hr'). by exists L', nodes, Q.
  - destruct (bad_fd fd) eqn:Hfd; [unfold udp_recvfrom in E; rewrite Hfd in E; injection E as _ _ <- <-; by exists L, nodes, Q|].
    destruct (negb buf || (max =? 0)) eqn:Hb; [unfold udp_recvfrom in E; rewrite Hfd, Hb in E; injection E as _ _ <- <-; by exists L, nodes, Q|].
    destruct (negb (in_use (sock_at st fd)) || negb (bound (sock_at st fd))) eqn:Hu;
      [unfold udp_recvfrom in E; rewrite Hfd, Hb, Hu in E; injection E as _ _ <- <-; by exists L, nodes, Q|].
    apply bad_fd_spec in Hfd. apply orb_false_iff in Hb as [Hb%negb_false_iff Hm0%Z.eqb_neq], Hu as [Hu1%negb_false_iff Hu2%negb_false_iff].
    subst buf. pose proof (udp_recvfrom_ok st e L nodes Q fd max Hinv Hr Hfd Hu1 Hu2 ltac:(lia)) as Hok.
    destruct (Q fd) as [|[[ip port] d] q]; [simplify_eq; by exists L, nodes, Q|].
    destruct Hok as (st2 & h2 & L2 & nodes2 & E2 & Hi & Hr2). simplify_eq. by eexists L2, nodes2, _.
  - destruct (bad_fd fd) eqn:Hfd; [unfold udp_close in E; rewrite Hfd in E; injection E as _ <- <-; by exists L, nodes, Q|].
    destruct (in_use (sock_at st fd)) eqn:Hu; [|unfold udp_close in E; rewrite Hfd, Hu in E; injection E as _ <- <-; by exists L, nodes, Q].
    apply bad_fd_spec in Hfd. destruct (udp_close_ok st e L nodes Q fd Hinv Hr Hfd Hu) as (st2 & h2 & L2 & nodes2 & E2 & Hi & Hr2 & _).
    simplify_eq. by eexists L2, nodes2, _.
  - by eapply udp_receive_inv.
Qed.

(** C33: In every state the operations can reach, no two sockets are bound to the
    same port, and every queue holds at most 16 datagrams. *)
Theorem udp_ports_unique st e : udp_reach st e →
  (∀ p i j, is_bound st p i → is_bound st p j → i = j) ∧
  (∀ fd, is_fd fd → 0 ≤ recv_queue_count (sock_at st fd) ≤ UDP_RECV_QUEUE_SIZE).
Proof.
  intros (L & nodes & Q & Hinv & _)%udp_reach_ok. split; [intros p i j; apply Hinv|].
  intros fd Hfd. destruct (ui_queue _ _ _ _ Hinv fd Hfd) as (_ & _ & Hc & Hle & _). lia.
Qed.
End reachable.

(** ** Examples *)

(** A host with one socket, bound to port 7. *)
Definition udp_host : kenv bump :=
  mk_kenv (mk_net (mk_iface [2; 0; 0; 0; 0; 2] 0x0A000002 0xFFFFFF00 0x0A000001 1) true []) bump_demo.
Definition udp_one_socket : udp_state := (udp_socket_create (udp_init udp_boot)).2.
Definition udp_demo : udp_state := default udp_boot (snd <$> udp_bind 0 7 0x0A000002 udp_one_socket).

Lemma udp_one_socket_inv : udp_inv udp_one_socket ∅ (fun _ => []) (fun _ => []).
Proof.
  pose proof (udp_socket_create_ok _ _ _ _ (udp_boot_inv ∅)) as Hc. unfold udp_one_socket.
  destruct (udp_socket_create (udp_init udp_boot)) as [fd st']. apply Hc.
Qed.

Lemma udp_demo_inv : udp_inv udp_demo ∅ (fun _ => []) (fun _ => []).
Proof.
  destruct (udp_bind_ok _ _ _ _ 0 7 0x0A000002 udp_one_socket_inv ltac:(by vm_compute)) as [[E _]|(p & st' & E & Hi & _)].
  - vm_compute in E. discriminate E.
  - unfold udp_demo. rewrite E. exact Hi.
Qed.

Lemma udp_bind_witness :
  (udp_bind 0 0 0x0A000002 udp_one_socket = Some (-1, udp_one_socket) ∧ bind_refused udp_one_socket 0 0) ∨
  (∃ p st', udp_bind 0 0 0x0A000002 udp_one_socket = Some (0, st') ∧ is_bound st' p 0 ∧ ephemeral p).
Proof.
  destruct (udp_bind_spec udp_one_socket ∅ (fun _ => []) (fun _ => []) 0 0 0x0A000002 udp_one_socket_inv ltac:(by vm_compute))
    as [Hl|(p & st' & E & _ & _ & Hb & _ & He)]; [left; exact Hl|].
  right. exists p, st'. split; [exact E|]. split; [exact Hb|exact He].
Defined.


Lemma udp_ports_unique_witness : 0 ≤ recv_queue_count (sock_at udp_one_socket 0) ≤ UDP_RECV_QUEUE_SIZE.
Proof.
  apply (udp_ports_unique udp_one_socket udp_host); [|by split]. apply reach_socket. eapply reach_init. exact bump_demo_rep.
Defined.

(** The datagram is indeed queued, and read back. *)
Example udp_echo_example :
  match udp_receive 0x0A000003 0x0A000002 (Some (udp_wire 9 7 0 [104; 105])) 10 udp_demo udp_host with
  | Some (r, st, e) => r = 0 ∧ udp_recvfrom 0 true 100 st e ≠ None ∧
      (match udp_recvfrom 0 true 100 st e with Some (n, out, _, _) => (n, out) | None => (0, None) end)
      = (2, Some ([104; 105], 0x0A000003, 9))
  | None => False
  end.
Proof. vm_compute. split_and!; [done|done|done]. Qed.
