(* ===== verification/Tcp.v ===== *)
(** * TCP (kernel/net/tcp.c)

    The table of 64 connection blocks, segments, the socket calls and the state
    machine of the receive handler.

    The two buffers of a connection are blocks of the kernel heap owned by it:
    [recv_buffer] and [send_buffer] are their addresses (0 is the null pointer),
    [recv_data] and [send_data] their contents.  A segment argument of the code
    is a pointer and a length, here the bytes from the pointer on and the length.
    [now] is what [timer_get_ticks] returns during the call.

    [tcp_connect] waits in a loop while interrupts deliver segments; the loop is
    a function of what happens in each of its rounds.  A result [None] is
    undefined behaviour, or that the fuel of a loop does not suffice, which the
    theorems exclude.  Output on the serial line is not modelled. *)

From S2P Require Import Prelude Bytes KHeap Net Ports.

Definition TCP_HEADER_MIN_SIZE : Z := 20.
Definition TCP_MAX_CONNECTIONS : Z := 64.
Definition TCP_RECV_BUFFER_SIZE : Z := 65536.
Definition TCP_SEND_BUFFER_SIZE : Z := 65536.
Definition TCP_MSS : Z := 1460.
Definition TCP_WINDOW_SIZE : Z := 65535.
Definition TCP_SYN_TIMEOUT : Z := 3000.
Definition TCP_TIME_WAIT : Z := 60000.
Definition TCP_RETRANSMIT_BASE : Z := 1000.

Definition TCP_FLAG_FIN : Z := 0x01.
Definition TCP_FLAG_SYN : Z := 0x02.
Definition TCP_FLAG_RST : Z := 0x04.
Definition TCP_FLAG_PSH : Z := 0x08.
Definition TCP_FLAG_ACK : Z := 0x10.

Inductive tcp_conn_state :=
| CLOSED | LISTEN | SYN_SENT | SYN_RECEIVED | ESTABLISHED
| FIN_WAIT_1 | FIN_WAIT_2 | CLOSE_WAIT | CLOSING | LAST_ACK | TIME_WAIT.
#[export] Instance tcp_conn_state_eq : EqDecision tcp_conn_state.
Proof. solve_decision. Defined.

Record tcp_cb := mk_tcb {
  in_use : bool;
  state : tcp_conn_state;
  local_ip : Z;
  local_port : Z;
  remote_ip : Z;
  remote_port : Z;
  snd_una : Z;
  snd_nxt : Z;
  snd_wnd : Z;
  rcv_nxt : Z;
  rcv_wnd : Z;
  iss : Z;
  irs : Z;
  recv_buffer : Z;
  recv_data : gmap Z Z;
  recv_head : Z;
  recv_tail : Z;
  recv_count : Z;
  send_buffer : Z;
  send_data : gmap Z Z;
  send_head : Z;
  send_tail : Z;
  send_count : Z;
  rto : Z;
  last_tx_time : Z;
  time_wait_start : Z;
  parent_socket : Z;
  backlog : Z;
  pending_connections : gmap Z Z;
  pending_count : Z;
}.
#[export] Instance eta_tcb : Eta tcp_cb := fun t =>
  mk_tcb (in_use t) (state t) (local_ip t) (local_port t) (remote_ip t) (remote_port t)
    (snd_una t) (snd_nxt t) (snd_wnd t) (rcv_nxt t) (rcv_wnd t) (iss t) (irs t)
    (recv_buffer t) (recv_data t) (recv_head t) (recv_tail t) (recv_count t)
    (send_buffer t) (send_data t) (send_head t) (send_tail t) (send_count t)
    (rto t) (last_tx_time t) (time_wait_start t) (parent_socket t) (backlog t) (pending_connections t) (pending_count t).
#[export] Instance zeroed_tcb : Zeroed tcp_cb :=
  mk_tcb false CLOSED 0 0 0 0 0 0 0 0 0 0 0 0 ∅ 0 0 0 0 ∅ 0 0 0 0 0 0 0 0 ∅ 0.

Record tcp_stats := mk_tcp_stats {
  segments_sent : Z;
  segments_received : Z;
  connections_opened : Z;
  connections_closed : Z;
  tcp_errors : Z;
}.
#[export] Instance eta_tcp_stats : Eta tcp_stats := fun s =>
  mk_tcp_stats (segments_sent s) (segments_received s) (connections_opened s) (connections_closed s) (tcp_errors s).

(** The static variables of tcp.c; [iss_counter] is that of
    [tcp_generate_iss]. *)
Record tcp_state := mk_tcp {
  tcp_connections : gmap Z tcp_cb;
  tcp_initialized : bool;
  next_ephemeral_port : Z;
  tstats : tcp_stats;
  iss_counter : Z;
}.
#[export] Instance eta_tcp : Eta tcp_state := fun s =>
  mk_tcp (tcp_connections s) (tcp_initialized s) (next_ephemeral_port s) (tstats s) (iss_counter s).

Definition tcp_boot : tcp_state := mk_tcp ∅ false FIRST_EPHEMERAL (mk_tcp_stats 0 0 0 0 0) 0x12345678.

Definition tcb_at (st : tcp_state) (i : Z) : tcp_cb := (tcp_connections st).[i].
Definition upd_tcb (i : Z) (f : tcp_cb → tcp_cb) (st : tcp_state) : tcp_state :=
  st⟦tcp_connections ::= fun m => amod m i f⟧.
Definition tcount (f : tcp_stats → tcp_stats) (st : tcp_state) : tcp_state := st⟦tstats ::= f⟧.
Definition inc (n : Z) : Z := u32 (n + 1).

Definition bad_fd (sockfd : Z) : bool := (sockfd <? 0) || (TCP_MAX_CONNECTIONS <=? sockfd).
Definition state_is (t : tcp_cb) (s : tcp_conn_state) : bool := bool_decide (state t = s).

(** ** Helpers *)

Definition tcp_generate_iss (now : Z) (st : tcp_state) : Z * tcp_state :=
  let i := u32 (iss_counter st + now + 64000) in (i, st⟦iss_counter := i⟧).

Definition seq_lt (a b : Z) : bool := i32 (a - b) <? 0.
Definition seq_le (a b : Z) : bool := i32 (a - b) <=? 0.
Definition seq_gt (a b : Z) : bool := 0 <? i32 (a - b).

Definition tcp_checksum (src_ip dest_ip : Z) (tcp_packet : list Z) (tcp_length : Z) : option Z :=
  checksum_from (pseudo_sum src_ip dest_ip IP_PROTO_TCP tcp_length) tcp_packet tcp_length.

(** The packed struct [tcp_header_t]. *)
Definition tcp_header (src_port dest_port seq ack data_offset flags window checksum : Z) : list Z :=
  put16 (htons src_port) ++ put16 (htons dest_port) ++ put32 (htonl seq) ++ put32 (htonl ack)
  ++ [data_offset; flags] ++ put16 (htons window) ++ put16 checksum ++ put16 0.

Definition HEADER_OFFSET : Z := (TCP_HEADER_MIN_SIZE / 4) <<: 4.

(** The copy loops into and out of a ring buffer of [size] bytes. *)
Fixpoint ring_write (size : Z) (d : list Z) (tail : Z) (m : gmap Z Z) : Z * gmap Z Z :=
  match d with
  | [] => (tail, m)
  | b :: d' => ring_write size d' ((tail + 1) mod size) (aset m tail b)
  end.

Fixpoint ring_read (size : Z) (n : nat) (head : Z) (m : gmap Z Z) : list Z * Z :=
  match n with
  | O => ([], head)
  | S n' => let '(d, h) := ring_read size n' ((head + 1) mod size) m in (m.[head] :: d, h)
  end.

(** ** The table *)

Definition tcp_init (st : tcp_state) : tcp_state :=
  if tcp_initialized st then st
  else (iter_up (Z.to_nat TCP_MAX_CONNECTIONS) 0 (fun i => upd_tcb i (fun _ => zero)) st)⟦tcp_initialized := true⟧.

Definition port_taken (st : tcp_state) (port : Z) : bool :=
  negb (is_null (find_up (Z.to_nat TCP_MAX_CONNECTIONS) 0
                   (fun i => in_use (tcb_at st i) && (local_port (tcb_at st i) =? port)))).

Definition tcp_alloc_port (st : tcp_state) : option (Z * tcp_state) :=
  '(port, next) ← alloc_port PORT_TRIES (port_taken st) (next_ephemeral_port st);
  Some (port, st⟦next_ephemeral_port := next⟧).

Definition tcp_find_connection (lip lport rip rport : Z) (st : tcp_state) : ptr :=
  match find_up (Z.to_nat TCP_MAX_CONNECTIONS) 0
          (fun i => let t := tcb_at st i in
             in_use t && (local_port t =? lport) && (remote_port t =? rport)
             && ((local_ip t =? lip) || (local_ip t =? 0)) && (remote_ip t =? rip)) with
  | Some i => Some i
  | None =>
      find_up (Z.to_nat TCP_MAX_CONNECTIONS) 0
        (fun i => let t := tcb_at st i in
           in_use t && state_is t LISTEN && (local_port t =? lport) && ((local_ip t =? lip) || (local_ip t =? 0)))
  end.

Definition tcp_alloc_tcb (st : tcp_state) : ptr * tcp_state :=
  match find_up (Z.to_nat TCP_MAX_CONNECTIONS) 0 (fun i => negb (in_use (tcb_at st i))) with
  | Some i =>
      (Some i, upd_tcb i (fun _ => (zero : tcp_cb)⟦in_use := true⟧⟦rcv_wnd := TCP_WINDOW_SIZE⟧⟦rto := TCP_RETRANSMIT_BASE⟧
                                                  ⟦parent_socket := -1⟧) st)
  | None => (None, st)
  end.

Section heap.
Context {H : Type} `{KernelHeap H}.

(** ** Segments *)

(** [data] is the [length] bytes at the pointer, none for the null pointer. *)
Definition tcp_send_segment (i flags : Z) (data : list Z) (now : Z) (st : tcp_state) (e : kenv H)
    : option (Z * tcp_state * kenv H) :=
  let t := tcb_at st i in
  let len := Z.of_nat (length data) in
  let total_length := u16 (TCP_HEADER_MIN_SIZE + len) in
  '(p, h) ← kmalloc total_length (kheap e);
  if p =? 0 then Some (-1, st, e⟦kheap := h⟧)
  else if total_length <? TCP_HEADER_MIN_SIZE + len then None
  else
    let hdr c := tcp_header (local_port t) (remote_port t) (snd_nxt t) (rcv_nxt t) HEADER_OFFSET flags (rcv_wnd t) c in
    checksum ← tcp_checksum (local_ip t) (remote_ip t) (hdr 0 ++ data) total_length;
    '(ret, ns) ← ip_send_packet (remote_ip t) IP_PROTO_TCP (Some (hdr checksum ++ data)) total_length (knet e);
    let e := mk_kenv ns (kfree p h) in
    if ret =? 0 then
      let st := tcount (fun s => s⟦segments_sent ::= inc⟧) (upd_tcb i (fun t => t⟦last_tx_time := now⟧) st) in
      let st := if 0 <? len then upd_tcb i (fun t => t⟦snd_nxt ::= fun x => u32 (x + len)⟧) st else st in
      let st := if truth (flags &: TCP_FLAG_SYN) then upd_tcb i (fun t => t⟦snd_nxt ::= inc⟧) st else st in
      let st := if truth (flags &: TCP_FLAG_FIN) then upd_tcb i (fun t => t⟦snd_nxt ::= inc⟧) st else st in
      Some (ret, st, e)
    else Some (ret, st, e).

Definition tcp_send_rst (src_ip src_port dest_ip dest_port seq ack : Z) (e : kenv H) : option (Z * kenv H) :=
  let hdr c := tcp_header src_port dest_port seq ack HEADER_OFFSET (TCP_FLAG_RST |: TCP_FLAG_ACK) 0 c in
  checksum ← tcp_checksum src_ip dest_ip (hdr 0) TCP_HEADER_MIN_SIZE;
  '(ret, ns) ← ip_send_packet dest_ip IP_PROTO_TCP (Some (hdr checksum)) TCP_HEADER_MIN_SIZE (knet e);
  Some (ret, e⟦knet := ns⟧).

(** ** Socket calls *)

(** The two buffers of a new connection; [false] if there is no memory, and the
    block is then free again. *)
Definition alloc_buffers (i : Z) (st : tcp_state) (e : kenv H) : option (bool * tcp_state * kenv H) :=
  '(rb, h) ← kmalloc TCP_RECV_BUFFER_SIZE (kheap e);
  '(sb, h) ← kmalloc TCP_SEND_BUFFER_SIZE h;
  let st := upd_tcb i (fun t => t⟦recv_buffer := rb⟧⟦send_buffer := sb⟧) st in
  if (rb =? 0) || (sb =? 0) then
    let h := if truth rb then kfree rb h else h in
    let h := if truth sb then kfree sb h else h in
    Some (false, upd_tcb i (fun t => t⟦in_use := false⟧) st, e⟦kheap := h⟧)
  else Some (true, st, e⟦kheap := h⟧).

Definition tcp_socket (st : tcp_state) (e : kenv H) : option (Z * tcp_state * kenv H) :=
  match tcp_alloc_tcb st with
  | (None, st) => Some (-1, st, e)
  | (Some i, st) =>
      '(ok, st, e) ← alloc_buffers i st e;
      Some (if ok : bool then i else -1, st, e)
  end.

Definition tcp_bind (sockfd port : Z) (st : tcp_state) (e : kenv H) : option (Z * tcp_state) :=
  if bad_fd sockfd then Some (-1, st)
  else
    let t := tcb_at st sockfd in
    if negb (in_use t) || negb (state_is t CLOSED) then Some (-1, st)
    else
      match find_up (Z.to_nat TCP_MAX_CONNECTIONS) 0
              (fun i => negb (i =? sockfd) && in_use (tcb_at st i) && (local_port (tcb_at st i) =? port)) with
      | Some _ => Some (-1, st)
      | None =>
          let st := upd_tcb sockfd (fun t => t⟦local_ip := tcpip_get_local_ip (knet e)⟧) st in
          '(p, st) ← (if negb (port =? 0) then Some (port, st) else tcp_alloc_port st);
          Some (0, upd_tcb sockfd (fun t => t⟦local_port := p⟧) st)
      end.

Definition tcp_listen (sockfd blog : Z) (st : tcp_state) : Z * tcp_state :=
  if bad_fd sockfd then (-1, st)
  else
    let t := tcb_at st sockfd in
    if negb (in_use t) || negb (state_is t CLOSED) then (-1, st)
    else if local_port t =? 0 then (-1, st)
    else (0, upd_tcb sockfd (fun t => t⟦backlog := if 16 <? blog then 16 else blog⟧⟦state := LISTEN⟧) st).

Definition tcp_accept (sockfd : Z) (st : tcp_state) : Z * tcp_state :=
  if bad_fd sockfd then (-1, st)
  else
    let t := tcb_at st sockfd in
    if negb (in_use t) || negb (state_is t LISTEN) then (-1, st)
    else if pending_count t =? 0 then (-1, st)
    else
      let new_sockfd := (pending_connections t).[0] in
      let shifted := iter_up (Z.to_nat (pending_count t - 1)) 0 (fun i m => aset m i m.[i + 1]) (pending_connections t) in
      (new_sockfd, upd_tcb sockfd (fun t => t⟦pending_connections := shifted⟧⟦pending_count ::= fun n => n - 1⟧) st).

(** [tcp_connect] up to its loop: [None] in the result if the loop is reached. *)
Definition tcp_connect_start (sockfd rip rport now : Z) (st : tcp_state) (e : kenv H)
    : option (option Z * tcp_state * kenv H) :=
  if bad_fd sockfd then Some (Some (-1), st, e)
  else
    let t := tcb_at st sockfd in
    if negb (in_use t) || negb (state_is t CLOSED) then Some (Some (-1), st, e)
    else
      st ← (if local_port t =? 0 then
              let st := upd_tcb sockfd (fun t => t⟦local_ip := tcpip_get_local_ip (knet e)⟧) st in
              '(p, st) ← tcp_alloc_port st; Some (upd_tcb sockfd (fun t => t⟦local_port := p⟧) st)
            else Some st);
      let st := upd_tcb sockfd (fun t => t⟦remote_ip := rip⟧⟦remote_port := rport⟧) st in
      let '(i, st) := tcp_generate_iss now st in
      let st := upd_tcb sockfd (fun t => t⟦iss := i⟧⟦snd_una := i⟧⟦snd_nxt := i⟧⟦state := SYN_SENT⟧) st in
      '(_, st, e) ← tcp_send_segment sockfd TCP_FLAG_SYN [] now st e;
      Some (None, tcount (fun s => s⟦connections_opened ::= inc⟧) st, e).

(** [while (tcb->send_count > 0)] of [tcp_write]. *)
Fixpoint send_segments (fuel : nat) (i now : Z) (st : tcp_state) (e : kenv H) : option (tcp_state * kenv H) :=
  let t := tcb_at st i in
  if 0 <? send_count t then
    match fuel with
    | O => None
    | S fuel' =>
        let seg_len := if TCP_MSS <? send_count t then TCP_MSS else send_count t in
        let '(seg, head) := ring_read TCP_SEND_BUFFER_SIZE (Z.to_nat seg_len) (send_head t) (send_data t) in
        let st := upd_tcb i (fun t => t⟦send_head := head⟧⟦send_count ::= fun n => n - seg_len⟧) st in
        '(_, st, e) ← tcp_send_segment i (TCP_FLAG_ACK |: TCP_FLAG_PSH) seg now st e;
        send_segments fuel' i now st e
    end
  else Some (st, e).

(** A full buffer makes 45 segments. *)
Definition SEGMENT_FUEL : nat := 45.

Definition tcp_write (sockfd : Z) (data : option (list Z)) (length now : Z) (st : tcp_state) (e : kenv H)
    : option (Z * tcp_state * kenv H) :=
  if bad_fd sockfd then Some (-1, st, e)
  else
    match data with
    | None => Some (-1, st, e)
    | Some data =>
        let t := tcb_at st sockfd in
        if length =? 0 then Some (-1, st, e)
        else if negb (in_use t) || negb (state_is t ESTABLISHED) then Some (-1, st, e)
        else
          let space := u32 (TCP_SEND_BUFFER_SIZE - send_count t) in
          let to_send := if length <? space then length else space in
          d ← slice data 0 to_send;
          let '(tail, m) := ring_write TCP_SEND_BUFFER_SIZE d (send_tail t) (send_data t) in
          let st := upd_tcb sockfd (fun t => t⟦send_data := m⟧⟦send_tail := tail⟧⟦send_count ::= fun n => u32 (n + to_send)⟧) st in
          '(st, e) ← send_segments SEGMENT_FUEL sockfd now st e;
          Some (to_send, st, e)
    end.

(** The result and the bytes written through [buffer]. *)
Definition tcp_read (sockfd : Z) (buffer : bool) (max_length : Z) (st : tcp_state) : Z * list Z * tcp_state :=
  if bad_fd sockfd then (-1, [], st)
  else if negb buffer || (max_length =? 0) then (-1, [], st)
  else
    let t := tcb_at st sockfd in
    if negb (in_use t) then (-1, [], st)
    else if negb (state_is t ESTABLISHED || state_is t FIN_WAIT_1 || state_is t FIN_WAIT_2 || state_is t CLOSE_WAIT)
            && (recv_count t =? 0) then (-1, [], st)
    else
      let to_read := if recv_count t <? max_length then recv_count t else max_length in
      let '(d, head) := ring_read TCP_RECV_BUFFER_SIZE (Z.to_nat to_read) (recv_head t) (recv_data t) in
      (to_read, d,
       upd_tcb sockfd (fun t => t⟦recv_head := head⟧⟦recv_count ::= fun n => n - to_read⟧
                                 ⟦rcv_wnd := u32 (TCP_RECV_BUFFER_SIZE - (recv_count t - to_read))⟧) st).

(** Releasing the buffers and clearing the block. *)
Definition release (i : Z) (st : tcp_state) (e : kenv H) : tcp_state * kenv H :=
  let t := tcb_at st i in
  let h := if truth (recv_buffer t) then kfree (recv_buffer t) (kheap e) else kheap e in
  let h := if truth (send_buffer t) then kfree (send_buffer t) h else h in
  (tcount (fun s => s⟦connections_closed ::= inc⟧) (upd_tcb i (fun _ => zero) st), e⟦kheap := h⟧).

Definition set_state (i : Z) (s : tcp_conn_state) (st : tcp_state) : tcp_state := upd_tcb i (fun t => t⟦state := s⟧) st.

Definition tcp_close_socket (sockfd now : Z) (st : tcp_state) (e : kenv H) : option (Z * tcp_state * kenv H) :=
  if bad_fd sockfd then Some (-1, st, e)
  else if negb (in_use (tcb_at st sockfd)) then Some (-1, st, e)
  else
    '(st, e) ← match state (tcb_at st sockfd) with
               | CLOSED | LISTEN => Some (st, e)
               | SYN_SENT => Some (set_state sockfd CLOSED st, e)
               | SYN_RECEIVED | ESTABLISHED =>
                   '(_, st, e) ← tcp_send_segment sockfd (TCP_FLAG_FIN |: TCP_FLAG_ACK) [] now st e;
                   Some (set_state sockfd FIN_WAIT_1 st, e)
               | CLOSE_WAIT =>
                   '(_, st, e) ← tcp_send_segment sockfd (TCP_FLAG_FIN |: TCP_FLAG_ACK) [] now st e;
                   Some (set_state sockfd LAST_ACK st, e)
               | FIN_WAIT_1 | FIN_WAIT_2 | CLOSING | LAST_ACK | TIME_WAIT => Some (st, e)
               end;
    let '(st, e) := if state_is (tcb_at st sockfd) CLOSED then release sockfd st e else (st, e) in
    Some (0, st, e).

(** ** Input *)

(** The fields of a segment that the state machine uses. *)
Record segment := mk_segment {
  sg_src_ip : Z;
  sg_dest_ip : Z;
  sg_src_port : Z;
  sg_dest_port : Z;
  sg_seq : Z;
  sg_ack : Z;
  sg_flags : Z;
  sg_window : Z;
  sg_packet : list Z;
  sg_header_len : Z;
  sg_data_len : Z;
}.

Definition has (flag : Z) (sg : segment) : bool := truth (sg_flags sg &: flag).

Definition reset_peer (sg : segment) (seq ack : Z) (e : kenv H) : option (kenv H) :=
  if has TCP_FLAG_RST sg then Some e
  else
    '(_, e) ← tcp_send_rst (sg_dest_ip sg) (sg_dest_port sg) (sg_src_ip sg) (sg_src_port sg) seq ack e;
    Some e.

(** [case TCP_STATE_LISTEN:] *)
Definition rcv_listen (i : Z) (sg : segment) (now : Z) (st : tcp_state) (e : kenv H) : option (tcp_state * kenv H) :=
  if negb (has TCP_FLAG_SYN sg) then Some (st, e)
  else
    match tcp_alloc_tcb st with
    | (None, st) => Some (st, e)
    | (Some j, st) =>
        '(ok, st, e) ← alloc_buffers j st e;
        if negb ok then Some (st, e)
        else
          let st := upd_tcb j (fun t => t⟦local_ip := sg_dest_ip sg⟧⟦local_port := sg_dest_port sg⟧⟦remote_ip := sg_src_ip sg⟧
                                         ⟦remote_port := sg_src_port sg⟧⟦parent_socket := i⟧
                                         ⟦irs := sg_seq sg⟧⟦rcv_nxt := u32 (sg_seq sg + 1)⟧) st in
          let '(n, st) := tcp_generate_iss now st in
          let st := upd_tcb j (fun t => t⟦iss := n⟧⟦snd_una := n⟧⟦snd_nxt := n⟧⟦snd_wnd := sg_window sg⟧⟦state := SYN_RECEIVED⟧) st in
          '(_, st, e) ← tcp_send_segment j (TCP_FLAG_SYN |: TCP_FLAG_ACK) [] now st e;
          let t := tcb_at st i in
          let st := if pending_count t <? backlog t
                    then upd_tcb i (fun t => t⟦pending_connections ::= fun m => aset m (pending_count t) j⟧
                                              ⟦pending_count ::= fun n => n + 1⟧) st
                    else st in
          Some (tcount (fun s => s⟦connections_opened ::= inc⟧) st, e)
    end.

(** [case TCP_STATE_SYN_SENT:] *)
Definition rcv_syn_sent (i : Z) (sg : segment) (now : Z) (st : tcp_state) (e : kenv H) : option (tcp_state * kenv H) :=
  let t := tcb_at st i in
  if has TCP_FLAG_ACK sg && (seq_le (sg_ack sg) (iss t) || seq_gt (sg_ack sg) (snd_nxt t)) then
    e ← reset_peer sg (sg_ack sg) 0 e; Some (st, e)
  else if has TCP_FLAG_RST sg then Some (set_state i CLOSED st, e)
  else if has TCP_FLAG_SYN sg then
    let st := upd_tcb i (fun t => t⟦irs := sg_seq sg⟧⟦rcv_nxt := u32 (sg_seq sg + 1)⟧⟦snd_wnd := sg_window sg⟧) st in
    let st := if has TCP_FLAG_ACK sg then upd_tcb i (fun t => t⟦snd_una := sg_ack sg⟧) st else st in
    if seq_gt (snd_una (tcb_at st i)) (iss (tcb_at st i)) then
      '(_, st, e) ← tcp_send_segment i TCP_FLAG_ACK [] now (set_state i ESTABLISHED st) e; Some (st, e)
    else
      '(_, st, e) ← tcp_send_segment i (TCP_FLAG_SYN |: TCP_FLAG_ACK) [] now (set_state i SYN_RECEIVED st) e; Some (st, e)
  else Some (st, e).

(** An acknowledgement of something sent and not yet acknowledged. *)
Definition ack_ok (t : tcp_cb) (sg : segment) : bool :=
  seq_le (snd_una t) (sg_ack sg) && seq_le (sg_ack sg) (snd_nxt t).

(** [case TCP_STATE_SYN_RECEIVED:] *)
Definition rcv_syn_received (i : Z) (sg : segment) (st : tcp_state) (e : kenv H) : option (tcp_state * kenv H) :=
  if has TCP_FLAG_RST sg then Some (set_state i CLOSED st, e)
  else if has TCP_FLAG_ACK sg && ack_ok (tcb_at st i) sg then
    Some (upd_tcb i (fun t => t⟦state := ESTABLISHED⟧⟦snd_una := sg_ack sg⟧) st, e)
  else Some (st, e).

(** The data part of [case TCP_STATE_ESTABLISHED:]: in-order data is appended to
    the receive buffer and acknowledged. *)
Definition rcv_data (i : Z) (sg : segment) (now : Z) (st : tcp_state) (e : kenv H) : option (tcp_state * kenv H) :=
  let t := tcb_at st i in
  if (0 <? sg_data_len sg) && (sg_seq sg =? rcv_nxt t) then
    let space := u32 (TCP_RECV_BUFFER_SIZE - recv_count t) in
    let to_copy := if sg_data_len sg <? space then sg_data_len sg else space in
    d ← slice (sg_packet sg) (sg_header_len sg) to_copy;
    let '(tail, m) := ring_write TCP_RECV_BUFFER_SIZE d (recv_tail t) (recv_data t) in
    let count := u32 (recv_count t + to_copy) in
    let st := upd_tcb i (fun t => t⟦recv_data := m⟧⟦recv_tail := tail⟧⟦recv_count := count⟧
                                   ⟦rcv_nxt ::= fun x => u32 (x + to_copy)⟧⟦rcv_wnd := u32 (TCP_RECV_BUFFER_SIZE - count)⟧) st in
    '(_, st, e) ← tcp_send_segment i TCP_FLAG_ACK [] now st e; Some (st, e)
  else Some (st, e).

(** [case TCP_STATE_ESTABLISHED:] *)
Definition rcv_established (i : Z) (sg : segment) (now : Z) (st : tcp_state) (e : kenv H) : option (tcp_state * kenv H) :=
  if has TCP_FLAG_RST sg then Some (set_state i CLOSED st, e)
  else
    let st := if has TCP_FLAG_ACK sg && ack_ok (tcb_at st i) sg then upd_tcb i (fun t => t⟦snd_una := sg_ack sg⟧) st else st in
    '(st, e) ← rcv_data i sg now st e;
    if has TCP_FLAG_FIN sg then
      let st := upd_tcb i (fun t => t⟦rcv_nxt := u32 (sg_seq sg + 1)⟧⟦state := CLOSE_WAIT⟧) st in
      '(_, st, e) ← tcp_send_segment i TCP_FLAG_ACK [] now st e; Some (st, e)
    else Some (st, e).

Definition enter_time_wait (i now : Z) (st : tcp_state) : tcp_state :=
  upd_tcb i (fun t => t⟦state := TIME_WAIT⟧⟦time_wait_start := now⟧) st.

(** [case TCP_STATE_FIN_WAIT_1:] *)
Definition rcv_fin_wait_1 (i : Z) (sg : segment) (now : Z) (st : tcp_state) (e : kenv H) : option (tcp_state * kenv H) :=
  let st := if has TCP_FLAG_ACK sg && (sg_ack sg =? snd_nxt (tcb_at st i)) then set_state i FIN_WAIT_2 st else st in
  if has TCP_FLAG_FIN sg then
    let st := upd_tcb i (fun t => t⟦rcv_nxt := u32 (sg_seq sg + 1)⟧) st in
    '(_, st, e) ← tcp_send_segment i TCP_FLAG_ACK [] now st e;
    Some (if state_is (tcb_at st i) FIN_WAIT_2 then enter_time_wait i now st else set_state i CLOSING st, e)
  else Some (st, e).

(** [case TCP_STATE_FIN_WAIT_2:] *)
Definition rcv_fin_wait_2 (i : Z) (sg : segment) (now : Z) (st : tcp_state) (e : kenv H) : option (tcp_state * kenv H) :=
  if has TCP_FLAG_FIN sg then
    let st := upd_tcb i (fun t => t⟦rcv_nxt := u32 (sg_seq sg + 1)⟧) st in
    '(_, st, e) ← tcp_send_segment i TCP_FLAG_ACK [] now st e;
    Some (enter_time_wait i now st, e)
  else Some (st, e).

(** The state machine: [switch (tcb->state)]. *)
Definition tcp_input (i : Z) (sg : segment) (now : Z) (st : tcp_state) (e : kenv H) : option (tcp_state * kenv H) :=
  match state (tcb_at st i) with
  | CLOSED => e ← reset_peer sg (sg_ack sg) (u32 (sg_seq sg + 1)) e; Some (st, e)
  | LISTEN => rcv_listen i sg now st e
  | SYN_SENT => rcv_syn_sent i sg now st e
  | SYN_RECEIVED => rcv_syn_received i sg st e
  | ESTABLISHED => rcv_established i sg now st e
  | FIN_WAIT_1 => rcv_fin_wait_1 i sg now st e
  | FIN_WAIT_2 => rcv_fin_wait_2 i sg now st e
  | CLOSE_WAIT => Some (st, e)
  | CLOSING => Some (if has TCP_FLAG_ACK sg then enter_time_wait i now st else st, e)
  | LAST_ACK => Some (if has TCP_FLAG_ACK sg then release i st e else (st, e))
  | TIME_WAIT => Some (if TCP_TIME_WAIT <? u32 (now - time_wait_start (tcb_at st i)) then release i st e else (st, e))
  end.

(** The fields read from a packet. *)
Definition parse_segment (src_ip dest_ip : Z) (packet : list Z) (length : Z) : option segment :=
  sp ← le16 packet 0; dp ← le16 packet 2; seq ← le32 packet 4; ack ← le32 packet 8;
  off ← byte_at packet 12; flags ← byte_at packet 13; window ← le16 packet 14;
  let header_len := u8 ((off >>: 4) * 4) in
  Some (mk_segment src_ip dest_ip (ntohs sp) (ntohs dp) (ntohl seq) (ntohl ack) flags (ntohs window)
          packet header_len (u16 (length - header_len))).

Definition tcp_receive (src_ip dest_ip : Z) (packet : option (list Z)) (length now : Z) (st : tcp_state) (e : kenv H)
    : option (Z * tcp_state * kenv H) :=
  let bad := Some (-1, tcount (fun s => s⟦tcp_errors ::= inc⟧) st, e) in
  match packet with
  | None => bad
  | Some packet =>
      if length <? TCP_HEADER_MIN_SIZE then bad
      else
        sg ← parse_segment src_ip dest_ip packet length;
        checksum ← tcp_checksum src_ip dest_ip packet length;
        if negb (checksum =? 0) then bad
        else
          let st := tcount (fun s => s⟦segments_received ::= inc⟧) st in
          match tcp_find_connection dest_ip (sg_dest_port sg) src_ip (sg_src_port sg) st with
          | None => e ← reset_peer sg (sg_ack sg) (u32 (sg_seq sg + 1)) e; Some (-1, st, e)
          | Some i => '(st, e) ← tcp_input i sg now st e; Some (0, st, e)
          end
  end.

(** ** Connecting *)

(** Segments that interrupts deliver: source, destination, bytes, length. *)
Fixpoint tcp_arrive (ps : list (Z * Z * list Z * Z)) (now : Z) (st : tcp_state) (e : kenv H) : option (tcp_state * kenv H) :=
  match ps with
  | [] => Some (st, e)
  | (src, dst, p, length) :: ps' => '(_, st, e) ← tcp_receive src dst (Some p) length now st e; tcp_arrive ps' now st e
  end.

(** [while (tcb->state == TCP_STATE_SYN_SENT)]; the result is [None] while the
    call waits. *)
Fixpoint connect_wait (rounds : list (Z * list (Z * Z * list Z * Z))) (sockfd start : Z) (st : tcp_state) (e : kenv H)
    : option (option Z * tcp_state * kenv H) :=
  let t := tcb_at st sockfd in
  if negb (state_is t SYN_SENT) then Some (Some (if state_is t ESTABLISHED then 0 else -1), st, e)
  else
    match rounds with
    | [] => Some (None, st, e)
    | (now, ps) :: rounds' =>
        if TCP_SYN_TIMEOUT <? u32 (now - start) then Some (Some (-1), set_state sockfd CLOSED st, e)
        else '(st, e) ← tcp_arrive ps now st e; connect_wait rounds' sockfd start st e
    end.

Definition tcp_connect (sockfd rip rport now start : Z) (rounds : list (Z * list (Z * Z * list Z * Z)))
    (st : tcp_state) (e : kenv H) : option (option Z * tcp_state * kenv H) :=
  '(r, st, e) ← tcp_connect_start sockfd rip rport now st e;
  match r with
  | Some r => Some (Some r, st, e)
  | None => connect_wait rounds sockfd start st e
  end.

End heap.

Definition tcp_get_stats (st : tcp_state) : Z * Z * Z * Z :=
  (segments_sent (tstats st), segments_received (tstats st), connections_opened (tstats st), connections_closed (tstats st)).

(** [None] stands for the result -1. *)
Definition tcp_get_state (sockfd : Z) (st : tcp_state) : option tcp_conn_state :=
  if bad_fd sockfd then None
  else if negb (in_use (tcb_at st sockfd)) then None
  else Some (state (tcb_at st sockfd)).

(** * Properties *)

Lemma tcb_at_upd i f st j : tcb_at (upd_tcb i f st) j = if decide (i = j) then f (tcb_at st i) else tcb_at st j.
Proof. apply aget_amod. Qed.

Lemma tcb_at_upd_eq i f st : tcb_at (upd_tcb i f st) i = f (tcb_at st i).
Proof. apply aget_amod_eq. Qed.

Lemma tcb_at_upd_ne i f st j : i ≠ j → tcb_at (upd_tcb i f st) j = tcb_at st j.
Proof. apply aget_amod_ne. Qed.

Lemma tcb_at_tcount f st j : tcb_at (tcount f st) j = tcb_at st j.
Proof. done. Qed.

Lemma tcb_at_iss x st j : tcb_at (st⟦iss_counter := x⟧) j = tcb_at st j.
Proof. done. Qed.

Create Rewrite HintDb tcp.
#[export] Hint Rewrite tcb_at_upd_eq tcb_at_tcount tcb_at_iss : tcp.

(** The blocks after a sequence of updates: of block [i], and of another one. *)
Ltac same_block := autorewrite with tcp; done.
Ltac other_block := repeat first [rewrite tcb_at_upd_ne by done | rewrite tcb_at_tcount | rewrite tcb_at_iss]; done.

(** ** Sequence numbers *)

Lemma i32_wrap x k : i32 (x + k * 2 ^ 32) = i32 x.
Proof. unfold i32. replace (x + k * 2 ^ 32 + 2 ^ 31) with (x + 2 ^ 31 + k * 2 ^ 32) by lia. by rewrite Z.mod_add by lia. Qed.

Lemma i32_sub_u32 a b : i32 (a - u32 b) = i32 (a - b).
Proof.
  unfold u32. pose proof (Z.div_mod b (2 ^ 32) ltac:(lia)).
  replace (a - b mod 2 ^ 32) with (a - b + (b / 2 ^ 32) * 2 ^ 32) by lia. apply i32_wrap.
Qed.

Lemma i32_u32_sub a b : i32 (u32 a - b) = i32 (a - b).
Proof.
  unfold u32. pose proof (Z.div_mod a (2 ^ 32) ltac:(lia)).
  replace (a mod 2 ^ 32 - b) with (a - b + (- (a / 2 ^ 32)) * 2 ^ 32) by lia. apply i32_wrap.
Qed.

(** Sequence numbers are compared modulo 2^32: [a] is before [a + d] for every
    distance below 2^31, also when the sum wraps around. *)
Lemma seq_compare a d : 0 < d < 2 ^ 31 →
  let b := u32 (a + d) in
  seq_lt a b = true ∧ seq_lt b a = false ∧ seq_le a b = true ∧ seq_le b a = false ∧ seq_gt b a = true ∧ seq_gt a b = false.
Proof.
  intros Hd. cbv zeta. unfold seq_lt, seq_le, seq_gt. rewrite i32_sub_u32, i32_u32_sub.
  rewrite !i32_small by lia. repeat split; lia.
Qed.

Lemma seq_le_refl a : seq_le a a = true.
Proof. unfold seq_le. by rewrite Z.sub_diag. Qed.

Lemma seq_gt_refl a : seq_gt a a = false.
Proof. unfold seq_gt. by rewrite Z.sub_diag. Qed.

(** ** Segments on the wire *)

(** Fields within their types. *)
Definition is_u16 (x : Z) : Prop := 0 ≤ x < 65536.
Definition is_u32 (x : Z) : Prop := 0 ≤ x < 2 ^ 32.

Record wire_ok (t : tcp_cb) : Prop := {
  wo_lport : is_u16 (local_port t);
  wo_rport : is_u16 (remote_port t);
  wo_snd : is_u32 (snd_nxt t);
  wo_rcv : is_u32 (rcv_nxt t);
}.

(** The amount of sequence space a segment takes. *)
Definition seq_space (flags : Z) (data : list Z) : Z :=
  Z.of_nat (length data) + (if truth (flags &: TCP_FLAG_SYN) then 1 else 0) + (if truth (flags &: TCP_FLAG_FIN) then 1 else 0).

(** A segment as it is on the wire (RFC 793). *)
Definition tcp_wire (sport dport seq ack flags window c : Z) (data : list Z) : list Z :=
  be16 sport ++ be16 dport ++ be32 seq ++ be32 ack ++ [0x50; flags] ++ be16 window ++ put16 c ++ [0; 0] ++ data.

Lemma htons_u16 x : htons (u16 x) = htons x.
Proof.
  unfold htons, u16. rewrite !land_ff, !Z.shiftr_div_pow2 by done. change (2 ^ 16) with 65536. change (2 ^ 8) with 256.
  replace (x mod 65536 mod 256) with (x mod 256) by (Z.to_euclidean_division_equations; lia).
  by replace (x mod 65536 / 256 mod 256) with (x / 256 mod 256) by (Z.to_euclidean_division_equations; lia).
Qed.

Lemma tcp_header_wire sport dport seq ack flags window c data :
  is_u16 sport → is_u16 dport → is_u32 seq → is_u32 ack →
  tcp_header sport dport seq ack HEADER_OFFSET flags window c ++ data =
  tcp_wire sport dport seq ack flags (u16 window) c data.
Proof.
  intros. unfold tcp_header, tcp_wire, be16, be32. rewrite <-(htons_u16 window).
  rewrite !put16_htons by (done || apply u16_range). rewrite !put32_htonl by done. by rewrite <-!app_assoc.
Qed.

Lemma tcp_wire_packet sport dport seq ack flags window c data :
  is_byte flags → bytes data → 20 + Z.of_nat (length data) < 65536 →
  packet (tcp_header sport dport seq ack HEADER_OFFSET flags window c ++ data) ∧
  Z.of_nat (length (tcp_header sport dport seq ack HEADER_OFFSET flags window c ++ data)) = 20 + Z.of_nat (length data).
Proof.
  intros Hf Hd Hl.
  assert (Z.of_nat (length (tcp_header sport dport seq ack HEADER_OFFSET flags window c ++ data)) = 20 + Z.of_nat (length data))
    as E by (rewrite length_app; cbn; lia). split; [|done]. split; [|lia].
  unfold tcp_header. rewrite !bytes_app, !bytes_cons. split_and!; auto with kernel. done.
Qed.

(** The checksum the sender stores makes the segment acceptable. *)
Lemma tcp_checksum_stored src_ip dest_ip sport dport seq ack flags window data :
  is_byte flags → bytes data → 20 + Z.of_nat (length data) < 65536 →
  let hdr c := tcp_header sport dport seq ack HEADER_OFFSET flags window c in
  ∃ c, tcp_checksum src_ip dest_ip (hdr 0 ++ data) (20 + Z.of_nat (length data)) = Some c ∧
       tcp_checksum src_ip dest_ip (hdr c ++ data) (20 + Z.of_nat (length data)) = Some 0.
Proof.
  intros Hf Hd Hl. cbv zeta. unfold tcp_checksum. set (n := 20 + Z.of_nat (length data)).
  set (sum := pseudo_sum src_ip dest_ip IP_PROTO_TCP n).
  assert (0 ≤ sum ≤ 6 * 65535) as Hs by apply pseudo_sum_range. clearbody sum.
  destruct (tcp_wire_packet sport dport seq ack flags window 0 data) as [Hp0 E0]; [done..|]. fold n in E0.
  set (pre := put16 (htons sport) ++ put16 (htons dport) ++ put32 (htonl seq) ++ put32 (htonl ack)
              ++ [HEADER_OFFSET; flags] ++ put16 (htons window)).
  assert (∀ c, tcp_header sport dport seq ack HEADER_OFFSET flags window c ++ data = pre ++ put16 c ++ put16 0 ++ data) as Ht
    by (intros c; unfold tcp_header, pre; by rewrite <-!app_assoc).
  pose proof (checksum_from_ok sum _ Hp0 Hs) as Hc. rewrite E0 in Hc. eexists. split; [exact Hc|].
  rewrite !Ht in *. refine (proj2 (checksum_inserted sum pre (put16 0 ++ data) n _ eq_refl Hs Hp0 (eq_sym E0) Hc)).
Qed.

(** Reading the fields back. *)
Lemma parse_segment_wire src_ip dest_ip sport dport seq ack flags window c data :
  is_u16 sport → is_u16 dport → is_u32 seq → is_u32 ack → 20 + Z.of_nat (length data) < 65536 →
  let p := tcp_header sport dport seq ack HEADER_OFFSET flags window c ++ data in
  parse_segment src_ip dest_ip p (20 + Z.of_nat (length data)) =
  Some (mk_segment src_ip dest_ip sport dport seq ack flags (u16 window) p 20 (Z.of_nat (length data))).
Proof.
  intros Hs Hd Hq Ha Hl. cbv zeta. set (p := _ ++ data). unfold parse_segment.
  change (le16 p 0) with (le16 (put16 (htons sport)) 0). change (le16 p 2) with (le16 (put16 (htons dport)) 0).
  change (le32 p 4) with (le32 (put32 (htonl seq)) 0). change (le32 p 8) with (le32 (put32 (htonl ack)) 0).
  change (byte_at p 12) with (Some HEADER_OFFSET). change (byte_at p 13) with (Some flags).
  change (le16 p 14) with (le16 (put16 (htons window)) 0).
  rewrite !le16_put16, !le32_put32. cbn [mbind option_bind]. unfold ntohs, ntohl. rewrite <-(htons_u16 window).
  rewrite !(u16_small (htons _)) by apply htons_range. rewrite !u32_small by apply htonl_range.
  rewrite !htons_involutive by (done || apply u16_range). rewrite !htonl_involutive by done.
  change (u8 ((HEADER_OFFSET >>: 4) * 4)) with 20.
  replace (20 + Z.of_nat (length data) - 20) with (Z.of_nat (length data)) by lia. by rewrite (u16_small (Z.of_nat (length data))) by lia.
Qed.

Section proofs.
Context {H : Type} `{KernelHeap H}.

(** The block after a segment has been sent. *)
Definition block_sent (flags : Z) (data : list Z) (now : Z) (t : tcp_cb) : tcp_cb :=
  t⟦last_tx_time := now⟧⟦snd_nxt := u32 (snd_nxt t + seq_space flags data)⟧.

(** Only block [i] changes, and it becomes [t]. *)
Definition becomes (i : Z) (t : tcp_cb) (st st' : tcp_state) : Prop :=
  tcb_at st' i = t ∧ ∀ j, j ≠ i → tcb_at st' j = tcb_at st j.

Lemma becomes_upd i f st : becomes i (f (tcb_at st i)) st (upd_tcb i f st).
Proof. split; [apply tcb_at_upd_eq|]. intros j Hj. by apply tcb_at_upd_ne. Qed.

Lemma becomes_trans i t t' st st' st'' : becomes i t st st' → becomes i t' st' st'' → becomes i t' st st''.
Proof. intros [_ H1] [H2 H3]. split; [done|]. intros j Hj. rewrite H3, H1; done. Qed.

Lemma sent_block i flags data now st :
  is_u32 (snd_nxt (tcb_at st i)) →
  let len := Z.of_nat (length data) in
  let st1 := tcount (fun s => s⟦segments_sent ::= inc⟧) (upd_tcb i (fun t => t⟦last_tx_time := now⟧) st) in
  let st2 := if 0 <? len then upd_tcb i (fun t => t⟦snd_nxt ::= fun x => u32 (x + len)⟧) st1 else st1 in
  let st3 := if truth (flags &: TCP_FLAG_SYN) then upd_tcb i (fun t => t⟦snd_nxt ::= inc⟧) st2 else st2 in
  let st4 := if truth (flags &: TCP_FLAG_FIN) then upd_tcb i (fun t => t⟦snd_nxt ::= inc⟧) st3 else st3 in
  becomes i (block_sent flags data now (tcb_at st i)) st st4.
Proof.
  intros Hs. cbv zeta. split.
  - unfold block_sent, seq_space. destruct (Z.ltb_spec 0 (Z.of_nat (length data))) as [Hl|Hl];
      [|assert (Z.of_nat (length data) = 0) as -> by (clear -Hl; lia)];
      destruct (truth (flags &: TCP_FLAG_SYN)), (truth (flags &: TCP_FLAG_FIN)); autorewrite with tcp; unfold inc;
      cbn; f_equal; rewrite ?u32_add_l, <-?Z.add_assoc, ?u32_add_l;
      first [f_equal; lia | rewrite Z.add_0_r; symmetry; by apply u32_small].
  - intros j Hj. destruct (0 <? _), (truth (flags &: TCP_FLAG_SYN)), (truth (flags &: TCP_FLAG_FIN));
      rewrite ?tcb_at_upd_ne, ?tcb_at_tcount, ?tcb_at_upd_ne by done; done.
Qed.

(** A segment that is sent: its bytes, and the sequence space it takes. *)
Lemma tcp_send_segment_ok i flags data now st (e : kenv H) n :
  let t := tcb_at st i in
  tcpip_initialized (knet e) = true → wire_ok t → is_byte flags → bytes data → Z.of_nat (length data) ≤ TCP_MSS →
  serves (S n) (kheap e) →
  ∃ c st' e',
    let seg := tcp_wire (local_port t) (remote_port t) (snd_nxt t) (rcv_nxt t) flags (u16 (rcv_wnd t)) c data in
    tcp_send_segment i flags data now st e = Some (0, st', e') ∧
    becomes i (block_sent flags data now t) st st' ∧
    emitted (remote_ip t) IP_PROTO_TCP seg (knet e) (knet e') ∧ serves n (kheap e') ∧
    tcp_checksum (local_ip t) (remote_ip t) seg (20 + Z.of_nat (length data)) = Some 0.
Proof.
  cbv zeta. unfold TCP_MSS. intros Hi [] Hf Hd Hl Hs. unfold tcp_send_segment, TCP_HEADER_MIN_SIZE. rewrite u16_small by lia.
  destruct (Hs (20 + Z.of_nat (length data))) as (p & h & Hk & Hp & _ & Hn); [left; lia|lia|].
  rewrite Hk. cbn [mbind option_bind]. case_Z (p =? 0); [done|].
  case_Z (20 + Z.of_nat (length data) <? 20 + Z.of_nat (length data)); [lia|]. set (t := tcb_at st i) in *.
  destruct (tcp_checksum_stored (local_ip t) (remote_ip t) (local_port t) (remote_port t) (snd_nxt t) (rcv_nxt t)
              flags (rcv_wnd t) data) as (c & Hc & Hv); [done|done|lia|].
  rewrite Hc. cbn [mbind option_bind].
  destruct (tcp_wire_packet (local_port t) (remote_port t) (snd_nxt t) (rcv_nxt t) flags (rcv_wnd t) c data) as [_ Elen];
    [done|done|lia|].
  destruct (ip_send_emitted (remote_ip t) IP_PROTO_TCP
              (tcp_header (local_port t) (remote_port t) (snd_nxt t) (rcv_nxt t) HEADER_OFFSET flags (rcv_wnd t) c ++ data)
              (20 + Z.of_nat (length data)) (knet e) Hi ltac:(unfold is_byte, IP_PROTO_TCP; lia) (eq_sym Elen)) as (ns & Hsend & Hem).
  unfold ip_send_packet. rewrite Hsend. cbn [mbind option_bind Z.eqb].
  exists c. do 2 eexists. rewrite <-tcp_header_wire by done. split; [reflexivity|].
  split; [by apply sent_block|]. split; [exact Hem|done].
Qed.
(** A segment on the wire reaches the block it is for. *)
Lemma tcp_receive_wire src_ip dest_ip sport dport seq ack flags window c data now st (e : kenv H) :
  is_u16 sport → is_u16 dport → is_u32 seq → is_u32 ack → is_u16 window → 20 + Z.of_nat (length data) < 65536 →
  let p := tcp_wire sport dport seq ack flags window c data in
  let n := 20 + Z.of_nat (length data) in
  let sg := mk_segment src_ip dest_ip sport dport seq ack flags window p 20 (Z.of_nat (length data)) in
  let st1 := tcount (fun s => s⟦segments_received ::= inc⟧) st in
  tcp_checksum src_ip dest_ip p n = Some 0 →
  tcp_receive src_ip dest_ip (Some p) n now st e =
    match tcp_find_connection dest_ip dport src_ip sport st with
    | None => e ← reset_peer sg ack (u32 (seq + 1)) e; Some (-1, st1, e)
    | Some i => '(st, e) ← tcp_input i sg now st1 e; Some (0, st, e)
    end.
Proof.
  intros Hs Hd Hq Ha Hw Hl. cbv zeta. intros Hc. unfold tcp_receive, TCP_HEADER_MIN_SIZE.
  case_Z (20 + Z.of_nat (length data) <? 20); [lia|].
  assert (tcp_wire sport dport seq ack flags window c data =
    tcp_header sport dport seq ack HEADER_OFFSET flags window c ++ data) as Hwire
    by (rewrite tcp_header_wire by done; by rewrite (u16_small window) by exact Hw).
  rewrite Hwire in *. rewrite parse_segment_wire by done. rewrite (u16_small window) by exact Hw.
  cbn [mbind option_bind]. rewrite Hc. done.
Qed.
End proofs.

(** ** Lookup *)

(** Block [i] is the connection between the two endpoints. *)
Record connects (st : tcp_state) (i lip lport rip rport : Z) : Prop := {
  co_use : in_use (tcb_at st i) = true;
  co_lip : local_ip (tcb_at st i) = lip ∨ local_ip (tcb_at st i) = 0;
  co_lport : local_port (tcb_at st i) = lport;
  co_rip : remote_ip (tcb_at st i) = rip;
  co_rport : remote_port (tcb_at st i) = rport;
}.

Record listens (st : tcp_state) (i lip lport : Z) : Prop := {
  li_use : in_use (tcb_at st i) = true;
  li_state : state (tcb_at st i) = LISTEN;
  li_lip : local_ip (tcb_at st i) = lip ∨ local_ip (tcb_at st i) = 0;
  li_lport : local_port (tcb_at st i) = lport;
}.

Definition is_fd (i : Z) : Prop := 0 ≤ i < TCP_MAX_CONNECTIONS.

Lemma connects_test st i lip lport rip rport :
  (let t := tcb_at st i in
   in_use t && (local_port t =? lport) && (remote_port t =? rport)
   && ((local_ip t =? lip) || (local_ip t =? 0)) && (remote_ip t =? rip)) = true ↔ connects st i lip lport rip rport.
Proof.
  cbv zeta. rewrite !andb_true_iff, orb_true_iff, !Z.eqb_eq. split; [intros [[[[] ?] ?] ?]; by split|].
  by intros [].
Qed.

Lemma listens_test st i lip lport :
  (let t := tcb_at st i in
   in_use t && state_is t LISTEN && (local_port t =? lport) && ((local_ip t =? lip) || (local_ip t =? 0))) = true
  ↔ listens st i lip lport.
Proof.
  cbv zeta. unfold state_is. rewrite !andb_true_iff, orb_true_iff, !Z.eqb_eq, bool_decide_eq_true.
  split; [intros [[[] ?] ?]; by split|]. by intros [].
Qed.

Lemma find_up_unique n f i :
  0 ≤ i < Z.of_nat n → f i = true → (∀ j, 0 ≤ j < Z.of_nat n → f j = true → j = i) → find_up n 0 f = Some i.
Proof.
  intros Hi Hf Hu. destruct (find_up n 0 f) as [j|] eqn:E.
  - apply find_up_Some in E as (Hj & Hfj & _). f_equal. apply Hu; [lia|done].
  - pose proof (proj1 (find_up_None _ _ _) E i ltac:(lia)). congruence.
Qed.

Lemma find_connected st i lip lport rip rport :
  is_fd i → connects st i lip lport rip rport → (∀ j, is_fd j → connects st j lip lport rip rport → j = i) →
  tcp_find_connection lip lport rip rport st = Some i.
Proof.
  intros Hi Hc Hu. unfold tcp_find_connection. erewrite find_up_unique; [done|done|by apply connects_test|].
  intros j Hj Ht. apply Hu; [done|by apply connects_test].
Qed.

Lemma find_listener st i lip lport rip rport :
  is_fd i → listens st i lip lport → (∀ j, is_fd j → listens st j lip lport → j = i) →
  (∀ j, is_fd j → ¬ connects st j lip lport rip rport) →
  tcp_find_connection lip lport rip rport st = Some i.
Proof.
  intros Hi Hl Hu Hn. unfold tcp_find_connection. destruct (find_up _ 0 _) as [j|] eqn:E.
  { apply find_up_Some in E as (Hj & Ht & _). apply connects_test in Ht. by destruct (Hn j Hj). }
  apply find_up_unique; [done|by apply listens_test|]. intros j Hj Ht. apply Hu; [done|by apply listens_test].
Qed.

(** ** The three-way handshake *)

Section handshake.
Context {H : Type} `{KernelHeap H}.

(** The block of a client after its SYN. *)
Definition syn_sent_block (t : tcp_cb) (rip rport q now : Z) : tcp_cb :=
  t⟦remote_ip := rip⟧⟦remote_port := rport⟧⟦iss := q⟧⟦snd_una := q⟧⟦snd_nxt := u32 (q + 1)⟧⟦state := SYN_SENT⟧⟦last_tx_time := now⟧.

Lemma tcp_connect_start_ok i rip rport now st (e : kenv H) n :
  let t := tcb_at st i in
  is_fd i → in_use t = true → state t = CLOSED → is_u16 (local_port t) → local_port t ≠ 0 → is_u16 rport →
  is_u32 (rcv_nxt t) → tcpip_initialized (knet e) = true → serves (S n) (kheap e) →
  ∃ q c st' e', let seg := tcp_wire (local_port t) rport q (rcv_nxt t) TCP_FLAG_SYN (u16 (rcv_wnd t)) c [] in
    tcp_connect_start i rip rport now st e = Some (None, st', e') ∧ is_u32 q ∧
    becomes i (syn_sent_block t rip rport q now) st st' ∧
    emitted rip IP_PROTO_TCP seg (knet e) (knet e') ∧ serves n (kheap e') ∧
    tcp_checksum (local_ip t) rip seg 20 = Some 0.
Proof.
  cbv zeta. intros Hi Hu Hc Hp Hp0 Hr Hn Hnet Hs. unfold tcp_connect_start, bad_fd.
  unfold is_fd in Hi. case_Z (i <? 0); [lia|]. case_Z (TCP_MAX_CONNECTIONS <=? i); [lia|]. cbn [orb].
  rewrite Hu. unfold state_is. rewrite Hc. cbn [negb orb bool_decide decide_rel]. rewrite bool_decide_true by done. cbn [negb].
  case_Z (local_port (tcb_at st i) =? 0); [done|]. cbn [mbind option_bind]. unfold tcp_generate_iss.
  set (q := u32 (iss_counter _ + now + 64000)). set (st1 := upd_tcb i _ _).
  set (t := tcb_at st i) in *.
  set (t1 := t⟦remote_ip := rip⟧⟦remote_port := rport⟧⟦iss := q⟧⟦snd_una := q⟧⟦snd_nxt := q⟧⟦state := SYN_SENT⟧).
  assert (becomes i t1 st st1) as [Ht1 Hne].
  { subst st1. split; [same_block|intros j Hj; other_block]. }
  destruct (tcp_send_segment_ok i TCP_FLAG_SYN [] now st1 e n) as (c & st' & e' & Hsend & Hb & Hem & Hse & Hck);
    rewrite ?Ht1 in *; [done|split; try done; apply u32_range|done|constructor|done|done|].
  exists q, c. do 2 eexists. rewrite Hsend. split; [reflexivity|]. split; [apply u32_range|]. split; [|done].
  destruct Hb as [Hb1 Hb2]. split; [exact Hb1|]. intros j Hj. rewrite <-Hne by done. by apply Hb2.
Qed.
(** The block of a connection that a SYN has opened. *)
Definition accepted_block (rb sb l s now : Z) (sg : segment) : tcp_cb :=
  (zero : tcp_cb)⟦in_use := true⟧⟦state := SYN_RECEIVED⟧⟦local_ip := sg_dest_ip sg⟧⟦local_port := sg_dest_port sg⟧
    ⟦remote_ip := sg_src_ip sg⟧⟦remote_port := sg_src_port sg⟧⟦snd_una := s⟧⟦snd_nxt := u32 (s + 1)⟧⟦snd_wnd := sg_window sg⟧
    ⟦rcv_nxt := u32 (sg_seq sg + 1)⟧⟦rcv_wnd := TCP_WINDOW_SIZE⟧⟦iss := s⟧⟦irs := sg_seq sg⟧⟦recv_buffer := rb⟧
    ⟦send_buffer := sb⟧⟦rto := TCP_RETRANSMIT_BASE⟧⟦last_tx_time := now⟧⟦parent_socket := l⟧.

Definition queue_pending (j : Z) (t : tcp_cb) : tcp_cb :=
  if pending_count t <? backlog t
  then t⟦pending_connections ::= fun m => aset m (pending_count t) j⟧⟦pending_count ::= fun n => n + 1⟧ else t.

Lemma alloc_buffers_ok j st (e : kenv H) n : serves (S (S n)) (kheap e) →
  ∃ rb sb h, alloc_buffers j st e =
      Some (true, upd_tcb j (fun t => t⟦recv_buffer := rb⟧⟦send_buffer := sb⟧) st, mk_kenv (knet e) h) ∧
    rb ≠ 0 ∧ sb ≠ 0 ∧ serves n h.
Proof.
  intros Hs. unfold alloc_buffers, TCP_RECV_BUFFER_SIZE, TCP_SEND_BUFFER_SIZE.
  destruct (Hs 65536) as (rb & h & Hk & Hrb & Hs' & _); [right; lia|lia|]. rewrite Hk. cbn [mbind option_bind].
  destruct (Hs' 65536) as (sb & h' & Hk' & Hsb & Hs'' & _); [right; lia|lia|]. rewrite Hk'. cbn [mbind option_bind].
  case_Z (rb =? 0); [done|]. case_Z (sb =? 0); [done|]. exists rb, sb, h'. by split_and!.
Qed.

Lemma tcp_alloc_tcb_ok st : (∃ k, is_fd k ∧ in_use (tcb_at st k) = false) →
  ∃ j, is_fd j ∧ in_use (tcb_at st j) = false ∧
    tcp_alloc_tcb st = (Some j, upd_tcb j (fun _ => (zero : tcp_cb)⟦in_use := true⟧⟦rcv_wnd := TCP_WINDOW_SIZE⟧
                                                   ⟦rto := TCP_RETRANSMIT_BASE⟧⟦parent_socket := -1⟧) st).
Proof.
  intros (k & Hk & Hfree). unfold tcp_alloc_tcb. destruct (find_up _ 0 _) as [j|] eqn:E.
  - apply find_up_Some in E as (Hj & Hf & _). exists j. split; [done|]. split; [by apply negb_true_iff|done].
  - pose proof (proj1 (find_up_None _ _ _) E k Hk) as Hf. cbn in Hf. by rewrite Hfree in Hf.
Qed.

Lemma rcv_listen_ok l sg now st (e : kenv H) n :
  has TCP_FLAG_SYN sg = true → in_use (tcb_at st l) = true → (∃ k, is_fd k ∧ in_use (tcb_at st k) = false) →
  is_u16 (sg_dest_port sg) → is_u16 (sg_src_port sg) → tcpip_initialized (knet e) = true → serves (3 + n) (kheap e) →
  ∃ j rb sb s c st' e',
    let seg := tcp_wire (sg_dest_port sg) (sg_src_port sg) s (u32 (sg_seq sg + 1)) (TCP_FLAG_SYN |: TCP_FLAG_ACK) 65535 c [] in
    rcv_listen l sg now st e = Some (st', e') ∧ is_fd j ∧ in_use (tcb_at st j) = false ∧ is_u32 s ∧
    tcb_at st' j = accepted_block rb sb l s now sg ∧ tcb_at st' l = queue_pending j (tcb_at st l) ∧
    (∀ k, k ≠ j → k ≠ l → tcb_at st' k = tcb_at st k) ∧
    emitted (sg_src_ip sg) IP_PROTO_TCP seg (knet e) (knet e') ∧ serves n (kheap e') ∧
    tcp_checksum (sg_dest_ip sg) (sg_src_ip sg) seg 20 = Some 0.
Proof.
  intros Hsyn Hl Hfree Hdp Hsp Hnet Hs. unfold rcv_listen. rewrite Hsyn. cbn [negb].
  destruct (tcp_alloc_tcb_ok st Hfree) as (j & Hj & Hju & ->). set (st0 := upd_tcb j _ st).
  destruct (alloc_buffers_ok j st0 e (S n) Hs) as (rb & sb & h & -> & Hrb & Hsb & Hh). cbn [mbind option_bind negb].
  unfold tcp_generate_iss. set (s := u32 (_ + now + 64000)).
  set (st1 := upd_tcb j _ _). subst st0.
  assert (tcb_at st1 j = (accepted_block rb sb l s now sg)⟦last_tx_time := 0⟧⟦snd_nxt := s⟧) as Ht by (unfold st1; same_block).
  assert (∀ k, k ≠ j → tcb_at st1 k = tcb_at st k) as Hne by (intros k Hk; unfold st1; other_block).
  clearbody st1. assert (is_u32 s) as Hsr by apply u32_range. clearbody s.
  destruct (tcp_send_segment_ok j (TCP_FLAG_SYN |: TCP_FLAG_ACK) [] now st1 (mk_kenv (knet e) h) n)
    as (c & st2 & e' & Hsend & [Hb Hbo] & Hem & Hse & Hck);
    rewrite ?Ht in *; [done|split; try done; apply u32_range|done|constructor|done|done|].
  rewrite Hsend. cbn [mbind option_bind]. exists j, rb, sb, s, c. do 2 eexists. split; [reflexivity|].
  assert (l ≠ j) as Hlj by (intros ->; congruence).
  assert (tcb_at st2 l = tcb_at st l) as Hl2 by (by rewrite Hbo, Hne).
  unfold queue_pending. rewrite Hl2. split_and!; try done; destruct (_ <? _); try (by rewrite ?tcb_at_tcount, ?tcb_at_upd_ne).
  - by rewrite tcb_at_tcount, tcb_at_upd_eq, Hl2.
  - intros k Hk Hk'. rewrite tcb_at_tcount, tcb_at_upd_ne by done. by rewrite Hbo, Hne.
  - intros k Hk Hk'. rewrite tcb_at_tcount. by rewrite Hbo, Hne.
Qed.
(** The block of a client after the answer to its SYN. *)
Definition open_block (t : tcp_cb) (s window now : Z) : tcp_cb :=
  t⟦irs := s⟧⟦rcv_nxt := u32 (s + 1)⟧⟦snd_wnd := window⟧⟦snd_una := snd_nxt t⟧⟦state := ESTABLISHED⟧⟦last_tx_time := now⟧.

Lemma rcv_syn_sent_ok i sg now st (e : kenv H) n :
  let t := tcb_at st i in
  sg_flags sg = (TCP_FLAG_SYN |: TCP_FLAG_ACK) → snd_nxt t = u32 (iss t + 1) → sg_ack sg = snd_nxt t →
  is_u16 (local_port t) → is_u16 (remote_port t) → tcpip_initialized (knet e) = true → serves (S n) (kheap e) →
  ∃ c st' e',
    let seg := tcp_wire (local_port t) (remote_port t) (snd_nxt t) (u32 (sg_seq sg + 1)) TCP_FLAG_ACK (u16 (rcv_wnd t)) c [] in
    rcv_syn_sent i sg now st e = Some (st', e') ∧
    becomes i (open_block t (sg_seq sg) (sg_window sg) now) st st' ∧
    emitted (remote_ip t) IP_PROTO_TCP seg (knet e) (knet e') ∧ serves n (kheap e') ∧
    tcp_checksum (local_ip t) (remote_ip t) seg 20 = Some 0.
Proof.
  cbv zeta. intros Hf Hnx Hack Hlp Hrp Hnet Hs. unfold rcv_syn_sent, has. rewrite Hf.
  set (t := tcb_at st i) in *. destruct (seq_compare (iss t) 1 ltac:(lia)) as (_ & _ & _ & Hle & Hgt & _).
  change (truth ((TCP_FLAG_SYN |: TCP_FLAG_ACK) &: TCP_FLAG_ACK)) with true.
  change (truth ((TCP_FLAG_SYN |: TCP_FLAG_ACK) &: TCP_FLAG_RST)) with false.
  change (truth ((TCP_FLAG_SYN |: TCP_FLAG_ACK) &: TCP_FLAG_SYN)) with true. cbn [andb].
  assert (seq_le (sg_ack sg) (iss t) = false) as -> by (by rewrite Hack, Hnx).
  rewrite Hack, seq_gt_refl. cbn [orb].
  set (st1 := upd_tcb i (fun t => t⟦snd_una := _⟧) _).
  assert (tcb_at st1 i = t⟦irs := sg_seq sg⟧⟦rcv_nxt := u32 (sg_seq sg + 1)⟧⟦snd_wnd := sg_window sg⟧⟦snd_una := snd_nxt t⟧) as Ht1
    by (unfold st1; same_block).
  assert (seq_gt (snd_una (tcb_at st1 i)) (iss (tcb_at st1 i)) = true) as -> by (rewrite Ht1; cbn; by rewrite Hnx).
  unfold set_state.
  set (st2 := upd_tcb i _ st1).
  assert (becomes i ((open_block t (sg_seq sg) (sg_window sg) now)⟦last_tx_time := last_tx_time t⟧) st st2) as [Ht2 Hne].
  { split; [unfold st2; autorewrite with tcp; by rewrite Ht1|]. intros j Hj. unfold st2, st1. other_block. }
  destruct (tcp_send_segment_ok i TCP_FLAG_ACK [] now st2 e n) as (c & st' & e' & Hsend & [Hb Hbo] & Hem & Hse & Hck);
    rewrite ?Ht2 in *; [done| |done|constructor|done|done|].
  { split; cbn; try done; rewrite ?Hnx; apply u32_range. }
  rewrite Hsend. cbn [mbind option_bind]. exists c. do 2 eexists. split; [reflexivity|]. split; [|done].
  split; [|intros j Hj; by rewrite Hbo, Hne]. rewrite Hb. unfold block_sent, open_block. cbn.
  rewrite Z.add_0_r, Hnx, u32_idemp. done.
Qed.
End handshake.

(** A bound socket that no other shares its port with. *)
Record can_connect (st : tcp_state) (i a pa : Z) : Prop := {
  cc_fd : is_fd i;
  cc_use : in_use (tcb_at st i) = true;
  cc_state : state (tcb_at st i) = CLOSED;
  cc_ip : local_ip (tcb_at st i) = a;
  cc_port : local_port (tcb_at st i) = pa;
  cc_pos : 0 < pa < 65536;
  cc_rcv : is_u32 (rcv_nxt (tcb_at st i));
  cc_unique j : is_fd j → in_use (tcb_at st j) = true → local_port (tcb_at st j) = pa → j = i;
}.

(** A listening socket with room for a connection from [(a, pa)]. *)
Record can_accept (st : tcp_state) (l b pb a pa : Z) : Prop := {
  ca_fd : is_fd l;
  ca_listens : listens st l b pb;
  ca_port : is_u16 pb;
  ca_pending : pending_count (tcb_at st l) = 0;
  ca_backlog : 0 < backlog (tcb_at st l);
  ca_free : ∃ k, is_fd k ∧ in_use (tcb_at st k) = false;
  ca_unique j : is_fd j → listens st j b pb → j = l;
  ca_new j : is_fd j → ¬ connects st j b pb a pa;
}.

(** The two ends of an open connection agree: each expects the byte the other
    sends next, and nothing is unacknowledged. *)
Record peers (a pa b pb : Z) (ta tb : tcp_cb) : Prop := {
  pe_use : in_use ta = true ∧ in_use tb = true;
  pe_state : state ta = ESTABLISHED ∧ state tb = ESTABLISHED;
  pe_a : local_ip ta = a ∧ local_port ta = pa ∧ remote_ip ta = b ∧ remote_port ta = pb;
  pe_b : local_ip tb = b ∧ local_port tb = pb ∧ remote_ip tb = a ∧ remote_port tb = pa;
  pe_ab : rcv_nxt tb = snd_nxt ta;
  pe_ba : rcv_nxt ta = snd_nxt tb;
  pe_acked : snd_una ta = snd_nxt ta ∧ snd_una tb = snd_nxt tb;
}.

(** What a host has handed to its IP layer, newest first. *)
Definition outbox (s : net_state) : list (Z * Z * list Z) := (fun '(d, proto, _, p) => (d, proto, p)) <$> ip_out s.

Lemma emitted_outbox d proto p s s' : emitted d proto p s s' →
  outbox s' = (d, proto, p) :: outbox s ∧ tcpip_initialized s' = tcpip_initialized s.
Proof. by intros (h & _ & ->). Qed.

Section open.
Context {H : Type} `{KernelHeap H}.

(** The new connection is the one the next segments of the peer reach. *)
Lemma accepted_found st st1 l j a pa b pb rb sb s now sg :
  can_accept st l b pb a pa → is_fd j → in_use (tcb_at st j) = false →
  sg_dest_ip sg = b → sg_dest_port sg = pb → sg_src_ip sg = a → sg_src_port sg = pa →
  tcb_at st1 j = accepted_block rb sb l s now sg → tcb_at st1 l = queue_pending j (tcb_at st l) →
  (∀ k, k ≠ j → k ≠ l → tcb_at st1 k = tcb_at st k) →
  tcp_find_connection b pb a pa st1 = Some j.
Proof.
  intros [] Hj Hju E1 E2 E3 E4 Htj Htl Hto. apply find_connected; [done|split; rewrite Htj; auto|].
  intros k Hk Hck. destruct (decide (k = j)) as [|Hkj]; [done|]. destruct (ca_new0 k Hk).
  destruct (decide (k = l)) as [->|Hkl]; destruct Hck.
  - rewrite Htl in *. unfold queue_pending in *. by destruct (_ <? _).
  - rewrite Hto in * by done. done.
Qed.

(** The acknowledgement of the server's SYN opens the connection. *)
Lemma rcv_syn_received_ok j sg st (e : kenv H) s :
  sg_flags sg = TCP_FLAG_ACK → snd_una (tcb_at st j) = s → snd_nxt (tcb_at st j) = u32 (s + 1) → sg_ack sg = u32 (s + 1) →
  rcv_syn_received j sg st e = Some (upd_tcb j (fun t => t⟦state := ESTABLISHED⟧⟦snd_una := u32 (s + 1)⟧) st, e).
Proof.
  intros Hf Hu Hn Ha. unfold rcv_syn_received, has, ack_ok. rewrite Hf, Hu, Hn, Ha, seq_le_refl.
  destruct (seq_compare s 1 ltac:(lia)) as (_ & _ & -> & _). done.
Qed.

(** The listening socket hands the connection out. *)
Lemma tcp_accept_first l j st t0 : is_fd l → tcb_at st l = queue_pending j t0 →
  in_use t0 = true → state t0 = LISTEN → pending_count t0 = 0 → 0 < backlog t0 → (tcp_accept l st).1 = j.
Proof.
  intros Hl Ht Hu Hs Hp Hb. unfold tcp_accept, bad_fd. unfold is_fd in Hl. case_Z (l <? 0); [lia|].
  case_Z (TCP_MAX_CONNECTIONS <=? l); [lia|]. cbn [orb]. rewrite Ht. unfold queue_pending. rewrite Hp.
  case_Z (0 <? backlog t0); [|lia]. cbn. rewrite Hu. unfold state_is. cbn. rewrite Hs, Hp. cbn.
  by rewrite aget_aset_eq.
Qed.

(** The server's half of the handshake. *)
Lemma handshake_server l a pa b pb q ack window c now now' st (e : kenv H) n :
  can_accept st l b pb a pa → is_u16 pa → is_u32 q → is_u32 ack → is_u16 window →
  tcpip_initialized (knet e) = true → serves (3 + n) (kheap e) →
  let syn := tcp_wire pa pb q ack TCP_FLAG_SYN window c [] in
  tcp_checksum a b syn 20 = Some 0 →
  ∃ j s c' st1 e1, let synack := tcp_wire pb pa s (u32 (q + 1)) (TCP_FLAG_SYN |: TCP_FLAG_ACK) 65535 c' [] in
    tcp_receive a b (Some syn) 20 now st e = Some (0, st1, e1) ∧ is_u32 s ∧
    emitted a IP_PROTO_TCP synack (knet e) (knet e1) ∧ tcp_checksum b a synack 20 = Some 0 ∧
    ∀ window' c'', let last := tcp_wire pa pb (u32 (q + 1)) (u32 (s + 1)) TCP_FLAG_ACK window' c'' [] in
      is_u16 window' → tcp_checksum a b last 20 = Some 0 →
      ∃ st2, tcp_receive a b (Some last) 20 now' st1 e1 = Some (0, st2, e1) ∧ (tcp_accept l st2).1 = j ∧
        in_use (tcb_at st2 j) = true ∧ state (tcb_at st2 j) = ESTABLISHED ∧
        local_ip (tcb_at st2 j) = b ∧ local_port (tcb_at st2 j) = pb ∧
        remote_ip (tcb_at st2 j) = a ∧ remote_port (tcb_at st2 j) = pa ∧
        snd_una (tcb_at st2 j) = u32 (s + 1) ∧ snd_nxt (tcb_at st2 j) = u32 (s + 1) ∧ rcv_nxt (tcb_at st2 j) = u32 (q + 1).
Proof.
  intros Hacc Hpa Hq Hack Hw Hnet Hs. cbv zeta. intros Hck. pose proof Hacc as [Hfd Hlis Hpb Hpend Hbl Hfree Huni Hnew].
  rewrite (tcp_receive_wire a b pa pb q ack TCP_FLAG_SYN window c [] now) by done.
  rewrite (find_listener st l) by done. set (sg := mk_segment _ _ _ _ _ _ _ _ _ _ _). set (st0 := tcount _ st).
  unfold tcp_input. change (tcb_at st0 l) with (tcb_at st l). rewrite (li_state _ _ _ _ Hlis).
  destruct (rcv_listen_ok l sg now st0 e n) as (j & rb & sb & s & c' & st1 & e1 & -> & Hj & Hju & Hsr & Htj & Htl & Hto & Hem & Hse & Hv);
    [done|apply Hlis|done|done|done|done|done|].
  cbn [mbind option_bind]. exists j, s, c', st1, e1. do 4 (split; [done|]). intros window' c'' Hw' Hv'.
  assert (l ≠ j) as Hlj by (intros ->; pose proof (li_use _ _ _ _ Hlis); change (in_use (tcb_at st j) = false) in Hju; congruence).
  rewrite (tcp_receive_wire a b pa pb _ _ TCP_FLAG_ACK window' c'' [] now') by (done || apply u32_range).
  rewrite (accepted_found st st1 l j a pa b pb rb sb s now sg) by done.
  unfold tcp_input. rewrite tcb_at_tcount, Htj. cbn [state accepted_block]. cbn.
  rewrite (rcv_syn_received_ok j _ _ _ s) by (done || by rewrite tcb_at_tcount, Htj).
  cbn [mbind option_bind]. eexists. split; [reflexivity|].
  split. { eapply tcp_accept_first; [done|rewrite tcb_at_upd_ne by done; exact Htl|apply Hlis..|done|done]. }
  rewrite tcb_at_upd_eq, tcb_at_tcount, Htj. done.
Qed.
(** The client's half. *)
Lemma handshake_client i a pa b pb now st (e : kenv H) n :
  can_connect st i a pa → is_u16 pb → tcpip_initialized (knet e) = true → serves (2 + n) (kheap e) →
  ∃ q window c, let syn := tcp_wire pa pb q (rcv_nxt (tcb_at st i)) TCP_FLAG_SYN window c [] in
    is_u32 q ∧ is_u16 window ∧ tcp_checksum a b syn 20 = Some 0 ∧
    ∀ s window' c' start now1, let synack := tcp_wire pb pa s (u32 (q + 1)) (TCP_FLAG_SYN |: TCP_FLAG_ACK) window' c' [] in
      is_u32 s → is_u16 window' → tcp_checksum b a synack 20 = Some 0 → u32 (now1 - start) ≤ TCP_SYN_TIMEOUT →
      ∃ c'' st' e', let last := tcp_wire pa pb (u32 (q + 1)) (u32 (s + 1)) TCP_FLAG_ACK window c'' [] in
        tcp_connect i b pb now start [(now1, [(b, a, synack, 20)])] st e = Some (Some 0, st', e') ∧
        tcp_checksum a b last 20 = Some 0 ∧
        outbox (knet e') = (b, IP_PROTO_TCP, last) :: (b, IP_PROTO_TCP, syn) :: outbox (knet e) ∧
        tcb_at st' i = open_block (syn_sent_block (tcb_at st i) b pb q now) s window' now1.
Proof.
  intros [] Hpb Hnet Hs. cbv zeta.
  destruct (tcp_connect_start_ok i b pb now st e (S n)) as (q & c & st1 & e1 & Hstart & Hq & [Ht1 Hne] & Hem & Hse & Hv);
    rewrite ?cc_port0, ?cc_ip0 in *; [done|done|done|unfold is_u16; lia|lia|done|done|done|done|].
  destruct (emitted_outbox _ _ _ _ _ Hem) as [Hout Hnet1]. rewrite Hnet in Hnet1.
  exists q, (u16 (rcv_wnd (tcb_at st i))), c. split; [done|]. split; [apply u16_range|]. split; [done|].
  intros s window' c' start now1 Hsr Hw' Hv' Htime. unfold tcp_connect. rewrite Hstart. cbn [mbind option_bind].
  cbn [connect_wait]. rewrite Ht1. change (state_is (syn_sent_block (tcb_at st i) b pb q now) SYN_SENT) with true.
  cbn [negb tcp_arrive].
  case_Z (TCP_SYN_TIMEOUT <? u32 (now1 - start)); [lia|].
  rewrite (tcp_receive_wire b a pb pa s _ _ window' c' [] now1 st1 e1) by (done || apply u32_range || (unfold is_u16; lia)).
  rewrite (find_connected st1 i).
  2: done. 2: { split; rewrite Ht1; cbn; auto. }
  2: { intros j Hj []. destruct (decide (j = i)) as [|Hji]; [done|]. rewrite Hne in * by done. by apply cc_unique0. }
  unfold tcp_input. rewrite tcb_at_tcount, Ht1. change (state (syn_sent_block (tcb_at st i) b pb q now)) with SYN_SENT.
  cbn [mbind option_bind].
  destruct (rcv_syn_sent_ok i (mk_segment b a pb pa s (u32 (q + 1)) (TCP_FLAG_SYN |: TCP_FLAG_ACK) window'
      (tcp_wire pb pa s (u32 (q + 1)) (TCP_FLAG_SYN |: TCP_FLAG_ACK) window' c' []) 20 (Z.of_nat (length (@nil Z)))) now1
      (tcount (fun s => s⟦segments_received ::= inc⟧) st1) e1 n) as (c'' & st2 & e2 & Hrcv & [Ht2 _] & Hem2 & _ & Hv2);
    rewrite ?tcb_at_tcount, ?Ht1 in *; [done|done|done|cbn; rewrite cc_port0; unfold is_u16; lia|done|done|done|].
  cbv zeta in Hrcv. rewrite Hrcv. cbn [mbind option_bind connect_wait]. rewrite Ht2.
  change (state_is (open_block (syn_sent_block (tcb_at st i) b pb q now) s window' now1) SYN_SENT) with false.
  change (state_is (open_block (syn_sent_block (tcb_at st i) b pb q now) s window' now1) ESTABLISHED) with true.
  cbn [negb]. exists c'', st2, e2. split; [done|]. 
  change (local_port (syn_sent_block (tcb_at st i) b pb q now)) with (local_port (tcb_at st i)) in *.
  change (local_ip (syn_sent_block (tcb_at st i) b pb q now)) with (local_ip (tcb_at st i)) in *.
  rewrite cc_port0, ?cc_ip0 in *. split; [exact Hv2|].
  split; [|done]. destruct (emitted_outbox _ _ _ _ _ Hem2) as [-> _]. by rewrite Hout.
Qed.
End open.

(** Host [a] with a socket bound to port 49152, host [b] with one that listens on
    port 80. *)
Definition client_demo : tcp_state :=
  upd_tcb 0 (fun t => t⟦in_use := true⟧⟦local_ip := 0x0A000002⟧⟦local_port := 49152⟧⟦rcv_wnd := 65535⟧) tcp_boot.
Definition server_demo : tcp_state :=
  upd_tcb 0 (fun t => t⟦in_use := true⟧⟦local_port := 80⟧⟦state := LISTEN⟧⟦backlog := 4⟧) tcp_boot.
Definition tcp_host_demo (ip : Z) : kenv bump :=
  mk_kenv (mk_net (mk_iface [2; 0; 0; 0; 0; 1] ip 0xFFFFFF00 0x0A000001 1) true []) bump_demo.

Lemma demo_others (f : tcp_cb → tcp_cb) j : j ≠ 0 → tcb_at (upd_tcb 0 f tcp_boot) j = zero.
Proof. intros Hj. rewrite tcb_at_upd_ne by done. done. Qed.

Lemma client_demo_ok : can_connect client_demo 0 0x0A000002 49152.
Proof.
  split; try done. intros j _ Hu _. destruct (decide (j = 0)) as [|Hj]; [done|].
  unfold client_demo in Hu. by rewrite demo_others in Hu.
Qed.

Lemma server_demo_ok : can_accept server_demo 0 0x0A000003 80 0x0A000002 49152.
Proof.
  split; try done.
  - split; try done. by right.
  - exists 1. done.
  - intros j _ [Hu _ _ _]. destruct (decide (j = 0)) as [|Hj]; [done|]. unfold server_demo in Hu. by rewrite demo_others in Hu.
  - intros j _ [Hu _ _ _ Hr]. destruct (decide (j = 0)) as [->|Hj]; [done|]. unfold server_demo in Hu. by rewrite demo_others in Hu.
Qed.


(** ** Ring buffers *)

Section ring.
Context (size : Z) (Hsize : 0 < size).

(** The [n] bytes from [head] on. *)
Definition ring_content (m : gmap Z Z) (head : Z) (n : nat) : list Z :=
  (fun k => m.[(head + Z.of_nat k) mod size]) <$> seq 0 n.

Lemma ring_content_cons m head n : 0 ≤ head < size →
  ring_content m head (S n) = m.[head] :: ring_content m ((head + 1) mod size) n.
Proof.
  intros Hh. unfold ring_content. cbn [seq fmap list_fmap]. f_equal; [by rewrite Z.add_0_r, Z.mod_small|].
  rewrite <-fmap_S_seq, <-list_fmap_compose. apply list_fmap_ext. intros k x _. cbn [compose].
  rewrite Zplus_mod_idemp_l. do 2 f_equal. lia.
Qed.

Lemma ring_content_snoc m head n :
  ring_content m head (S n) = ring_content m head n ++ [m.[(head + Z.of_nat n) mod size]].
Proof. unfold ring_content. by rewrite seq_S, fmap_app. Qed.

Lemma ring_content_take m head n k : (k ≤ n)%nat → ring_content m head k = take k (ring_content m head n).
Proof. intros Hk. unfold ring_content. rewrite <-fmap_take, take_seq. by rewrite Nat.min_l. Qed.

Lemma ring_content_drop m head n k : (k ≤ n)%nat →
  ring_content m ((head + Z.of_nat k) mod size) (n - k) = drop k (ring_content m head n).
Proof.
  intros Hk. unfold ring_content. rewrite <-fmap_drop, drop_seq. cbn [Nat.add].
  replace (seq k (n - k)) with (Nat.add k <$> seq 0 (n - k)) by (by rewrite fmap_add_seq, Nat.add_0_r).
  rewrite <-list_fmap_compose. apply list_fmap_ext. intros j x _. cbn [compose].
  rewrite Zplus_mod_idemp_l. do 2 f_equal. lia.
Qed.

Lemma length_ring_content m head n : length (ring_content m head n) = n.
Proof. unfold ring_content. by rewrite length_fmap, length_seq. Qed.

Lemma ring_read_ok n head m : 0 ≤ head < size →
  ring_read size n head m = (ring_content m head n, (head + Z.of_nat n) mod size).
Proof.
  revert head. induction n as [|n IH]; intros head Hh; cbn [ring_read].
  { by rewrite Z.add_0_r, Z.mod_small. }
  rewrite IH by (by apply Z.mod_pos_bound). rewrite ring_content_cons by done. rewrite Zplus_mod_idemp_l. do 2 f_equal. lia.
Qed.

Lemma ring_index_ne head k n : 0 ≤ k < n ∧ n < size → (head + n) mod size ≠ (head + k) mod size.
Proof.
  intros [Hk Hn] Heq. assert ((n - k) mod size = 0) as E.
  { replace (n - k) with ((head + n) - (head + k)) by lia. by rewrite Zminus_mod, Heq, Z.sub_diag, Zmod_0_l. }
  rewrite Z.mod_small in E; lia.
Qed.

(** Bytes written behind the content extend it. *)
Lemma ring_write_ok d head n m : 0 ≤ head → Z.of_nat (n + length d) ≤ size →
  let '(tail, m') := ring_write size d ((head + Z.of_nat n) mod size) m in
  tail = (head + Z.of_nat (n + length d)) mod size ∧
  ring_content m' head (n + length d) = ring_content m head n ++ d.
Proof.
  intros Hh. revert n m. induction d as [|b d IH]; intros n m Hn; cbn [ring_write length] in *.
  { rewrite Nat.add_0_r, app_nil_r. done. }
  specialize (IH (S n) (aset m ((head + Z.of_nat n) mod size) b) ltac:(lia)).
  replace (((head + Z.of_nat n) mod size + 1) mod size) with ((head + Z.of_nat (S n)) mod size)
    by (rewrite Zplus_mod_idemp_l; f_equal; lia).
  destruct (ring_write _ _ _ _) as [tail m'] eqn:E. replace (n + S (length d))%nat with (S n + length d)%nat by lia.
  destruct IH as [-> IH]. split; [done|]. rewrite IH, ring_content_snoc, aget_aset_eq, <-app_assoc. cbn [app]. f_equal.
  apply list_fmap_ext. intros k x Hk%lookup_seq. destruct Hk as [-> Hk]. apply aget_aset_ne. cbn [Nat.add].
  apply ring_index_ne. lia.
Qed.

End ring.

(** ** The byte stream *)

(** A buffer of a connection: from [head] on, [count] bytes, up to [tail]. *)
Definition buffer_ok (head tail count : Z) : Prop :=
  0 ≤ head < 65536 ∧ 0 ≤ count ≤ 65536 ∧ tail = (head + count) mod 65536.

Lemma buffer_append head tail count m d : buffer_ok head tail count → count + Z.of_nat (length d) ≤ 65536 →
  ∃ m', ring_write 65536 d tail m = ((head + (count + Z.of_nat (length d))) mod 65536, m') ∧
    ring_content 65536 m' head (Z.to_nat (count + Z.of_nat (length d))) = ring_content 65536 m head (Z.to_nat count) ++ d.
Proof.
  intros (Hh & Hc & ->) Hd.
  pose proof (ring_write_ok 65536 d head (Z.to_nat count) m ltac:(lia) ltac:(lia)) as Hring.
  rewrite Z2Nat.id in Hring by lia. replace (Z.to_nat (count + _)) with (Z.to_nat count + length d)%nat by lia.
  destruct (ring_write _ _ _ _) as [tail m']. exists m'. destruct Hring as [-> ->]. split; [|done]. do 2 f_equal. lia.
Qed.

(** The bytes received and not yet read. *)
Definition rx (t : tcp_cb) : list Z := ring_content TCP_RECV_BUFFER_SIZE (recv_data t) (recv_head t) (Z.to_nat (recv_count t)).
Definition rx_ok (t : tcp_cb) : Prop := buffer_ok (recv_head t) (recv_tail t) (recv_count t).

Lemma length_rx t : rx_ok t → Z.of_nat (length (rx t)) = recv_count t.
Proof. intros (_ & ? & _). unfold rx. rewrite length_ring_content. lia. Qed.

(** The bytes accepted from the user and not yet sent. *)
Definition tx (t : tcp_cb) : list Z := ring_content TCP_SEND_BUFFER_SIZE (send_data t) (send_head t) (Z.to_nat (send_count t)).
Definition tx_ok (t : tcp_cb) : Prop := buffer_ok (send_head t) (send_tail t) (send_count t).

(** What identifies a connection and its sending side. *)
Definition sender_side (t : tcp_cb) : bool * tcp_conn_state * (Z * Z * Z * Z) * (Z * Z) :=
  (in_use t, state t, (local_ip t, local_port t, remote_ip t, remote_port t), (snd_una t, snd_nxt t)).

(** Block [t] has taken in the bytes [d] and become [t']. *)
Record receives (d : list Z) (t t' : tcp_cb) : Prop := {
  re_rx : rx t' = rx t ++ d;
  re_ok : rx_ok t';
  re_nxt : rcv_nxt t' = u32 (rcv_nxt t + Z.of_nat (length d));
  re_side : sender_side t' = sender_side t;
  re_tx : (send_head t', send_tail t', send_count t') = (send_head t, send_tail t, send_count t);
}.

Lemma receives_app d1 d2 t t' t'' : receives d1 t t' → receives d2 t' t'' → receives (d1 ++ d2) t t''.
Proof.
  intros [] []. split; [|done| |by etrans|by etrans].
  - by rewrite re_rx1, re_rx0, app_assoc.
  - rewrite re_nxt1, re_nxt0, u32_add_l, length_app. f_equal. lia.
Qed.

Lemma rx_take t n r : 0 ≤ n → 0 ≤ recv_count t → r = Z.min n (recv_count t) →
  ring_content TCP_RECV_BUFFER_SIZE (recv_data t) (recv_head t) (Z.to_nat r) = take (Z.to_nat n) (rx t).
Proof.
  intros Hn Hc ->. unfold rx. rewrite (ring_content_take _ _ _ (Z.to_nat (recv_count t))) by lia.
  rewrite Z2Nat.inj_min, <-take_take. f_equal. rewrite take_ge; [done|]. by rewrite length_ring_content.
Qed.

Lemma rx_drop t n r : 0 ≤ n → 0 ≤ recv_count t → r = Z.min n (recv_count t) →
  drop (Z.to_nat r) (rx t) = drop (Z.to_nat n) (rx t).
Proof.
  intros Hn Hc ->. destruct (Z.min_spec n (recv_count t)) as [[Hm ->]|[Hm ->]]; [done|].
  rewrite !drop_ge; [done|..]; unfold rx; rewrite length_ring_content; lia.
Qed.

(** [tcp_read] takes the oldest bytes. *)
Lemma tcp_read_ok i n st : let t := tcb_at st i in
  is_fd i → in_use t = true → state t = ESTABLISHED → rx_ok t → 0 < n < 65536 →
  ∃ st', tcp_read i true n st = (Z.min n (Z.of_nat (length (rx t))), take (Z.to_nat n) (rx t), st') ∧
    rx (tcb_at st' i) = drop (Z.to_nat n) (rx t) ∧ rx_ok (tcb_at st' i) ∧
    sender_side (tcb_at st' i) = sender_side t ∧ rcv_nxt (tcb_at st' i) = rcv_nxt t ∧
    rcv_wnd (tcb_at st' i) = 65536 - Z.of_nat (length (rx (tcb_at st' i))) ∧
    ∀ j, j ≠ i → tcb_at st' j = tcb_at st j.
Proof.
  cbv zeta. intros Hi Hu Hs Hok Hn. pose proof (length_rx _ Hok) as Hlen. unfold tcp_read, bad_fd. unfold is_fd in Hi.
  case_Z (i <? 0); [lia|]. case_Z (TCP_MAX_CONNECTIONS <=? i); [lia|]. cbn [orb negb].
  case_Z (n =? 0); [lia|]. rewrite Hu. unfold state_is. rewrite Hs. cbn [negb]. rewrite bool_decide_true by done. cbn [orb negb andb].
  set (t := tcb_at st i) in *. destruct Hok as (Hh & Hc & Htl).
  set (r := if recv_count t <? n then recv_count t else n).
  assert (r = Z.min n (recv_count t)) as Hr by (unfold r; case_Z (recv_count t <? n); lia). clearbody r.
  rewrite ring_read_ok by (unfold TCP_RECV_BUFFER_SIZE; lia).
  eexists. rewrite Hlen, <-Hr. split; [f_equal; f_equal; apply rx_take; lia|]. rewrite tcb_at_upd_eq. fold t.
  unfold rx, rx_ok, sender_side. cbn.
  replace (Z.to_nat (recv_count t - r)) with (Z.to_nat (recv_count t) - Z.to_nat r)%nat by lia.
  rewrite ring_content_drop by (unfold TCP_RECV_BUFFER_SIZE; lia).
  split; [apply (rx_drop t n r); lia|]. split.
  { unfold buffer_ok, TCP_RECV_BUFFER_SIZE. split; [by apply Z.mod_pos_bound|]. split; [lia|].
    rewrite Zplus_mod_idemp_l, Htl. f_equal. lia. }
  do 2 (split; [done|]). split; [|intros j Hj; by apply tcb_at_upd_ne].
  rewrite length_drop, length_ring_content, u32_small by (unfold TCP_RECV_BUFFER_SIZE; lia).
  unfold TCP_RECV_BUFFER_SIZE. lia.
Qed.

Section stream.
Context {H : Type} `{KernelHeap H}.

Lemma block_sent_side flags now t : is_u32 (snd_nxt t) → seq_space flags [] = 0 → sender_side (block_sent flags [] now t) = sender_side t.
Proof. intros Hn Hz. unfold sender_side, block_sent. cbn. by rewrite Hz, Z.add_0_r, u32_small. Qed.

(** In-order data is appended and acknowledged. *)
Lemma rcv_data_ok i sg d now st (e : kenv H) n :
  let t := tcb_at st i in
  rx_ok t → wire_ok t → sg_data_len sg = Z.of_nat (length d) → (0 < length d)%nat → Z.of_nat (length d) < 65536 →
  sg_seq sg = rcv_nxt t → slice (sg_packet sg) (sg_header_len sg) (Z.of_nat (length d)) = Some d →
  recv_count t + Z.of_nat (length d) ≤ 65536 → tcpip_initialized (knet e) = true → serves (S n) (kheap e) →
  ∃ c t' st' e',
    let ack := u32 (rcv_nxt t + Z.of_nat (length d)) in
    let seg := tcp_wire (local_port t) (remote_port t) (snd_nxt t) ack TCP_FLAG_ACK (u16 (rcv_wnd t')) c [] in
    rcv_data i sg now st e = Some (st', e') ∧ becomes i t' st st' ∧ receives d t t' ∧
    emitted (remote_ip t) IP_PROTO_TCP seg (knet e) (knet e') ∧ serves n (kheap e') ∧
    tcp_checksum (local_ip t) (remote_ip t) seg 20 = Some 0.
Proof.
  cbv zeta. intros Hok Hw Hdl Hd0 Hd Hseq Hsl Hfit Hnet Hs. unfold rcv_data. set (t := tcb_at st i) in *.
  pose proof Hok as (Hh & Hc & Htl).
  rewrite Hdl, Hseq, Z.eqb_refl. case_Z (0 <? Z.of_nat (length d)); [|lia]. cbn [andb].
  rewrite (u32_small (TCP_RECV_BUFFER_SIZE - recv_count t)) by (unfold TCP_RECV_BUFFER_SIZE; lia).
  set (cp := if _ <? TCP_RECV_BUFFER_SIZE - recv_count t then _ else _).
  assert (cp = Z.of_nat (length d)) as -> by (unfold cp, TCP_RECV_BUFFER_SIZE; case_Z (Z.of_nat (length d) <? 65536 - recv_count t); lia).
  rewrite Hsl. cbn [mbind option_bind].
  destruct (buffer_append _ _ _ (recv_data t) d Hok Hfit) as (m & Hring & Hrx).
  unfold TCP_RECV_BUFFER_SIZE at 1. rewrite Hring.
  rewrite (u32_small (recv_count t + _)) by lia. rewrite u32_small by (unfold TCP_RECV_BUFFER_SIZE; lia).
  set (st1 := upd_tcb i _ st). pose proof (becomes_upd i _ st : becomes i _ st st1) as [Ht1 Hne]. fold t in Ht1.
  destruct (tcp_send_segment_ok i TCP_FLAG_ACK [] now st1 e n) as (c & st' & e' & Hsend & [Hb Hbo] & Hem & Hse & Hck);
    rewrite ?Ht1 in *; [done| |done|constructor|done|done|].
  { destruct Hw. split; try done. apply u32_range. }
  rewrite Hsend. cbn [mbind option_bind]. do 4 eexists. split; [reflexivity|].
  split; [split; [exact Hb|intros j Hj; by rewrite Hbo, Hne]|]. split; [|done].
  split; [exact Hrx| |done|rewrite block_sent_side; [done|exact (wo_snd _ Hw)|done]|done].
  unfold rx_ok, buffer_ok. cbn. lia.
Qed.
End stream.

(** [segs] carry the bytes [d] from sequence number [q] on: full or partial
    segments, one after the other, with good checksums. *)
Inductive carries (a pa b pb ack window : Z) : Z → list Z → list (list Z) → Prop :=
| carries_nil q : carries a pa b pb ack window q [] []
| carries_cons q d d' c segs :
    let seg := tcp_wire pa pb q ack (TCP_FLAG_ACK |: TCP_FLAG_PSH) window c d in
    (0 < length d)%nat → Z.of_nat (length d) ≤ TCP_MSS → tcp_checksum a b seg (20 + Z.of_nat (length d)) = Some 0 →
    carries a pa b pb ack window (u32 (q + Z.of_nat (length d))) d' segs →
    carries a pa b pb ack window q (d ++ d') (seg :: segs).

(** What sending leaves alone. *)
Definition receiver_side (t : tcp_cb) : bool * tcp_conn_state * (Z * Z * Z * Z) * (Z * Z * Z) * (gmap Z Z * Z * Z * Z) :=
  (in_use t, state t, (local_ip t, local_port t, remote_ip t, remote_port t), (snd_una t, rcv_nxt t, rcv_wnd t),
   (recv_data t, recv_head t, recv_tail t, recv_count t)).

Section sending.
Context {H : Type} `{KernelHeap H}.

(** One segment is cut off the send buffer. *)
Lemma cut_segment t : tx_ok t → 0 < send_count t →
  let n := if TCP_MSS <? send_count t then TCP_MSS else send_count t in
  let t' := t⟦send_head := (send_head t + n) mod 65536⟧⟦send_count := send_count t - n⟧ in
  ring_read TCP_SEND_BUFFER_SIZE (Z.to_nat n) (send_head t) (send_data t) =
    (take (Z.to_nat n) (tx t), (send_head t + n) mod 65536) ∧
  0 < n ≤ TCP_MSS ∧ n ≤ send_count t ∧ tx t' = drop (Z.to_nat n) (tx t) ∧ tx_ok t' ∧
  Z.of_nat (length (take (Z.to_nat n) (tx t))) = n ∧ (n < TCP_MSS → send_count t' = 0).
Proof.
  intros (Hh & Hc & Htl) Hpos. cbv zeta. set (n := if _ <? _ then _ else _).
  assert (0 < n ≤ TCP_MSS ∧ n ≤ send_count t ∧ (n < TCP_MSS → send_count t - n = 0)) as (Hn & Hn' & Hlast)
    by (unfold n, TCP_MSS; case_Z (1460 <? send_count t); lia).
  clearbody n. unfold tx. rewrite ring_read_ok, Z2Nat.id by (unfold TCP_SEND_BUFFER_SIZE; lia).
  rewrite (ring_content_take _ _ _ (Z.to_nat (send_count t)) (Z.to_nat n)) by lia. split; [done|]. do 2 (split; [done|]).
  cbn. replace (Z.to_nat (send_count t - n)) with (Z.to_nat (send_count t) - Z.to_nat n)%nat by lia.
  replace (send_head t + n) with (send_head t + Z.of_nat (Z.to_nat n)) at 1 by lia.
  change 65536 with TCP_SEND_BUFFER_SIZE at 1. rewrite ring_content_drop by (unfold TCP_SEND_BUFFER_SIZE; lia).
  split; [done|]. split.
  - unfold tx_ok, buffer_ok. cbn. split; [by apply Z.mod_pos_bound|]. split; [lia|].
    rewrite Zplus_mod_idemp_l, Htl. f_equal. lia.
  - split; [|done]. rewrite length_take, length_ring_content. lia.
Qed.
(** What the sending loop has done when it ends. *)
Record all_sent (i : Z) (st : tcp_state) (e : kenv H) (st' : tcp_state) (e' : kenv H) (segs : list (list Z)) : Prop := {
  as_segs : let t := tcb_at st i in
    carries (local_ip t) (local_port t) (remote_ip t) (remote_port t) (rcv_nxt t) (u16 (rcv_wnd t)) (snd_nxt t) (tx t) segs;
  as_out : outbox (knet e') = reverse ((fun p => (remote_ip (tcb_at st i), IP_PROTO_TCP, p)) <$> segs) ++ outbox (knet e);
  as_net : tcpip_initialized (knet e') = true;
  as_empty : send_count (tcb_at st' i) = 0;
  as_ok : tx_ok (tcb_at st' i);
  as_nxt : snd_nxt (tcb_at st' i) = u32 (snd_nxt (tcb_at st i) + send_count (tcb_at st i));
  as_side : receiver_side (tcb_at st' i) = receiver_side (tcb_at st i);
  as_frame j : j ≠ i → tcb_at st' j = tcb_at st j;
}.

Lemma all_sent_nil i st (e : kenv H) :
  tx_ok (tcb_at st i) → wire_ok (tcb_at st i) → tcpip_initialized (knet e) = true → send_count (tcb_at st i) ≤ 0 →
  all_sent i st e st e [].
Proof.
  intros Hok Hw Hnet Hc. assert (send_count (tcb_at st i) = 0) as E by (destruct Hok as (_ & ? & _); lia).
  split; try done.
  - cbv zeta. unfold tx. rewrite E. constructor.
  - rewrite E, Z.add_0_r, u32_small; [done|apply Hw].
Qed.

Lemma all_sent_cons i st (e : kenv H) st1 e1 st' e' d c segs :
  let t := tcb_at st i in
  let seg := tcp_wire (local_port t) (remote_port t) (snd_nxt t) (rcv_nxt t) (TCP_FLAG_ACK |: TCP_FLAG_PSH) (u16 (rcv_wnd t)) c d in
  (0 < length d)%nat → Z.of_nat (length d) ≤ TCP_MSS →
  tcp_checksum (local_ip t) (remote_ip t) seg (20 + Z.of_nat (length d)) = Some 0 →
  tx t = d ++ tx (tcb_at st1 i) → send_count (tcb_at st1 i) = send_count t - Z.of_nat (length d) →
  snd_nxt (tcb_at st1 i) = u32 (snd_nxt t + Z.of_nat (length d)) → receiver_side (tcb_at st1 i) = receiver_side t →
  (∀ j, j ≠ i → tcb_at st1 j = tcb_at st j) → emitted (remote_ip t) IP_PROTO_TCP seg (knet e) (knet e1) →
  all_sent i st1 e1 st' e' segs → all_sent i st e st' e' (seg :: segs).
Proof.
  cbv zeta. intros Hd0 Hd Hck Htx Hcount Hnxt Hside Hfr Hem []. pose proof Hside as Hs. unfold receiver_side in Hs.
  injection Hs as E1 E2 E3 E4 E5 E6 E7 E8 E9 _ _ _ _. split; try done.
  - cbv zeta. rewrite Htx. constructor; [done..|]. cbv zeta in as_segs0. rewrite E3, E4, E5, E6, E8, E9, Hnxt in as_segs0. exact as_segs0.
  - rewrite as_out0, E5, (proj1 (emitted_outbox _ _ _ _ _ Hem)). rewrite fmap_cons, reverse_cons, <-app_assoc. done.
  - rewrite as_nxt0, Hnxt, Hcount, u32_add_l. f_equal. lia.
  - by rewrite as_side0.
  - intros j Hj. by rewrite as_frame0, Hfr.
Qed.

Lemma send_segments_ok fuel i now st (e : kenv H) n :
  let t := tcb_at st i in
  tx_ok t → wire_ok t → bytes (tx t) → send_count t ≤ TCP_MSS * Z.of_nat fuel →
  tcpip_initialized (knet e) = true → serves (fuel + n) (kheap e) →
  ∃ segs st' e', send_segments fuel i now st e = Some (st', e') ∧ all_sent i st e st' e' segs ∧
    serves n (kheap e') ∧ (length segs ≤ fuel)%nat.
Proof.
  revert st e. induction fuel as [|fuel IH]; intros st e; cbv zeta; intros Hok Hw Hby Hfuel Hnet Hs; cbn [send_segments];
    case_Z (0 <? send_count (tcb_at st i)).
  - lia.
  - exists [], st, e. split; [done|]. split; [by apply all_sent_nil|]. by split.
  - destruct (cut_segment _ Hok ltac:(done)) as (Hread & Hn & Hle & Htx & Hok' & Hlen & Hlast).
    cbv zeta in Hread. rewrite Hread.
    set (t := tcb_at st i) in *. set (k := if _ <? _ then _ else _) in *. set (d := take (Z.to_nat k) (tx t)) in *.
    set (st1 := upd_tcb i _ st). pose proof (becomes_upd i _ st : becomes i _ st st1) as [Ht1 Hne]. fold t in Ht1.
    destruct (tcp_send_segment_ok i (TCP_FLAG_ACK |: TCP_FLAG_PSH) d now st1 e (fuel + n))
      as (c & st2 & e2 & Hsend & [Hb Hbo] & Hem & Hse & Hck); rewrite ?Ht1 in *; [done|destruct Hw; by split|done| |lia|done|].
    { by apply bytes_take. }
    rewrite Hsend. cbn [mbind option_bind].
    assert (tx (tcb_at st2 i) = drop (Z.to_nat k) (tx t)) as Htx2 by (rewrite Hb; exact Htx).
    destruct (IH st2 e2) as (segs & st' & e' & Hrest & Hall & Hserves & Hsegs); rewrite ?Hb.
    + exact Hok'.
    + destruct Hw. split; try done. apply u32_range.
    + rewrite <-Hb, Htx2. by apply bytes_drop.
    + change (send_count t - k ≤ TCP_MSS * Z.of_nat fuel). change (k < TCP_MSS → send_count t - k = 0) in Hlast.
      unfold TCP_MSS in *. lia.
    + by rewrite (proj2 (emitted_outbox _ _ _ _ _ Hem)).
    + done.
    + rewrite Hrest. eexists (_ :: segs), st', e'. split; [reflexivity|]. split; [|split; [done|cbn [length]; lia]].
      apply (all_sent_cons i st e st2 e2 st' e' d c segs); rewrite ?Hb; try done.
      * lia.
      * lia.
      * rewrite <-Hb, Htx2. symmetry. apply take_drop.
      * rewrite Hlen. done.
      * unfold block_sent. cbn. f_equal. fold t.
        replace (seq_space (TCP_FLAG_ACK |: TCP_FLAG_PSH) d) with (Z.of_nat (length d)); [done|].
        unfold seq_space. change (truth ((TCP_FLAG_ACK |: TCP_FLAG_PSH) &: TCP_FLAG_SYN)) with false.
        change (truth ((TCP_FLAG_ACK |: TCP_FLAG_PSH) &: TCP_FLAG_FIN)) with false. lia.
      * intros j Hj. by rewrite Hbo, Hne.
  - exists [], st, e. split; [done|]. split; [by apply all_sent_nil|]. split; [|cbn; lia].
    apply (serves_mono n (S fuel + n)); [lia|done].
Qed.
(** [tcp_write] sends all of its data at once. *)
Lemma tcp_write_ok i d now st (e : kenv H) n :
  let t := tcb_at st i in
  is_fd i → in_use t = true → state t = ESTABLISHED → tx_ok t → send_count t = 0 → wire_ok t →
  bytes d → (0 < length d)%nat → Z.of_nat (length d) < 65536 →
  tcpip_initialized (knet e) = true → serves (SEGMENT_FUEL + n) (kheap e) →
  ∃ segs st' e',
    tcp_write i (Some d) (Z.of_nat (length d)) now st e = Some (Z.of_nat (length d), st', e') ∧
    carries (local_ip t) (local_port t) (remote_ip t) (remote_port t) (rcv_nxt t) (u16 (rcv_wnd t)) (snd_nxt t) d segs ∧
    outbox (knet e') = reverse ((fun p => (remote_ip t, IP_PROTO_TCP, p)) <$> segs) ++ outbox (knet e) ∧
    (length segs ≤ SEGMENT_FUEL)%nat ∧ tcpip_initialized (knet e') = true ∧ serves n (kheap e') ∧
    send_count (tcb_at st' i) = 0 ∧ tx_ok (tcb_at st' i) ∧
    snd_nxt (tcb_at st' i) = u32 (snd_nxt t + Z.of_nat (length d)) ∧ receiver_side (tcb_at st' i) = receiver_side t ∧
    ∀ j, j ≠ i → tcb_at st' j = tcb_at st j.
Proof.
  cbv zeta. intros Hi Hu Hst Hok Hc Hw Hd Hd0 Hlen Hnet Hs. unfold tcp_write, bad_fd. unfold is_fd in Hi.
  case_Z (i <? 0); [lia|]. case_Z (TCP_MAX_CONNECTIONS <=? i); [lia|]. cbn [orb].
  case_Z (Z.of_nat (length d) =? 0); [lia|]. rewrite Hu. unfold state_is. rewrite Hst, bool_decide_true by done. cbn [negb orb].
  set (t := tcb_at st i) in *. rewrite Hc. change (u32 (TCP_SEND_BUFFER_SIZE - 0)) with 65536.
  case_Z (Z.of_nat (length d) <? 65536); [|lia]. rewrite (slice_all d). cbn [mbind option_bind].
  destruct (buffer_append _ _ _ (send_data t) d Hok ltac:(lia)) as (m & Hring & Htx). rewrite Hc in Htx, Hring.
  unfold TCP_SEND_BUFFER_SIZE at 1. rewrite Hring. cbn [Z.add] in *.
  set (st1 := upd_tcb i _ st). pose proof (becomes_upd i _ st : becomes i _ st st1) as [Ht1 Hne]. fold t in Ht1.
  assert (send_count (tcb_at st1 i) = Z.of_nat (length d)) as Hc1 by (rewrite Ht1; cbn; rewrite Hc; by apply u32_small; lia).
  assert (tx (tcb_at st1 i) = d) as Htx1.
  { unfold tx. rewrite Hc1, Ht1. exact Htx. }
  destruct (send_segments_ok SEGMENT_FUEL i now st1 e n) as (segs & st' & e' & Hsend & [] & Hse & Hn).
  { rewrite Ht1. destruct Hok as (? & ? & ?). unfold tx_ok, buffer_ok. cbn. rewrite Hc, u32_small by lia. lia. }
  { rewrite Ht1. destruct Hw. by split. }
  { by rewrite Htx1. }
  { rewrite Hc1. unfold TCP_MSS, SEGMENT_FUEL. lia. }
  { done. }
  { done. }
  rewrite Hsend. cbn [mbind option_bind]. exists segs, st', e'. split; [done|].
  cbv zeta in as_segs0. rewrite Hc1, Htx1, ?Ht1 in *. do 9 (split; [done|]). intros j Hj. by rewrite as_frame0, Hne.
Qed.
End sending.

(** ** Data across a connection *)

(** Socket [i] is the open connection between the two endpoints. *)
Record endpoint (st : tcp_state) (i lip lport rip rport : Z) : Prop := {
  en_fd : is_fd i;
  en_use : in_use (tcb_at st i) = true;
  en_state : state (tcb_at st i) = ESTABLISHED;
  en_lip : local_ip (tcb_at st i) = lip;
  en_lport : local_port (tcb_at st i) = lport;
  en_rip : remote_ip (tcb_at st i) = rip;
  en_rport : remote_port (tcb_at st i) = rport;
  en_unique j : is_fd j → connects st j lip lport rip rport → j = i;
}.

Lemma endpoint_found st i lip lport rip rport :
  endpoint st i lip lport rip rport → tcp_find_connection lip lport rip rport st = Some i.
Proof. intros []. apply find_connected; [done|split; auto|done]. Qed.

Lemma endpoint_frame st st' i lip lport rip rport :
  endpoint st i lip lport rip rport → (sender_side (tcb_at st' i)).1 = (sender_side (tcb_at st i)).1 →
  (∀ j, j ≠ i → tcb_at st' j = tcb_at st j) → endpoint st' i lip lport rip rport.
Proof.
  intros [] Hs Hfr. unfold sender_side in Hs. cbn in Hs. injection Hs as E1 E2 E3 E4 E5 E6. split; try congruence.
  intros j Hj Hc. destruct (decide (j = i)) as [|Hji]; [done|]. apply en_unique0; [done|].
  destruct Hc. rewrite Hfr in * by done. by split.
Qed.

Lemma receives_nil t : rx_ok t → wire_ok t → receives [] t t.
Proof. intros Hrx Hw. split; [by rewrite app_nil_r|done| |done|done]. rewrite Z.add_0_r, u32_small; [done|apply Hw]. Qed.

Lemma receives_count d t t' : rx_ok t → receives d t t' → recv_count t' = recv_count t + Z.of_nat (length d).
Proof. intros Hrx []. rewrite <-(length_rx t'), <-(length_rx t), re_rx0, length_app by done. lia. Qed.

Lemma receives_wire d t t' : wire_ok t → receives d t t' → wire_ok t'.
Proof.
  intros [] []. unfold sender_side in re_side0. injection re_side0 as _ _ _ E1 _ E2 _ E3.
  split; [by rewrite E1|by rewrite E2|by rewrite E3|rewrite re_nxt0; apply u32_range].
Qed.

(** An open connection between two calls: nothing is left in the send buffer. *)
Record open_end (st : tcp_state) (i lip lport rip rport : Z) : Prop := {
  oe_end : endpoint st i lip lport rip rport;
  oe_rx : rx_ok (tcb_at st i);
  oe_tx : tx_ok (tcb_at st i);
  oe_sent : send_count (tcb_at st i) = 0;
  oe_wire : wire_ok (tcb_at st i);
}.

(** [acks] acknowledge [len] bytes from sequence number [q] on, in steps. *)
Inductive acknowledges (b pb a pa u : Z) : Z → Z → list (list Z) → Prop :=
| acknowledges_nil q : acknowledges b pb a pa u q 0 []
| acknowledges_cons q n len window c acks :
    let p := tcp_wire pb pa u (u32 (q + n)) TCP_FLAG_ACK window c [] in
    0 < n → is_u16 window → tcp_checksum b a p 20 = Some 0 →
    acknowledges b pb a pa u (u32 (q + n)) len acks → acknowledges b pb a pa u q (n + len) (p :: acks).

Lemma acknowledges_pos b pb a pa u q len acks : acknowledges b pb a pa u q len acks → 0 ≤ len.
Proof. induction 1; lia. Qed.

(** The segments as they arrive at the other host. *)
Definition deliver (src dst : Z) (segs : list (list Z)) : list (Z * Z * list Z * Z) :=
  (fun p => (src, dst, p, Z.of_nat (length p))) <$> segs.

Lemma length_tcp_wire sport dport seq ack flags window c d :
  Z.of_nat (length (tcp_wire sport dport seq ack flags window c d)) = 20 + Z.of_nat (length d).
Proof. unfold tcp_wire. rewrite !length_app. cbn. lia. Qed.

(** The two ends after [a] has sent [d] and [b] has taken it in. *)
Lemma peers_after ta tb ta' tb' a pa b pb d :
  peers a pa b pb ta tb → receiver_side ta' = receiver_side ta →
  snd_nxt ta' = u32 (snd_nxt ta + Z.of_nat (length d)) → receives d tb tb' →
  peers a pa b pb (ta'⟦snd_una := snd_nxt ta'⟧) tb'.
Proof.
  intros [] Hs Hn []. unfold receiver_side in Hs. injection Hs as E1 E2 E3 E4 E5 E6 E7 E8 _ _ _ _ _.
  unfold sender_side in re_side0. injection re_side0 as F1 F2 F3 F4 F5 F6 F7 F8.
  split; cbn; try (rewrite ?E1, ?E2, ?E3, ?E4, ?E5, ?E6, ?F1, ?F2, ?F3, ?F4, ?F5, ?F6; done).
  - rewrite re_nxt0, Hn. by rewrite pe_ab0.
  - congruence.
  - split; [done|]. rewrite F7, F8. apply pe_acked0.
Qed.

Section transfer.
Context {H : Type} `{KernelHeap H}.

(** One data segment arrives in order. *)
Lemma tcp_receive_data j a pa b pb u q window c d now st (e : kenv H) n :
  let t := tcb_at st j in
  let p := tcp_wire pa pb q u (TCP_FLAG_ACK |: TCP_FLAG_PSH) window c d in
  endpoint st j b pb a pa → rx_ok t → wire_ok t → snd_una t = u → snd_nxt t = u → rcv_nxt t = q → is_u16 window →
  (0 < length d)%nat → Z.of_nat (length d) ≤ TCP_MSS → recv_count t + Z.of_nat (length d) ≤ 65536 →
  tcp_checksum a b p (20 + Z.of_nat (length d)) = Some 0 → tcpip_initialized (knet e) = true → serves (S n) (kheap e) →
  ∃ c' w st' e', let ack := tcp_wire pb pa u (u32 (q + Z.of_nat (length d))) TCP_FLAG_ACK w c' [] in
    tcp_receive a b (Some p) (20 + Z.of_nat (length d)) now st e = Some (0, st', e') ∧ is_u16 w ∧
    receives d t (tcb_at st' j) ∧ (∀ k, k ≠ j → tcb_at st' k = tcb_at st k) ∧
    emitted a IP_PROTO_TCP ack (knet e) (knet e') ∧ serves n (kheap e') ∧ tcp_checksum b a ack 20 = Some 0.
Proof.
  cbv zeta. unfold TCP_MSS. intros Hend Hrx Hw Hu Hn Hq Hwin Hd0 Hd Hfit Hck Hnet Hs. pose proof Hend as [].
  pose proof Hw as [].
  rewrite (tcp_receive_wire a b pa pb q u _ window c d now st e)
    by (try done; try lia; by rewrite <-?en_lport0, <-?en_rport0, <-?Hq, <-?Hn).
  rewrite (endpoint_found _ _ _ _ _ _ Hend). unfold tcp_input. rewrite tcb_at_tcount, en_state0.
  set (sg := mk_segment _ _ _ _ _ _ _ _ _ _ _). unfold rcv_established.
  change (has TCP_FLAG_RST sg) with false. change (has TCP_FLAG_ACK sg) with true. change (has TCP_FLAG_FIN sg) with false.
  unfold ack_ok. rewrite tcb_at_tcount, Hu, Hn. change (sg_ack sg) with u. rewrite seq_le_refl. cbn [andb].
  set (st1 := upd_tcb j _ _).
  assert (becomes j ((tcb_at st j)⟦snd_una := u⟧) st st1) as [Ht1 Hne].
  { unfold st1. split; [same_block|intros k Hk; other_block]. }
  destruct (rcv_data_ok j sg d now st1 e n) as (c' & t' & st' & e' & Hrcv & [Hb Hbo] & Hre & Hem & Hse & Hck');
    rewrite ?Ht1 in *; [exact Hrx|by split|done|done|lia|exact (eq_sym Hq)| |done|done|done|].
  { change (slice (tcp_wire pa pb q u (TCP_FLAG_ACK |: TCP_FLAG_PSH) window c d) 20 (Z.of_nat (length d)) = Some d).
    apply (slice_tail (tcp_wire pa pb q u (TCP_FLAG_ACK |: TCP_FLAG_PSH) window c []) d). }
  rewrite Hrcv. cbn [mbind option_bind].
  exists c', (u16 (rcv_wnd t')), st', e'. split; [done|]. split; [apply u16_range|]. rewrite Hb. split.
  { destruct Hre. split; try done. rewrite re_side0. unfold sender_side. cbn. by rewrite Hu. }
  split; [intros k Hk; by rewrite Hbo, Hne|].
  rewrite <-en_lip0, <-en_lport0, <-en_rip0, <-en_rport0, <-Hq, <-Hn. exact (conj Hem (conj Hse Hck')).
Qed.
(** The receiver of a stream appends it to what it has and acknowledges it. *)
Lemma arrive_data j a pa b pb u q window d segs now st (e : kenv H) n :
  carries a pa b pb u window q d segs → is_u16 window →
  let t := tcb_at st j in
  endpoint st j b pb a pa → rx_ok t → wire_ok t → snd_una t = u → snd_nxt t = u → rcv_nxt t = q →
  recv_count t + Z.of_nat (length d) ≤ 65536 → tcpip_initialized (knet e) = true → serves (length segs + n) (kheap e) →
  ∃ acks st' e', tcp_arrive (deliver a b segs) now st e = Some (st', e') ∧
    receives d t (tcb_at st' j) ∧ endpoint st' j b pb a pa ∧
    acknowledges b pb a pa u q (Z.of_nat (length d)) acks ∧
    outbox (knet e') = reverse ((fun p => (a, IP_PROTO_TCP, p)) <$> acks) ++ outbox (knet e).
Proof.
  intros Hcar Hwin. revert st e. induction Hcar as [q|q d d' c segs seg Hd0 Hd Hck Hcar IH]; intros st e;
    cbv zeta; intros Hend Hrx Hw Hu Hn Hq Hfit Hnet Hs.
  { exists [], st, e. split; [done|]. split; [by apply receives_nil|]. split; [done|]. split; [constructor|done]. }
  rewrite length_app in Hfit |- *.
  destruct (tcp_receive_data j a pa b pb u q window c d now st e (length segs + n))
    as (c' & w & st1 & e1 & Hrcv & Hw' & Hre & Hfr & Hem & Hse & Hck'); [done..|lia|done|done|done|].
  subst seg. cbn [deliver fmap list_fmap tcp_arrive]. rewrite length_tcp_wire. rewrite Hrcv. cbn [mbind option_bind].
  pose proof (receives_count _ _ _ Hrx Hre) as Hcount. pose proof (receives_wire _ _ _ Hw Hre) as Hw1.
  destruct Hre as [Hre1 Hre2 Hre3 Hre4 Hre5] eqn:Hre'. pose proof Hre4 as Hside. unfold sender_side in Hside.
  injection Hside as _ _ _ _ _ _ Hu1 Hn1.
  destruct (emitted_outbox _ _ _ _ _ Hem) as [Hout Hnet1].
  destruct (IH st1 e1) as (acks & st' & e' & Hrest & Hre'' & Hend' & Hack & Hout'); [|done|done|congruence..|lia|congruence|done|].
  { apply (endpoint_frame st); [done|by rewrite Hre4|done]. }
  eexists (_ :: acks), st', e'. split; [exact Hrest|]. split; [by eapply receives_app|]. split; [done|]. split.
  - rewrite Nat2Z.inj_add. constructor; [lia|done|done|done].
  - rewrite Hout', Hout, fmap_cons, reverse_cons, <-app_assoc. done.
Qed.
Lemma seq_le_add q n : 0 ≤ n < 2 ^ 31 → seq_le q (u32 (q + n)) = true.
Proof.
  intros Hn. unfold seq_le. rewrite i32_sub_u32. rewrite i32_small by lia. lia.
Qed.

(** An acknowledgement arrives. *)
Lemma tcp_receive_ack i a pa b pb u q n len window c now st (e : kenv H) :
  let t := tcb_at st i in
  let p := tcp_wire pb pa u (u32 (q + n)) TCP_FLAG_ACK window c [] in
  endpoint st i a pa b pb → is_u16 pa → is_u16 pb → is_u32 u → is_u16 window → 0 < n → 0 ≤ len → n + len < 65536 →
  tcp_checksum b a p 20 = Some 0 → snd_una t = q → snd_nxt t = u32 (q + (n + len)) →
  ∃ st', tcp_receive b a (Some p) 20 now st e = Some (0, st', e) ∧ becomes i (t⟦snd_una := u32 (q + n)⟧) st st'.
Proof.
  cbv zeta. intros Hend Hpa Hpb Hu Hw Hn Hlen Hmax Hck Hq Hnx.
  rewrite (tcp_receive_wire b a pb pa u _ TCP_FLAG_ACK window c [] now) by (done || apply u32_range).
  rewrite (endpoint_found _ _ _ _ _ _ Hend). set (sg := mk_segment _ _ _ _ _ _ _ _ _ _ _). unfold tcp_input.
  rewrite tcb_at_tcount, (en_state _ _ _ _ _ _ Hend). unfold rcv_established.
  change (has TCP_FLAG_RST sg) with false. change (has TCP_FLAG_ACK sg) with true. change (has TCP_FLAG_FIN sg) with false.
  unfold ack_ok. rewrite tcb_at_tcount, Hq, Hnx. change (sg_ack sg) with (u32 (q + n)). rewrite seq_le_add by lia.
  replace (u32 (q + (n + len))) with (u32 (u32 (q + n) + len)) by (rewrite u32_add_l; f_equal; lia).
  rewrite seq_le_add by lia. cbn [andb]. unfold rcv_data. change (0 <? sg_data_len sg) with false. cbn [andb mbind option_bind].
  eexists. split; [reflexivity|]. split; [same_block|intros k Hk; other_block].
Qed.

Lemma arrive_acks i a pa b pb u q len acks now st (e : kenv H) :
  acknowledges b pb a pa u q len acks → len < 65536 → is_u16 pa → is_u16 pb → is_u32 u →
  let t := tcb_at st i in
  endpoint st i a pa b pb → snd_una t = q → is_u32 q → snd_nxt t = u32 (q + len) →
  ∃ st', tcp_arrive (deliver b a acks) now st e = Some (st', e) ∧ becomes i (t⟦snd_una := snd_nxt t⟧) st st'.
Proof.
  intros Hacks Hlen Hpa Hpb Hu. revert st Hlen. induction Hacks as [q|q n len window c acks p Hn Hw Hck Hacks IH];
    intros st Hlen; cbv zeta; intros Hend Hq Hqr Hnx.
  { exists st. split; [done|]. split; [|done]. rewrite Hnx, Z.add_0_r, u32_small, <-Hq by done. by destruct (tcb_at st i). }
  pose proof (acknowledges_pos _ _ _ _ _ _ _ _ Hacks).
  destruct (tcp_receive_ack i a pa b pb u q n len window c now st e) as (st1 & Hrcv & [Ht1 Hne]); [done..|].
  subst p. cbn [deliver fmap list_fmap tcp_arrive]. rewrite length_tcp_wire. change (20 + Z.of_nat (length [])) with 20.
  rewrite Hrcv. cbn [mbind option_bind].
  destruct (IH st1) as (st' & Hrest & [Ht' Hne']); rewrite ?Ht1; [lia| |done|apply u32_range| |].
  { apply (endpoint_frame st); [done|by rewrite Ht1|done]. }
  { change (snd_nxt (tcb_at st i) = u32 (u32 (q + n) + len)). rewrite u32_add_l, Hnx. f_equal. lia. }
  exists st'. split; [done|]. rewrite Ht1 in Ht'. split; [exact Ht'|]. intros j Hj. by rewrite Hne', Hne.
Qed.
End transfer.

(** An open connection between ports 49152 of host [a] and 80 of host [b]. *)
Definition open_demo (lip lport rip rport snd rcv : Z) : tcp_state :=
  upd_tcb 0 (fun t => t⟦in_use := true⟧⟦state := ESTABLISHED⟧⟦local_ip := lip⟧⟦local_port := lport⟧⟦remote_ip := rip⟧
    ⟦remote_port := rport⟧⟦snd_una := snd⟧⟦snd_nxt := snd⟧⟦rcv_nxt := rcv⟧⟦rcv_wnd := 65535⟧) tcp_boot.

Lemma open_demo_ok lip lport rip rport snd rcv :
  is_u16 lport → is_u16 rport → is_u32 snd → is_u32 rcv →
  open_end (open_demo lip lport rip rport snd rcv) 0 lip lport rip rport.
Proof.
  intros. unfold open_demo. split; try done. split; try done.
  intros j _ [Hu _ _ _ _]. destruct (decide (j = 0)) as [|Hj]; [done|]. by rewrite demo_others in Hu.
Qed.


(** ** The state machine *)

(** The state of a block in use. *)
Definition conn (st : tcp_state) (i : Z) : option tcp_conn_state :=
  if in_use (tcb_at st i) then Some (state (tcb_at st i)) else None.

(** The arcs of the connection state diagram (RFC 793, figure 6, with the reset
    and timeout arcs); [None] is a block that is not in use. *)
Inductive arc : option tcp_conn_state → option tcp_conn_state → Prop :=
| arc_socket : arc None (Some CLOSED)
| arc_listen : arc (Some CLOSED) (Some LISTEN)
| arc_active_open : arc (Some CLOSED) (Some SYN_SENT)
| arc_passive_open : arc None (Some SYN_RECEIVED)
| arc_syn_ack : arc (Some SYN_SENT) (Some ESTABLISHED)
| arc_simultaneous : arc (Some SYN_SENT) (Some SYN_RECEIVED)
| arc_ack_of_syn : arc (Some SYN_RECEIVED) (Some ESTABLISHED)
| arc_reset s : s = SYN_SENT ∨ s = SYN_RECEIVED ∨ s = ESTABLISHED → arc (Some s) (Some CLOSED)
| arc_close s : s = SYN_RECEIVED ∨ s = ESTABLISHED → arc (Some s) (Some FIN_WAIT_1)
| arc_fin : arc (Some ESTABLISHED) (Some CLOSE_WAIT)
| arc_close_wait : arc (Some CLOSE_WAIT) (Some LAST_ACK)
| arc_ack_of_fin : arc (Some FIN_WAIT_1) (Some FIN_WAIT_2)
| arc_closing : arc (Some FIN_WAIT_1) (Some CLOSING)
| arc_time_wait s : s = FIN_WAIT_1 ∨ s = FIN_WAIT_2 ∨ s = CLOSING → arc (Some s) (Some TIME_WAIT)
| arc_done s : s = LAST_ACK ∨ s = TIME_WAIT ∨ s = CLOSED ∨ s = SYN_SENT → arc (Some s) None.

(** No block changes its state; every block stays or takes one arc. *)
Definition quiet (st st' : tcp_state) : Prop := ∀ j, conn st' j = conn st j.
Definition moves (st st' : tcp_state) : Prop := ∀ j, conn st' j = conn st j ∨ arc (conn st j) (conn st' j).

Lemma quiet_refl st : quiet st st.
Proof. done. Qed.

Lemma quiet_moves st st' : quiet st st' → moves st st'.
Proof. intros Hq j. by left. Qed.

Lemma quiet_trans st st' st'' : quiet st st' → quiet st' st'' → quiet st st''.
Proof. intros H1 H2 j. by rewrite H2. Qed.

Lemma moves_quiet st st' st'' : moves st st' → quiet st' st'' → moves st st''.
Proof. intros H1 H2 j. rewrite H2. apply H1. Qed.

Lemma quiet_first st st' st'' : quiet st st' → moves st' st'' → moves st st''.
Proof. intros H1 H2 j. rewrite <-(H1 j). apply H2. Qed.

Lemma quiet_upd i f st : (∀ t, in_use (f t) = in_use t ∧ state (f t) = state t) → quiet st (upd_tcb i f st).
Proof.
  intros Hf j. unfold conn. rewrite tcb_at_upd. destruct (decide (i = j)) as [->|]; [|done]. by destruct (Hf (tcb_at st j)) as [-> ->].
Qed.

Lemma quiet_tcount f st : quiet st (tcount f st).
Proof. done. Qed.

Lemma moves_upd i f st : arc (conn st i) (conn (upd_tcb i f st) i) → moves st (upd_tcb i f st).
Proof.
  intros Ha j. destruct (decide (i = j)) as [->|Hij]; [by right|]. left. unfold conn. by rewrite tcb_at_upd_ne.
Qed.

Lemma conn_state st i s : conn st i = Some s ↔ in_use (tcb_at st i) = true ∧ state (tcb_at st i) = s.
Proof. unfold conn. destruct (in_use _); naive_solver. Qed.

Lemma moves_set_state i s s' st : conn st i = Some s → arc (Some s) (Some s') → moves st (set_state i s' st).
Proof.
  intros Hc Ha. apply moves_upd. rewrite Hc. unfold conn. rewrite tcb_at_upd_eq. cbn.
  apply conn_state in Hc as [-> _]. done.
Qed.

#[local] Hint Resolve quiet_refl quiet_tcount : core.

Section machine.
Context {H : Type} `{KernelHeap H}.

(** Updates that leave the states alone. *)
Ltac quietly :=
  repeat first [eassumption | apply quiet_refl | apply quiet_tcount
               | eapply quiet_trans, quiet_upd; [|by intros] | eapply quiet_trans, quiet_tcount ].

(** The outcomes of a handler. *)
Ltac run := repeat first [next_bind | case_match]; try done.

Lemma send_quiet i flags data now st (e : kenv H) r st' e' :
  tcp_send_segment i flags data now st e = Some (r, st', e') → quiet st st'.
Proof. unfold tcp_send_segment. run; intros [= <- <- <-]; quietly. Qed.

Lemma release_moves i s st (e : kenv H) : conn st i = Some s → arc (Some s) None → moves st (release i st e).1.
Proof.
  intros Hc Ha. unfold release. cbn [fst]. eapply moves_quiet; [|apply quiet_tcount]. apply moves_upd. rewrite Hc.
  unfold conn. by rewrite tcb_at_upd_eq.
Qed.

Lemma alloc_tcb_conn st j st1 : tcp_alloc_tcb st = (Some j, st1) →
  conn st j = None ∧ conn st1 j = Some CLOSED ∧ ∀ k, k ≠ j → tcb_at st1 k = tcb_at st k.
Proof.
  unfold tcp_alloc_tcb. destruct (find_up _ _ _) as [k|] eqn:E; [|done]. intros [= -> <-].
  apply find_up_Some in E as (_ & Hf & _). unfold conn. apply negb_true_iff in Hf. rewrite Hf, tcb_at_upd_eq.
  split; [done|]. split; [done|]. intros k Hk. by rewrite tcb_at_upd_ne.
Qed.

Lemma alloc_tcb_full st st1 : tcp_alloc_tcb st = (None, st1) → st1 = st.
Proof. unfold tcp_alloc_tcb. destruct (find_up _ _ _); [done|]. by intros [= <-]. Qed.

Lemma alloc_buffers_conn j st (e : kenv H) ok st1 e1 : alloc_buffers j st e = Some (ok, st1, e1) →
  (∀ k, k ≠ j → tcb_at st1 k = tcb_at st k) ∧
  (if ok then quiet st st1 else conn st1 j = None).
Proof.
  unfold alloc_buffers. next_bind. destruct p as [rb h]. next_bind. destruct p as [sb h']. destruct (_ || _); intros [= <- <- <-].
  - split; [intros k Hk; by rewrite !tcb_at_upd_ne|]. unfold conn. by rewrite tcb_at_upd_eq.
  - split; [intros k Hk; by rewrite !tcb_at_upd_ne|]. quietly.
Qed.

(** Block [j] alone changes. *)
Lemma moves_at j st st' : (∀ k, k ≠ j → tcb_at st' k = tcb_at st k) →
  conn st' j = conn st j ∨ arc (conn st j) (conn st' j) → moves st st'.
Proof.
  intros Hfr Hj k. destruct (decide (k = j)) as [->|Hk]; [done|]. left. unfold conn. by rewrite Hfr.
Qed.

Lemma tcp_socket_moves st (e : kenv H) r st' e' : tcp_socket st e = Some (r, st', e') → moves st st'.
Proof.
  unfold tcp_socket. destruct (tcp_alloc_tcb st) as [[j|] st1] eqn:E.
  2: { intros [= <- <- <-]. rewrite (alloc_tcb_full _ _ E). by apply quiet_moves. }
  apply alloc_tcb_conn in E as (Hnone & Hnew & Hfr). next_bind. destruct p as [[ok st2] e2]. intros [= <- <- <-].
  apply alloc_buffers_conn in E as [Hfr2 Hok]. apply (moves_at j); [intros k Hk; by rewrite Hfr2, Hfr|].
  rewrite Hnone. destruct ok; [right; rewrite Hok, Hnew; constructor|by left].
Qed.

Lemma rcv_listen_moves l sg now st (e : kenv H) st' e' : rcv_listen l sg now st e = Some (st', e') → moves st st'.
Proof.
  unfold rcv_listen. case_match; [intros [= <- <-]; by apply quiet_moves|].
  destruct (tcp_alloc_tcb st) as [[j|] st1] eqn:E.
  2: { intros [= <- <-]. rewrite (alloc_tcb_full _ _ E). by apply quiet_moves. }
  apply alloc_tcb_conn in E as (Hnone & Hnew & Hfr). next_bind. destruct p as [[ok st2] e2].
  apply alloc_buffers_conn in E as [Hfr2 Hok]. destruct ok; cbn [negb].
  2: { intros [= <- <-]. apply (moves_at j); [intros k Hk; by rewrite Hfr2, Hfr|]. left. by rewrite Hok, Hnone. }
  unfold tcp_generate_iss. next_bind. destruct p as [[r st3] e3]. apply send_quiet in E. intros Heq%Some_inj%(f_equal fst).
  cbn [fst] in Heq. subst st'. apply (moves_quiet _ st3); [|destruct (_ <? _); quietly]. eapply moves_quiet; [|exact E].
  apply (moves_at j).
  - intros k Hk. rewrite !tcb_at_upd_ne, tcb_at_iss, !tcb_at_upd_ne by done. by rewrite Hfr2, Hfr.
  - right. rewrite Hnone. unfold conn. autorewrite with tcp. specialize (Hok j). rewrite Hnew in Hok.
    apply conn_state in Hok as [Hu _]. cbn. rewrite Hu. constructor.
Qed.
Lemma rcv_syn_sent_moves i sg now st (e : kenv H) st' e' :
  conn st i = Some SYN_SENT → rcv_syn_sent i sg now st e = Some (st', e') → moves st st'.
Proof.
  intros Hc. unfold rcv_syn_sent. case_match.
  { next_bind. intros [= <- <-]. by apply quiet_moves. }
  case_match; [intros [= <- <-]; eapply moves_set_state; [done|constructor; auto]|].
  case_match; [|intros [= <- <-]; by apply quiet_moves].
  set (st1 := upd_tcb i _ st). set (st2 := if has TCP_FLAG_ACK sg then _ else st1).
  assert (quiet st st2) as Hq by (unfold st2, st1; destruct (has TCP_FLAG_ACK sg); quietly). clearbody st2. clear st1.
  case_match; next_bind; destruct p as [[r st3] e3]; apply send_quiet in E; intros [= <- <-];
    (eapply quiet_first; [exact Hq|]); (eapply moves_quiet; [|exact E]);
    (eapply moves_set_state; [rewrite Hq; exact Hc|constructor]).
Qed.

Lemma rcv_syn_received_moves i sg st (e : kenv H) st' e' :
  conn st i = Some SYN_RECEIVED → rcv_syn_received i sg st e = Some (st', e') → moves st st'.
Proof.
  intros Hc. unfold rcv_syn_received. case_match; [intros [= <- <-]; eapply moves_set_state; [done|constructor; auto]|].
  case_match; intros [= <- <-]; [|by apply quiet_moves]. apply moves_upd. rewrite Hc. unfold conn. rewrite tcb_at_upd_eq. cbn.
  apply conn_state in Hc as [-> _]. constructor.
Qed.

Lemma rcv_data_quiet i sg now st (e : kenv H) st' e' : rcv_data i sg now st e = Some (st', e') → quiet st st'.
Proof.
  unfold rcv_data. case_match; [|intros [= <- <-]; quietly]. next_bind. destruct (ring_write _ _ _ _) as [tail m]. next_bind. destruct p as [[r st3] e3].
  apply send_quiet in E0. intros [= <- <-]. eapply quiet_trans; [|exact E0]. quietly.
Qed.

(** A FIN is acknowledged and the state changes. *)
Lemma fin_moves i f s s' now st (e : kenv H) r st' e' :
  conn st i = Some s → arc (Some s) (Some s') → (∀ t, in_use (f t) = in_use t ∧ state (f t) = s') →
  tcp_send_segment i TCP_FLAG_ACK [] now (upd_tcb i f st) e = Some (r, st', e') → moves st st'.
Proof.
  intros Hc Ha Hf E%send_quiet. eapply moves_quiet; [|exact E]. apply moves_upd. rewrite Hc.
  unfold conn. rewrite tcb_at_upd_eq. destruct (Hf (tcb_at st i)) as [-> ->]. apply conn_state in Hc as [-> _]. done.
Qed.

Lemma rcv_established_moves i sg now st (e : kenv H) st' e' :
  conn st i = Some ESTABLISHED → rcv_established i sg now st e = Some (st', e') → moves st st'.
Proof.
  intros Hc. unfold rcv_established. case_match; [intros [= <- <-]; eapply moves_set_state; [done|constructor; auto]|].
  set (st1 := if _ && _ then _ else st).
  assert (quiet st st1) as Hq by (unfold st1; destruct (_ && _); quietly). clearbody st1.
  next_bind. destruct p as [st2 e2]. apply rcv_data_quiet in E. pose proof (quiet_trans _ _ _ Hq E) as Hq2.
  case_match; [|intros [= <- <-]; by apply quiet_moves]. next_bind. destruct p as [[r st3] e3]. intros [= <- <-].
  eapply quiet_first; [exact Hq2|]. eapply (fin_moves i _ ESTABLISHED CLOSE_WAIT); [rewrite Hq2; exact Hc|constructor| |exact E0]. done.
Qed.

Lemma time_wait_moves i now s st : conn st i = Some s → s = FIN_WAIT_1 ∨ s = FIN_WAIT_2 ∨ s = CLOSING →
  moves st (enter_time_wait i now st).
Proof.
  intros Hc Hs. apply moves_upd. rewrite Hc. unfold conn. rewrite tcb_at_upd_eq. cbn.
  apply conn_state in Hc as [-> _]. by constructor.
Qed.

Lemma rcv_fin_wait_2_moves i sg now st (e : kenv H) st' e' :
  conn st i = Some FIN_WAIT_2 → rcv_fin_wait_2 i sg now st e = Some (st', e') → moves st st'.
Proof.
  intros Hc. unfold rcv_fin_wait_2. case_match; [|intros [= <- <-]; by apply quiet_moves].
  next_bind. destruct p as [[r st3] e3]. apply send_quiet in E. intros Heq%Some_inj%(f_equal fst). cbn [fst] in Heq. subst st'.
  assert (quiet st st3) as Hq by (eapply quiet_trans; [|exact E]; quietly).
  eapply quiet_first; [exact Hq|]. eapply time_wait_moves; [rewrite Hq; exact Hc|auto].
Qed.
Lemma conn_set_state i s st : in_use (tcb_at st i) = true → conn (set_state i s st) i = Some s.
Proof. intros Hu. unfold conn, set_state. rewrite tcb_at_upd_eq. cbn. by rewrite Hu. Qed.

Lemma conn_upd_ne i f st k : k ≠ i → conn (upd_tcb i f st) k = conn st k.
Proof. intros Hk. unfold conn. by rewrite tcb_at_upd_ne. Qed.

Lemma rcv_fin_wait_1_moves i sg now st (e : kenv H) st' e' :
  conn st i = Some FIN_WAIT_1 → rcv_fin_wait_1 i sg now st e = Some (st', e') → moves st st'.
Proof.
  intros Hc. pose proof (proj1 (conn_state _ _ _) Hc) as [Hu _]. unfold rcv_fin_wait_1.
  set (acked := has TCP_FLAG_ACK sg && _). set (st1 := if acked then _ else st).
  assert (conn st1 i = Some (if acked then FIN_WAIT_2 else FIN_WAIT_1) ∧ ∀ k, k ≠ i → conn st1 k = conn st k) as [Hc1 Hne1].
  { unfold st1. destruct acked; [|done]. split; [by apply conn_set_state|]. intros k Hk. by apply conn_upd_ne. }
  clearbody st1. destruct (has TCP_FLAG_FIN sg).
  - next_bind. destruct p as [[r st3] e3]. apply send_quiet in E. intros Heq%Some_inj%(f_equal fst). cbn [fst] in Heq. subst st'.
    assert (quiet st1 st3) as Hq by (eapply quiet_trans; [|exact E]; quietly). clear E.
    pose proof (Hq i) as Hi. rewrite Hc1 in Hi. apply conn_state in Hi as [Hu3 Hs3]. unfold state_is. rewrite Hs3.
    intros j. destruct (decide (j = i)) as [->|Hj].
    + right. rewrite Hc. destruct acked.
      * rewrite bool_decide_true by done. unfold enter_time_wait, conn. rewrite tcb_at_upd_eq. cbn. rewrite Hu3. constructor. auto.
      * rewrite bool_decide_false by done. rewrite conn_set_state by done. constructor.
    + left. destruct (bool_decide _); unfold enter_time_wait, set_state; rewrite conn_upd_ne, Hq by done; by apply Hne1.
  - intros [= <- <-]. intros j. destruct (decide (j = i)) as [->|Hj]; [|left; by apply Hne1].
    rewrite Hc, Hc1. destruct acked; [right; constructor|by left].
Qed.

Lemma tcp_input_moves i sg now st (e : kenv H) st' e' :
  in_use (tcb_at st i) = true → tcp_input i sg now st e = Some (st', e') → moves st st'.
Proof.
  intros Hu. unfold tcp_input. destruct (state (tcb_at st i)) eqn:Hs; pose proof (proj2 (conn_state st i _) (conj Hu Hs)) as Hc.
  - next_bind. intros [= <- <-]. by apply quiet_moves.
  - apply rcv_listen_moves.
  - by apply rcv_syn_sent_moves.
  - by apply rcv_syn_received_moves.
  - by apply rcv_established_moves.
  - by apply rcv_fin_wait_1_moves.
  - by apply rcv_fin_wait_2_moves.
  - intros [= <- <-]. by apply quiet_moves.
  - intros [= <- <-]. case_match; [eapply time_wait_moves; [done|auto]|by apply quiet_moves].
  - intros Heq%Some_inj%(f_equal fst). cbn [fst] in Heq. subst st'. case_match; [|by apply quiet_moves].
    eapply release_moves; [done|constructor; auto].
  - intros Heq%Some_inj%(f_equal fst). cbn [fst] in Heq. subst st'. case_match; [|by apply quiet_moves].
    eapply release_moves; [done|constructor; auto].
Qed.

Lemma found_in_use lip lport rip rport st i : tcp_find_connection lip lport rip rport st = Some i → in_use (tcb_at st i) = true.
Proof.
  unfold tcp_find_connection. destruct (find_up _ _ _) eqn:E.
  - intros [= ->]. apply find_up_Some in E as (_ & Ht & _). by apply connects_test in Ht as [].
  - clear E. intros (_ & Ht & _)%find_up_Some. by apply listens_test in Ht as [].
Qed.

Lemma tcp_receive_moves src_ip dest_ip packet length now st (e : kenv H) r st' e' :
  tcp_receive src_ip dest_ip packet length now st e = Some (r, st', e') → moves st st'.
Proof.
  unfold tcp_receive. destruct packet as [packet|]; [|intros [= <- <- <-]; apply quiet_moves; quietly].
  case_match; [intros [= <- <- <-]; apply quiet_moves; quietly|]. do 2 next_bind.
  case_match; [intros [= <- <- <-]; apply quiet_moves; quietly|].
  destruct (tcp_find_connection _ _ _ _ _) as [i|] eqn:Ef; next_bind.
  - destruct p as [st2 e2]. intros [= <- <- <-]. eapply quiet_first; [apply quiet_tcount|].
    eapply tcp_input_moves; [|exact E1]. exact (found_in_use _ _ _ _ _ _ Ef).
  - intros [= <- <- <-]. apply quiet_moves. quietly.
Qed.
Lemma alloc_port_quiet st p st' : tcp_alloc_port st = Some (p, st') → quiet st st'.
Proof. unfold tcp_alloc_port. next_bind. destruct p0 as [port next]. by intros [= <- <-]. Qed.

Lemma tcp_bind_quiet i port st (e : kenv H) r st' : tcp_bind i port st e = Some (r, st') → quiet st st'.
Proof.
  unfold tcp_bind. case_match; [by intros [= <- <-]|]. case_match; [by intros [= <- <-]|].
  destruct (find_up _ _ _); [by intros [= <- <-]|]. next_bind. destruct p as [p st2]. intros [= <- <-].
  eapply quiet_trans, quiet_upd; [|done]. destruct (negb (port =? 0)).
  - injection E as <- <-. quietly.
  - apply alloc_port_quiet in E. eapply quiet_trans; [|exact E]. quietly.
Qed.

Lemma in_use_state i s st : negb (in_use (tcb_at st i)) || negb (state_is (tcb_at st i) s) = false → conn st i = Some s.
Proof.
  unfold state_is. intros [Hu Hs]%orb_false_iff. apply negb_false_iff in Hu, Hs. apply conn_state. by rewrite bool_decide_eq_true in Hs.
Qed.

Lemma tcp_listen_moves i n st : moves st (tcp_listen i n st).2.
Proof.
  unfold tcp_listen. case_match; [by apply quiet_moves|]. destruct (_ || _) eqn:Hc; [by apply quiet_moves|].
  apply in_use_state in Hc. case_match; [by apply quiet_moves|]. cbn [snd]. apply moves_upd. rewrite Hc.
  unfold conn. rewrite tcb_at_upd_eq. cbn. apply conn_state in Hc as [-> _]. constructor.
Qed.

Lemma tcp_accept_quiet i st : quiet st (tcp_accept i st).2.
Proof. unfold tcp_accept. repeat case_match; cbn [snd]; quietly. Qed.

Lemma tcp_connect_start_moves i rip rport now st (e : kenv H) r st' e' :
  tcp_connect_start i rip rport now st e = Some (r, st', e') → moves st st'.
Proof.
  unfold tcp_connect_start. case_match; [intros [= <- <- <-]; by apply quiet_moves|].
  destruct (_ || _) eqn:Hc; [intros [= <- <- <-]; by apply quiet_moves|]. apply in_use_state in Hc.
  next_bind. rename t into st1. assert (quiet st st1) as Hq.
  { destruct (local_port (tcb_at st i) =? 0); [|by injection E as <-].
    revert E. next_bind. destruct p as [p st2]. intros [= <-]. apply alloc_port_quiet in E.
    eapply quiet_trans, quiet_upd; [|done]. eapply quiet_trans; [|exact E]. quietly. }
  unfold tcp_generate_iss. next_bind. destruct p as [[r' st3] e3]. apply send_quiet in E0. intros [= <- <- <-].
  eapply moves_quiet; [|apply quiet_tcount]. eapply moves_quiet; [|exact E0]. eapply quiet_first; [exact Hq|].
  specialize (Hq i). rewrite Hc in Hq. intros j. destruct (decide (j = i)) as [->|Hj].
  - right. rewrite Hq. unfold conn. autorewrite with tcp. cbn. apply conn_state in Hq as [-> _]. constructor.
  - left. rewrite conn_upd_ne by done. change (conn (upd_tcb i (fun t => t⟦remote_ip := rip⟧⟦remote_port := rport⟧) st1) j = conn st1 j).
    by apply conn_upd_ne.
Qed.

Lemma send_segments_quiet fuel i now st (e : kenv H) st' e' : send_segments fuel i now st e = Some (st', e') → quiet st st'.
Proof.
  revert st e. induction fuel as [|fuel IH]; intros st e; cbn [send_segments].
  { case_match; [done|]. by intros [= <- <-]. }
  case_match; [|by intros [= <- <-]]. destruct (ring_read _ _ _ _) as [seg head]. next_bind. destruct p as [[r st2] e2].
  apply send_quiet in E. intros Hq%IH. eapply quiet_trans; [|exact Hq]. eapply quiet_trans; [|exact E]. quietly.
Qed.

Lemma tcp_write_quiet i data n now st (e : kenv H) r st' e' : tcp_write i data n now st e = Some (r, st', e') → quiet st st'.
Proof.
  unfold tcp_write. case_match; [by intros [= <- <- <-]|]. destruct data as [data|]; [|by intros [= <- <- <-]].
  do 2 (case_match; [by intros [= <- <- <-]|]). next_bind. destruct (ring_write _ _ _ _) as [tail m].
  next_bind. destruct p as [st2 e2]. apply send_segments_quiet in E0. intros [= <- <- <-].
  eapply quiet_trans; [|exact E0]. quietly.
Qed.

Lemma tcp_read_quiet i buffer n st : quiet st (tcp_read i buffer n st).2.
Proof. unfold tcp_read. repeat case_match; cbn [snd]; quietly. Qed.

Lemma conn_released i f st j :
  conn (tcount f (upd_tcb i (fun _ => zero) st)) j = if decide (j = i) then None else conn st j.
Proof.
  unfold conn. rewrite tcb_at_tcount, tcb_at_upd.
  destruct (decide (i = j)) as [->|]; [by rewrite decide_True|by rewrite decide_False].
Qed.

(** Where closing takes a connection. *)
Definition close_next (s : tcp_conn_state) : tcp_conn_state :=
  match s with
  | SYN_SENT => CLOSED
  | SYN_RECEIVED | ESTABLISHED => FIN_WAIT_1
  | CLOSE_WAIT => LAST_ACK
  | s => s
  end.

Lemma fin_conn i s s' now st (e : kenv H) st' e' : conn st i = Some s →
  ('(_, st, e) ← tcp_send_segment i (TCP_FLAG_FIN |: TCP_FLAG_ACK) [] now st e; Some (set_state i s' st, e)) = Some (st', e') →
  conn st' i = Some s' ∧ ∀ k, k ≠ i → conn st' k = conn st k.
Proof.
  intros Hc. next_bind. destruct p as [[r st2] e2]. apply send_quiet in E. intros Heq%Some_inj%(f_equal fst).
  cbn [fst] in Heq. subst st'. rewrite <-(E i) in Hc. apply conn_state in Hc as [Hu _].
  split; [by apply conn_set_state|]. intros k Hk. unfold set_state. rewrite conn_upd_ne by done. apply E.
Qed.

Lemma tcp_close_moves i now st (e : kenv H) r st' e' : tcp_close_socket i now st e = Some (r, st', e') → moves st st'.
Proof.
  unfold tcp_close_socket. case_match; [intros [= <- <- <-]; by apply quiet_moves|].
  destruct (in_use (tcb_at st i)) eqn:Hu; cbn [negb]; [|intros [= <- <- <-]; by apply quiet_moves].
  next_bind. destruct p as [st1 e1]. destruct (state (tcb_at st i)) as [] eqn:Hs;
  pose proof (proj2 (conn_state st i _) (conj Hu Hs)) as Hc;
  match type of Hc with _ = Some ?s =>
    assert (conn st1 i = Some (close_next s) ∧ ∀ k, k ≠ i → conn st1 k = conn st k) as [Hc1 Hne] end;
  try (injection E as <- <-; done);
  try (by apply (fin_conn _ _ _ _ _ _ _ _ Hc) in E);
  try (injection E as <- <-; split; [by apply conn_set_state|intros k Hk; by apply conn_upd_ne]);
  clear E Hs; unfold state_is; pose proof (proj1 (conn_state _ _ _) Hc1) as [Hu1 ->]; cbn [close_next] in *;
  case_bool_decide; try done; intros [= <- <- <-].
  all: intros j; rewrite ?conn_released; destruct (decide (j = i)) as [->|Hj]; [|left; by apply Hne].
  all: rewrite Hc, ?Hc1; first [by left | right; constructor; auto].
Qed.

(** A step of the connection table: a system call or a segment that arrives.
    [tcp_connect] is its start, the segments of its rounds, and its timeout. *)
Inductive tcp_step : tcp_state * kenv H → tcp_state * kenv H → Prop :=
| step_socket st e r st' e' : tcp_socket st e = Some (r, st', e') → tcp_step (st, e) (st', e')
| step_bind st e i port r st' : tcp_bind i port st e = Some (r, st') → tcp_step (st, e) (st', e)
| step_listen st e i n : tcp_step (st, e) ((tcp_listen i n st).2, e)
| step_accept st e i : tcp_step (st, e) ((tcp_accept i st).2, e)
| step_connect st e i rip rport now r st' e' :
    tcp_connect_start i rip rport now st e = Some (r, st', e') → tcp_step (st, e) (st', e')
| step_timeout st e i : conn st i = Some SYN_SENT → tcp_step (st, e) (set_state i CLOSED st, e)
| step_write st e i data n now r st' e' : tcp_write i data n now st e = Some (r, st', e') → tcp_step (st, e) (st', e')
| step_read st e i buffer n : tcp_step (st, e) ((tcp_read i buffer n st).2, e)
| step_close st e i now r st' e' : tcp_close_socket i now st e = Some (r, st', e') → tcp_step (st, e) (st', e')
| step_receive st e src dst packet n now r st' e' :
    tcp_receive src dst packet n now st e = Some (r, st', e') → tcp_step (st, e) (st', e').

(** C31: The connection table follows the state diagram: whatever call is made or
    segment arrives, each connection stays in its state or takes one arc of the
    diagram. *)
Theorem tcp_follows_diagram s s' : tcp_step s s' → moves s.1 s'.1.
Proof.
  destruct 1; cbn [fst].
  - by eapply tcp_socket_moves.
  - apply quiet_moves. by eapply tcp_bind_quiet.
  - apply tcp_listen_moves.
  - apply quiet_moves, tcp_accept_quiet.
  - by eapply tcp_connect_start_moves.
  - eapply moves_set_state; [done|constructor; auto].
  - apply quiet_moves. by eapply tcp_write_quiet.
  - apply quiet_moves, tcp_read_quiet.
  - by eapply tcp_close_moves.
  - by eapply tcp_receive_moves.
Qed.
End machine.

Lemma tcp_follows_diagram_witness :
  (conn client_demo 0 = Some CLOSED ∧ conn (tcp_listen 0 4 client_demo).2 0 = Some LISTEN) ∧
  (conn (tcp_listen 0 4 client_demo).2 0 = conn client_demo 0 ∨
   arc (conn client_demo 0) (conn (tcp_listen 0 4 client_demo).2 0)).
Proof.
  split; [split; reflexivity|].
  exact (tcp_follows_diagram _ _ (step_listen client_demo (tcp_host_demo 0x0A000002) 0 4) 0).
Defined.

(** ** Deviations *)

(** Once [tcp_read] has emptied the receive buffer, every segment announces a
    window of 0: the window is 65536, which the 16-bit field cannot hold. *)
Theorem tcp_drained_window i n st flags now {H} `{KernelHeap H} (e : kenv H) :
  let t := tcb_at st i in
  is_fd i → in_use t = true → state t = ESTABLISHED → rx_ok t → wire_ok t → is_byte flags →
  Z.of_nat (length (rx t)) ≤ n → 0 < n < 65536 → tcpip_initialized (knet e) = true → serves 1 (kheap e) →
  ∃ st1 c st2 e', (tcp_read i true n st).2 = st1 ∧ tcp_send_segment i flags [] now st1 e = Some (0, st2, e') ∧
    emitted (remote_ip t) IP_PROTO_TCP (tcp_wire (local_port t) (remote_port t) (snd_nxt t) (rcv_nxt t) flags 0 c [])
      (knet e) (knet e').
Proof.
  cbv zeta. intros Hi Hu Hs Hrx [] Hf Hn Hn' Hnet Hk.
  destruct (tcp_read_ok i n st) as (st1 & Hread & Hrx1 & Hok & Hside & Hnx & Hwnd & _); [done..|].
  rewrite drop_ge in Hrx1 by lia. rewrite Hrx1 in Hwnd. cbn in Hwnd.
  unfold sender_side in Hside. injection Hside as E1 E2 E3 E4 E5 E6 E7 E8.
  destruct (tcp_send_segment_ok i flags [] now st1 e 0) as (c & st2 & e' & Hsend & _ & Hem & _);
    [done|split; congruence|done|constructor|done|done|].
  exists st1, c, st2, e'. rewrite Hread. split; [done|]. split; [done|].
  rewrite E4, E5, E6, E8, Hnx, Hwnd in Hem. exact Hem.
Qed.

(** Closing a listening socket leaves it listening. *)
Theorem tcp_close_listening i now st {H} `{KernelHeap H} (e : kenv H) :
  is_fd i → in_use (tcb_at st i) = true → state (tcb_at st i) = LISTEN → tcp_close_socket i now st e = Some (0, st, e).
Proof.
  intros Hi Hu Hs. unfold tcp_close_socket, bad_fd. unfold is_fd in Hi. case_Z (i <? 0); [lia|].
  case_Z (TCP_MAX_CONNECTIONS <=? i); [lia|]. cbn [orb]. rewrite Hu, Hs. cbn [negb mbind option_bind]. unfold state_is.
  by rewrite Hs.
Qed.
