(* ===== verification/Ip.v ===== *)
(** * The IP layer and the host (kernel/tcpip.c)

    Initialisation of the stack, the entry point for frames, and the receive
    handler that checks the header and hands the payload to ICMP, TCP or UDP.  A
    [host] is the state of the whole stack: the interface and the kernel heap,
    the protocols, and the ARP cache.

    A packet argument of the code is a pointer and a length, here the bytes from
    the pointer on and the length; [None] is the null pointer. *)

From S2P Require Import Prelude Bytes KHeap Net Icmp Arp Udp Tcp.

Definition ETHERTYPE_IPV4 : Z := 0x0800.
(** [sizeof(eth_frame_t)]: the two addresses, the type and 1500 bytes. *)
Definition ETH_FRAME_SIZE : Z := 1514.
Definition ETH_HEADER_SIZE : Z := 14.

Record host (H : Type) := mk_host {
  h_env : kenv H;
  h_arp : arp_state;
  h_icmp : icmp_state;
  h_udp : udp_state;
  h_tcp : tcp_state;
}.
Arguments mk_host {H} _ _ _ _ _.
Arguments h_env {H} _.
Arguments h_arp {H} _.
Arguments h_icmp {H} _.
Arguments h_udp {H} _.
Arguments h_tcp {H} _.
#[export] Instance eta_host {H} : Eta (host H) := fun h => mk_host (h_env h) (h_arp h) (h_icmp h) (h_udp h) (h_tcp h).

Definition host_boot {H} (heap : H) : host H := mk_host (mk_kenv net_boot heap) arp_boot icmp_boot udp_boot tcp_boot.

Section ip.
Context {H : Type} `{KernelHeap H}.

(** The static variable [net_iface]. *)
Definition iface (h : host H) : net_interface := net_iface (knet (h_env h)).

(** [mac] is what the driver reports. *)
Definition tcpip_init (mac : list Z) (h : host H) : Z * host H :=
  if tcpip_initialized (knet (h_env h)) then (0, h)
  else
    let h := h⟦h_arp ::= arp_init mac⟧⟦h_tcp ::= tcp_init⟧⟦h_udp ::= udp_init⟧ in
    let clear i := i⟦ip_addr := 0⟧⟦netmask := 0⟧⟦gateway := 0⟧⟦up := 0⟧ in
    (0, h⟦h_env ::= fun e => e⟦knet ::= fun s => s⟦net_iface ::= clear⟧⟦tcpip_initialized := true⟧⟧⟧).

(** [switch (header->protocol)] *)
Definition ip_dispatch (protocol src_ip dst_ip : Z) (payload : list Z) (payload_length now : Z) (h : host H)
    : option (Z * host H) :=
  if protocol =? IP_PROTO_ICMP then
    '(r, st, e) ← icmp_receive src_ip (Some payload) payload_length (h_icmp h) (h_env h);
    Some (r, h⟦h_icmp := st⟧⟦h_env := e⟧)
  else if protocol =? IP_PROTO_TCP then
    '(r, st, e) ← tcp_receive src_ip dst_ip (Some payload) payload_length now (h_tcp h) (h_env h);
    Some (r, h⟦h_tcp := st⟧⟦h_env := e⟧)
  else if protocol =? IP_PROTO_UDP then
    '(r, st, e) ← udp_receive src_ip dst_ip (Some payload) payload_length (h_udp h) (h_env h);
    Some (r, h⟦h_udp := st⟧⟦h_env := e⟧)
  else Some (0, h).

Definition ip_receive (packet : option (list Z)) (length now : Z) (h : host H) : option (Z * host H) :=
  match packet with
  | None => Some (-1, h)
  | Some packet =>
      if length <? IP_HEADER_SIZE then Some (-1, h)
      else
        checksum ← ip_checksum packet IP_HEADER_SIZE;
        if negb (checksum =? 0) then Some (-1, h)
        else
          dest_ip ← le32 packet 16;
          if negb (ntohl dest_ip =? ip_addr (iface h)) then Some (-1, h)
          else
            total_length ← le16 packet 2; src_ip ← le32 packet 12; protocol ← byte_at packet 9;
            let payload := drop (Z.to_nat IP_HEADER_SIZE) packet in
            let payload_length := u16 (ntohs total_length - IP_HEADER_SIZE) in
            ip_dispatch protocol (ntohl src_ip) (ntohl dest_ip) payload payload_length now h
  end.

Definition tcpip_process_packet (data : option (list Z)) (length now : Z) (h : host H) : option (Z * host H) :=
  if negb (tcpip_initialized (knet (h_env h))) then Some (-1, h)
  else
    match data with
    | None => Some (-1, h)
    | Some data =>
        if length <? ETH_FRAME_SIZE then Some (-1, h)
        else
          ethertype ← le16 data 12;
          if ntohs ethertype =? ETHERTYPE_IPV4
          then ip_receive (Some (drop (Z.to_nat ETH_HEADER_SIZE) data)) (u16 (length - ETH_HEADER_SIZE)) now h
          else Some (0, h)
    end.
End ip.

(** * Properties *)

Section proofs.
Context {H : Type} `{KernelHeap H}.

Definition is_ip (x : Z) : Prop := 0 ≤ x < 2 ^ 32.

(** The fields of a header that [ip_send] has built, read by the receiver. *)
Lemma ip_header_fields src_ip dest_ip protocol length c payload :
  is_ip src_ip → is_ip dest_ip → 0 ≤ length ≤ 65515 →
  let p := ip_header src_ip dest_ip protocol length c ++ payload in
  le32 p 16 = Some (htonl dest_ip) ∧ le16 p 2 = Some (htons (20 + length)) ∧ le32 p 12 = Some (htonl src_ip) ∧
  byte_at p 9 = Some protocol ∧ drop (Z.to_nat IP_HEADER_SIZE) p = payload.
Proof.
  intros Hs Hd Hl. cbv zeta. set (p := _ ++ payload).
  change (le32 p 16) with (le32 (put32 (htonl dest_ip)) 0). change (le32 p 12) with (le32 (put32 (htonl src_ip)) 0).
  change (le16 p 2) with (le16 (put16 (htons (u16 (IP_HEADER_SIZE + length)))) 0).
  rewrite !le32_put32, le16_put16, !u32_small, u16_small by (apply htonl_range || apply htons_range).
  unfold IP_HEADER_SIZE. rewrite u16_small by lia. done.
Qed.

(** Accepting a packet of [ip_send]. *)
Lemma ip_receive_sent src_ip dest_ip protocol length c payload n now (h : host H) :
  is_ip src_ip → is_ip dest_ip → 0 ≤ length ≤ 65515 → IP_HEADER_SIZE ≤ n →
  ip_checksum (ip_header src_ip dest_ip protocol length c) IP_HEADER_SIZE = Some 0 →
  ip_receive (Some (ip_header src_ip dest_ip protocol length c ++ payload)) n now h =
    if dest_ip =? ip_addr (iface h) then ip_dispatch protocol src_ip dest_ip payload length now h else Some (-1, h).
Proof.
  intros Hs Hd Hl Hn Hc. unfold ip_receive. case_Z (n <? IP_HEADER_SIZE); [lia|].
  assert (ip_checksum (ip_header src_ip dest_ip protocol length c ++ payload) IP_HEADER_SIZE = Some 0) as ->
    by (rewrite <-Hc; apply (checksum_from_app 0 (ip_header src_ip dest_ip protocol length c) payload)).
  destruct (ip_header_fields src_ip dest_ip protocol length c payload Hs Hd Hl) as (E1 & E2 & E3 & E4 & E5).
  rewrite E1, E2, E3, E4, E5. cbn [mbind option_bind Z.eqb negb]. unfold ntohl, ntohs.
  rewrite !htonl_involutive by done. rewrite htons_involutive by lia.
  replace (u16 (20 + length - IP_HEADER_SIZE)) with length by (unfold IP_HEADER_SIZE; rewrite u16_small; lia).
  by destruct (dest_ip =? ip_addr (iface h)).
Qed.


Lemma ip_receive_corrupt hdr payload i a b n now (h : host H) :
  packet hdr → length hdr = 20%nat → ip_checksum hdr IP_HEADER_SIZE = Some 0 → hdr !! i = Some a → is_byte b → b ≠ a →
  ip_receive (Some (<[i := b]> hdr ++ payload)) n now h = Some (-1, h).
Proof.
  intros Hpk Hlen Hc Ha Hb Hne. unfold ip_receive. destruct (n <? IP_HEADER_SIZE); [done|].
  assert (IP_HEADER_SIZE = Z.of_nat (length (<[i := b]> hdr))) as E by (by rewrite length_insert, Hlen).
  assert (IP_HEADER_SIZE = Z.of_nat (length hdr)) as E' by (by rewrite Hlen).
  assert (packet (<[i := b]> hdr)) as Hpk'.
  { destruct Hpk as [Hf Hn]. split; [by apply Forall_insert|by rewrite length_insert]. }
  rewrite E' in Hc. pose proof (checksum_detects 0 hdr i a b Hpk ltac:(lia) Ha Hb Hne Hc) as Hbad. rewrite <-E', E in Hbad.
  unfold ip_checksum. rewrite E, checksum_from_app. rewrite checksum_from_ok in * by (done || lia).
  cbn [mbind option_bind]. case_Z (65535 - ones16 (0 + wsum (<[i := b]> hdr)) =? 0); [|done].
  destruct Hbad. congruence.
Qed.

(** C36: A header in which one byte is wrong is refused, whatever byte it is. *)
Theorem ip_detects_corruption dest_ip protocol payload length s s' hdr i a b :
  tcpip_initialized s = true → is_byte protocol →
  ip_send dest_ip protocol (Some payload) length s = Some (0, s') → ip_out s' = (dest_ip, protocol, hdr, payload) :: ip_out s →
  hdr !! i = Some a → is_byte b → b ≠ a →
  ∀ n now (h : host H), ip_receive (Some (<[i := b]> hdr ++ payload)) n now h = Some (-1, h).
Proof.
  intros Hi Hp Hsend Hout Ha Hb Hne n now h. destruct (ip_send_ok dest_ip protocol payload length s Hi Hp) as (c & Hsend' & Hc).
  rewrite Hsend in Hsend'. apply Some_inj, (f_equal (fun x => ip_out x.2)) in Hsend'. cbn [snd] in Hsend'. rewrite Hout in Hsend'.
  apply (f_equal (fun x => head x)) in Hsend'. apply Some_inj in Hsend'. apply (f_equal (fun x => x.1.2)) in Hsend'. cbn [fst snd] in Hsend'.
  destruct (ip_header_packet (ip_addr (net_iface s)) dest_ip protocol length c Hp) as [Hpk Hlen]. rewrite <-Hsend' in *.
  by apply (ip_receive_corrupt hdr payload i a b).
Qed.
(** What a host has sent, as the destination receives it. *)
Lemma emitted_received dest_ip protocol pkt s s' :
  emitted dest_ip protocol pkt s s' → is_ip (ip_addr (net_iface s)) → is_ip dest_ip → Z.of_nat (length pkt) ≤ 65515 →
  ∃ hdr, ip_out s' = (dest_ip, protocol, hdr, pkt) :: ip_out s ∧ net_iface s' = net_iface s ∧
    ∀ n now (h : host H), IP_HEADER_SIZE ≤ n → ip_addr (iface h) = dest_ip →
      ip_receive (Some (hdr ++ pkt)) n now h =
      ip_dispatch protocol (ip_addr (net_iface s)) dest_ip pkt (Z.of_nat (length pkt)) now h.
Proof.
  intros (hdr & (c & -> & Hc) & ->) Hs Hd Hl. eexists. split; [done|]. split; [done|]. intros n now h Hn <-.
  rewrite ip_receive_sent by (done || lia). by rewrite Z.eqb_refl.
Qed.

Lemma length_echo_bytes type c id seq data : Z.of_nat (length (echo_bytes type c id seq data)) = 8 + Z.of_nat (length data).
Proof. unfold echo_bytes. rewrite !length_app. cbn. lia. Qed.

End proofs.

(** Two hosts with addresses 10.0.0.2 and 10.0.0.3. *)
Definition net_host (ip : Z) : host bump := (host_boot bump_demo)⟦h_env := host_demo ip⟧.



Lemma ip_detects_corruption_witness :
  ∃ hdr, hdr !! 8%nat = Some 64 ∧
    ip_receive (Some (<[8%nat := 63]> hdr ++ [1; 2])) 22 7 (net_host 0x0A000003) = Some (-1, net_host 0x0A000003).
Proof.
  destruct (ip_send 0x0A000003 200 (Some [1; 2]) 2 (knet (host_demo 0x0A000002))) as [[r s']|] eqn:E; [|by vm_compute in E].
  assert (r = 0) as -> by (vm_compute in E; congruence).
  assert (∃ hdr, ip_out s' = [(0x0A000003, 200, hdr, [1; 2])] ∧ hdr !! 8%nat = Some 64) as (hdr & Hout & H8)
    by (vm_compute in E; injection E as <-; eexists; split; [reflexivity|reflexivity]).
  exists hdr. split; [exact H8|].
  apply (ip_detects_corruption (H := bump) 0x0A000003 200 [1; 2] 2 (knet (host_demo 0x0A000002)) s' hdr 8 64 63);
    [reflexivity|by split|exact E|exact Hout|exact H8|by split|done].
Defined.
